(** * A virtualised list: model, change events, layout and rendering

    Shallow embedding of [src/vs/editor/browser/list/list.ts].  JavaScript
    numbers are taken to be integers ([Z]); arrays are lists; objects that are
    shared and mutated (surface nodes) live in a store indexed by handles. *)

From Stdlib Require Import ZArith List Bool Lia.
From Stdlib Require String.
Import ListNotations.
Local Open Scope Z_scope.

Set Implicit Arguments.

(** ** JavaScript array primitives *)

Abbreviation len l := (Z.of_nat (List.length l)).

(** [Array.prototype.slice] turns a relative index into an absolute one: a
    negative index counts from the end, and everything is clamped to
    [0 .. length]. *)
Definition relativeIndex (n i : Z) : Z :=
  if i <? 0 then Z.max (n + i) 0 else Z.min i n.

(** [a.slice(start, end)] *)
Definition slice {A} (a : list A) (start end_ : Z) : list A :=
  let k := relativeIndex (len a) start in
  let final := relativeIndex (len a) end_ in
  firstn (Z.to_nat (final - k)) (skipn (Z.to_nat k) a).

(** [a.slice(start)] *)
Definition sliceFrom {A} (a : list A) (start : Z) : list A :=
  skipn (Z.to_nat (relativeIndex (len a) start)) a.

(** [a[i]]: [None] stands for [undefined]. *)
Definition at_ {A} (a : list A) (i : Z) : option A :=
  if i <? 0 then None else nth_error a (Z.to_nat i).

(** [a.splice(start, deleteCount)], the array that is left. *)
Definition spliceOut {A} (a : list A) (start deleteCount : Z) : list A :=
  let k := relativeIndex (len a) start in
  let d := Z.min (Z.max deleteCount 0) (len a - k) in
  firstn (Z.to_nat k) a ++ skipn (Z.to_nat (k + d)) a.

(** [a.splice(start, 0, x)], the array that is left. *)
Definition spliceIn {A} (a : list A) (start : Z) (x : A) : list A :=
  let k := relativeIndex (len a) start in
  firstn (Z.to_nat k) a ++ x :: skipn (Z.to_nat k) a.

(** The integers [lo, lo+1, ..., hi] of a [for (i = lo; i <= hi; i++)] loop. *)
Definition fromTo (lo hi : Z) : list Z :=
  map (fun k => lo + Z.of_nat k) (seq 0 (Z.to_nat (hi - lo + 1))).

(** ** Completions: a call returns normally or throws *)

Inductive Error : Type := RangeError | TypeError | NotFoundError.

Inductive Completion (A : Type) : Type :=
| Normal (a : A)
| Throw (e : Error).
Arguments Normal {A} a.
Arguments Throw {A} e.

(** A computation over a mutable state [S].  A throw keeps the state reached
    so far: JavaScript does not undo the writes made before the exception. *)
Definition M (S A : Type) : Type := S -> Completion A * S.

Definition ret {S A} (a : A) : M S A := fun s => (Normal a, s).

Definition bind {S A B} (m : M S A) (k : A -> M S B) : M S B :=
  fun s => match m s with
           | (Normal a, s') => k a s'
           | (Throw e, s') => (Throw e, s')
           end.

Definition throw {S A} (e : Error) : M S A := fun s => (Throw e, s).
Definition get {S} : M S S := fun s => (Normal s, s).
Definition modify {S} (f : S -> S) : M S unit := fun s => (Normal tt, f s).

(** [for (x of xs) body(x)] *)
Fixpoint forEach {S A} (xs : list A) (body : A -> M S unit) : M S unit :=
  match xs with
  | [] => ret tt
  | x :: xs' => bind (body x) (fun _ => forEach xs' body)
  end.

(** ** The item model *)

(** [IListItem]: a height and the strings its [render] pushes. *)
Record IListItem : Type := {
  getHeight : Z;
  render : list String.string
}.

Record IViewModelItem : Type := {
  cachedHeight : Z;
  actual : IListItem
}.

Module ViewModelChangedEvent.
Record t : Type := new {
  versionId : Z;
  start : Z;
  deleteCnt : Z;
  inserted : list Z
}.
End ViewModelChangedEvent.

(** [_onDidChange] is the emitter of the model: its field holds the events
    fired so far, oldest first. *)
Record ViewModel : Type := {
  _items : list IViewModelItem;
  _versionId : Z;
  _onDidChange : list ViewModelChangedEvent.t
}.

Definition _toMyItems (inp : list IListItem) : list IViewModelItem :=
  map (fun i => {| cachedHeight := getHeight i; actual := i |}) inp.

Definition ViewModel_new (items : list IListItem) : ViewModel :=
  {| _items := _toMyItems items; _versionId := 1; _onDidChange := [] |}.

Definition getAllHeights (vm : ViewModel) : list Z :=
  map cachedHeight (_items vm).

(** [getHeightOf(index)]: reading [cachedHeight] of [undefined] is a
    [TypeError]. *)
Definition getHeightOf {S} (vm : ViewModel) (index : Z) : M S Z :=
  match at_ (_items vm) index with
  | Some it => ret (cachedHeight it)
  | None => throw TypeError
  end.

Definition splice (start deleteCnt : Z) (_items' : list IListItem)
  : M ViewModel unit :=
  fun vm =>
    let items := _toMyItems _items' in
    let versionId := _versionId vm + 1 in
    let before := slice (_items vm) 0 start in
    let after := sliceFrom (_items vm) (start + deleteCnt) in
    (Normal tt,
     {| _items := (before ++ items) ++ after;
        _versionId := versionId;
        _onDidChange :=
          _onDidChange vm ++
          [ViewModelChangedEvent.new versionId start deleteCnt
             (map cachedHeight items)] |}).

(** The events that the emitter fired between two states of the model. *)
Definition fired (before after : ViewModel) : list ViewModelChangedEvent.t :=
  skipn (length (_onDidChange before)) (_onDidChange after).

(** ** Decomposition of a change event *)

Module ListViewItemsChangedEvent.
Record t : Type := {
  versionId : Z;
  changedStart : Z;
  changed : list Z;
  insertStart : Z;
  inserted : list Z;
  deleteStart : Z;
  deleteCnt : Z
}.

Definition new (e : ViewModelChangedEvent.t) : t :=
  let changedStart := ViewModelChangedEvent.start e in
  let changed :=
    slice (ViewModelChangedEvent.inserted e) 0
      (Z.min (ViewModelChangedEvent.deleteCnt e)
             (len (ViewModelChangedEvent.inserted e))) in
  {| versionId := ViewModelChangedEvent.versionId e;
     changedStart := changedStart;
     changed := changed;
     insertStart := changedStart + len changed;
     inserted := sliceFrom (ViewModelChangedEvent.inserted e) (len changed);
     deleteStart := changedStart + len changed;
     deleteCnt := ViewModelChangedEvent.deleteCnt e - len changed |}.
End ListViewItemsChangedEvent.

(** ** The offset index *)

Module PrefixSumComputer.

(** Modelled from the spec: the class [PrefixSumComputer] of
    [vs/editor/common/viewModel/prefixSumComputer] is not part of this
    source tree.  The spec gives its contract: an ordered sequence of
    per-item sizes with a running total, point queries and range updates.
    The sequence of sizes is all the state the contract speaks of. *)
Record t : Type := new { values : list Z }.

(** Modelled from the spec: [count()]. *)
Definition getCount (p : t) : Z := len (values p).

(** Modelled from the spec: [valueAt(i)]; the spec leaves an index out of
    range open, the model answers [0] there. *)
Definition getValue (p : t) (i : Z) : Z :=
  match at_ (values p) i with Some v => v | None => 0 end.

(** Modelled from the spec: [accumulatedValueUpTo(i)], the sum of the
    sizes of the items [0 .. i]; it is [0] below the first item, which is
    how [getRenderData] obtains the top of item [0]. *)
Definition getAccumulatedValue (p : t) (i : Z) : Z :=
  fold_right Z.add 0 (firstn (Z.to_nat (i + 1)) (values p)).

(** Modelled from the spec: [totalValue()], the running total. *)
Definition getTotalValue (p : t) : Z := fold_right Z.add 0 (values p).

Record IPrefixSumIndexOfResult : Type := {
  index : Z;
  remainder : Z
}.

(** Modelled from the spec: [indexOfOffset(y) -> {index, remainder}], the
    index of the item containing offset [y] and the distance of [y] from the
    top of that item; an offset beyond the total clamps to the last item.
    [i] is the index of the head of [vs]. *)
Fixpoint indexOfFrom (vs : list Z) (y i : Z) : IPrefixSumIndexOfResult :=
  match vs with
  | [] => {| index := i; remainder := y |}
  | v :: rest =>
      match rest with
      | [] => {| index := i; remainder := y |}
      | _ :: _ =>
          if y <? v then {| index := i; remainder := y |}
          else indexOfFrom rest (y - v) (i + 1)
      end
  end.

Definition getIndexOf (p : t) (accumulatedValue : Z)
  : IPrefixSumIndexOfResult :=
  indexOfFrom (values p) accumulatedValue 0.

(** Modelled from the spec: [replaceRange(start, newValues)] replaces the
    run of [|newValues|] sizes that begins at [start]. *)
Definition changeValues (start : Z) (newValues : list Z) (p : t) : t :=
  new (firstn (Z.to_nat start) (values p) ++ newValues
       ++ skipn (Z.to_nat (start + len newValues)) (values p)).

(** Modelled from the spec: [removeRange(start, count)]. *)
Definition removeValues (start cnt : Z) (p : t) : t :=
  new (firstn (Z.to_nat start) (values p)
       ++ skipn (Z.to_nat (start + cnt)) (values p)).

(** Modelled from the spec: [insertRange(start, newValues)]. *)
Definition insertValues (start : Z) (newValues : list Z) (p : t) : t :=
  new (firstn (Z.to_nat start) (values p) ++ newValues
       ++ skipn (Z.to_nat start) (values p)).

End PrefixSumComputer.

(** ** The scrollable surface *)

Record IDimension : Type := {
  dim_width : Z;
  dim_height : Z
}.

Record IScrollEvent : Type := {
  vertical : bool;
  horizontal : bool;
  ev_scrollTop : Z;
  ev_scrollLeft : Z
}.

Module Scrollable.

Record t : Type := {
  scrollTop : Z;
  scrollLeft : Z;
  scrollWidth : Z;
  scrollHeight : Z;
  width : Z;
  height : Z
}.

Definition new : t :=
  {| scrollTop := 0; scrollLeft := 0; scrollWidth := 0; scrollHeight := 0;
     width := 0; height := 0 |}.

(** A setter returns the new state and the scroll events it fired, in
    order.  [Math.floor] is the identity on integers; the internal size
    event only reaches the scroll bar, which is outside this file. *)
Definition Setter : Type := t -> t * list IScrollEvent.

Definition andThen (f g : Setter) : Setter :=
  fun s => let (s1, e1) := f s in let (s2, e2) := g s1 in (s2, e1 ++ e2).

Definition _emitScrollEvent (v h : bool) (s : t) : list IScrollEvent :=
  [{| vertical := v; horizontal := h;
      ev_scrollTop := scrollTop s; ev_scrollLeft := scrollLeft s |}].

Definition setScrollLeft (scrollLeft' : Z) : Setter := fun s =>
  let x := if scrollLeft' <? 0 then 0 else scrollLeft' in
  let x := if x + width s >? scrollWidth s then scrollWidth s - width s else x in
  if scrollLeft s =? x then (s, [])
  else
    let s' := {| scrollTop := scrollTop s; scrollLeft := x;
                 scrollWidth := scrollWidth s; scrollHeight := scrollHeight s;
                 width := width s; height := height s |} in
    (s', _emitScrollEvent false true s').

Definition setScrollTop (scrollTop' : Z) : Setter := fun s =>
  let y := if scrollTop' <? 0 then 0 else scrollTop' in
  let y := if y + height s >? scrollHeight s then scrollHeight s - height s else y in
  if scrollTop s =? y then (s, [])
  else
    let s' := {| scrollTop := y; scrollLeft := scrollLeft s;
                 scrollWidth := scrollWidth s; scrollHeight := scrollHeight s;
                 width := width s; height := height s |} in
    (s', _emitScrollEvent true false s').

Definition setScrollWidth (scrollWidth' : Z) : Setter := fun s =>
  let w := if scrollWidth' <? width s then width s else scrollWidth' in
  if scrollWidth s =? w then (s, [])
  else
    let s' := {| scrollTop := scrollTop s; scrollLeft := scrollLeft s;
                 scrollWidth := w; scrollHeight := scrollHeight s;
                 width := width s; height := height s |} in
    setScrollLeft (scrollLeft s') s'.

Definition setScrollHeight (scrollHeight' : Z) : Setter := fun s =>
  let h := if scrollHeight' <? height s then height s else scrollHeight' in
  if scrollHeight s =? h then (s, [])
  else
    let s' := {| scrollTop := scrollTop s; scrollLeft := scrollLeft s;
                 scrollWidth := scrollWidth s; scrollHeight := h;
                 width := width s; height := height s |} in
    setScrollTop (scrollTop s') s'.

Definition setWidth (width' : Z) : Setter := fun s =>
  let w := if width' <? 0 then 0 else width' in
  if width s =? w then (s, [])
  else
    let s' := {| scrollTop := scrollTop s; scrollLeft := scrollLeft s;
                 scrollWidth := scrollWidth s; scrollHeight := scrollHeight s;
                 width := w; height := height s |} in
    andThen (fun s1 => setScrollWidth (scrollWidth s1) s1)
            (fun s1 => setScrollLeft (scrollLeft s1) s1) s'.

Definition setHeight (height' : Z) : Setter := fun s =>
  let h := if height' <? 0 then 0 else height' in
  if height s =? h then (s, [])
  else
    let s' := {| scrollTop := scrollTop s; scrollLeft := scrollLeft s;
                 scrollWidth := scrollWidth s; scrollHeight := scrollHeight s;
                 width := width s; height := h |} in
    andThen (fun s1 => setScrollHeight (scrollHeight s1) s1)
            (fun s1 => setScrollTop (scrollTop s1) s1) s'.

End Scrollable.

(** ** The layout *)

Record IRenderData : Type := {
  rd_startIndex : Z;
  rd_tops : list Z;
  rd_width : Z;
  rd_height : Z;
  rd_scrollLeft : Z;
  rd_scrollTop : Z;
  rd_scrollWidth : Z;
  rd_scrollHeight : Z
}.

Module ListViewLayout.

Record t : Type := {
  _scrollable : Scrollable.t;
  _layoutData : PrefixSumComputer.t
}.

(** The constructor: the index starts as a copy of the model's heights and
    the scroll height as their total. *)
Definition new (model : ViewModel) : t :=
  let layoutData := PrefixSumComputer.new (getAllHeights model) in
  {| _scrollable :=
       fst (Scrollable.setScrollHeight
              (PrefixSumComputer.getTotalValue layoutData) Scrollable.new);
     _layoutData := layoutData |}.

Definition onDimensionChanged (newDimension : IDimension) (l : t)
  : t * list IScrollEvent :=
  let (s, evs) :=
    Scrollable.andThen (Scrollable.setWidth (dim_width newDimension))
                       (Scrollable.setHeight (dim_height newDimension))
                       (_scrollable l) in
  ({| _scrollable := s; _layoutData := _layoutData l |}, evs).

Definition onItemsChanged (e : ListViewItemsChangedEvent.t) (l : t) : t :=
  (* handle changed *)
  let d1 := PrefixSumComputer.changeValues
              (ListViewItemsChangedEvent.changedStart e)
              (ListViewItemsChangedEvent.changed e) (_layoutData l) in
  (* handle deleted *)
  let d2 := PrefixSumComputer.removeValues
              (ListViewItemsChangedEvent.deleteStart e)
              (ListViewItemsChangedEvent.deleteCnt e) d1 in
  (* handle inserted *)
  let d3 := PrefixSumComputer.insertValues
              (ListViewItemsChangedEvent.insertStart e)
              (ListViewItemsChangedEvent.inserted e) d2 in
  {| _scrollable := _scrollable l; _layoutData := d3 |}.

Definition onAfterEventsDispatch (l : t) : t * list IScrollEvent :=
  let (s, evs) :=
    Scrollable.setScrollHeight
      (PrefixSumComputer.getTotalValue (_layoutData l)) (_scrollable l) in
  ({| _scrollable := s; _layoutData := _layoutData l |}, evs).

(** The loop of [getRenderData]: [n] counts the indices that are left
    before [currentIndex] reaches the count of the index. *)
Fixpoint collectTops (n : nat) (layoutData : PrefixSumComputer.t)
    (currentIndex currentOffset offset2 : Z) : list Z :=
  match n with
  | O => []
  | S n' =>
      if currentOffset >? offset2 then []
      else currentOffset ::
           collectTops n' layoutData (currentIndex + 1)
             (currentOffset + PrefixSumComputer.getValue layoutData currentIndex)
             offset2
  end.

Definition getRenderData (l : t) : IRenderData :=
  let s := _scrollable l in
  let offset1 := Scrollable.scrollTop s in
  let offset2 := Scrollable.scrollTop s + Scrollable.height s in
  let tmp := PrefixSumComputer.getIndexOf (_layoutData l) offset1 in
  let startIndex := PrefixSumComputer.index tmp in
  let r :=
    collectTops
      (Z.to_nat (PrefixSumComputer.getCount (_layoutData l) - startIndex))
      (_layoutData l) startIndex
      (PrefixSumComputer.getAccumulatedValue (_layoutData l) (startIndex - 1))
      offset2 in
  {| rd_startIndex := startIndex;
     rd_tops := r;
     rd_width := Scrollable.width s;
     rd_height := Scrollable.height s;
     rd_scrollLeft := Scrollable.scrollLeft s;
     rd_scrollTop := Scrollable.scrollTop s;
     rd_scrollWidth := Scrollable.scrollWidth s;
     rd_scrollHeight := Scrollable.scrollHeight s |}.

End ListViewLayout.

(** The absolute top offset of item [i]. *)
Definition topOf (p : PrefixSumComputer.t) (i : Z) : Z :=
  PrefixSumComputer.getAccumulatedValue p (i - 1).

(** Item [i] takes up [topOf i, topOf i + height); as the claim words
    visibility, it shows when that meets the viewport [top, top + h). *)
Definition visible (p : PrefixSumComputer.t) (top h i : Z) : bool :=
  (topOf p i <? top + h) && (top <? topOf p i + PrefixSumComputer.getValue p i).

Definition visibleTops (p : PrefixSumComputer.t) (top h : Z) : list Z :=
  map (topOf p)
      (filter (visible p top h) (fromTo 0 (PrefixSumComputer.getCount p - 1))).

(** ** Events and their dispatch *)

Inductive ListViewEvent : Type :=
| DimensionChangedEvent (newDimension : IDimension)
| ScrollEvent (data : IScrollEvent)
| ItemsChangedEvent (e : ListViewItemsChangedEvent.t)
| PlainEvent.

Section Dispatcher.

(** Listeners are objects compared by identity ([===]); [World] is every
    piece of state outside the context that a listener or the owner can
    reach. *)
Variable Listener : Type.
Variable same : Listener -> Listener -> bool.
Variable World : Type.

Record ListViewContext : Type := {
  _listeners : list Listener;
  _events : list ListViewEvent
}.

(** What a listener may do to the context: its public methods. *)
Inductive ContextCall : Type :=
| CallAddEventHandler (h : Listener)
| CallRemoveEventHandler (h : Listener)
| CallEmitSoon (e : ListViewEvent)
| CallEmitManySoon (e : ListViewEvent).

(** A listener method is summarised by its effect on the world and by the
    calls it makes on the context, in order.  Listener methods are taken
    to return. *)
Definition Method : Type := World -> World * list ContextCall.

Variable _onEventAdded : World -> World.
Variable onBeforeEventsDispatch : Listener -> Method.
Variable onDimensionChanged : Listener -> IDimension -> Method.
Variable onItemsChanged : Listener -> ListViewItemsChangedEvent.t -> Method.
Variable onAfterEventsDispatch : Listener -> Method.

Definition addEventHandler (h : Listener) (c : ListViewContext)
  : ListViewContext :=
  {| _listeners := _listeners c ++ [h]; _events := _events c |}.

Fixpoint removeFirst (h : Listener) (l : list Listener) : list Listener :=
  match l with
  | [] => []
  | x :: l' => if same x h then l' else x :: removeFirst h l'
  end.

Definition removeEventHandler (h : Listener) (c : ListViewContext)
  : ListViewContext :=
  {| _listeners := removeFirst h (_listeners c); _events := _events c |}.

Definition emitSoon (e : ListViewEvent) (cw : ListViewContext * World)
  : ListViewContext * World :=
  ({| _listeners := _listeners (fst cw); _events := _events (fst cw) ++ [e] |},
   _onEventAdded (snd cw)).

Definition emitManySoon (e : ListViewEvent) (cw : ListViewContext * World)
  : ListViewContext * World :=
  ({| _listeners := _listeners (fst cw); _events := _events (fst cw) ++ [e] |},
   _onEventAdded (snd cw)).

Definition perform (cw : ListViewContext * World) (c : ContextCall)
  : ListViewContext * World :=
  match c with
  | CallAddEventHandler h => (addEventHandler h (fst cw), snd cw)
  | CallRemoveEventHandler h => (removeEventHandler h (fst cw), snd cw)
  | CallEmitSoon e => emitSoon e cw
  | CallEmitManySoon e => emitManySoon e cw
  end.

(** The calls a flush makes on listeners, as they happen. *)
Inductive ListenerCall : Type :=
| BeforeEventsDispatch (h : Listener)
| DimensionChanged (h : Listener) (e : IDimension)
| ItemsChanged (h : Listener) (e : ListViewItemsChangedEvent.t)
| AfterEventsDispatch (h : Listener).

Record Flushing : Type := {
  ctx : ListViewContext;
  world : World;
  calls : list ListenerCall
}.

Definition invoke (what : ListenerCall) (m : Method) (s : Flushing)
  : Flushing :=
  let (w, cs) := m (world s) in
  let cw := fold_left perform cs (ctx s, w) in
  {| ctx := fst cw; world := snd cw; calls := calls s ++ [what] |}.

Definition dispatch (eventHandlers : list Listener) (e : ListViewEvent)
    (s : Flushing) : Flushing :=
  match e with
  | DimensionChangedEvent d =>
      fold_left (fun s h => invoke (DimensionChanged h d)
                                   (onDimensionChanged h d) s)
                eventHandlers s
  | ScrollEvent _ => s
  | ItemsChangedEvent i =>
      fold_left (fun s h => invoke (ItemsChanged h i) (onItemsChanged h i) s)
                eventHandlers s
  | PlainEvent => s
  end.

(** [while (this._events.length > 0)]: the loop runs as long as listeners
    keep emitting, so the model takes a bound on its iterations. *)
Fixpoint drain (fuel : nat) (eventHandlers : list Listener) (s : Flushing)
  : option Flushing :=
  match _events (ctx s) with
  | [] => Some s
  | e :: rest =>
      match fuel with
      | O => None
      | S fuel' =>
          drain fuel' eventHandlers
            (dispatch eventHandlers e
               {| ctx := {| _listeners := _listeners (ctx s);
                            _events := rest |};
                  world := world s; calls := calls s |})
      end
  end.

Definition flush (fuel : nat) (c : ListViewContext) (w : World)
  : option Flushing :=
  let eventHandlers := _listeners c in
  let s0 := {| ctx := c; world := w; calls := [] |} in
  let s1 := fold_left (fun s h => invoke (BeforeEventsDispatch h)
                                         (onBeforeEventsDispatch h) s)
                      eventHandlers s0 in
  match drain fuel eventHandlers s1 with
  | None => None
  | Some s2 =>
      Some (fold_left (fun s h => invoke (AfterEventsDispatch h)
                                         (onAfterEventsDispatch h) s)
                      eventHandlers s2)
  end.

(** The calls that delivering one event to a list of listeners makes. *)
Definition deliveries (hs : list Listener) (e : ListViewEvent)
  : list ListenerCall :=
  match e with
  | DimensionChangedEvent d => map (fun h => DimensionChanged h d) hs
  | ItemsChangedEvent i => map (fun h => ItemsChanged h i) hs
  | ScrollEvent _ | PlainEvent => []
  end.

(** A flush as the spec words it: the hooks before, every event in turn,
    the hooks after, all on one list of listeners. *)
Definition inOrder (hs : list Listener) (evs : list ListViewEvent)
  : list ListenerCall :=
  map BeforeEventsDispatch hs
  ++ flat_map (deliveries hs) evs
  ++ map AfterEventsDispatch hs.

Definition emits (c : ContextCall) : bool :=
  match c with
  | CallEmitSoon _ | CallEmitManySoon _ => true
  | _ => false
  end.

(** A method that emits nothing. *)
Definition quiet (m : Method) : Prop :=
  forall w, existsb emits (snd (m w)) = false.

End Dispatcher.

Arguments CallEmitSoon {Listener} e.
Arguments CallEmitManySoon {Listener} e.

(** ** The rendering surface *)

(** Surface nodes are objects with identity; a handle names one. *)
Definition Handle : Type := nat.

Record DomNode : Type := {
  attr_lineNumber : Z;
  style_top : Z;
  style_height : Z;
  innerHTML : list String.string;
  attr_lastScrollTime : option Z
}.

(** The markup of one line that [getLineOuterHTML] pushes: a [div] that
    carries the line number, top and height, around what the item rendered.
    The surface turns each such fragment into one node. *)
Record LineHTML : Type := {
  html_lineNumber : Z;
  html_top : Z;
  html_height : Z;
  html_content : list String.string
}.

Definition nodeOfHTML (h : LineHTML) : DomNode :=
  {| attr_lineNumber := html_lineNumber h;
     style_top := html_top h;
     style_height := html_height h;
     innerHTML := html_content h;
     attr_lastScrollTime := None |}.

Record ViewItem : Type := {
  _isDirty : bool;
  _domNode : option Handle
}.

(** [new ViewItem(model)] *)
Definition ViewItem_new : ViewItem := {| _isDirty := true; _domNode := None |}.

(** [onChanged()] *)
Definition onChanged (line : ViewItem) : ViewItem :=
  {| _isDirty := true; _domNode := _domNode line |}.

Definition setDomNode (domNode : option Handle) (line : ViewItem) : ViewItem :=
  {| _isDirty := _isDirty line; _domNode := domNode |}.

Definition shouldUpdateHTML (line : ViewItem) : bool := _isDirty line.

(** The fields of [ListView] that rendering reads and writes, together with
    the surface under [_listItemsDomNode]: its child nodes in order, the
    attributes of every node that exists ([nodes], whether attached or not),
    the number of nodes created so far, and the line numbers for which the
    model's [render] has been called, oldest first. *)
Record ListView : Type := {
  _renderAnimationFrame : option Handle;
  _renderedItems : list ViewItem;
  _renderedItemsStart : Z;
  _scrollDomNode : option Handle;
  _scrollDomNodeIsAbove : bool;
  _listItemsDomNode : list Handle;
  nodes : Handle -> DomNode;
  created : nat;
  renderCalls : list Z
}.

Definition set_renderAnimationFrame (x : option Handle) (v : ListView) :=
  {| _renderAnimationFrame := x; _renderedItems := _renderedItems v;
     _renderedItemsStart := _renderedItemsStart v;
     _scrollDomNode := _scrollDomNode v;
     _scrollDomNodeIsAbove := _scrollDomNodeIsAbove v;
     _listItemsDomNode := _listItemsDomNode v; nodes := nodes v;
     created := created v; renderCalls := renderCalls v |}.

Definition set_renderedItems (x : list ViewItem) (v : ListView) :=
  {| _renderAnimationFrame := _renderAnimationFrame v; _renderedItems := x;
     _renderedItemsStart := _renderedItemsStart v;
     _scrollDomNode := _scrollDomNode v;
     _scrollDomNodeIsAbove := _scrollDomNodeIsAbove v;
     _listItemsDomNode := _listItemsDomNode v; nodes := nodes v;
     created := created v; renderCalls := renderCalls v |}.

Definition set_renderedItemsStart (x : Z) (v : ListView) :=
  {| _renderAnimationFrame := _renderAnimationFrame v;
     _renderedItems := _renderedItems v; _renderedItemsStart := x;
     _scrollDomNode := _scrollDomNode v;
     _scrollDomNodeIsAbove := _scrollDomNodeIsAbove v;
     _listItemsDomNode := _listItemsDomNode v; nodes := nodes v;
     created := created v; renderCalls := renderCalls v |}.

Definition set_scrollDomNode (x : option Handle) (v : ListView) :=
  {| _renderAnimationFrame := _renderAnimationFrame v;
     _renderedItems := _renderedItems v;
     _renderedItemsStart := _renderedItemsStart v; _scrollDomNode := x;
     _scrollDomNodeIsAbove := _scrollDomNodeIsAbove v;
     _listItemsDomNode := _listItemsDomNode v; nodes := nodes v;
     created := created v; renderCalls := renderCalls v |}.

Definition set_scrollDomNodeIsAbove (x : bool) (v : ListView) :=
  {| _renderAnimationFrame := _renderAnimationFrame v;
     _renderedItems := _renderedItems v;
     _renderedItemsStart := _renderedItemsStart v;
     _scrollDomNode := _scrollDomNode v; _scrollDomNodeIsAbove := x;
     _listItemsDomNode := _listItemsDomNode v; nodes := nodes v;
     created := created v; renderCalls := renderCalls v |}.

Definition set_listItemsDomNode (x : list Handle) (v : ListView) :=
  {| _renderAnimationFrame := _renderAnimationFrame v;
     _renderedItems := _renderedItems v;
     _renderedItemsStart := _renderedItemsStart v;
     _scrollDomNode := _scrollDomNode v;
     _scrollDomNodeIsAbove := _scrollDomNodeIsAbove v;
     _listItemsDomNode := x; nodes := nodes v;
     created := created v; renderCalls := renderCalls v |}.

Definition set_nodes (x : Handle -> DomNode) (v : ListView) :=
  {| _renderAnimationFrame := _renderAnimationFrame v;
     _renderedItems := _renderedItems v;
     _renderedItemsStart := _renderedItemsStart v;
     _scrollDomNode := _scrollDomNode v;
     _scrollDomNodeIsAbove := _scrollDomNodeIsAbove v;
     _listItemsDomNode := _listItemsDomNode v; nodes := x;
     created := created v; renderCalls := renderCalls v |}.

Definition set_created (x : nat) (v : ListView) :=
  {| _renderAnimationFrame := _renderAnimationFrame v;
     _renderedItems := _renderedItems v;
     _renderedItemsStart := _renderedItemsStart v;
     _scrollDomNode := _scrollDomNode v;
     _scrollDomNodeIsAbove := _scrollDomNodeIsAbove v;
     _listItemsDomNode := _listItemsDomNode v; nodes := nodes v;
     created := x; renderCalls := renderCalls v |}.

Definition set_renderCalls (x : list Z) (v : ListView) :=
  {| _renderAnimationFrame := _renderAnimationFrame v;
     _renderedItems := _renderedItems v;
     _renderedItemsStart := _renderedItemsStart v;
     _scrollDomNode := _scrollDomNode v;
     _scrollDomNodeIsAbove := _scrollDomNodeIsAbove v;
     _listItemsDomNode := _listItemsDomNode v; nodes := nodes v;
     created := created v; renderCalls := x |}.

(** [store[n] := d] *)
Definition update (store : Handle -> DomNode) (n : Handle) (d : DomNode)
  : Handle -> DomNode :=
  fun m => if Nat.eqb m n then d else store m.

(** [a[i] := f(a[i])] for an index inside the array. *)
Fixpoint adjust {A} (f : A -> A) (i : nat) (a : list A) : list A :=
  match a, i with
  | [], _ => []
  | x :: a', O => f x :: a'
  | x :: a', S i' => x :: adjust f i' a'
  end.

Definition isChild (n : Handle) (v : ListView) : bool :=
  existsb (Nat.eqb n) (_listItemsDomNode v).

Fixpoint without (n : Handle) (l : list Handle) : list Handle :=
  match l with
  | [] => []
  | x :: l' => if Nat.eqb x n then l' else x :: without n l'
  end.

Fixpoint replaced (old new : Handle) (l : list Handle) : list Handle :=
  match l with
  | [] => []
  | x :: l' => if Nat.eqb x old then new :: l' else x :: replaced old new l'
  end.

(** [this._listItemsDomNode.removeChild(domNode)]: the surface throws when
    the node is not a child. *)
Definition removeChild (domNode : Handle) : M ListView unit :=
  fun v =>
    if isChild domNode v
    then (Normal tt, set_listItemsDomNode (without domNode (_listItemsDomNode v)) v)
    else (Throw NotFoundError, v).

(** [if (n.parentNode) n.parentNode.removeChild(n)]: the only parent a line
    node ever has is [_listItemsDomNode]. *)
Definition detach (n : Handle) : M ListView unit :=
  modify (fun v => set_listItemsDomNode (without n (_listItemsDomNode v)) v).

(** The surface parses markup into fresh nodes, one per line, and returns
    their handles in order. *)
Fixpoint createNodes (html : list LineHTML) : M ListView (list Handle) :=
  match html with
  | [] => ret []
  | h :: html' =>
      bind get (fun v =>
      let n := created v in
      bind (modify (fun v => set_created (S n)
                               (set_nodes (update (nodes v) n (nodeOfHTML h)) v)))
           (fun _ =>
      bind (createNodes html') (fun ns => ret (n :: ns))))
  end.

(** ** The list view *)

(** [this._model.render(out, index)] calls the item's [render]. *)
Definition ViewModel_render (model : ViewModel) (index : Z)
  : M ListView (list String.string) :=
  match at_ (_items model) index with
  | Some it =>
      bind (modify (fun v => set_renderCalls (renderCalls v ++ [index]) v))
           (fun _ => ret (render (actual it)))
  | None => throw TypeError
  end.

Definition modifyLine (i : nat) (f : ViewItem -> ViewItem) : M ListView unit :=
  modify (fun v => set_renderedItems (adjust f i (_renderedItems v)) v).

(** [this._renderedItems[i].getLineOuterHTML(out, lineNumber, deltaTop)];
    [deltaTop] is [None] when the caller read past the end of [tops]. *)
Definition getLineOuterHTML (model : ViewModel) (i : nat) (lineNumber : Z)
    (deltaTop : option Z) : M ListView LineHTML :=
  bind (modifyLine i (fun line => {| _isDirty := false;
                                     _domNode := _domNode line |})) (fun _ =>
  match deltaTop with
  | None => throw TypeError
  | Some top =>
      bind (getHeightOf model lineNumber) (fun h =>
      bind (ViewModel_render model lineNumber) (fun content =>
      ret {| html_lineNumber := lineNumber; html_top := top;
             html_height := h; html_content := content |}))
  end).

(** [this._renderedItems[i].layoutLine(lineNumber, deltaTop)] for a line
    whose node is [n].  A top that is [undefined] makes an invalid length,
    which the surface ignores. *)
Definition layoutLine (model : ViewModel) (n : Handle) (lineNumber : Z)
    (deltaTop : option Z) : M ListView unit :=
  bind (modify (fun v =>
          let d := nodes v n in
          set_nodes (update (nodes v) n
            {| attr_lineNumber := lineNumber;
               style_top := match deltaTop with Some t => t | None => style_top d end;
               style_height := style_height d;
               innerHTML := innerHTML d;
               attr_lastScrollTime := attr_lastScrollTime d |}) v)) (fun _ =>
  bind (getHeightOf model lineNumber) (fun h =>
  modify (fun v =>
          let d := nodes v n in
          set_nodes (update (nodes v) n
            {| attr_lineNumber := attr_lineNumber d;
               style_top := style_top d;
               style_height := h;
               innerHTML := innerHTML d;
               attr_lastScrollTime := attr_lastScrollTime d |}) v))).

Definition _createLine : ViewItem := ViewItem_new.

(** [this._renderedItems[i].getDomNode()] *)
Definition lineDomNode (i : Z) : M ListView (option Handle) :=
  fun v => match at_ (_renderedItems v) i with
           | Some line => (Normal (_domNode line), v)
           | None => (Throw TypeError, v)
           end.

Definition _renderUntouchedLines (model : ViewModel)
    (startIndex endIndex : Z) (deltaTop : list Z) (deltaLN : Z)
  : M ListView unit :=
  forEach (fromTo startIndex endIndex) (fun i =>
    bind get (fun v =>
    let lineNumber := _renderedItemsStart v + i in
    bind (lineDomNode i) (fun node =>
    match node with
    | Some n => layoutLine model n lineNumber (at_ deltaTop (lineNumber - deltaLN))
    | None => ret tt
    end))).

Definition newLines (fromLineNumber toLineNumber : Z) : list ViewItem :=
  map (fun _ => _createLine) (fromTo fromLineNumber toLineNumber).

Definition _insertLinesBefore (fromLineNumber toLineNumber : Z)
  : M ListView unit :=
  modify (fun v => set_renderedItems
                     (newLines fromLineNumber toLineNumber ++ _renderedItems v) v).

Definition _insertLinesAfter (fromLineNumber toLineNumber : Z)
  : M ListView unit :=
  modify (fun v => set_renderedItems
                     (_renderedItems v ++ newLines fromLineNumber toLineNumber) v).

Definition _getScrollDomNodeTime (domNode : Handle) (v : ListView) : Z :=
  match attr_lastScrollTime (nodes v domNode) with
  | Some t => t
  | None => 0
  end.

Definition _removeIfNotScrollDomNode (domNode : Handle) (isAbove : bool)
  : M ListView unit :=
  bind get (fun v =>
  let time := _getScrollDomNodeTime domNode v in
  if time =? 0 then removeChild domNode
  else
    let keep :=
      bind (modify (set_scrollDomNode (Some domNode))) (fun _ =>
      modify (set_scrollDomNodeIsAbove isAbove)) in
    match _scrollDomNode v with
    | Some other =>
        let otherTime := _getScrollDomNodeTime other v in
        if otherTime >? time then
          (* The other is the real scroll dom node *)
          removeChild domNode
        else
          bind (detach other) (fun _ =>
          bind (modify (set_scrollDomNode None)) (fun _ => keep))
    | None => keep
    end).

Definition _removeLinesBefore (removeCount : Z) : M ListView unit :=
  bind (forEach (fromTo 0 (removeCount - 1)) (fun i =>
          bind (lineDomNode i) (fun node =>
          match node with
          | Some n => _removeIfNotScrollDomNode n true
          | None => ret tt
          end))) (fun _ =>
  modify (fun v => set_renderedItems
                     (spliceOut (_renderedItems v) 0 removeCount) v)).

Definition _removeLinesAfter (removeCount : Z) : M ListView unit :=
  bind get (fun v0 =>
  let removeIndex := len (_renderedItems v0) - removeCount in
  bind (forEach (fromTo 0 (removeCount - 1)) (fun i =>
          bind (lineDomNode (removeIndex + i)) (fun node =>
          match node with
          | Some n => _removeIfNotScrollDomNode n false
          | None => ret tt
          end))) (fun _ =>
  modify (fun v => set_renderedItems
                     (spliceOut (_renderedItems v) removeIndex removeCount) v))).

(** [var lastLine = this._renderedItems.pop(); lastLine.getDomNode()] and
    the removal of the node from the surface. *)
Definition popLine : M ListView unit :=
  bind get (fun v =>
  match rev (_renderedItems v) with
  | [] => throw TypeError
  | lastLine :: _ =>
      bind (modify (set_renderedItems (removelast (_renderedItems v)))) (fun _ =>
      match _domNode lastLine with
      | Some n => removeChild n
      | None => ret tt
      end)
  end).

(** [ListView.onItemsChanged(e)]: the window follows a change of the
    items.  Lines that were replaced become dirty; lines that were deleted
    leave the window and the surface; lines inserted inside the window push
    the last lines out of it. *)
Definition View_onItemsChanged (e : ListViewItemsChangedEvent.t)
  : M ListView unit :=
  (* handle changed *)
  bind (forEach (fromTo 0 (len (ListViewItemsChangedEvent.changed e) - 1))
          (fun i =>
             bind get (fun v =>
             let changedIndex := ListViewItemsChangedEvent.changedStart e + i in
             let myIndex := changedIndex - _renderedItemsStart v in
             if myIndex <? 0 then ret tt
             else if myIndex >=? len (_renderedItems v) then ret tt
             else modifyLine (Z.to_nat myIndex) onChanged))) (fun _ =>
  (* handle deleted *)
  bind get (fun v =>
  let deleteStart := ListViewItemsChangedEvent.deleteStart e in
  let deleteCnt := ListViewItemsChangedEvent.deleteCnt e in
  let from := Z.max (deleteStart - _renderedItemsStart v) 0 in
  let to := Z.min (deleteStart + deleteCnt - 1 - _renderedItemsStart v)
                  (len (_renderedItems v) - 1) in
  bind (if deleteStart <? _renderedItemsStart v then
          (* Deleting lines starting above the viewport *)
          if deleteStart + deleteCnt - 1 <? _renderedItemsStart v then
            (* All deleted lines are above the viewport *)
            modify (set_renderedItemsStart
                      (_renderedItemsStart v
                       - (deleteStart + deleteCnt - 1 - deleteStart + 1)))
          else
            (* Some deleted lines are inside the viewport *)
            modify (set_renderedItemsStart deleteStart)
        else ret tt) (fun _ =>
  bind (if from <=? to then
          (* Remove from DOM *)
          bind (forEach (fromTo from to) (fun i =>
                  bind (lineDomNode i) (fun node =>
                  match node with
                  | Some n => removeChild n
                  | None => ret tt
                  end))) (fun _ =>
          (* Remove from array *)
          modify (fun v => set_renderedItems
                             (spliceOut (_renderedItems v) from (to - from + 1)) v))
        else ret tt) (fun _ =>
  (* handle inserted *)
  bind get (fun v =>
  let insertStart := ListViewItemsChangedEvent.insertStart e in
  let inserted := ListViewItemsChangedEvent.inserted e in
  if insertStart <=? _renderedItemsStart v then
    (* a. We are inserting lines above the viewport *)
    modify (set_renderedItemsStart
              (_renderedItemsStart v
               + (insertStart + len inserted - 1 - insertStart + 1)))
  else if insertStart >=? _renderedItemsStart v + len (_renderedItems v) then
    (* b. We are inserting lines below the viewport *)
    ret tt
  else
    (* c. We are inserting lines in the viewport *)
    let insertFrom := Z.min (insertStart - _renderedItemsStart v)
                            (len (_renderedItems v) - 1) in
    let insertTo := Z.min (insertStart + len inserted - 1 - _renderedItemsStart v)
                          (len (_renderedItems v) - 1) in
    if insertFrom <=? insertTo then
      bind (forEach (fromTo insertFrom insertTo) (fun i =>
              modify (fun v => set_renderedItems
                                 (spliceIn (_renderedItems v) i _createLine) v)))
           (fun _ =>
      let insertCount := insertTo - insertFrom + 1 in
      forEach (fromTo 0 (insertCount - 1)) (fun _ => popLine))
    else ret tt))))).

(** The view once its [onItemsChanged] has run, to the end or to a throw. *)
Definition viewHears (e : ListViewItemsChangedEvent.t) (v : ListView)
  : ListView :=
  snd (View_onItemsChanged e v).

(** The local arrays of [_finishRendering]: the indices marked in [wasNew]
    and [wasInvalid], and the markup gathered for them. *)
Record Gathered : Type := {
  wasNew : list nat;
  newLinesHTML : list LineHTML;
  wasInvalid : list nat;
  invalidLinesHTML : list LineHTML
}.

Definition marked (i : nat) (l : list nat) : bool := existsb (Nat.eqb i) l.

(** The first loop of [_finishRendering]. *)
Fixpoint gather (model : ViewModel) (deltaTop : list Z) (indices : list nat)
    (g : Gathered) : M ListView Gathered :=
  match indices with
  | [] => ret g
  | i :: indices' =>
      bind get (fun v =>
      match nth_error (_renderedItems v) i with
      | None => throw TypeError
      | Some line =>
          let lineNumber := Z.of_nat i + _renderedItemsStart v in
          if shouldUpdateHTML line then
            match _domNode line with
            | None =>
                (* Line is new *)
                bind (getLineOuterHTML model i lineNumber
                        (at_ deltaTop (Z.of_nat i))) (fun h =>
                gather model deltaTop indices'
                  {| wasNew := wasNew g ++ [i];
                     newLinesHTML := newLinesHTML g ++ [h];
                     wasInvalid := wasInvalid g;
                     invalidLinesHTML := invalidLinesHTML g |})
            | Some _ =>
                (* Line is invalid *)
                bind (getLineOuterHTML model i lineNumber
                        (at_ deltaTop (Z.of_nat i))) (fun h =>
                gather model deltaTop indices'
                  {| wasNew := wasNew g;
                     newLinesHTML := newLinesHTML g;
                     wasInvalid := wasInvalid g ++ [i];
                     invalidLinesHTML := invalidLinesHTML g ++ [h] |})
            end
          else gather model deltaTop indices' g
      end)
  end.

(** The loop that hands the new nodes to the new lines, last line first;
    [siblings] is [currChild] followed by its previous siblings. *)
Fixpoint adopt (indices : list nat) (new : list nat) (siblings : list Handle)
  : M ListView unit :=
  match indices with
  | [] => ret tt
  | i :: indices' =>
      if marked i new then
        match siblings with
        | currChild :: previous =>
            bind (modifyLine i (setDomNode (Some currChild))) (fun _ =>
            adopt indices' new previous)
        | [] =>
            bind (modifyLine i (setDomNode None)) (fun _ => throw TypeError)
        end
      else adopt indices' new siblings
  end.

(** The loop that swaps the node of each invalid line for the next child of
    [hugeDomNode]. *)
Fixpoint swap (indices : list nat) (invalid : list nat) (huge : list Handle)
  : M ListView unit :=
  match indices with
  | [] => ret tt
  | i :: indices' =>
      if marked i invalid then
        bind (lineDomNode (Z.of_nat i)) (fun node =>
        bind get (fun v =>
        match huge, node with
        | source :: huge', Some old =>
            if isChild old v then
              bind (modify (fun v => set_listItemsDomNode
                              (replaced old source (_listItemsDomNode v)) v))
                   (fun _ =>
              bind (modifyLine i (setDomNode (Some source))) (fun _ =>
              swap indices' invalid huge'))
            else throw TypeError
        | _, _ => throw TypeError
        end))
      else swap indices' invalid huge
  end.

Definition _finishRendering (model : ViewModel) (domNodeIsEmpty : bool)
    (deltaTop : list Z) : M ListView unit :=
  bind get (fun v0 =>
  let indices := seq 0 (length (_renderedItems v0)) in
  bind (gather model deltaTop indices
          {| wasNew := []; newLinesHTML := [];
             wasInvalid := []; invalidLinesHTML := [] |}) (fun g =>
  bind (match wasNew g with
        | [] => ret tt
        | _ :: _ =>
            bind get (fun v =>
            bind (createNodes (newLinesHTML g)) (fun fresh =>
            bind (modify (fun v =>
                    match domNodeIsEmpty, _listItemsDomNode v with
                    | false, _ :: _ =>
                        set_listItemsDomNode (_listItemsDomNode v ++ fresh) v
                    | _, _ => set_listItemsDomNode fresh v
                    end)) (fun _ =>
            bind get (fun v =>
            adopt (rev indices) (wasNew g) (rev (_listItemsDomNode v))))))
        end) (fun _ =>
  match wasInvalid g with
  | [] => ret tt
  | _ :: _ =>
      bind (createNodes (invalidLinesHTML g)) (fun huge =>
      swap indices (wasInvalid g) huge)
  end))).

(** [_render], given what [this._layout.getRenderData()] returned and the
    reading of the clock.  The styles written on [_listItemsDomNode] itself
    (size and translation of the whole surface) touch no line and are left
    out. *)
Definition _render (model : ViewModel) (renderData : IRenderData) (now : Z)
  : M ListView unit :=
  bind get (fun v =>
  let canRemoveScrollDomNode :=
    match _scrollDomNode v with
    | Some n => negb (now - _getScrollDomNodeTime n v <? 1000)
    | None => true
    end in
  let startItem := rd_startIndex renderData in
  let endItem := rd_startIndex renderData + len (rd_tops renderData) - 1 in
  if canRemoveScrollDomNode
     && ((_renderedItemsStart v + len (_renderedItems v) - 1 <? startItem)
         || (endItem <? _renderedItemsStart v))
  then
    (* There is no overlap whatsoever *)
    bind (modify (set_renderedItemsStart startItem)) (fun _ =>
    bind (modify (set_renderedItems (newLines startItem endItem))) (fun _ =>
    bind (_finishRendering model true (rd_tops renderData)) (fun _ =>
    modify (set_scrollDomNode None))))
  else
    (* Update lines which will remain untouched *)
    bind (_renderUntouchedLines model
            (Z.max (startItem - _renderedItemsStart v) 0)
            (Z.min (endItem - _renderedItemsStart v) (len (_renderedItems v) - 1))
            (rd_tops renderData) startItem) (fun _ =>
    bind (if _renderedItemsStart v >? startItem then
            (* Insert lines before *)
            let fromLineNumber := startItem in
            let toLineNumber := Z.min endItem (_renderedItemsStart v - 1) in
            if fromLineNumber <=? toLineNumber then
              bind (_insertLinesBefore fromLineNumber toLineNumber) (fun _ =>
              bind get (fun v1 =>
              (* Clean garbage above *)
              match _scrollDomNode v1 with
              | Some n =>
                  if _scrollDomNodeIsAbove v1 then
                    bind (detach n) (fun _ => modify (set_scrollDomNode None))
                  else ret tt
              | None => ret tt
              end))
            else ret tt
          else if _renderedItemsStart v <? startItem then
            (* Remove lines before *)
            let removeCnt := Z.min (len (_renderedItems v))
                                   (startItem - _renderedItemsStart v) in
            if removeCnt >? 0 then _removeLinesBefore removeCnt else ret tt
          else ret tt) (fun _ =>
    bind (modify (set_renderedItemsStart startItem)) (fun _ =>
    bind get (fun v2 =>
    bind (if _renderedItemsStart v2 + len (_renderedItems v2) - 1 <? endItem then
            (* Insert lines after *)
            let fromLineNumber := _renderedItemsStart v2 + len (_renderedItems v2) in
            let toLineNumber := endItem in
            if fromLineNumber <=? toLineNumber then
              bind (_insertLinesAfter fromLineNumber toLineNumber) (fun _ =>
              bind get (fun v3 =>
              (* Clean garbage below *)
              match _scrollDomNode v3 with
              | Some n =>
                  if negb (_scrollDomNodeIsAbove v3) then
                    bind (detach n) (fun _ => modify (set_scrollDomNode None))
                  else ret tt
              | None => ret tt
              end))
            else ret tt
          else if _renderedItemsStart v2 + len (_renderedItems v2) - 1 >? endItem then
            (* Remove lines after *)
            let fromLineNumber := Z.max 0 (endItem - _renderedItemsStart v2 + 1) in
            let toLineNumber := len (_renderedItems v2) - 1 in
            let removeCnt := toLineNumber - fromLineNumber + 1 in
            if removeCnt >? 0 then _removeLinesAfter removeCnt else ret tt
          else ret tt) (fun _ =>
    _finishRendering model false (rd_tops renderData))))))).

(** ** Scheduling, the widget and its life *)

Module AnimationFrames.

(** Modelled from the spec: [runAtThisOrScheduleAtNextAnimationFrame] of
    [vs/base/browser/dom] is not part of this source tree.  The spec calls
    it the external animation-frame scheduler: a callback is requested, it
    is outstanding until the scheduler runs it or its owner disposes of the
    handle that the request returned.  [outstanding] lists the handles of
    the callbacks requested and neither run nor cancelled. *)
Record t : Type := {
  outstanding : list Handle;
  requested : nat
}.

Definition new : t := {| outstanding := []; requested := O |}.

(** Modelled from the spec: a request returns a fresh handle. *)
Definition request (a : t) : Handle * t :=
  (requested a,
   {| outstanding := outstanding a ++ [requested a];
      requested := S (requested a) |}).

(** Modelled from the spec: disposing of the handle cancels the callback;
    running it takes it off the list as well. *)
Definition retire (h : Handle) (a : t) : t :=
  {| outstanding := without h (outstanding a); requested := requested a |}.

End AnimationFrames.

(** The two listeners that ever register with the context of a [ListView]:
    the view itself and its layout. *)
Inductive Who : Type := TheView | TheLayout.

Definition sameWho (a b : Who) : bool :=
  match a, b with
  | TheView, TheView | TheLayout, TheLayout => true
  | _, _ => false
  end.

(** Everything a [ListView] owns or reaches. *)
Record Widget : Type := {
  model : ViewModel;
  view : ListView;
  layout : ListViewLayout.t;
  frames : AnimationFrames.t
}.

Definition set_view (x : ListView) (w : Widget) : Widget :=
  {| model := model w; view := x; layout := layout w; frames := frames w |}.

Definition set_layout (x : ListViewLayout.t) (w : Widget) : Widget :=
  {| model := model w; view := view w; layout := x; frames := frames w |}.

Definition set_model (x : ViewModel) (w : Widget) : Widget :=
  {| model := x; view := view w; layout := layout w; frames := frames w |}.

(** [_scheduleRender] without the body of the callback, which is [onFrame]
    below. *)
Definition _scheduleRender (w : Widget) : Widget :=
  match _renderAnimationFrame (view w) with
  | None =>
      let (h, a) := AnimationFrames.request (frames w) in
      {| model := model w;
         view := set_renderAnimationFrame (Some h) (view w);
         layout := layout w;
         frames := a |}
  | Some _ => w
  end.

Section ListWidget.

(** [ListView.onItemsChanged] edits the rendered window and the surface;
    it reads and writes fields of the view only and makes no call on the
    context.  The widget is defined over any such edit of the view;
    [viewHears] is the one of the source. *)
Variable ListView_onItemsChanged :
  ListViewItemsChangedEvent.t -> ListView -> ListView.

Definition Ctx : Type := ListViewContext Who.
Definition Call : Type := ContextCall Who.

(** The scroll listener that the layout installs on its scrollable. *)
Definition forwardScroll (evs : list IScrollEvent) : list Call :=
  map (fun e => CallEmitSoon (ScrollEvent e)) evs.

Definition onBeforeEventsDispatch (h : Who) : Method Who Widget :=
  fun w => (w, []).

Definition onDimensionChanged (h : Who) (d : IDimension) : Method Who Widget :=
  fun w =>
    match h with
    | TheView => (w, [])
    | TheLayout =>
        let (l, evs) := ListViewLayout.onDimensionChanged d (layout w) in
        (set_layout l w, forwardScroll evs)
    end.

Definition onItemsChanged (h : Who) (e : ListViewItemsChangedEvent.t)
  : Method Who Widget :=
  fun w =>
    match h with
    | TheView => (set_view (ListView_onItemsChanged e (view w)) w, [])
    | TheLayout => (set_layout (ListViewLayout.onItemsChanged e (layout w)) w, [])
    end.

Definition onAfterEventsDispatch (h : Who) : Method Who Widget :=
  fun w =>
    match h with
    | TheView => (w, [])
    | TheLayout =>
        let (l, evs) := ListViewLayout.onAfterEventsDispatch (layout w) in
        (set_layout l w, forwardScroll evs)
    end.

Definition ListView_emitSoon (e : ListViewEvent) (cw : Ctx * Widget)
  : Ctx * Widget :=
  emitSoon _scheduleRender e cw.

Definition ListView_flush (fuel : nat) (c : Ctx) (w : Widget)
  : option (Flushing Who Widget) :=
  flush sameWho _scheduleRender onBeforeEventsDispatch onDimensionChanged
        onItemsChanged onAfterEventsDispatch fuel c w.

(** The widget with its view, and whether the widget still listens to the
    model ([_modelDisposable]). *)
Record System : Type := {
  context : Ctx;
  widget : Widget;
  subscribed : bool
}.

Definition ListView_initial : ListView :=
  {| _renderAnimationFrame := None;
     _renderedItems := [];
     _renderedItemsStart := 0;
     _scrollDomNode := None;
     _scrollDomNodeIsAbove := false;
     _listItemsDomNode := [];
     nodes := fun _ => nodeOfHTML {| html_lineNumber := 0; html_top := 0;
                                     html_height := 0; html_content := [] |};
     created := O;
     renderCalls := [] |}.

Definition acceptDimension (dimension : IDimension) (cw : Ctx * Widget)
  : Ctx * Widget :=
  ListView_emitSoon (DimensionChangedEvent dimension) cw.

Definition acceptViewModelEvent (e : ViewModelChangedEvent.t)
    (cw : Ctx * Widget) : Ctx * Widget :=
  ListView_emitSoon (ItemsChangedEvent (ListViewItemsChangedEvent.new e)) cw.

(** [ListWidget.setModel(model)] on a widget without a view:
    [new ListView(dimension, model)] followed by the subscription. *)
Definition setModel (dimension : IDimension) (m : ViewModel) : System :=
  let c0 := addEventHandler TheView {| _listeners := []; _events := [] |} in
  let w0 := {| model := m; view := ListView_initial;
               layout := ListViewLayout.new m;
               frames := AnimationFrames.new |} in
  let c1 := addEventHandler TheLayout c0 in
  let cw := acceptDimension dimension (c1, w0) in
  {| context := fst cw; widget := _scheduleRender (snd cw);
     subscribed := true |}.

(** [ListView.dispose]; [super.dispose()] disposes of the layout, which
    takes itself off the context. *)
Definition dispose (cw : Ctx * Widget) : Ctx * Widget :=
  let w := snd cw in
  let w' :=
    match _renderAnimationFrame (view w) with
    | Some h =>
        {| model := model w;
           view := set_renderAnimationFrame None (view w);
           layout := layout w;
           frames := AnimationFrames.retire h (frames w) |}
    | None => w
    end in
  (removeEventHandler sameWho TheLayout (fst cw), w').

(** The callback of [_scheduleRender]:
    [this._renderAnimationFrame = null; this._flushAccumulatedAndRenderNow()]. *)
Definition onFrame (fuel : nat) (now : Z) (cw : Ctx * Widget)
  : option (Completion unit * (Ctx * Widget)) :=
  let w := set_view (set_renderAnimationFrame None (view (snd cw))) (snd cw) in
  match ListView_flush fuel (fst cw) w with
  | None => None
  | Some f =>
      let w1 := world f in
      let (r, v) :=
        _render (model w1) (ListViewLayout.getRenderData (layout w1)) now
                (view w1) in
      Some (r, (ctx f, set_view v w1))
  end.

(** What can happen to a widget. *)
Inductive Action : Type :=
| Splice (start deleteCnt : Z) (items : list IListItem)
| Layout (dimension : IDimension)
| Scrolled (scrollTop : Z)
| Frame (h : Handle) (fuel : nat) (now : Z)
| Teardown.

Definition act (a : Action) (s : System) : option System :=
  match a with
  | Splice start deleteCnt items =>
      (* the application calls [vm.splice]; the widget hears the event *)
      let m := snd (splice start deleteCnt items (model (widget s))) in
      let w := set_model m (widget s) in
      if subscribed s then
        let cw := fold_left (fun cw e => acceptViewModelEvent e cw)
                            (fired (model (widget s)) m) (context s, w) in
        Some {| context := fst cw; widget := snd cw; subscribed := true |}
      else Some {| context := context s; widget := w; subscribed := false |}
  | Layout dimension =>
      (* [ListWidget.layout(dimension)] *)
      let cw := acceptDimension dimension (context s, widget s) in
      Some {| context := fst cw; widget := snd cw; subscribed := subscribed s |}
  | Scrolled y =>
      (* the scroll bar moves the scrollable, whose listener emits *)
      let l := layout (widget s) in
      let (sc, evs) := Scrollable.setScrollTop y (ListViewLayout._scrollable l) in
      let w := set_layout {| ListViewLayout._scrollable := sc;
                             ListViewLayout._layoutData :=
                               ListViewLayout._layoutData l |} (widget s) in
      let cw := fold_left (fun cw e => ListView_emitSoon (ScrollEvent e) cw)
                          evs (context s, w) in
      Some {| context := fst cw; widget := snd cw; subscribed := subscribed s |}
  | Frame h fuel now =>
      (* the scheduler runs an outstanding callback *)
      if existsb (Nat.eqb h) (AnimationFrames.outstanding (frames (widget s)))
      then
        let w := {| model := model (widget s); view := view (widget s);
                    layout := layout (widget s);
                    frames := AnimationFrames.retire h (frames (widget s)) |} in
        match onFrame fuel now (context s, w) with
        | Some (_, cw) =>
            Some {| context := fst cw; widget := snd cw;
                    subscribed := subscribed s |}
        | None => None
        end
      else None
  | Teardown =>
      (* [ListWidget.setModel] lets go of its view: [this._view.dispose()],
         then [disposeAll(this._modelDisposable)] *)
      let cw := dispose (context s, widget s) in
      Some {| context := fst cw; widget := snd cw; subscribed := false |}
  end.

Fixpoint run (actions : list Action) (s : System) : option System :=
  match actions with
  | [] => Some s
  | a :: actions' =>
      match act a s with
      | Some s' => run actions' s'
      | None => None
      end
  end.

(** A splice the spec calls valid. *)
Definition validSplice (start deleteCnt : Z) (m : ViewModel) : Prop :=
  0 <= start /\ 0 <= deleteCnt /\ start + deleteCnt <= len (_items m).

Definition validAction (a : Action) (s : System) : Prop :=
  match a with
  | Splice start deleteCnt _ => validSplice start deleteCnt (model (widget s))
  | _ => True
  end.

Fixpoint validRun (actions : list Action) (s : System) : Prop :=
  match actions with
  | [] => True
  | a :: actions' =>
      validAction a s /\
      match act a s with
      | Some s' => validRun actions' s'
      | None => True
      end
  end.

End ListWidget.

(** What the layout will have made of its index once it has heard the
    events of a queue. *)
Definition replay (q : list ListViewEvent) (l : ListViewLayout.t)
  : ListViewLayout.t :=
  fold_left (fun l e => match e with
                        | ItemsChangedEvent i => ListViewLayout.onItemsChanged i l
                        | _ => l
                        end) q l.

(** The events that [flush] hands to listeners. *)
Definition heard (e : ListViewEvent) : bool :=
  match e with
  | DimensionChangedEvent _ | ItemsChangedEvent _ => true
  | ScrollEvent _ | PlainEvent => false
  end.

(** How many events of a queue will be handed to listeners. *)
Definition pending (q : list ListViewEvent) : nat :=
  length (filter heard q).

(** The handles of the callbacks that are outstanding when the view holds
    [frame]. *)
Definition held (frame : option Handle) : list Handle :=
  match frame with
  | Some h => [h]
  | None => []
  end.

(** The scheduler and the view agree: the callbacks that are outstanding
    are the one the view holds a handle of, if any. *)
Definition scheduled (w : Widget) : Prop :=
  AnimationFrames.outstanding (frames w) = held (_renderAnimationFrame (view w)).

(** A call that emits a scroll event. *)
Definition emitsScroll (c : ContextCall Who) : Prop :=
  match c with
  | CallEmitSoon (ScrollEvent _) => True
  | _ => False
  end.

(** A computation keeps a relation when every run, returning or throwing,
    ends in a state related to the one it started from. *)
Definition keeps {S A} (R : S -> S -> Prop) (m : M S A) : Prop :=
  forall s, R s (snd (m s)).

(** The index, once it has heard the queue, holds the heights of the
    model. *)
Definition mirrors (s : System) : Prop :=
  PrefixSumComputer.values
    (ListViewLayout._layoutData
       (replay (_events (context s)) (layout (widget s))))
  = getAllHeights (model (widget s)).

(** The view and its layout are the listeners of the context. *)
Definition bound (s : System) : Prop :=
  _listeners (context s) = [TheView; TheLayout].

(** A method that leaves the model and the index alone and calls the
    context only to emit scroll events. *)
Definition calm (m : Method Who Widget) : Prop :=
  forall w,
    model (fst (m w)) = model w
    /\ ListViewLayout._layoutData (layout (fst (m w)))
       = ListViewLayout._layoutData (layout w)
    /\ Forall emitsScroll (snd (m w)).

(** The state of a flush in which the view and the layout listen, the model
    is [m], and the index will hold [D] once the queue has been heard. *)
Definition flushing (m : ViewModel) (D : PrefixSumComputer.t)
    (s : Flushing Who Widget) : Prop :=
  _listeners (ctx s) = [TheView; TheLayout]
  /\ model (world s) = m
  /\ ListViewLayout._layoutData (replay (_events (ctx s)) (layout (world s))) = D.

(** While the widget listens to the model, the view and the layout listen
    to the context and the index mirrors the model. *)
Definition inStep (s : System) : Prop :=
  subscribed s = true -> bound s /\ mirrors s.

Definition sampleItem : IListItem := {| getHeight := 25; render := [] |}.

Definition sampleDimension : IDimension :=
  {| dim_width := 500; dim_height := 500 |}.

Definition sampleActions : list Action :=
  [ Splice 1 1 [sampleItem; sampleItem];
    Layout {| dim_width := 300; dim_height := 40 |};
    Frame O 20 5000;
    Scrolled 30;
    Splice 0 2 [];
    Frame 1%nat 20 5016 ].

(** A line whose markup has been written. *)
Definition clean (line : ViewItem) : ViewItem :=
  {| _isDirty := false; _domNode := _domNode line |}.

(** The line at index [k] of the window of [v] is rendered and not dirty. *)
Definition cleanAt (v : ListView) (k : nat) (line : ViewItem) : Prop :=
  nth_error (_renderedItems v) k = Some line /\ _isDirty line = false.

(** The line at index [k] of the window of [v] is dirty, and [l] is its line
    number. *)
Definition dirtyLine (v : ListView) (l : Z) : Prop :=
  exists k line,
    nth_error (_renderedItems v) k = Some line
    /\ _isDirty line = true
    /\ l = Z.of_nat k + _renderedItemsStart v.

(** A render pass creates nodes but never rewrites the content or the
    scroll stamp of a node that existed before it. *)
Definition contentKept (v v' : ListView) : Prop :=
  (created v <= created v')%nat
  /\ forall n, (n < created v)%nat ->
       innerHTML (nodes v' n) = innerHTML (nodes v n)
       /\ attr_lastScrollTime (nodes v' n) = attr_lastScrollTime (nodes v n).

(** The line at index [k] of the window of [v] is dirty. *)
Definition dirtyIn (v : ListView) (k : nat) : Prop :=
  exists line,
    nth_error (_renderedItems v) k = Some line /\ _isDirty line = true.

(** What the finishing of a render pass may have done to the lines and the
    log of [v0]: lines that were not dirty are as they were, node and all;
    no line has become dirty; the model's [render] was called for lines
    that were dirty only. *)
Definition finishes (v0 v : ListView) : Prop :=
  _renderedItemsStart v = _renderedItemsStart v0
  /\ length (_renderedItems v) = length (_renderedItems v0)
  /\ (forall k line, cleanAt v0 k line -> cleanAt v k line)
  /\ (forall k, dirtyIn v k -> dirtyIn v0 k)
  /\ exists L, renderCalls v = renderCalls v0 ++ L
               /\ forall l, In l L -> dirtyLine v0 l.

(** The lines and the log of a view. *)
Definition linesAndLog (v : ListView) : list ViewItem * Z * list Z :=
  (_renderedItems v, _renderedItemsStart v, renderCalls v).

(** What holds of the result of a run: [Q] of the value and the state when
    it returns, [E] of the state when it throws. *)
Definition outcome {S A} (r : Completion A * S) (Q : A -> S -> Prop)
    (E : S -> Prop) : Prop :=
  match r with
  | (Normal a, s) => Q a s
  | (Throw _, s) => E s
  end.

(** The block of [_render] that makes the window begin at [startItem]:
    lines are inserted before it or removed from its front.  [v] is the view
    as [_render] found it. *)
Definition alignStart (startItem endItem : Z) (v : ListView) : M ListView unit :=
  if _renderedItemsStart v >? startItem then
    let fromLineNumber := startItem in
    let toLineNumber := Z.min endItem (_renderedItemsStart v - 1) in
    if fromLineNumber <=? toLineNumber then
      bind (_insertLinesBefore fromLineNumber toLineNumber) (fun _ =>
      bind get (fun v1 =>
      match _scrollDomNode v1 with
      | Some n =>
          if _scrollDomNodeIsAbove v1 then
            bind (detach n) (fun _ => modify (set_scrollDomNode None))
          else ret tt
      | None => ret tt
      end))
    else ret tt
  else if _renderedItemsStart v <? startItem then
    let removeCnt := Z.min (len (_renderedItems v))
                           (startItem - _renderedItemsStart v) in
    if removeCnt >? 0 then _removeLinesBefore removeCnt else ret tt
  else ret tt.

(** The block of [_render] that makes the window end at [endItem]; [v2] is
    the view once the window begins at [startItem]. *)
Definition alignEnd (endItem : Z) (v2 : ListView) : M ListView unit :=
  if _renderedItemsStart v2 + len (_renderedItems v2) - 1 <? endItem then
    let fromLineNumber := _renderedItemsStart v2 + len (_renderedItems v2) in
    let toLineNumber := endItem in
    if fromLineNumber <=? toLineNumber then
      bind (_insertLinesAfter fromLineNumber toLineNumber) (fun _ =>
      bind get (fun v3 =>
      match _scrollDomNode v3 with
      | Some n =>
          if negb (_scrollDomNodeIsAbove v3) then
            bind (detach n) (fun _ => modify (set_scrollDomNode None))
          else ret tt
      | None => ret tt
      end))
    else ret tt
  else if _renderedItemsStart v2 + len (_renderedItems v2) - 1 >? endItem then
    let fromLineNumber := Z.max 0 (endItem - _renderedItemsStart v2 + 1) in
    let toLineNumber := len (_renderedItems v2) - 1 in
    let removeCnt := toLineNumber - fromLineNumber + 1 in
    if removeCnt >? 0 then _removeLinesAfter removeCnt else ret tt
  else ret tt.

(** The test of [_render] for a window that shares no line with the wanted
    range and may be thrown away. *)
Definition noOverlap (renderData : IRenderData) (now : Z) (v : ListView) : bool :=
  match _scrollDomNode v with
  | Some n => negb (now - _getScrollDomNodeTime n v <? 1000)
  | None => true
  end
  && ((_renderedItemsStart v + len (_renderedItems v) - 1
       <? rd_startIndex renderData)
      || (rd_startIndex renderData + len (rd_tops renderData) - 1
          <? _renderedItemsStart v)).

(** A line of the window during a render pass that began in [v]: at line
    number [l] stands either the line that [v] had there, or a new line where
    [v] had none. *)
Definition keptOrNew (v : ListView) (l : Z) (line : ViewItem) : Prop :=
  (exists j, l = _renderedItemsStart v + Z.of_nat j
             /\ nth_error (_renderedItems v) j = Some line)
  \/ (line = ViewItem_new
      /\ ~ (_renderedItemsStart v <= l
            < _renderedItemsStart v + len (_renderedItems v))).

(** The window of [v1] is that of [v] moved: every line stands at its old
    line number or is new, and nothing was rendered meanwhile. *)
Definition aligned (v v1 : ListView) : Prop :=
  renderCalls v1 = renderCalls v
  /\ forall i line,
       nth_error (_renderedItems v1) i = Some line ->
       keptOrNew v (_renderedItemsStart v1 + Z.of_nat i) line.

(** The window once it begins at [startItem]: aligned up to [endItem], and
    if it ends before [endItem], it ends where the window of [v] ended or
    later. *)
Definition startAligned (v : ListView) (startItem endItem : Z)
    (items : list ViewItem) : Prop :=
  (forall i line,
      nth_error items i = Some line ->
      startItem + Z.of_nat i <= endItem ->
      keptOrNew v (startItem + Z.of_nat i) line)
  /\ (startItem + len items - 1 < endItem ->
      _renderedItemsStart v + len (_renderedItems v) <= startItem + len items).

(** The line of a new window whose node is the [k]-th node created after
    [c] nodes. *)
Definition adopted (c k : nat) : ViewItem :=
  {| _isDirty := false; _domNode := Some (c + k)%nat |}.

(** The lines and the log are as they were. *)
Definition sameLines (a b : ListView) : Prop := linesAndLog b = linesAndLog a.

(** The node on which line [i] of the window stands. *)
Definition nodeAt (v : ListView) (i : Z) : option Handle :=
  match at_ (_renderedItems v) i with
  | Some line => _domNode line
  | None => None
  end.

(** No two lines of the window stand on one node. *)
Definition distinctNodes (v : ListView) : Prop :=
  forall i j n, nodeAt v i = Some n -> nodeAt v j = Some n -> i = j.

(** The nodes of the lines are nodes that the surface has made. *)
Definition known (v : ListView) : Prop :=
  forall i n, nodeAt v i = Some n -> (n < created v)%nat.

(** A node that shows line [l] where the render data put it: it carries the
    line number, the top that [tops] has for the line, and the cached height
    of the item. *)
Definition placed (m : ViewModel) (renderData : IRenderData) (l : Z)
    (d : DomNode) : Prop :=
  attr_lineNumber d = l
  /\ at_ (rd_tops renderData) (l - rd_startIndex renderData)
     = Some (style_top d)
  /\ option_map cachedHeight (at_ (_items m) l) = Some (style_height d).

(** Nothing but attributes of nodes was written. *)
Definition restyled (a b : ListView) : Prop :=
  _renderedItems b = _renderedItems a
  /\ _renderedItemsStart b = _renderedItemsStart a
  /\ created b = created a.

(** No node that existed was written. *)
Definition stylesKept (a b : ListView) : Prop :=
  (created a <= created b)%nat
  /\ forall n, (n < created a)%nat -> nodes b n = nodes a n.

(** ** Bounds of the scrollable *)

(** The bounds that the setters of [Scrollable] keep: the viewport is not
    larger than the content and lies inside it, in both directions. *)
Definition inBounds (s : Scrollable.t) : Prop :=
  0 <= Scrollable.width s <= Scrollable.scrollWidth s
  /\ 0 <= Scrollable.scrollLeft s
     <= Scrollable.scrollWidth s - Scrollable.width s
  /\ 0 <= Scrollable.height s <= Scrollable.scrollHeight s
  /\ 0 <= Scrollable.scrollTop s
     <= Scrollable.scrollHeight s - Scrollable.height s.

(** [x] brought into [lo .. hi], as the position setters do it: first up to
    [lo], then down to [hi]. *)
Definition clamp (lo hi x : Z) : Z := Z.min (Z.max x lo) hi.

(** The scroll events that a move from [before] to [after] fires: none when
    the position is the same, else one that carries the new position. *)
Definition scrolledLeft (before after : Scrollable.t) : list IScrollEvent :=
  if Scrollable.scrollLeft before =? Scrollable.scrollLeft after then []
  else [{| vertical := false; horizontal := true;
           ev_scrollTop := Scrollable.scrollTop after;
           ev_scrollLeft := Scrollable.scrollLeft after |}].

Definition scrolledTop (before after : Scrollable.t) : list IScrollEvent :=
  if Scrollable.scrollTop before =? Scrollable.scrollTop after then []
  else [{| vertical := true; horizontal := false;
           ev_scrollTop := Scrollable.scrollTop after;
           ev_scrollLeft := Scrollable.scrollLeft after |}].


(** ** Sequences of splices *)

(** One call of [splice]: its start, its delete count and the new
    entries. *)
Record SpliceCall : Type := {
  call_start : Z;
  call_deleteCnt : Z;
  call_items : list IListItem
}.

(** The calls of a list, one after the other. *)
Definition spliceAll (calls : list SpliceCall) : M ViewModel unit :=
  forEach calls (fun c =>
    splice (call_start c) (call_deleteCnt c) (call_items c)).

(** The event that a call fires when the model has version [v - 1]. *)
Definition eventOf (v : Z) (c : SpliceCall) : ViewModelChangedEvent.t :=
  ViewModelChangedEvent.new v (call_start c) (call_deleteCnt c)
    (map getHeight (call_items c)).

(** The events of a list of calls, the first of which has version [v]. *)
Fixpoint eventsFrom (v : Z) (calls : list SpliceCall)
  : list ViewModelChangedEvent.t :=
  match calls with
  | [] => []
  | c :: calls' => eventOf v c :: eventsFrom (v + 1) calls'
  end.

(** How many times a listener stands in the list of the context: every
    event is handed to it as many times. *)
Definition registrations {Listener} (same : Listener -> Listener -> bool)
    (h : Listener) (c : ListViewContext Listener) : nat :=
  length (filter (fun x => same x h) (_listeners c)).

(** ** The phases of [ListView.onItemsChanged] *)

(** The loop over the changed run: the lines of the window that show a
    changed item become dirty. *)
Definition markChanged (e : ListViewItemsChangedEvent.t) : M ListView unit :=
  forEach (fromTo 0 (len (ListViewItemsChangedEvent.changed e) - 1))
    (fun i =>
       bind get (fun v =>
       let changedIndex := ListViewItemsChangedEvent.changedStart e + i in
       let myIndex := changedIndex - _renderedItemsStart v in
       if myIndex <? 0 then ret tt
       else if myIndex >=? len (_renderedItems v) then ret tt
       else modifyLine (Z.to_nat myIndex) onChanged)).

(** The block that moves the start of the window when lines were deleted
    above it; [v] is the view after the loop over the changed run. *)
Definition adjustStart (e : ListViewItemsChangedEvent.t) (v : ListView)
  : M ListView unit :=
  let deleteStart := ListViewItemsChangedEvent.deleteStart e in
  let deleteCnt := ListViewItemsChangedEvent.deleteCnt e in
  if deleteStart <? _renderedItemsStart v then
    if deleteStart + deleteCnt - 1 <? _renderedItemsStart v then
      modify (set_renderedItemsStart
                (_renderedItemsStart v
                 - (deleteStart + deleteCnt - 1 - deleteStart + 1)))
    else
      modify (set_renderedItemsStart deleteStart)
  else ret tt.

(** The block that takes the deleted lines out of the window and their
    nodes off the surface; [from] and [to] were computed from [v]. *)
Definition removeDeleted (e : ListViewItemsChangedEvent.t) (v : ListView)
  : M ListView unit :=
  let deleteStart := ListViewItemsChangedEvent.deleteStart e in
  let deleteCnt := ListViewItemsChangedEvent.deleteCnt e in
  let from := Z.max (deleteStart - _renderedItemsStart v) 0 in
  let to := Z.min (deleteStart + deleteCnt - 1 - _renderedItemsStart v)
                  (len (_renderedItems v) - 1) in
  if from <=? to then
    bind (forEach (fromTo from to) (fun i =>
            bind (lineDomNode i) (fun node =>
            match node with
            | Some n => removeChild n
            | None => ret tt
            end))) (fun _ =>
    modify (fun v => set_renderedItems
                       (spliceOut (_renderedItems v) from (to - from + 1)) v))
  else ret tt.

(** The block that handles the inserted remainder. *)
Definition placeInserted (e : ListViewItemsChangedEvent.t) : M ListView unit :=
  bind get (fun v =>
  let insertStart := ListViewItemsChangedEvent.insertStart e in
  let inserted := ListViewItemsChangedEvent.inserted e in
  if insertStart <=? _renderedItemsStart v then
    modify (set_renderedItemsStart
              (_renderedItemsStart v
               + (insertStart + len inserted - 1 - insertStart + 1)))
  else if insertStart >=? _renderedItemsStart v + len (_renderedItems v) then
    ret tt
  else
    let insertFrom := Z.min (insertStart - _renderedItemsStart v)
                            (len (_renderedItems v) - 1) in
    let insertTo := Z.min (insertStart + len inserted - 1 - _renderedItemsStart v)
                          (len (_renderedItems v) - 1) in
    if insertFrom <=? insertTo then
      bind (forEach (fromTo insertFrom insertTo) (fun i =>
              modify (fun v => set_renderedItems
                                 (spliceIn (_renderedItems v) i _createLine) v)))
           (fun _ =>
      let insertCount := insertTo - insertFrom + 1 in
      forEach (fromTo 0 (insertCount - 1)) (fun _ => popLine))
    else ret tt).

(** The event that the view hears for a call [splice(start, deleteCnt, _)]
    whose new entries have the heights [heights]. *)
Definition heardFor (version start deleteCnt : Z) (heights : list Z)
  : ListViewItemsChangedEvent.t :=
  ListViewItemsChangedEvent.new
    (ViewModelChangedEvent.new version start deleteCnt heights).

(** What [onItemsChanged] of the view never writes: the nodes and their
    number, the log of the model's [render], the retained node and the
    handle of the rendering callback. *)
Definition surfaceKept (a b : ListView) : Prop :=
  nodes b = nodes a
  /\ created b = created a
  /\ renderCalls b = renderCalls a
  /\ _scrollDomNode b = _scrollDomNode a
  /\ _scrollDomNodeIsAbove b = _scrollDomNodeIsAbove a
  /\ _renderAnimationFrame b = _renderAnimationFrame a
  /\ incl (_listItemsDomNode b) (_listItemsDomNode a).

(** A line of the window after a change, given the line that was there:
    dirty if its line number [l] is in the changed run. *)
Definition changedAt (start n l : Z) (line : ViewItem) : ViewItem :=
  if (start <=? l) && (l <? start + n) then onChanged line else line.


(** Which lines of the window are dirty, in order. *)
Definition dirt (v : ListView) : list bool := map _isDirty (_renderedItems v).

(** The nodes of the lines at the indices [l] of a window, in the order of
    [l]; a line without a node gives none. *)
Definition lineNodes (items : list ViewItem) (l : list Z) : list Handle :=
  flat_map (fun i => match at_ items i with
                     | Some line => match _domNode line with
                                    | Some n => [n]
                                    | None => []
                                    end
                     | None => []
                     end) l.

(** The children that are left when the nodes [ns] have been removed one
    after the other. *)
Definition removeAll (ns : list Handle) (children : list Handle)
  : list Handle :=
  fold_left (fun l n => without n l) ns children.

(** ** Well-formed views *)

(** The node of a line, if it has one, and the nodes of a run of lines. *)
Definition nodeOf (line : ViewItem) : list Handle :=
  match _domNode line with
  | Some n => [n]
  | None => []
  end.

Definition nodesOf (lines : list ViewItem) : list Handle :=
  flat_map nodeOf lines.

(** The nodes [live] are sound in [v]: no node twice, each one a child of
    the surface and made by it, and none of them the retained node, which
    the surface made as well. *)
Definition sound (live : list Handle) (v : ListView) : Prop :=
  NoDup live
  /\ incl live (_listItemsDomNode v)
  /\ Forall (fun n => (n < created v)%nat) live
  /\ forall n, _scrollDomNode v = Some n ->
       ~ In n live /\ (n < created v)%nat.

(** A view is well formed when the nodes of its lines are sound. *)
Definition wellFormed (v : ListView) : Prop :=
  sound (nodesOf (_renderedItems v)) v.

(** What the moving of the window reads and writes, apart from the
    attributes of nodes and the log. *)
Definition shape (v : ListView)
  : list ViewItem * Z * list Handle * option Handle * bool * nat :=
  (_renderedItems v, _renderedItemsStart v, _listItemsDomNode v,
   _scrollDomNode v, _scrollDomNodeIsAbove v, created v).

(** The range of the render data lies inside the model. *)
Definition inModel (m : ViewModel) (renderData : IRenderData) : Prop :=
  0 <= rd_startIndex renderData
  /\ rd_startIndex renderData + len (rd_tops renderData) <= len (_items m).

(** What the removal of a line's node keeps and what it may change. *)
Definition moved (v v' : ListView) : Prop :=
  _renderedItems v' = _renderedItems v
  /\ _renderedItemsStart v' = _renderedItemsStart v
  /\ created v' = created v.


(** A line that [_finishRendering] takes for new: dirty and without a
    node; and one it takes for invalid: dirty and with a node. *)
Definition isNew (line : ViewItem) : bool :=
  _isDirty line && match _domNode line with None => true | Some _ => false end.

Definition isInvalid (line : ViewItem) : bool :=
  _isDirty line && match _domNode line with Some _ => true | None => false end.

(** The indices, from [p] on, of the lines that pass a test: what the first
    loop of [_finishRendering] marks in [wasNew] and [wasInvalid]. *)
Fixpoint indicesWhere (f : ViewItem -> bool) (p : nat) (lines : list ViewItem)
  : list nat :=
  match lines with
  | [] => []
  | line :: rest =>
      (if f line then [p] else []) ++ indicesWhere f (S p) rest
  end.

(** The lines once those that are flagged stand on the nodes [c], [c + 1],
    ... in their order. *)
Fixpoint assign (fl : list bool) (c : nat) (lines : list ViewItem)
  : list ViewItem :=
  match fl, lines with
  | true :: fl', line :: rest =>
      setDomNode (Some c) line :: assign fl' (S c) rest
  | false :: fl', line :: rest => line :: assign fl' c rest
  | _, _ => lines
  end.

Definition count (fl : list bool) : nat := length (filter (fun b => b) fl).

(** The lines whose flag is [want]. *)
Fixpoint pick (want : bool) (fl : list bool) (lines : list ViewItem)
  : list ViewItem :=
  match fl, lines with
  | b :: fl', line :: rest =>
      if Bool.eqb b want then line :: pick want fl' rest
      else pick want fl' rest
  | _, _ => []
  end.

(** The markup that the first loop of [_finishRendering] gathers for the
    line at index [i] of a window that begins at [start]: it carries the
    line number, the top that [tops] has at [i], the cached height of the
    item and what the item renders. *)
Definition rendersAs (m : ViewModel) (tops : list Z) (start : Z) (i : nat)
    (h : LineHTML) : Prop :=
  exists it,
    at_ (_items m) (Z.of_nat i + start) = Some it
    /\ html_lineNumber h = Z.of_nat i + start
    /\ at_ tops (Z.of_nat i) = Some (html_top h)
    /\ html_height h = cachedHeight it
    /\ html_content h = render (actual it).

(** A node that shows line [l]: it is placed for the line and its content
    is what the item of the model at [l] renders. *)
Definition shows (m : ViewModel) (renderData : IRenderData) (l : Z)
    (d : DomNode) : Prop :=
  placed m renderData l d
  /\ option_map (fun it => render (actual it)) (at_ (_items m) l)
     = Some (innerHTML d).

(** Every line of the window that is not dirty stands on a node, and the
    content of the node is what the item at the line's number renders. *)
Definition upToDate (m : ViewModel) (v : ListView) : Prop :=
  forall i line,
    nth_error (_renderedItems v) i = Some line ->
    _isDirty line = false ->
    exists n,
      _domNode line = Some n
      /\ forall it,
           at_ (_items m) (_renderedItemsStart v + Z.of_nat i) = Some it ->
           innerHTML (nodes v n) = render (actual it).

(** The surface has the nodes it had, with the attributes they had. *)
Definition sameStore (a b : ListView) : Prop :=
  nodes b = nodes a /\ created b = created a.

(** What the items of the model render, by line number. *)
Definition contentOf (m : ViewModel) (l : Z) : option (list String.string) :=
  option_map (fun it => render (actual it)) (at_ (_items m) l).

(** Every line of the window that is not dirty stands on a node whose
    content is what [c] has for the number of the line, if it has
    something. *)
Definition shown (c : Z -> option (list String.string)) (v : ListView)
  : Prop :=
  forall i line,
    nth_error (_renderedItems v) i = Some line ->
    _isDirty line = false ->
    exists n,
      _domNode line = Some n
      /\ forall x, c (_renderedItemsStart v + Z.of_nat i) = Some x ->
                   innerHTML (nodes v n) = x.

(** The window of [v'] follows that of [v] when the content by line number
    goes from [c] to [c']: a line of [v'] that is not dirty is a line of
    [v], and what [c'] has at its new number is what [c] had at its old
    one. *)
Definition follows (c c' : Z -> option (list String.string))
    (v v' : ListView) : Prop :=
  forall i' line,
    nth_error (_renderedItems v') i' = Some line ->
    _isDirty line = false ->
    exists i,
      nth_error (_renderedItems v) i = Some line
      /\ c' (_renderedItemsStart v' + Z.of_nat i')
         = c (_renderedItemsStart v + Z.of_nat i).

(** An event that changes no item. *)
Definition idle (e : ListViewEvent) : Prop :=
  match e with
  | ItemsChangedEvent _ => False
  | _ => True
  end.

(** The changes that wait in a queue lead from the items of one model to
    those of another: every event of a change of items in the queue is the
    event of a valid splice, and the splices, in the order of the queue,
    make the items of [m] out of those of [m0]. *)
Inductive awaits : ViewModel -> list ListViewEvent -> ViewModel -> Prop :=
| awaits_nil (m0 m : ViewModel) :
    _items m0 = _items m -> awaits m0 [] m
| awaits_idle (m0 m : ViewModel) (e : ListViewEvent)
    (q : list ListViewEvent) :
    idle e -> awaits m0 q m -> awaits m0 (e :: q) m
| awaits_splice (m0 m : ViewModel) (version start del : Z)
    (items : list IListItem) (q : list ListViewEvent) :
    validSplice start del m0 ->
    awaits (snd (splice start del items m0)) q m ->
    awaits m0
      (ItemsChangedEvent (heardFor version start del (map getHeight items))
       :: q) m.

(** The view is well formed and up to date for the model [m0]. *)
Definition ready (m0 : ViewModel) (v : ListView) : Prop :=
  wellFormed v /\ upToDate m0 v.

(** The state of a flush in which the view and the layout listen, the model
    is [m], and the view is well formed and up to date for the model as it
    was before the changes that wait in the queue. *)
Definition syncing (m : ViewModel) (s : Flushing Who Widget) : Prop :=
  _listeners (ctx s) = [TheView; TheLayout]
  /\ model (world s) = m
  /\ wellFormed (view (world s))
  /\ exists m0,
       upToDate m0 (view (world s)) /\ awaits m0 (_events (ctx s)) m.

(** While the widget listens to the model, its view is well formed and up
    to date for the model as it was before the changes that wait in the
    queue. *)
Definition inSync (s : System) : Prop :=
  subscribed s = true ->
  wellFormed (view (widget s))
  /\ exists m0,
       upToDate m0 (view (widget s))
       /\ awaits m0 (_events (context s)) (model (widget s)).

(** A method that leaves the model and the view alone and calls the context
    only to emit scroll events. *)
Definition still (meth : Method Who Widget) : Prop :=
  forall w,
    model (fst (meth w)) = model w
    /\ view (fst (meth w)) = view w
    /\ Forall emitsScroll (snd (meth w)).

(** ** Sample states *)

Definition twoItems : ViewModel :=
  ViewModel_new [ {| getHeight := 20; render := [] |};
                  {| getHeight := 30; render := [] |} ].

(** Three items of height 10 in a viewport of height 10, scrolled to the
    top. *)
Definition threeTens : ListViewLayout.t :=
  {| ListViewLayout._scrollable :=
       {| Scrollable.scrollTop := 0; Scrollable.scrollLeft := 0;
          Scrollable.scrollWidth := 0; Scrollable.scrollHeight := 30;
          Scrollable.width := 0; Scrollable.height := 10 |};
     ListViewLayout._layoutData := PrefixSumComputer.new [10; 10; 10] |}.


(** A model of 503 items of height 10. *)
Definition longModel : ViewModel :=
  ViewModel_new (repeat {| getHeight := 10; render := [] |} 503).

(** A view of lines 0 to 2 on nodes 1, 2 and 3, with node 9 retained above
    them.  Node 9 was last scrolled over at time 4990 and node 3 at time
    4995. *)
Definition scrolledView : ListView :=
  {| _renderAnimationFrame := None;
     _renderedItems :=
       [ {| _isDirty := false; _domNode := Some 1%nat |};
         {| _isDirty := false; _domNode := Some 2%nat |};
         {| _isDirty := false; _domNode := Some 3%nat |} ];
     _renderedItemsStart := 0;
     _scrollDomNode := Some 9%nat;
     _scrollDomNodeIsAbove := true;
     _listItemsDomNode := [9; 1; 2; 3]%nat;
     nodes := fun n =>
       {| attr_lineNumber := Z.of_nat n - 1;
          style_top := 10 * (Z.of_nat n - 1);
          style_height := 10; innerHTML := [];
          attr_lastScrollTime :=
            if Nat.eqb n 9 then Some 4990
            else if Nat.eqb n 3 then Some 4995 else None |};
     created := 10%nat;
     renderCalls := [] |}.


(** What the layout returns once the model is empty. *)
Definition nothingToShow : IRenderData :=
  {| rd_startIndex := 0; rd_tops := [];
     rd_width := 300; rd_height := 30;
     rd_scrollLeft := 0; rd_scrollTop := 0;
     rd_scrollWidth := 300; rd_scrollHeight := 0 |}.

(** What the layout returns once the viewport has moved down by one line
    from the top. *)
Definition oneDown : IRenderData :=
  {| rd_startIndex := 1; rd_tops := [10; 20; 30];
     rd_width := 300; rd_height := 30;
     rd_scrollLeft := 0; rd_scrollTop := 10;
     rd_scrollWidth := 300; rd_scrollHeight := 5030 |}.

(** Two listeners, 1 and 2, on a world without state.  On a change of
    dimension listener 1 takes listener 2 off the context and emits a plain
    event; nothing else is done by either. *)
Definition meddling (h : nat) (d : IDimension) : Method nat unit :=
  fun w =>
    (w, if Nat.eqb h 1
        then [CallRemoveEventHandler 2%nat; CallEmitSoon PlainEvent]
        else []).

Definition silent (h : nat) : Method nat unit := fun w => (w, []).

Definition flushMeddling (fuel : nat) (c : ListViewContext nat)
  : option (Flushing nat unit) :=
  flush Nat.eqb (fun w => w) silent meddling (fun h _ => silent h) silent
        fuel c tt.

Definition oneResize : ListViewContext nat :=
  {| _listeners := [1; 2]%nat;
     _events := [DimensionChangedEvent sampleDimension] |}.

(** A scrollable scrolled to the end of a content of height 100 in a
    viewport of height 40. *)
Definition sampleScrollable : Scrollable.t :=
  {| Scrollable.scrollTop := 60; Scrollable.scrollLeft := 0;
     Scrollable.scrollWidth := 300; Scrollable.scrollHeight := 100;
     Scrollable.width := 300; Scrollable.height := 40 |}.


(** * Properties *)

(** ** Facts on slices *)

Lemma relativeIndex_nonneg n i : 0 <= i -> relativeIndex n i = Z.min i n.
Proof. unfold relativeIndex. intros H. destruct (Z.ltb_spec i 0); lia. Qed.

Lemma slice_0 {A} (a : list A) (e : Z) :
  0 <= e -> slice a 0 e = firstn (Z.to_nat e) a.
Proof.
  intros H. unfold slice.
  rewrite !relativeIndex_nonneg by lia.
  replace (Z.min 0 (len a)) with 0 by lia. simpl.
  rewrite Z.sub_0_r.
  destruct (Z.le_ge_cases e (len a)).
  - now rewrite Z.min_l by lia.
  - rewrite Z.min_r by lia. rewrite Nat2Z.id.
    rewrite !firstn_all2; auto; lia.
Qed.

Lemma sliceFrom_nonneg {A} (a : list A) (s : Z) :
  0 <= s -> sliceFrom a s = skipn (Z.to_nat s) a.
Proof.
  intros H. unfold sliceFrom. rewrite relativeIndex_nonneg by lia.
  destruct (Z.le_ge_cases s (len a)).
  - now rewrite Z.min_l by lia.
  - rewrite Z.min_r by lia. rewrite Nat2Z.id.
    rewrite !skipn_all2; auto; lia.
Qed.

Lemma len_firstn {A} (a : list A) (n : Z) :
  0 <= n -> len (firstn (Z.to_nat n) a) = Z.min n (len a).
Proof. intros H. rewrite length_firstn. lia. Qed.

(** ** The decomposition law *)

Import ListViewItemsChangedEvent.

(** The decomposition of an event whose delete count is not negative, in
    closed form. *)
Lemma new_explicit (v s dc : Z) (ins : list Z) :
  0 <= dc ->
  ListViewItemsChangedEvent.new (ViewModelChangedEvent.new v s dc ins) =
  {| versionId := v;
     changedStart := s;
     changed := firstn (Z.to_nat (Z.min dc (len ins))) ins;
     insertStart := s + Z.min dc (len ins);
     inserted := skipn (Z.to_nat (Z.min dc (len ins))) ins;
     deleteStart := s + Z.min dc (len ins);
     deleteCnt := dc - Z.min dc (len ins) |}.
Proof.
  intros Hdc. unfold ListViewItemsChangedEvent.new. simpl.
  set (c := Z.min dc (len ins)).
  assert (Hc : 0 <= c) by (unfold c; lia).
  rewrite (slice_0 ins Hc).
  assert (Hl : len (firstn (Z.to_nat c) ins) = c)
    by (rewrite len_firstn by lia; unfold c; lia).
  now rewrite Hl, (sliceFrom_nonneg ins Hc).
Qed.

(** C1.  For a change event whose delete count is not negative, the
    decomposition starts its changed run at [start], makes it
    [min(deleteCnt, |inserted|)] long, anchors the inserted and the deleted
    remainders right after it, and loses nothing: the changed run followed by
    the inserted remainder is the original list of inserted heights, and the
    changed length plus the remaining delete count is the original delete
    count. *)
Theorem decomposition_law (e : ViewModelChangedEvent.t) :
  0 <= ViewModelChangedEvent.deleteCnt e ->
  let d := ListViewItemsChangedEvent.new e in
  changedStart d = ViewModelChangedEvent.start e
  /\ len (changed d) =
       Z.min (ViewModelChangedEvent.deleteCnt e)
             (len (ViewModelChangedEvent.inserted e))
  /\ insertStart d = ViewModelChangedEvent.start e + len (changed d)
  /\ deleteStart d = ViewModelChangedEvent.start e + len (changed d)
  /\ len (changed d) + len (inserted d) = len (ViewModelChangedEvent.inserted e)
  /\ len (changed d) + deleteCnt d = ViewModelChangedEvent.deleteCnt e
  /\ changed d ++ inserted d = ViewModelChangedEvent.inserted e
  /\ versionId d = ViewModelChangedEvent.versionId e.
Proof.
  destruct e as [v s dc ins].
  cbn [ViewModelChangedEvent.start ViewModelChangedEvent.deleteCnt
       ViewModelChangedEvent.inserted ViewModelChangedEvent.versionId].
  intros Hdc. rewrite (new_explicit v s ins Hdc). cbv zeta.
  cbn [versionId changedStart changed insertStart inserted deleteStart
       deleteCnt].
  set (c := Z.min dc (len ins)).
  assert (Hl : len (firstn (Z.to_nat c) ins) = c)
    by (rewrite len_firstn by (unfold c; lia); unfold c; lia).
  rewrite Hl. repeat split; try lia.
  - rewrite length_skipn. unfold c. lia.
  - apply firstn_skipn.
Qed.

Lemma decomposition_law_witness :
  let e := ViewModelChangedEvent.new 2 5 3 [20; 30; 25; 35; 21] in
  let d := ListViewItemsChangedEvent.new e in
  0 <= ViewModelChangedEvent.deleteCnt e /\ changedStart d = 5 /\ len (changed d) = 3 /\ insertStart d = 8
  /\ deleteStart d = 8 /\ len (changed d) + len (inserted d) = 5
  /\ len (changed d) + deleteCnt d = 3
  /\ changed d ++ inserted d = [20; 30; 25; 35; 21]
  /\ versionId d = 2.
Proof.
  split; [simpl; lia|].
  apply (decomposition_law (ViewModelChangedEvent.new 2 5 3 [20; 30; 25; 35; 21])).
  simpl. lia.
Defined.

(** The scenario of the spec: a splice of 1000 heights over 50 deleted
    items at index 5. *)
Example decomposition_scenario :
  let d := ListViewItemsChangedEvent.new
             (ViewModelChangedEvent.new 2 5 50 (repeat 20 1000)) in
  (changedStart d, len (changed d), insertStart d, deleteStart d,
   len (inserted d), deleteCnt d) = (5, 50, 55, 55, 950, 0).
Proof. vm_compute. reflexivity. Qed.

(** ** Splice *)

Lemma map_cachedHeight_toMyItems (items : list IListItem) :
  map cachedHeight (_toMyItems items) = map getHeight items.
Proof. unfold _toMyItems. rewrite map_map. reflexivity. Qed.

(** C2, as the code has it.  Whatever the arguments, also out of range,
    [splice] returns without an error, adds one to the version, fires one
    event that carries the arguments as given, and leaves the items
    [slice(0, start)], the new entries and [slice(start + deleteCnt)]. *)
Theorem splice_never_throws (start deleteCnt : Z) (newItems : list IListItem)
    (vm : ViewModel) :
  splice start deleteCnt newItems vm =
  (Normal tt,
   {| _items := (slice (_items vm) 0 start ++ _toMyItems newItems)
                ++ sliceFrom (_items vm) (start + deleteCnt);
      _versionId := _versionId vm + 1;
      _onDidChange :=
        _onDidChange vm ++
        [ViewModelChangedEvent.new (_versionId vm + 1) start deleteCnt
           (map getHeight newItems)] |}).
Proof.
  unfold splice. now rewrite map_cachedHeight_toMyItems.
Qed.

(** C2 fails on the code: a splice that starts beyond the end of a model of
    two items does not raise [RangeError]; it returns, the version moves from
    1 to 2 and an event is fired. *)
Lemma splice_out_of_range_returns :
  5 > len (_items twoItems)
  /\ fst (splice 5 0 [] twoItems) <> Throw RangeError
  /\ fst (splice 5 0 [] twoItems) = Normal tt
  /\ _versionId (snd (splice 5 0 [] twoItems)) = 2
  /\ _onDidChange (snd (splice 5 0 [] twoItems)) =
       [ViewModelChangedEvent.new 2 5 0 []].
Proof.
  repeat split; try reflexivity; try discriminate.
Qed.

(** C10.  With a start and a delete count that are not negative, [splice]
    returns normally even when they reach beyond the end: the items become
    the first [min(start, length)] old items, the new entries, and the old
    items from [min(start + deleteCnt, length)] on; the version grows by one;
    one event is fired and it carries [start] and [deleteCnt] unclamped. *)
Theorem splice_clamps (start deleteCnt : Z) (newItems : list IListItem)
    (vm : ViewModel) :
  0 <= start -> 0 <= deleteCnt ->
  let L := len (_items vm) in
  fst (splice start deleteCnt newItems vm) = Normal tt
  /\ _items (snd (splice start deleteCnt newItems vm)) =
       firstn (Z.to_nat (Z.min start L)) (_items vm)
       ++ _toMyItems newItems
       ++ skipn (Z.to_nat (Z.min (start + deleteCnt) L)) (_items vm)
  /\ _versionId (snd (splice start deleteCnt newItems vm)) = _versionId vm + 1
  /\ fired vm (snd (splice start deleteCnt newItems vm)) =
       [ViewModelChangedEvent.new (_versionId vm + 1) start deleteCnt
          (map getHeight newItems)].
Proof.
  intros Hs Hd L. unfold splice. rewrite map_cachedHeight_toMyItems. simpl.
  repeat split.
  - rewrite <- app_assoc. f_equal.
    + rewrite slice_0 by lia.
      destruct (Z.le_ge_cases start L).
      * now rewrite Z.min_l by lia.
      * rewrite Z.min_r by lia. unfold L. rewrite Nat2Z.id.
        rewrite !firstn_all2; auto; lia.
    + f_equal. unfold sliceFrom. now rewrite relativeIndex_nonneg by lia.
  - unfold fired. simpl.
    rewrite skipn_app, skipn_all, Nat.sub_diag. reflexivity.
Qed.

Lemma splice_clamps_witness :
  0 <= 5 /\ 0 <= 7
  /\ fst (splice 5 7 [] twoItems) = Normal tt
  /\ _items (snd (splice 5 7 [] twoItems)) = _items twoItems
  /\ _versionId (snd (splice 5 7 [] twoItems)) = 2
  /\ fired twoItems (snd (splice 5 7 [] twoItems)) =
       [ViewModelChangedEvent.new 2 5 7 []].
Proof.
  split; [lia|]. split; [lia|].
  exact (@splice_clamps 5 7 [] twoItems ltac:(lia) ltac:(lia)).
Defined.

(** ** The index follows the model *)

Lemma firstn_exact {A} (a x : list A) (n : nat) :
  n = length a -> firstn n (a ++ x) = a.
Proof.
  intros ->. rewrite firstn_app, Nat.sub_diag, firstn_all. simpl.
  apply app_nil_r.
Qed.

Lemma skipn_exact {A} (a x : list A) (n : nat) :
  n = length a -> skipn n (a ++ x) = x.
Proof.
  intros ->. rewrite skipn_app, Nat.sub_diag, skipn_all. reflexivity.
Qed.

(** Replacing, removing and inserting in the order of
    [ListViewLayout.onItemsChanged], with the ranges of the decomposed event,
    turns the heights before a valid splice into the heights after it. *)
Lemma onItemsChanged_values (l : ListViewLayout.t) (v start del : Z)
    (ins : list Z) :
  0 <= start -> 0 <= del ->
  start + del <= len (PrefixSumComputer.values (ListViewLayout._layoutData l)) ->
  PrefixSumComputer.values
    (ListViewLayout._layoutData
       (ListViewLayout.onItemsChanged
          (ListViewItemsChangedEvent.new
             (ViewModelChangedEvent.new v start del ins)) l)) =
  firstn (Z.to_nat start) (PrefixSumComputer.values (ListViewLayout._layoutData l))
  ++ ins
  ++ skipn (Z.to_nat (start + del))
       (PrefixSumComputer.values (ListViewLayout._layoutData l)).
Proof.
  intros Hs Hd Hle.
  unfold ListViewLayout.onItemsChanged.
  set (d := ListViewItemsChangedEvent.new _).
  assert (D : changedStart d = start
              /\ len (changed d) = Z.min del (len ins)
              /\ insertStart d = start + len (changed d)
              /\ deleteStart d = start + len (changed d)
              /\ len (changed d) + len (inserted d) = len ins
              /\ len (changed d) + deleteCnt d = del
              /\ changed d ++ inserted d = ins).
  { unfold d. rewrite (new_explicit v start ins Hd).
    cbn [versionId changedStart changed insertStart inserted deleteStart
         deleteCnt].
    assert (Hl : len (firstn (Z.to_nat (Z.min del (len ins))) ins)
                 = Z.min del (len ins)) by (rewrite len_firstn; lia).
    rewrite Hl. repeat split; try lia.
    - rewrite length_skipn. lia.
    - apply firstn_skipn. }
  clearbody d.
  destruct D as (E1 & E2 & E3 & E4 & E5 & E6 & E7).
  rewrite E1, E3, E4. cbn [ListViewLayout._layoutData].
  unfold PrefixSumComputer.changeValues, PrefixSumComputer.removeValues,
    PrefixSumComputer.insertValues. cbn [PrefixSumComputer.values].
  set (H := PrefixSumComputer.values (ListViewLayout._layoutData l)) in *.
  set (ch := changed d) in *. set (rest := inserted d) in *.
  rewrite <- E7.
  (* split the old heights around the two runs *)
  set (A := firstn (Z.to_nat start) H).
  set (C := skipn (Z.to_nat (start + del)) H).
  assert (HA : length A = Z.to_nat start)
    by (unfold A; rewrite length_firstn; lia).
  (* after the change *)
  set (B2 := skipn (Z.to_nat (start + len ch)) H).
  assert (HB2 : skipn (Z.to_nat (deleteCnt d)) B2 = C).
  { unfold B2, C. rewrite skipn_skipn. f_equal. lia. }
  assert (F1 : firstn (Z.to_nat (start + len ch)) (A ++ ch ++ B2) = A ++ ch).
  { rewrite app_assoc. apply firstn_exact. rewrite length_app. lia. }
  assert (S1 : skipn (Z.to_nat (start + len ch + deleteCnt d)) (A ++ ch ++ B2) = C).
  { rewrite <- HB2, app_assoc.
    replace (Z.to_nat (start + len ch + deleteCnt d))
      with (Z.to_nat (deleteCnt d) + length (A ++ ch))%nat
      by (rewrite length_app; lia).
    rewrite <- skipn_skipn. f_equal. now apply skipn_exact. }
  rewrite F1, S1.
  (* after the removal *)
  assert (F2 : firstn (Z.to_nat (start + len ch)) ((A ++ ch) ++ C) = A ++ ch).
  { apply firstn_exact. rewrite length_app. lia. }
  assert (S2 : skipn (Z.to_nat (start + len ch)) ((A ++ ch) ++ C) = C).
  { apply skipn_exact. rewrite length_app. lia. }
  rewrite F2, S2. now rewrite <- !app_assoc.
Qed.

Lemma getAllHeights_splice (start del : Z) (items : list IListItem)
    (vm : ViewModel) :
  0 <= start -> 0 <= del ->
  getAllHeights (snd (splice start del items vm)) =
  firstn (Z.to_nat start) (getAllHeights vm)
  ++ map getHeight items
  ++ skipn (Z.to_nat (start + del)) (getAllHeights vm).
Proof.
  intros Hs Hd. unfold splice, getAllHeights. simpl.
  rewrite !map_app, map_cachedHeight_toMyItems, <- app_assoc.
  rewrite slice_0, sliceFrom_nonneg by lia.
  now rewrite firstn_map, skipn_map.
Qed.

(** ** The dispatcher *)

Section DispatcherFacts.

Variable Listener : Type.
Variable same : Listener -> Listener -> bool.
Variable World : Type.
Variable _onEventAdded : World -> World.
Variable onBeforeEventsDispatch : Listener -> Method Listener World.
Variable onDimensionChanged : Listener -> IDimension -> Method Listener World.
Variable onItemsChanged :
  Listener -> ListViewItemsChangedEvent.t -> Method Listener World.
Variable onAfterEventsDispatch : Listener -> Method Listener World.

Local Abbreviation State := (Flushing Listener World).
Local Abbreviation invoke' := (invoke same _onEventAdded).
Local Abbreviation dispatch' :=
  (dispatch same _onEventAdded onDimensionChanged onItemsChanged).
Local Abbreviation drain' :=
  (drain same _onEventAdded onDimensionChanged onItemsChanged).

(** Calls on the context only ever append to the queue. *)
Lemma perform_events (cs : list (ContextCall Listener))
    (cw : ListViewContext Listener * World) :
  exists more,
    _events (fst (fold_left (perform same _onEventAdded) cs cw)) =
    _events (fst cw) ++ more
    /\ (existsb (@emits Listener) cs = false -> more = []).
Proof.
  revert cw. induction cs as [|c cs IH]; intros cw; simpl.
  - exists []. split; [now rewrite app_nil_r | reflexivity].
  - destruct (IH (perform same _onEventAdded cw c)) as (more & E & Q).
    rewrite E.
    destruct c; simpl in *.
    + exists more. split; [reflexivity | exact Q].
    + exists more. split; [reflexivity | exact Q].
    + exists (e :: more). split; [now rewrite <- app_assoc | discriminate].
    + exists (e :: more). split; [now rewrite <- app_assoc | discriminate].
Qed.

Lemma invoke_events (what : ListenerCall Listener)
    (m : Method Listener World) (s : State) :
  exists more,
    _events (ctx (invoke' what m s)) = _events (ctx s) ++ more
    /\ (quiet m -> more = []).
Proof.
  unfold invoke. destruct (m (world s)) as [w cs] eqn:Em.
  destruct (perform_events cs (ctx s, w)) as (more & E & Q).
  exists more. simpl in *. split; [exact E |].
  intros Hq. apply Q. specialize (Hq (world s)). now rewrite Em in Hq.
Qed.

Lemma invoke_calls (what : ListenerCall Listener)
    (m : Method Listener World) (s : State) :
  calls (invoke' what m s) = calls s ++ [what].
Proof.
  unfold invoke. destruct (m (world s)). reflexivity.
Qed.

(** Calling one method on each listener of a list. *)
Lemma each_calls (K : Listener -> ListenerCall Listener)
    (m : Listener -> Method Listener World) (hs : list Listener) (s : State) :
  calls (fold_left (fun s h => invoke' (K h) (m h) s) hs s) =
  calls s ++ map K hs.
Proof.
  revert s. induction hs as [|h hs IH]; intros s; simpl.
  - now rewrite app_nil_r.
  - rewrite IH, invoke_calls, <- app_assoc. reflexivity.
Qed.

Lemma each_events (K : Listener -> ListenerCall Listener)
    (m : Listener -> Method Listener World) (hs : list Listener) (s : State) :
  exists more,
    _events (ctx (fold_left (fun s h => invoke' (K h) (m h) s) hs s)) =
    _events (ctx s) ++ more
    /\ ((forall h, quiet (m h)) -> more = []).
Proof.
  revert s. induction hs as [|h hs IH]; intros s; simpl.
  - exists []. split; [now rewrite app_nil_r | reflexivity].
  - destruct (IH (invoke' (K h) (m h) s)) as (m2 & E2 & Q2).
    destruct (invoke_events (K h) (m h) s) as (m1 & E1 & Q1).
    exists (m1 ++ m2). rewrite E2, E1, <- app_assoc. split; [reflexivity |].
    intros Hq. rewrite Q1, Q2; auto.
Qed.

Lemma dispatch_calls (hs : list Listener) (e : ListViewEvent) (s : State) :
  calls (dispatch' hs e s) = calls s ++ deliveries hs e.
Proof.
  unfold dispatch. destruct e; simpl.
  - apply (each_calls (fun h => DimensionChanged h newDimension)
                      (fun h => onDimensionChanged h newDimension)).
  - now rewrite app_nil_r.
  - apply (each_calls (fun h => ItemsChanged h e)
                      (fun h => onItemsChanged h e)).
  - now rewrite app_nil_r.
Qed.

Lemma dispatch_events (hs : list Listener) (e : ListViewEvent) (s : State) :
  exists more,
    _events (ctx (dispatch' hs e s)) = _events (ctx s) ++ more
    /\ ((forall h d, quiet (onDimensionChanged h d)) ->
        (forall h i, quiet (onItemsChanged h i)) -> more = []).
Proof.
  unfold dispatch. destruct e.
  - destruct (each_events (fun h => DimensionChanged h newDimension)
                (fun h => onDimensionChanged h newDimension) hs s)
      as (more & E & Q).
    exists more. split; [exact E | intros; apply Q; auto].
  - exists []. split; [now rewrite app_nil_r | reflexivity].
  - destruct (each_events (fun h => ItemsChanged h e)
                (fun h => onItemsChanged h e) hs s) as (more & E & Q).
    exists more. split; [exact E | intros; apply Q; auto].
  - exists []. split; [now rewrite app_nil_r | reflexivity].
Qed.

(** The loop delivers the queue it finds, front first, then whatever was
    emitted meanwhile, and leaves the queue empty. *)
Lemma drain_calls (fuel : nat) (hs : list Listener) (s s' : State) :
  drain' fuel hs s = Some s' ->
  exists extra,
    calls s' = calls s ++ flat_map (deliveries hs) (_events (ctx s) ++ extra)
    /\ _events (ctx s') = [].
Proof.
  revert s. induction fuel as [|fuel IH]; intros s; simpl.
  - destruct (_events (ctx s)) eqn:E; [|discriminate].
    intros [= <-]. exists []. simpl. rewrite app_nil_r. auto.
  - destruct (_events (ctx s)) as [|e rest] eqn:E.
    + intros [= <-]. exists []. simpl. rewrite app_nil_r. auto.
    + intros D. apply IH in D. destruct D as (extra & C & Z).
      rewrite dispatch_calls in C. simpl in C.
      edestruct dispatch_events as (more & M & _).
      rewrite M in C. simpl in C.
      exists (more ++ extra). split; [|exact Z].
      rewrite C. simpl. rewrite <- !app_assoc. reflexivity.
Qed.

Lemma drain_quiet (hs : list Listener) (s : State) :
  (forall h d, quiet (onDimensionChanged h d)) ->
  (forall h i, quiet (onItemsChanged h i)) ->
  exists s',
    drain' (length (_events (ctx s))) hs s = Some s'
    /\ calls s' = calls s ++ flat_map (deliveries hs) (_events (ctx s)).
Proof.
  intros Qd Qi.
  remember (length (_events (ctx s))) as n eqn:En.
  revert s En. induction n as [|n IH]; intros s En; simpl.
  - destruct (_events (ctx s)); [|discriminate].
    exists s. simpl. now rewrite app_nil_r.
  - destruct (_events (ctx s)) as [|e rest] eqn:E; [discriminate|].
    set (s1 := {| ctx := {| _listeners := _listeners (ctx s); _events := rest |};
                  world := world s; calls := calls s |}).
    destruct (dispatch_events hs e s1) as (more & M & Q).
    specialize (Q Qd Qi). subst more. rewrite app_nil_r in M. simpl in M.
    destruct (IH (dispatch' hs e s1)) as (s' & D & C).
    + rewrite M. simpl in En. congruence.
    + exists s'. split; [exact D|].
      rewrite C, dispatch_calls, M. simpl. now rewrite <- app_assoc.
Qed.

(** C5.  A flush takes the list of listeners once.  When it returns, the
    calls it made are: [onBeforeEventsDispatch] on each listener of that
    list, then for each event, in the order of the queue (the events found
    at the start first, those emitted during the flush after them), a
    delivery to each listener of that list, then [onAfterEventsDispatch] on
    each of them.  Listeners may add or remove listeners meanwhile; the
    calls do not depend on it.  When the listeners emit nothing, the flush
    returns after as many turns of its loop as there are queued events. *)
Theorem flush_snapshot_order (c : ListViewContext Listener) (w : World) :
  (forall fuel s,
      flush same _onEventAdded onBeforeEventsDispatch onDimensionChanged
            onItemsChanged onAfterEventsDispatch fuel c w = Some s ->
      exists extra, calls s = inOrder (_listeners c) (_events c ++ extra))
  /\ ((forall h, quiet (onBeforeEventsDispatch h)) ->
      (forall h d, quiet (onDimensionChanged h d)) ->
      (forall h i, quiet (onItemsChanged h i)) ->
      exists s,
        flush same _onEventAdded onBeforeEventsDispatch onDimensionChanged
              onItemsChanged onAfterEventsDispatch (length (_events c)) c w
        = Some s
        /\ calls s = inOrder (_listeners c) (_events c)).
Proof.
  split.
  - intros fuel s. unfold flush.
    set (s0 := {| ctx := c; world := w; calls := [] |}).
    set (s1 := fold_left _ (_listeners c) s0).
    destruct (drain _ _ _ _ fuel (_listeners c) s1) as [s2|] eqn:D;
      [|discriminate].
    intros [= <-].
    apply drain_calls in D. destruct D as (extra & C & _).
    destruct (each_events (@BeforeEventsDispatch Listener)
                onBeforeEventsDispatch (_listeners c) s0) as (more & M & _).
    fold s1 in M. simpl in M.
    exists (more ++ extra).
    rewrite (each_calls (@AfterEventsDispatch Listener) onAfterEventsDispatch).
    rewrite C. unfold s1.
    rewrite (each_calls (@BeforeEventsDispatch Listener) onBeforeEventsDispatch).
    fold s1. rewrite M. simpl. unfold inOrder.
    now rewrite <- !app_assoc.
  - intros Qb Qd Qi. unfold flush.
    set (s0 := {| ctx := c; world := w; calls := [] |}).
    set (s1 := fold_left _ (_listeners c) s0).
    destruct (each_events (@BeforeEventsDispatch Listener)
                onBeforeEventsDispatch (_listeners c) s0) as (more & M & Q).
    specialize (Q Qb). subst more. fold s1 in M. simpl in M.
    rewrite app_nil_r in M.
    destruct (drain_quiet (_listeners c) s1 Qd Qi) as (s2 & D & C).
    rewrite M in D. rewrite D.
    eexists. split; [reflexivity|].
    rewrite (each_calls (@AfterEventsDispatch Listener) onAfterEventsDispatch).
    rewrite C, M. unfold s1.
    rewrite (each_calls (@BeforeEventsDispatch Listener) onBeforeEventsDispatch).
    simpl. unfold inOrder. now rewrite <- !app_assoc.
Qed.

(** A property of the state of a flush that each delivery keeps is kept by
    the whole loop, which ends on an empty queue. *)
Lemma drain_invariant (P : State -> Prop) (hs : list Listener) :
  (forall s e rest,
      P s -> _events (ctx s) = e :: rest ->
      P (dispatch' hs e
           {| ctx := {| _listeners := _listeners (ctx s); _events := rest |};
              world := world s; calls := calls s |})) ->
  forall fuel s s',
    P s -> drain' fuel hs s = Some s' -> P s' /\ _events (ctx s') = [].
Proof.
  intros Step. induction fuel as [|fuel IH]; intros s s' Hs; simpl.
  - destruct (_events (ctx s)) eqn:E; [|discriminate].
    intros [= <-]. auto.
  - destruct (_events (ctx s)) as [|e rest] eqn:E.
    + intros [= <-]. auto.
    + apply IH. now apply Step.
Qed.

Lemma each_invariant (P : State -> Prop)
    (K : Listener -> ListenerCall Listener)
    (m : Listener -> Method Listener World) (hs : list Listener) :
  (forall h s, P s -> P (invoke' (K h) (m h) s)) ->
  forall s, P s -> P (fold_left (fun s h => invoke' (K h) (m h) s) hs s).
Proof.
  intros Step. induction hs as [|h hs IH]; intros s Hs; simpl; auto.
Qed.

End DispatcherFacts.

(** Listener 2 is taken off the context while the change of dimension is
    delivered, and still hears it and the hook after: the flush goes by the
    list it read at its start. *)
Lemma flush_snapshot_order_witness :
  exists s,
    flushMeddling 5 oneResize = Some s
    /\ _listeners (ctx s) = [1%nat]
    /\ calls s = [ BeforeEventsDispatch 1%nat; BeforeEventsDispatch 2%nat;
                   DimensionChanged 1%nat sampleDimension;
                   DimensionChanged 2%nat sampleDimension;
                   AfterEventsDispatch 1%nat; AfterEventsDispatch 2%nat ]
    /\ exists extra,
         calls s = inOrder (_listeners oneResize) (_events oneResize ++ extra).
Proof.
  destruct (flushMeddling 5 oneResize) as [s|] eqn:E;
    [|vm_compute in E; discriminate E].
  exists s. split; [reflexivity|].
  assert (F : s = {| ctx := {| _listeners := [1%nat]; _events := [] |};
                     world := tt;
                     calls := [ BeforeEventsDispatch 1%nat;
                                BeforeEventsDispatch 2%nat;
                                DimensionChanged 1%nat sampleDimension;
                                DimensionChanged 2%nat sampleDimension;
                                AfterEventsDispatch 1%nat;
                                AfterEventsDispatch 2%nat ] |})
    by (vm_compute in E; now injection E as <-).
  split; [now rewrite F|]. split; [now rewrite F|].
  exact (proj1 (flush_snapshot_order Nat.eqb (fun w => w) silent meddling
                  (fun h _ => silent h) silent oneResize tt) 5%nat s E).
Defined.

(** ** The visible window *)

Abbreviation sum l := (fold_right Z.add 0 l).

Lemma in_fromTo (lo hi j : Z) : In j (fromTo lo hi) <-> lo <= j <= hi.
Proof.
  unfold fromTo. rewrite in_map_iff. split.
  - intros (k & <- & Hk). apply in_seq in Hk. lia.
  - intros H. exists (Z.to_nat (j - lo)). split; [lia|]. apply in_seq. lia.
Qed.

Lemma fromTo_cons (lo hi : Z) :
  lo <= hi -> fromTo lo hi = lo :: fromTo (lo + 1) hi.
Proof.
  intros H. unfold fromTo.
  replace (Z.to_nat (hi - lo + 1)) with (S (Z.to_nat (hi - (lo + 1) + 1))) by lia.
  simpl. f_equal; [lia|].
  rewrite <- seq_shift, map_map. apply map_ext. intros k. lia.
Qed.

Lemma fromTo_nil (lo hi : Z) : hi < lo -> fromTo lo hi = [].
Proof.
  intros H. unfold fromTo. now replace (Z.to_nat (hi - lo + 1)) with O by lia.
Qed.

Lemma filter_none {A} (f : A -> bool) (l : list A) :
  (forall x, In x l -> f x = false) -> filter f l = [].
Proof.
  induction l as [|x l IH]; simpl; intros H; [reflexivity|].
  rewrite (H x) by auto. apply IH. auto.
Qed.

Lemma sum_firstn_succ (l : list Z) (k : nat) :
  (k < length l)%nat ->
  sum (firstn (S k) l) = sum (firstn k l) + nth k l 0.
Proof.
  revert k. induction l as [|x l IH]; intros k Hk; simpl in Hk; [lia|].
  destruct k; simpl; [lia|]. rewrite <- Z.add_assoc, <- IH by lia. reflexivity.
Qed.

Lemma sum_firstn_mono (l : list Z) (a b : nat) :
  Forall (fun v => 0 <= v) l -> (a <= b)%nat ->
  sum (firstn a l) <= sum (firstn b l).
Proof.
  intros Hl. revert a b. induction Hl as [|x l Hx Hl IH]; intros a b Hab.
  - rewrite !firstn_nil. lia.
  - destruct a; destruct b; simpl; try lia.
    + specialize (IH O b). rewrite firstn_O in IH. simpl in IH. lia.
    + specialize (IH a b). lia.
Qed.

Lemma sum_nonneg (l : list Z) : Forall (fun v => 0 <= v) l -> 0 <= sum l.
Proof. induction 1; simpl; lia. Qed.

Lemma topOf_sum (p : PrefixSumComputer.t) (i : Z) :
  0 <= i -> topOf p i = sum (firstn (Z.to_nat i) (PrefixSumComputer.values p)).
Proof.
  intros Hi. unfold topOf, PrefixSumComputer.getAccumulatedValue.
  now replace (i - 1 + 1) with i by lia.
Qed.

Lemma getValue_nth (p : PrefixSumComputer.t) (i : Z) :
  0 <= i -> PrefixSumComputer.getValue p i
            = nth (Z.to_nat i) (PrefixSumComputer.values p) 0.
Proof.
  intros Hi. unfold PrefixSumComputer.getValue, at_.
  destruct (Z.ltb_spec i 0); [lia|].
  destruct (nth_error _ _) eqn:E.
  - symmetry. now apply nth_error_nth.
  - apply nth_error_None in E. now rewrite nth_overflow.
Qed.

Lemma topOf_succ (p : PrefixSumComputer.t) (i : Z) :
  0 <= i < PrefixSumComputer.getCount p ->
  topOf p (i + 1) = topOf p i + PrefixSumComputer.getValue p i.
Proof.
  intros Hi. unfold PrefixSumComputer.getCount in Hi.
  rewrite !topOf_sum, getValue_nth by lia.
  replace (Z.to_nat (i + 1)) with (S (Z.to_nat i)) by lia.
  apply sum_firstn_succ. lia.
Qed.

Lemma topOf_mono (p : PrefixSumComputer.t) (i j : Z) :
  Forall (fun v => 0 <= v) (PrefixSumComputer.values p) ->
  0 <= i <= j -> topOf p i <= topOf p j.
Proof.
  intros Hp Hij. rewrite !topOf_sum by lia. apply sum_firstn_mono; [exact Hp | lia].
Qed.

(** The loop of [getRenderData] gathers the tops of the items, from its
    first index on, whose top does not exceed [offset2]. *)
Lemma collectTops_filter (p : PrefixSumComputer.t) (offset2 : Z) (n : nat)
    (i : Z) :
  Forall (fun v => 0 <= v) (PrefixSumComputer.values p) ->
  0 <= i -> i + Z.of_nat n = PrefixSumComputer.getCount p ->
  ListViewLayout.collectTops n p i (topOf p i) offset2 =
  map (topOf p)
      (filter (fun j => topOf p j <=? offset2)
              (fromTo i (PrefixSumComputer.getCount p - 1))).
Proof.
  intros Hp. revert i. induction n as [|n IH]; intros i Hi Hn; simpl.
  - now rewrite fromTo_nil by lia.
  - destruct (Z.gtb_spec (topOf p i) offset2) as [Hgt|Hle].
    + rewrite filter_none; [reflexivity|].
      intros j Hj. apply in_fromTo in Hj.
      pose proof (topOf_mono p Hp (conj Hi (proj1 Hj))).
      apply Z.leb_gt. lia.
    + rewrite fromTo_cons by lia. simpl.
      destruct (Z.leb_spec (topOf p i) offset2); [|lia]. simpl. f_equal.
      rewrite <- topOf_succ by lia. apply IH; lia.
Qed.

Lemma indexOfFrom_cons (v v' : Z) (rest : list Z) (y i : Z) :
  PrefixSumComputer.indexOfFrom (v :: v' :: rest) y i =
  if y <? v
  then {| PrefixSumComputer.index := i; PrefixSumComputer.remainder := y |}
  else PrefixSumComputer.indexOfFrom (v' :: rest) (y - v) (i + 1).
Proof. reflexivity. Qed.

(** The point query: inside the content it finds the item that holds the
    offset, beyond it the last item. *)
Lemma indexOfFrom_spec (vs : list Z) (y i : Z) :
  vs <> [] -> Forall (fun v => 0 <= v) vs ->
  exists k : nat,
    PrefixSumComputer.index (PrefixSumComputer.indexOfFrom vs y i)
    = i + Z.of_nat k
    /\ (k < length vs)%nat
    /\ (0 <= y < sum vs -> sum (firstn k vs) <= y < sum (firstn (S k) vs))
    /\ (sum vs <= y -> S k = length vs).
Proof.
  revert y i. induction vs as [|v rest IH]; intros y i Hne Hp; [congruence|].
  inversion Hp as [|? ? Hv Hrest]; subst.
  destruct rest as [|v' rest'].
  - exists O. simpl. repeat split; lia.
  - rewrite indexOfFrom_cons.
    pose proof (sum_nonneg Hrest) as Hsum.
    destruct (Z.ltb_spec y v) as [Hlt|Hge].
    + exists O. cbn [PrefixSumComputer.index].
      cbn [firstn fold_right length] in *. repeat split; lia.
    + destruct (IH (y - v) (i + 1)) as (k & E & Hk & In & Out);
        [congruence | exact Hrest |].
      exists (S k). rewrite E.
      cbn [firstn fold_right length] in *. repeat split; lia.
Qed.

(** C4 fails on the code: with three items of height 10 and a viewport of
    height 10 at the top, the window holds the tops 0 and 10, yet the item at
    top 10 takes up [10, 20) and does not meet the viewport [0, 10). *)
Lemma getRenderData_takes_item_at_bottom_edge :
  rd_startIndex (ListViewLayout.getRenderData threeTens) = 0
  /\ rd_tops (ListViewLayout.getRenderData threeTens) = [0; 10]
  /\ visible (ListViewLayout._layoutData threeTens) 0 10 1 = false
  /\ visibleTops (ListViewLayout._layoutData threeTens) 0 10 = [0]
  /\ rd_tops (ListViewLayout.getRenderData threeTens)
     <> visibleTops (ListViewLayout._layoutData threeTens) 0 10.
Proof.
  repeat split; try reflexivity. discriminate.
Qed.

(** C4, as the code has it.  When no height is negative, [getRenderData]
    returns as [startIndex] the answer of the point query for the scroll
    offset [top]: the item that holds [top] when [top] lies inside the
    content, the last item when [top] lies beyond it.  [tops] holds the
    absolute tops of exactly the items from [startIndex] on whose top is at
    most [top + h]; an item that begins exactly at [top + h] is among
    them. *)
Theorem getRenderData_window (l : ListViewLayout.t) :
  let p := ListViewLayout._layoutData l in
  let top := Scrollable.scrollTop (ListViewLayout._scrollable l) in
  let h := Scrollable.height (ListViewLayout._scrollable l) in
  let rd := ListViewLayout.getRenderData l in
  let s := rd_startIndex rd in
  Forall (fun v => 0 <= v) (PrefixSumComputer.values p) ->
  s = PrefixSumComputer.index (PrefixSumComputer.getIndexOf p top)
  /\ (0 <= top < PrefixSumComputer.getTotalValue p ->
      0 <= s < PrefixSumComputer.getCount p
      /\ topOf p s <= top < topOf p s + PrefixSumComputer.getValue p s)
  /\ (PrefixSumComputer.getTotalValue p <= top ->
      0 < PrefixSumComputer.getCount p ->
      s = PrefixSumComputer.getCount p - 1)
  /\ rd_tops rd =
     map (topOf p)
         (filter (fun i => topOf p i <=? top + h)
                 (fromTo s (PrefixSumComputer.getCount p - 1))).
Proof.
  destruct l as [sc [vs]]. cbv zeta.
  cbn [ListViewLayout._layoutData ListViewLayout._scrollable].
  cbn [PrefixSumComputer.values]. intros Hp.
  unfold ListViewLayout.getRenderData.
  cbn [rd_startIndex rd_tops ListViewLayout._layoutData
       ListViewLayout._scrollable].
  unfold PrefixSumComputer.getIndexOf, PrefixSumComputer.getTotalValue,
    PrefixSumComputer.getCount.
  cbn [PrefixSumComputer.values].
  assert (D : vs = [] \/ vs <> []) by (destruct vs; [left | right]; congruence).
  destruct D as [-> | Hne].
  - cbn [PrefixSumComputer.indexOfFrom PrefixSumComputer.index fold_right
         length Z.of_nat].
    repeat split; lia.
  - destruct (@indexOfFrom_spec vs (Scrollable.scrollTop sc) 0)
      as (k & E & Hk & In & Out); [exact Hne | exact Hp |].
    rewrite E. split; [reflexivity|]. split; [|split].
    + intros Ht. specialize (In Ht). split; [lia|].
      rewrite topOf_sum, getValue_nth by lia.
      replace (Z.to_nat (0 + Z.of_nat k)) with k by lia.
      cbn [PrefixSumComputer.values].
      rewrite <- sum_firstn_succ by lia. exact In.
    + intros Ht _. specialize (Out Ht). lia.
    + change (PrefixSumComputer.getAccumulatedValue (PrefixSumComputer.new vs)
                (0 + Z.of_nat k - 1))
        with (topOf (PrefixSumComputer.new vs) (0 + Z.of_nat k)).
      change (len vs) with (PrefixSumComputer.getCount (PrefixSumComputer.new vs)).
      apply collectTops_filter; [exact Hp | lia |].
      unfold PrefixSumComputer.getCount. cbn [PrefixSumComputer.values]. lia.
Qed.

Lemma getRenderData_window_witness :
  Forall (fun v => 0 <= v)
         (PrefixSumComputer.values (ListViewLayout._layoutData threeTens))
  /\ rd_startIndex (ListViewLayout.getRenderData threeTens) = 0
  /\ rd_tops (ListViewLayout.getRenderData threeTens) = [0; 10].
Proof.
  assert (H : Forall (fun v => 0 <= v)
                (PrefixSumComputer.values (ListViewLayout._layoutData threeTens)))
    by (repeat constructor; simpl; lia).
  split; [exact H|].
  destruct (getRenderData_window threeTens H) as (E & _ & _ & T).
  split; [exact E | exact T].
Defined.

(** ** The widget *)

Lemma scheduleRender_scheduled (w : Widget) :
  scheduled w -> scheduled (_scheduleRender w).
Proof.
  unfold scheduled, _scheduleRender.
  destruct (_renderAnimationFrame (view w)) eqn:E; simpl; intros H.
  - now rewrite E.
  - now rewrite H.
Qed.

Lemma scheduleRender_model (w : Widget) : model (_scheduleRender w) = model w.
Proof.
  unfold _scheduleRender. now destruct (_renderAnimationFrame (view w)).
Qed.

Lemma scheduleRender_layout (w : Widget) : layout (_scheduleRender w) = layout w.
Proof.
  unfold _scheduleRender. now destruct (_renderAnimationFrame (view w)).
Qed.

(** While a callback is outstanding, scheduling again changes nothing. *)
Lemma scheduleRender_pending (w : Widget) (h : Handle) :
  _renderAnimationFrame (view w) = Some h -> _scheduleRender w = w.
Proof. unfold _scheduleRender. now intros ->. Qed.

Lemma perform_scheduled (cs : list (ContextCall Who))
    (cw : ListViewContext Who * Widget) :
  scheduled (snd cw) ->
  scheduled (snd (fold_left (perform sameWho _scheduleRender) cs cw)).
Proof.
  revert cw. induction cs as [|c cs IH]; intros cw H; simpl; [exact H|].
  apply IH. destruct c; simpl; auto using scheduleRender_scheduled.
Qed.

Lemma invoke_scheduled (what : ListenerCall Who) (m : Method Who Widget)
    (s : Flushing Who Widget) :
  (forall w, scheduled w -> scheduled (fst (m w))) ->
  scheduled (world s) ->
  scheduled (world (invoke sameWho _scheduleRender what m s)).
Proof.
  intros Hm Hs. unfold invoke. specialize (Hm (world s) Hs).
  destruct (m (world s)) as [w cs]. simpl in *.
  now apply (perform_scheduled cs (ctx s, w)).
Qed.

(** Emitting scroll events lengthens the queue by scroll events and leaves
    the listeners, the model and the layout alone. *)
Lemma perform_scrolls (cs : list (ContextCall Who))
    (cw : ListViewContext Who * Widget) :
  Forall emitsScroll cs ->
  let r := fold_left (perform sameWho _scheduleRender) cs cw in
  _listeners (fst r) = _listeners (fst cw)
  /\ (exists evs, _events (fst r) = _events (fst cw) ++ map ScrollEvent evs)
  /\ model (snd r) = model (snd cw)
  /\ layout (snd r) = layout (snd cw).
Proof.
  intros H. revert cw. induction H as [|c cs Hc Hcs IH]; intros cw; simpl.
  - repeat split; auto. exists []. simpl. now rewrite app_nil_r.
  - destruct c as [| |e|]; try contradiction.
    destruct e; try contradiction.
    destruct (IH (perform sameWho _scheduleRender cw
                    (CallEmitSoon (ScrollEvent data))))
      as (L & (evs & E) & Mo & La).
    simpl in *. rewrite L, E, Mo, La, scheduleRender_model, scheduleRender_layout.
    repeat split; auto.
    exists (data :: evs). simpl. now rewrite <- app_assoc.
Qed.

Lemma forwardScroll_emitsScroll (evs : list IScrollEvent) :
  Forall emitsScroll (forwardScroll evs).
Proof.
  unfold forwardScroll. apply Forall_forall. intros c Hc.
  apply in_map_iff in Hc. destruct Hc as (e & <- & _). exact I.
Qed.

Lemma replay_app (q q' : list ListViewEvent) (l : ListViewLayout.t) :
  replay (q ++ q') l = replay q' (replay q l).
Proof. apply fold_left_app. Qed.

Lemma replay_scrolls (evs : list IScrollEvent) (l : ListViewLayout.t) :
  replay (map ScrollEvent evs) l = l.
Proof. induction evs; simpl; auto. Qed.

(** What the replay makes of the index depends on the index only. *)
Lemma replay_data (q : list ListViewEvent) (l l' : ListViewLayout.t) :
  ListViewLayout._layoutData l = ListViewLayout._layoutData l' ->
  ListViewLayout._layoutData (replay q l)
  = ListViewLayout._layoutData (replay q l').
Proof.
  revert l l'. induction q as [|e q IH]; intros l l' H; simpl; [exact H|].
  apply IH. destruct e; auto.
  unfold ListViewLayout.onItemsChanged. simpl. now rewrite H.
Qed.

(** ** What rendering leaves alone *)

Section Keeps.

Variable S : Type.
Variable R : S -> S -> Prop.
Hypothesis R_refl : forall s, R s s.
Hypothesis R_trans : forall a b c, R a b -> R b c -> R a c.

Lemma keeps_ret {A} (a : A) : keeps R (ret a).
Proof. intros s. apply R_refl. Qed.

Lemma keeps_throw {A} (e : Error) : keeps R (@throw S A e).
Proof. intros s. apply R_refl. Qed.

Lemma keeps_get : keeps R (@get S).
Proof. intros s. apply R_refl. Qed.

Lemma keeps_modify (f : S -> S) : (forall s, R s (f s)) -> keeps R (modify f).
Proof. intros H s. apply H. Qed.

Lemma keeps_bind {A B} (m : M S A) (k : A -> M S B) :
  keeps R m -> (forall a, keeps R (k a)) -> keeps R (bind m k).
Proof.
  intros Hm Hk s. unfold bind. specialize (Hm s).
  destruct (m s) as [[a|e] s1]; simpl in *; [|exact Hm].
  eapply R_trans; [exact Hm | apply Hk].
Qed.

Lemma keeps_forEach {A} (xs : list A) (body : A -> M S unit) :
  (forall x, keeps R (body x)) -> keeps R (forEach xs body).
Proof.
  intros H. induction xs as [|x xs IH]; simpl.
  - apply keeps_ret.
  - apply keeps_bind; auto.
Qed.

End Keeps.

(** One step of a proof that a computation keeps a relation. *)
Ltac keep_step :=
  match goal with
  | |- keeps _ (bind _ _) => apply keeps_bind; [assumption | | intros]
  | |- keeps _ (ret _) => apply keeps_ret; assumption
  | |- keeps _ (throw _) => apply keeps_throw; assumption
  | |- keeps _ get => apply keeps_get; assumption
  | |- keeps _ (modify _) => apply keeps_modify; intros
  | |- keeps _ (forEach _ _) => apply keeps_forEach; [assumption | assumption | intros]
  | |- keeps _ (match ?x with _ => _ end) => destruct x
  | |- keeps _ _ => progress cbv zeta
  end.

Section Frame.

(** A relation between states of the view that every write made by
    rendering respects, as far as the hypotheses below say. *)
Variable R : ListView -> ListView -> Prop.
Hypothesis R_refl : forall v, R v v.
Hypothesis R_trans : forall a b c, R a b -> R b c -> R a c.
Hypothesis R_items : forall x v, R v (set_renderedItems x v).
Hypothesis R_start : forall x v, R v (set_renderedItemsStart x v).
Hypothesis R_scroll : forall x v, R v (set_scrollDomNode x v).
Hypothesis R_above : forall x v, R v (set_scrollDomNodeIsAbove x v).
Hypothesis R_children : forall x v, R v (set_listItemsDomNode x v).
Hypothesis R_restyle : forall n a t h v,
  R v (set_nodes
         (update (nodes v) n
            {| attr_lineNumber := a; style_top := t; style_height := h;
               innerHTML := innerHTML (nodes v n);
               attr_lastScrollTime := attr_lastScrollTime (nodes v n) |}) v).
Hypothesis R_alloc : forall d v,
  R v (set_created (S (created v))
         (set_nodes (update (nodes v) (created v) d) v)).
Hypothesis R_calls : forall x v, R v (set_renderCalls x v).

Lemma getHeightOf_keeps (m : ViewModel) (i : Z) :
  keeps R (@getHeightOf ListView m i).
Proof. unfold getHeightOf. repeat keep_step. Qed.

Lemma removeChild_keeps (n : Handle) : keeps R (removeChild n).
Proof.
  intros v. unfold removeChild. destruct (isChild n v); simpl; auto.
Qed.

Lemma detach_keeps (n : Handle) : keeps R (detach n).
Proof. unfold detach. repeat keep_step. auto. Qed.

Lemma lineDomNode_keeps (i : Z) : keeps R (lineDomNode i).
Proof.
  intros v. unfold lineDomNode. destruct (at_ (_renderedItems v) i); simpl; auto.
Qed.

Lemma modifyLine_keeps (i : nat) (f : ViewItem -> ViewItem) :
  keeps R (modifyLine i f).
Proof. unfold modifyLine. repeat keep_step. auto. Qed.

Lemma createNodes_keeps (html : list LineHTML) : keeps R (createNodes html).
Proof.
  induction html as [|h html IH]; cbn [createNodes]; [repeat keep_step|].
  intros v. unfold bind at 1, get. unfold bind at 1, modify.
  apply R_trans with (1 := R_alloc (nodeOfHTML h) v).
  assert (K : keeps R (bind (createNodes html)
                            (fun ns => ret (created v :: ns))))
    by (repeat keep_step; apply IH).
  apply K.
Qed.

Lemma ViewModel_render_keeps (m : ViewModel) (i : Z) :
  keeps R (ViewModel_render m i).
Proof. unfold ViewModel_render. repeat keep_step. auto. Qed.

Lemma getLineOuterHTML_keeps (m : ViewModel) (i : nat) (lineNumber : Z)
    (deltaTop : option Z) :
  keeps R (getLineOuterHTML m i lineNumber deltaTop).
Proof.
  unfold getLineOuterHTML.
  repeat first [apply modifyLine_keeps | apply getHeightOf_keeps
               | apply ViewModel_render_keeps | keep_step].
Qed.

Lemma layoutLine_keeps (m : ViewModel) (n : Handle) (lineNumber : Z)
    (deltaTop : option Z) :
  keeps R (layoutLine m n lineNumber deltaTop).
Proof.
  unfold layoutLine. repeat first [apply getHeightOf_keeps | keep_step]; auto.
Qed.

Lemma renderUntouchedLines_keeps (m : ViewModel) (a b : Z) (tops : list Z)
    (deltaLN : Z) :
  keeps R (_renderUntouchedLines m a b tops deltaLN).
Proof.
  unfold _renderUntouchedLines.
  repeat first [apply lineDomNode_keeps | apply layoutLine_keeps | keep_step].
Qed.

Lemma insertLinesBefore_keeps (a b : Z) : keeps R (_insertLinesBefore a b).
Proof. unfold _insertLinesBefore. repeat keep_step. auto. Qed.

Lemma insertLinesAfter_keeps (a b : Z) : keeps R (_insertLinesAfter a b).
Proof. unfold _insertLinesAfter. repeat keep_step. auto. Qed.

Lemma removeIfNotScrollDomNode_keeps (n : Handle) (isAbove : bool) :
  keeps R (_removeIfNotScrollDomNode n isAbove).
Proof.
  unfold _removeIfNotScrollDomNode.
  repeat first [apply removeChild_keeps | apply detach_keeps | keep_step]; auto.
Qed.

Lemma removeLinesBefore_keeps (n : Z) : keeps R (_removeLinesBefore n).
Proof.
  unfold _removeLinesBefore.
  repeat first [apply lineDomNode_keeps | apply removeIfNotScrollDomNode_keeps
               | keep_step]; auto.
Qed.

Lemma removeLinesAfter_keeps (n : Z) : keeps R (_removeLinesAfter n).
Proof.
  unfold _removeLinesAfter.
  repeat first [apply lineDomNode_keeps | apply removeIfNotScrollDomNode_keeps
               | keep_step]; auto.
Qed.

Lemma gather_keeps (m : ViewModel) (tops : list Z) (indices : list nat)
    (g : Gathered) :
  keeps R (gather m tops indices g).
Proof.
  revert g. induction indices as [|i indices IH]; intros g; cbn [gather].
  - repeat keep_step.
  - repeat first [apply getLineOuterHTML_keeps | apply IH | keep_step].
Qed.

Lemma adopt_keeps (indices new : list nat) (siblings : list Handle) :
  keeps R (adopt indices new siblings).
Proof.
  revert siblings. induction indices as [|i indices IH]; intros siblings;
    cbn [adopt].
  - repeat keep_step.
  - repeat first [apply modifyLine_keeps | apply IH | keep_step].
Qed.

Lemma swap_keeps (indices invalid : list nat) (huge : list Handle) :
  keeps R (swap indices invalid huge).
Proof.
  revert huge. induction indices as [|i indices IH]; intros huge; cbn [swap].
  - repeat keep_step.
  - repeat first [apply lineDomNode_keeps | apply modifyLine_keeps | apply IH
                 | keep_step]; auto.
Qed.

Lemma finishRendering_keeps (m : ViewModel) (domNodeIsEmpty : bool)
    (tops : list Z) :
  keeps R (_finishRendering m domNodeIsEmpty tops).
Proof.
  unfold _finishRendering.
  repeat first [apply gather_keeps | apply createNodes_keeps | apply adopt_keeps
               | apply swap_keeps | keep_step]; auto.
  destruct domNodeIsEmpty; [|destruct (_listItemsDomNode s)]; auto.
Qed.

Lemma render_keeps (m : ViewModel) (renderData : IRenderData) (now : Z) :
  keeps R (_render m renderData now).
Proof.
  unfold _render.
  repeat first [apply finishRendering_keeps | apply renderUntouchedLines_keeps
               | apply insertLinesBefore_keeps | apply insertLinesAfter_keeps
               | apply removeLinesBefore_keeps | apply removeLinesAfter_keeps
               | apply detach_keeps | keep_step]; auto.
Qed.

Lemma alignStart_keeps (startItem endItem : Z) (v : ListView) :
  keeps R (alignStart startItem endItem v).
Proof.
  unfold alignStart.
  repeat first [apply insertLinesBefore_keeps | apply removeLinesBefore_keeps
               | apply detach_keeps | keep_step]; auto.
Qed.

Lemma alignEnd_keeps (endItem : Z) (v2 : ListView) :
  keeps R (alignEnd endItem v2).
Proof.
  unfold alignEnd.
  repeat first [apply insertLinesAfter_keeps | apply removeLinesAfter_keeps
               | apply detach_keeps | keep_step]; auto.
Qed.

(** What [_render] does once the lines that stay have been laid out. *)
Lemma alignAndFinish_keeps (m : ViewModel) (tops : list Z)
    (startItem endItem : Z) (v : ListView) :
  keeps R
    (bind (alignStart startItem endItem v) (fun _ =>
     bind (modify (set_renderedItemsStart startItem)) (fun _ =>
     bind get (fun v2 =>
     bind (alignEnd endItem v2) (fun _ =>
     _finishRendering m false tops))))).
Proof.
  repeat first [apply alignStart_keeps | apply alignEnd_keeps
               | apply finishRendering_keeps | keep_step]; auto.
Qed.

Lemma popLine_keeps : keeps R popLine.
Proof.
  unfold popLine.
  repeat first [apply removeChild_keeps | keep_step]; auto.
Qed.

Lemma View_onItemsChanged_keeps (e : ListViewItemsChangedEvent.t) :
  keeps R (View_onItemsChanged e).
Proof.
  unfold View_onItemsChanged.
  repeat first [apply modifyLine_keeps | apply lineDomNode_keeps
               | apply removeChild_keeps | apply popLine_keeps
               | keep_step]; auto.
Qed.

End Frame.

(** [onItemsChanged] of the view never touches the handle of the rendering
    callback. *)
Lemma viewHears_frame (e : ListViewItemsChangedEvent.t) (v : ListView) :
  _renderAnimationFrame (viewHears e v) = _renderAnimationFrame v.
Proof.
  apply (@View_onItemsChanged_keeps
           (fun a b => _renderAnimationFrame b = _renderAnimationFrame a));
    intros; simpl; congruence.
Qed.

Lemma render_frame (m : ViewModel) (renderData : IRenderData) (now : Z)
    (v : ListView) :
  _renderAnimationFrame (snd (_render m renderData now v))
  = _renderAnimationFrame v.
Proof.
  apply (@render_keeps
           (fun a b => _renderAnimationFrame b = _renderAnimationFrame a));
    intros; simpl; congruence.
Qed.

Lemma contentKept_refl (v : ListView) : contentKept v v.
Proof. split; auto. Qed.

Lemma contentKept_trans (a b c : ListView) :
  contentKept a b -> contentKept b c -> contentKept a c.
Proof.
  intros (L1 & H1) (L2 & H2). split; [lia|].
  intros n Hn. destruct (H1 n Hn) as (A1 & B1).
  destruct (H2 n ltac:(lia)) as (A2 & B2). split; congruence.
Qed.

Lemma contentKept_restyle (n : Handle) (a t h : Z) (v : ListView) :
  contentKept v
    (set_nodes
       (update (nodes v) n
          {| attr_lineNumber := a; style_top := t; style_height := h;
             innerHTML := innerHTML (nodes v n);
             attr_lastScrollTime := attr_lastScrollTime (nodes v n) |}) v).
Proof.
  split; simpl; auto. intros k Hk. unfold update.
  destruct (Nat.eqb_spec k n); subst; auto.
Qed.

Lemma contentKept_alloc (d : DomNode) (v : ListView) :
  contentKept v
    (set_created (S (created v))
       (set_nodes (update (nodes v) (created v) d) v)).
Proof.
  split; simpl; auto. intros k Hk. unfold update.
  destruct (Nat.eqb_spec k (created v)); [lia | auto].
Qed.

Lemma render_contentKept (m : ViewModel) (renderData : IRenderData) (now : Z)
    (v : ListView) :
  contentKept v (snd (_render m renderData now v)).
Proof.
  apply (@render_keeps contentKept);
    first [ exact contentKept_refl | exact contentKept_trans
          | exact contentKept_restyle | exact contentKept_alloc
          | intros; split; simpl; auto ].
Qed.

(** ** One callback at a time *)

Section Scheduling.

Variable f : ListViewItemsChangedEvent.t -> ListView -> ListView.
Hypothesis f_frame :
  forall e v, _renderAnimationFrame (f e v) = _renderAnimationFrame v.

Lemma onBeforeEventsDispatch_scheduled (h : Who) (w : Widget) :
  scheduled w -> scheduled (fst (onBeforeEventsDispatch h w)).
Proof. auto. Qed.

Lemma onDimensionChanged_scheduled (h : Who) (d : IDimension) (w : Widget) :
  scheduled w -> scheduled (fst (onDimensionChanged h d w)).
Proof.
  destruct h; simpl; auto.
  destruct (ListViewLayout.onDimensionChanged d (layout w)). auto.
Qed.

Lemma onItemsChanged_scheduled (h : Who) (e : ListViewItemsChangedEvent.t)
    (w : Widget) :
  scheduled w -> scheduled (fst (onItemsChanged f h e w)).
Proof.
  destruct h; simpl; auto. unfold scheduled. simpl. now rewrite f_frame.
Qed.

Lemma onAfterEventsDispatch_scheduled (h : Who) (w : Widget) :
  scheduled w -> scheduled (fst (onAfterEventsDispatch h w)).
Proof.
  destruct h; simpl; auto.
  destruct (ListViewLayout.onAfterEventsDispatch (layout w)). auto.
Qed.

Lemma flush_scheduled (fuel : nat) (c : Ctx) (w : Widget)
    (s : Flushing Who Widget) :
  scheduled w -> ListView_flush f fuel c w = Some s -> scheduled (world s).
Proof.
  intros Hw. unfold ListView_flush, flush.
  set (P := fun s : Flushing Who Widget => scheduled (world s)).
  assert (Each : forall K (m : Who -> Method Who Widget),
             (forall h w, scheduled w -> scheduled (fst (m h w))) ->
             forall hs s, P s ->
               P (fold_left (fun s h => invoke sameWho _scheduleRender
                                               (K h) (m h) s) hs s)).
  { intros K m Hm hs. apply (each_invariant sameWho _scheduleRender P K m hs).
    intros h s0 H0. apply invoke_scheduled; auto. }
  set (s1 := fold_left _ (_listeners c) _).
  assert (H1 : P s1)
    by (apply Each; auto using onBeforeEventsDispatch_scheduled).
  destruct (drain _ _ _ _ fuel (_listeners c) s1) as [s2|] eqn:D;
    [|discriminate].
  intros [= <-].
  assert (Step : forall s0 e rest,
             P s0 -> _events (ctx s0) = e :: rest ->
             P (dispatch sameWho _scheduleRender onDimensionChanged
                  (onItemsChanged f) (_listeners c) e
                  {| ctx := {| _listeners := _listeners (ctx s0);
                               _events := rest |};
                     world := world s0; calls := calls s0 |})).
  { intros s0 e rest H0 _. unfold dispatch. destruct e; auto.
    - apply (Each (fun h => DimensionChanged h newDimension)
                  (fun h => onDimensionChanged h newDimension)); auto using
        onDimensionChanged_scheduled.
    - apply (Each (fun h => ItemsChanged h e)
                  (fun h => onItemsChanged f h e)); auto using
        onItemsChanged_scheduled. }
  destruct (drain_invariant sameWho _scheduleRender onDimensionChanged
              (onItemsChanged f) P (_listeners c) Step fuel s1 H1 D) as [H2 _].
  apply (Each (@AfterEventsDispatch Who) onAfterEventsDispatch);
    auto using onAfterEventsDispatch_scheduled.
Qed.

Lemma emitSoon_scheduled (e : ListViewEvent) (cw : Ctx * Widget) :
  scheduled (snd cw) -> scheduled (snd (ListView_emitSoon e cw)).
Proof. simpl. apply scheduleRender_scheduled. Qed.

Lemma emitAll_scheduled {A} (g : A -> ListViewEvent) (xs : list A)
    (cw : Ctx * Widget) :
  scheduled (snd cw) ->
  scheduled (snd (fold_left (fun cw x => ListView_emitSoon (g x) cw) xs cw)).
Proof.
  revert cw. induction xs as [|x xs IH]; intros cw H; simpl; auto.
  apply IH. now apply emitSoon_scheduled.
Qed.

(** While a callback is outstanding, emitting leaves the widget as it is. *)
Lemma emitAll_pending {A} (g : A -> ListViewEvent) (xs : list A)
    (cw : Ctx * Widget) (h : Handle) :
  _renderAnimationFrame (view (snd cw)) = Some h ->
  snd (fold_left (fun cw x => ListView_emitSoon (g x) cw) xs cw) = snd cw.
Proof.
  revert cw. induction xs as [|x xs IH]; intros cw H; simpl; auto.
  assert (E : snd (ListView_emitSoon (g x) cw) = snd cw)
    by (simpl; apply (scheduleRender_pending _ H)).
  rewrite IH; [exact E | now rewrite E].
Qed.

Lemma existsb_held (h : Handle) (frame : option Handle) :
  existsb (Nat.eqb h) (held frame) = true -> frame = Some h.
Proof.
  destruct frame as [h'|]; simpl; [|discriminate].
  rewrite orb_false_r. intros E. apply Nat.eqb_eq in E. now subst.
Qed.

Lemma without_self (h : Handle) : without h [h] = [].
Proof. simpl. now rewrite Nat.eqb_refl. Qed.

Lemma act_scheduled (a : Action) (s s' : System) :
  scheduled (widget s) -> act f a s = Some s' -> scheduled (widget s').
Proof.
  intros H. destruct a; simpl.
  - destruct (subscribed s); intros [= <-]; simpl.
    + apply (emitAll_scheduled
               (fun e => ItemsChangedEvent (ListViewItemsChangedEvent.new e))).
      exact H.
    + exact H.
  - intros [= <-]. simpl. now apply scheduleRender_scheduled.
  - destruct (Scrollable.setScrollTop _ _) as [sc evs].
    intros [= <-]. simpl. now apply (emitAll_scheduled ScrollEvent).
  - destruct (existsb _ _) eqn:E; [|discriminate].
    unfold onFrame. cbn [fst snd].
    match goal with
    | |- match match ListView_flush _ _ _ ?w with _ => _ end with _ => _ end = _ -> _ =>
        assert (Hw : scheduled w)
    end.
    { red in H. rewrite H in E. apply existsb_held in E.
      unfold scheduled. simpl. rewrite H, E. apply without_self. }
    destruct (ListView_flush _ _ _ _) as [fl|] eqn:F; [|discriminate].
    apply flush_scheduled in F; [|exact Hw].
    destruct (_render _ _ _ _) as [r v] eqn:Er.
    intros [= <-]. simpl. unfold scheduled in *. simpl.
    rewrite F. f_equal.
    change v with (snd (r, v)). rewrite <- Er. symmetry. apply render_frame.
  - intros [= <-]. unfold dispose. cbn [fst snd widget].
    destruct (_renderAnimationFrame (view (widget s))) as [h|] eqn:E.
    + unfold scheduled in *. simpl. rewrite H, E. apply without_self.
    + exact H.
Qed.

Lemma setModel_scheduled (dimension : IDimension) (m : ViewModel) :
  scheduled (widget (setModel dimension m)).
Proof. reflexivity. Qed.

Lemma run_scheduled (actions : list Action) (s s' : System) :
  scheduled (widget s) -> run f actions s = Some s' -> scheduled (widget s').
Proof.
  revert s. induction actions as [|a actions IH]; intros s H; simpl.
  - now intros [= <-].
  - destruct (act f a s) as [s1|] eqn:E; [|discriminate].
    apply IH. eapply act_scheduled; eauto.
Qed.

(** C6.  In every state that a widget reaches, at most one rendering
    callback is outstanding, and it is the one whose handle the view holds.
    While it is outstanding, emitting an event leaves the widget, and with
    it the outstanding callback, as it is.  A callback that was not
    outstanding before a step is outstanding after it only if none was
    outstanding before, or if the step ran the one that was. *)
Theorem one_callback_outstanding (dimension : IDimension) (m : ViewModel)
    (actions : list Action) (s : System) :
  run f actions (setModel dimension m) = Some s ->
  (length (AnimationFrames.outstanding (frames (widget s))) <= 1)%nat
  /\ scheduled (widget s)
  /\ (forall h e,
        _renderAnimationFrame (view (widget s)) = Some h ->
        snd (ListView_emitSoon e (context s, widget s)) = widget s
        /\ AnimationFrames.outstanding (frames (widget s)) = [h])
  /\ (forall a s' h',
        act f a s = Some s' ->
        In h' (AnimationFrames.outstanding (frames (widget s'))) ->
        ~ In h' (AnimationFrames.outstanding (frames (widget s))) ->
        AnimationFrames.outstanding (frames (widget s)) = []
        \/ exists h fuel now,
             a = Frame h fuel now
             /\ AnimationFrames.outstanding (frames (widget s)) = [h]).
Proof.
  intros Hrun.
  assert (H : scheduled (widget s))
    by (eapply run_scheduled; [apply setModel_scheduled | exact Hrun]).
  split; [|split; [exact H|split]].
  - rewrite H. destruct (_renderAnimationFrame _); simpl; lia.
  - intros h e E. split.
    + simpl. apply (scheduleRender_pending _ E).
    + rewrite H, E. reflexivity.
  - intros a s' h' Ha Hin Hout.
    destruct (_renderAnimationFrame (view (widget s))) as [h0|] eqn:E;
      [|left; now rewrite H, E].
    right. red in H. rewrite E in H. simpl in H.
    destruct a; simpl in Ha.
    + exfalso. apply Hout. destruct (subscribed s); injection Ha as <-;
        simpl in Hin; [|exact Hin].
      rewrite (emitAll_pending
                 (fun e => ItemsChangedEvent (ListViewItemsChangedEvent.new e))
                 _ (context s, set_model _ (widget s)) E) in Hin.
      exact Hin.
    + exfalso. apply Hout. injection Ha as <-. simpl in Hin.
      now rewrite (scheduleRender_pending _ E) in Hin.
    + exfalso. apply Hout.
      destruct (Scrollable.setScrollTop _ _) as [sc evs].
      injection Ha as <-. simpl in Hin.
      rewrite (emitAll_pending ScrollEvent _ (context s, set_layout _ (widget s)) E)
        in Hin.
      exact Hin.
    + exists h, fuel, now. split; [reflexivity|].
      destruct (existsb _ _) eqn:X; [|discriminate].
      rewrite H in X. simpl in X. rewrite orb_false_r in X.
      apply Nat.eqb_eq in X. now subst.
    + exfalso. injection Ha as <-. unfold dispose in Hin.
      cbn [fst snd widget] in Hin. rewrite E in Hin. simpl in Hin.
      rewrite H in Hin. simpl in Hin. now rewrite Nat.eqb_refl in Hin.
Qed.

End Scheduling.

Lemma one_callback_outstanding_witness :
  exists s,
    (forall e v, _renderAnimationFrame (viewHears e v) = _renderAnimationFrame v)
    /\ run viewHears sampleActions (setModel sampleDimension twoItems) = Some s
    /\ (length (AnimationFrames.outstanding (frames (widget s))) <= 1)%nat
    /\ scheduled (widget s).
Proof.
  destruct (run viewHears sampleActions (setModel sampleDimension twoItems))
    as [s|] eqn:E; [|vm_compute in E; discriminate E].
  exists s. split; [exact viewHears_frame|]. split; [reflexivity|].
  pose proof (@one_callback_outstanding viewHears viewHears_frame
                sampleDimension twoItems sampleActions s E) as H.
  split; apply H.
Defined.

(** ** The index follows the model through dispatch *)

Section Mirror.

Variable f : ListViewItemsChangedEvent.t -> ListView -> ListView.

Local Abbreviation invokeW := (invoke sameWho _scheduleRender).

(** The index as it will be once the events [pre] and then the queue have
    been heard. *)
Local Abbreviation ahead pre s :=
  (ListViewLayout._layoutData
     (replay (pre ++ _events (ctx s)) (layout (world s)))).

Lemma invoke_calm (what : ListenerCall Who) (m : Method Who Widget)
    (s : Flushing Who Widget) (pre : list ListViewEvent) :
  calm m ->
  _listeners (ctx (invokeW what m s)) = _listeners (ctx s)
  /\ model (world (invokeW what m s)) = model (world s)
  /\ ahead pre (invokeW what m s) = ahead pre s
  /\ ListViewLayout._layoutData (layout (world (invokeW what m s)))
     = ListViewLayout._layoutData (layout (world s)).
Proof.
  intros Hm. unfold invoke. destruct (Hm (world s)) as (Mo & Da & Sc).
  destruct (m (world s)) as [w cs]. simpl in Mo, Da, Sc.
  destruct (perform_scrolls (ctx s, w) Sc) as (L & (evs & E) & Mo' & La).
  simpl in *. rewrite L, E, Mo', La. repeat split; auto.
  rewrite app_assoc, replay_app, replay_scrolls. now apply replay_data.
Qed.

Lemma calm_before (h : Who) : calm (onBeforeEventsDispatch h).
Proof. intros w. simpl. auto. Qed.

Lemma calm_dimension (h : Who) (d : IDimension) : calm (onDimensionChanged h d).
Proof.
  intros w. destruct h; simpl; auto.
  unfold ListViewLayout.onDimensionChanged.
  destruct (Scrollable.andThen _ _ _) as [sc evs]. simpl.
  auto using forwardScroll_emitsScroll.
Qed.

Lemma calm_after (h : Who) : calm (onAfterEventsDispatch h).
Proof.
  intros w. destruct h; simpl; auto.
  unfold ListViewLayout.onAfterEventsDispatch.
  destruct (Scrollable.setScrollHeight _ _) as [sc evs]. simpl.
  auto using forwardScroll_emitsScroll.
Qed.

Lemma calm_items_view (i : ListViewItemsChangedEvent.t) :
  calm (onItemsChanged f TheView i).
Proof. intros w. simpl. auto. Qed.

Lemma dispatch_flushing (m : ViewModel) (D : PrefixSumComputer.t)
    (s : Flushing Who Widget) (e : ListViewEvent) (rest : list ListViewEvent) :
  flushing m D s -> _events (ctx s) = e :: rest ->
  flushing m D
    (dispatch sameWho _scheduleRender onDimensionChanged (onItemsChanged f)
       [TheView; TheLayout] e
       {| ctx := {| _listeners := _listeners (ctx s); _events := rest |};
          world := world s; calls := calls s |}).
Proof.
  intros (L & Mo & A) E. simpl in A. rewrite E in A.
  set (s0 := {| ctx := _; world := world s; calls := calls s |}).
  assert (A0 : ahead [e] s0 = D) by exact A.
  unfold flushing, dispatch. destruct e; cbn [fold_left].
  - (* a change of dimension: both listeners are calm *)
    set (s1 := invokeW _ (onDimensionChanged TheView newDimension) s0).
    destruct (invoke_calm (DimensionChanged TheView newDimension) s0
                [DimensionChangedEvent newDimension]
                (calm_dimension TheView newDimension)) as (L1 & M1 & A1 & _).
    fold s1 in L1, M1, A1.
    destruct (invoke_calm (DimensionChanged TheLayout newDimension) s1
                [DimensionChangedEvent newDimension]
                (calm_dimension TheLayout newDimension)) as (L2 & M2 & A2 & _).
    rewrite L2, L1, M2, M1. repeat split; auto.
    change (ahead [DimensionChangedEvent newDimension]
              (invokeW (DimensionChanged TheLayout newDimension)
                 (onDimensionChanged TheLayout newDimension) s1) = D).
    now rewrite A2, A1.
  - repeat split; auto.
  - (* a change of items: the layout edits its index *)
    set (s1 := invokeW _ (onItemsChanged f TheView e) s0).
    destruct (invoke_calm (ItemsChanged TheView e) s0 [ItemsChangedEvent e]
                (calm_items_view e)) as (L1 & M1 & A1 & _).
    fold s1 in L1, M1, A1.
    unfold invoke at 1. cbn. repeat split; auto.
  - repeat split; auto.
Qed.

Lemma each_calm (m : ViewModel) (D : PrefixSumComputer.t)
    (K : Who -> ListenerCall Who) (meth : Who -> Method Who Widget)
    (hs : list Who) (s : Flushing Who Widget) :
  (forall h, calm (meth h)) ->
  flushing m D s ->
  ListViewLayout._layoutData (layout (world s)) = D ->
  let s' := fold_left (fun s h => invokeW (K h) (meth h) s) hs s in
  flushing m D s' /\ ListViewLayout._layoutData (layout (world s')) = D.
Proof.
  intros Hc. revert s. induction hs as [|h hs IH]; intros s Hs Hd; simpl; auto.
  destruct Hs as (L & Mo & A).
  destruct (invoke_calm (K h) s [] (Hc h)) as (L1 & M1 & A1 & D1).
  cbn [app] in A1.
  apply IH; [|congruence].
  repeat split; congruence.
Qed.

(** After a flush that began with the view and the layout listening and an
    index that mirrors the model once the queue is heard, the index holds
    the heights of the model. *)
Lemma flush_mirrors (fuel : nat) (c : Ctx) (w : Widget)
    (s : Flushing Who Widget) :
  _listeners c = [TheView; TheLayout] ->
  ListView_flush f fuel c w = Some s ->
  _listeners (ctx s) = [TheView; TheLayout]
  /\ model (world s) = model w
  /\ ListViewLayout._layoutData (layout (world s))
     = ListViewLayout._layoutData (replay (_events c) (layout w))
  /\ ListViewLayout._layoutData (replay (_events (ctx s)) (layout (world s)))
     = ListViewLayout._layoutData (replay (_events c) (layout w)).
Proof.
  intros L. unfold ListView_flush, flush. rewrite L.
  set (D := ListViewLayout._layoutData (replay (_events c) (layout w))).
  set (s0 := {| ctx := c; world := w; calls := [] |}).
  assert (H0 : flushing (model w) D s0) by (repeat split; auto).
  cbn [fold_left].
  set (s1 := invokeW (BeforeEventsDispatch TheLayout) _ _).
  assert (H1 : flushing (model w) D s1).
  { destruct H0 as (L0 & M0 & A0).
    destruct (invoke_calm (BeforeEventsDispatch TheView) s0 []
                (calm_before TheView)) as (La & Ma & Aa & _).
    destruct (invoke_calm (BeforeEventsDispatch TheLayout)
                (invokeW (BeforeEventsDispatch TheView)
                   (onBeforeEventsDispatch TheView) s0) []
                (calm_before TheLayout)) as (Lb & Mb & Ab & _).
    cbn [app] in Aa, Ab.
    repeat split; unfold s1; congruence. }
  destruct (drain _ _ _ _ fuel _ s1) as [s2|] eqn:Dr; [|discriminate].
  intros [= <-].
  destruct (drain_invariant sameWho _scheduleRender onDimensionChanged
              (onItemsChanged f) (flushing (model w) D) [TheView; TheLayout]
              (@dispatch_flushing (model w) D) fuel s1 H1 Dr) as [H2 E2].
  assert (D2 : ListViewLayout._layoutData (layout (world s2)) = D).
  { destruct H2 as (_ & _ & A2). simpl in A2. now rewrite E2 in A2. }
  destruct (@each_calm (model w) D (@AfterEventsDispatch Who)
              onAfterEventsDispatch [TheView; TheLayout] s2 calm_after H2 D2)
    as ((L3 & M3 & A3) & D3).
  cbn [fold_left] in L3, M3, A3, D3. auto.
Qed.

End Mirror.

Section MirrorRuns.

Variable f : ListViewItemsChangedEvent.t -> ListView -> ListView.

Lemma emitAll_effect {A} (g : A -> ListViewEvent) (xs : list A)
    (cw : Ctx * Widget) :
  let r := fold_left (fun cw x => ListView_emitSoon (g x) cw) xs cw in
  _listeners (fst r) = _listeners (fst cw)
  /\ _events (fst r) = _events (fst cw) ++ map g xs
  /\ model (snd r) = model (snd cw)
  /\ layout (snd r) = layout (snd cw).
Proof.
  revert cw. induction xs as [|x xs IH]; intros cw; simpl.
  - rewrite app_nil_r. auto.
  - destruct (IH (ListView_emitSoon (g x) cw)) as (L & E & Mo & La).
    rewrite L, E, Mo, La. simpl.
    rewrite scheduleRender_model, scheduleRender_layout, <- app_assoc. auto.
Qed.

Lemma fired_splice (start del : Z) (items : list IListItem) (vm : ViewModel) :
  fired vm (snd (splice start del items vm)) =
  [ViewModelChangedEvent.new (_versionId vm + 1) start del
     (map getHeight items)].
Proof.
  unfold splice, fired. rewrite map_cachedHeight_toMyItems. simpl.
  now rewrite skipn_app, skipn_all, Nat.sub_diag.
Qed.

Lemma length_getAllHeights (vm : ViewModel) :
  length (getAllHeights vm) = length (_items vm).
Proof. apply length_map. Qed.

Lemma act_inStep (a : Action) (s s' : System) :
  inStep s -> validAction a s -> act f a s = Some s' -> inStep s'.
Proof.
  intros Hs Hv.
  destruct a as [start del items | d | y | h fuel now |]; unfold act.
  - (* a splice *)
    destruct Hv as (V1 & V2 & V3).
    pose proof (fired_splice start del items (model (widget s))) as Fi.
    pose proof (getAllHeights_splice items (model (widget s)) V1 V2) as Ga.
    set (m' := snd (splice start del items (model (widget s)))) in *.
    clearbody m'. cbv zeta. rewrite Fi. cbn [fold_left].
    destruct (subscribed s) eqn:Sub; intros [= <-]; [|discriminate].
    intros _. destruct (Hs Sub) as (B & Mi).
    unfold bound, mirrors in *. simpl.
    rewrite scheduleRender_model, scheduleRender_layout. simpl.
    split; [exact B|].
    rewrite replay_app. cbn [replay fold_left].
    rewrite onItemsChanged_values; try assumption.
    + rewrite Mi. symmetry. exact Ga.
    + rewrite Mi, length_getAllHeights. exact V3.
  - (* a change of dimension *)
    intros [= <-]. intros Sub. destruct (Hs Sub) as (B & Mi).
    unfold bound, mirrors in *. simpl.
    rewrite scheduleRender_model, scheduleRender_layout. simpl.
    split; [exact B|]. rewrite replay_app. exact Mi.
  - (* a scroll *)
    destruct (Scrollable.setScrollTop _ _) as [sc evs].
    intros [= <-]. intros Sub. destruct (Hs Sub) as (B & Mi).
    unfold bound, mirrors in *. cbn [context widget].
    match goal with
    | |- context [fold_left _ evs ?cw] =>
        destruct (emitAll_effect ScrollEvent evs cw) as (L & E & Mo & La)
    end.
    rewrite L, E, Mo, La. simpl. split; [exact B|].
    rewrite replay_app, replay_scrolls, <- Mi. f_equal. now apply replay_data.
  - (* a frame *)
    destruct (existsb _ _); [|discriminate].
    unfold onFrame. cbn [fst snd].
    destruct (ListView_flush _ _ _ _) as [fl|] eqn:F; [|discriminate].
    destruct (_render _ _ _ _) as [r v].
    intros [= <-]. intros Sub. destruct (Hs Sub) as (B & Mi).
    destruct (@flush_mirrors f _ _ _ _ B F) as (L & Mo & _ & A).
    unfold bound, mirrors in *. simpl in *.
    split; [exact L|]. now rewrite A, Mo.
  - intros [= <-]. intros Sub. discriminate Sub.
Qed.

Lemma setModel_inStep (dimension : IDimension) (m : ViewModel) :
  inStep (setModel dimension m).
Proof. intros _. split; reflexivity. Qed.

Lemma run_inStep (actions : list Action) (s s' : System) :
  inStep s -> validRun f actions s -> run f actions s = Some s' -> inStep s'.
Proof.
  revert s. induction actions as [|a actions IH]; intros s H V; simpl.
  - now intros [= <-].
  - destruct V as (Va & V). destruct (act f a s) as [s1|] eqn:E; [|discriminate].
    apply IH; [eapply act_inStep; eauto | exact V].
Qed.

(** *** The dispatch cycle ends *)

Lemma pending_scrolls (q : list ListViewEvent) (evs : list IScrollEvent) :
  pending (q ++ map ScrollEvent evs) = pending q.
Proof.
  unfold pending. rewrite filter_app, length_app.
  replace (filter heard (map ScrollEvent evs)) with (@nil ListViewEvent);
    [simpl; lia|].
  induction evs as [|e evs IH]; simpl; auto.
Qed.

Lemma invoke_scrolls (what : ListenerCall Who) (m : Method Who Widget)
    (s : Flushing Who Widget) :
  (forall w, Forall emitsScroll (snd (m w))) ->
  exists evs,
    _events (ctx (invoke sameWho _scheduleRender what m s))
    = _events (ctx s) ++ map ScrollEvent evs.
Proof.
  intros Hm. unfold invoke. specialize (Hm (world s)).
  destruct (m (world s)) as [w cs]. simpl in Hm.
  destruct (perform_scrolls (ctx s, w) Hm) as (_ & (evs & E) & _).
  simpl in *. now exists evs.
Qed.

Lemma each_scrolls (K : Who -> ListenerCall Who)
    (meth : Who -> Method Who Widget) (hs : list Who) :
  (forall h w, Forall emitsScroll (snd (meth h w))) ->
  forall s : Flushing Who Widget,
    exists evs,
      _events (ctx (fold_left (fun s h => invoke sameWho _scheduleRender
                                            (K h) (meth h) s) hs s))
      = _events (ctx s) ++ map ScrollEvent evs.
Proof.
  intros Hm. induction hs as [|h hs IH]; intros s; simpl.
  - exists []. simpl. now rewrite app_nil_r.
  - destruct (IH (invoke sameWho _scheduleRender (K h) (meth h) s)) as (evs & E).
    destruct (@invoke_scrolls (K h) (meth h) s (Hm h)) as (evs0 & E0).
    exists (evs0 ++ evs). now rewrite E, E0, map_app, app_assoc.
Qed.

Lemma onDimensionChanged_scrolls (h : Who) (d : IDimension) (w : Widget) :
  Forall emitsScroll (snd (onDimensionChanged h d w)).
Proof. apply calm_dimension. Qed.

Lemma onItemsChanged_scrolls (h : Who) (i : ListViewItemsChangedEvent.t)
    (w : Widget) :
  Forall emitsScroll (snd (onItemsChanged f h i w)).
Proof. destruct h; simpl; constructor. Qed.

(** Delivering an event lengthens what is left of the queue by scroll
    events only. *)
Lemma dispatch_scrolls (hs : list Who) (e : ListViewEvent)
    (s : Flushing Who Widget) :
  exists evs,
    _events (ctx (dispatch sameWho _scheduleRender onDimensionChanged
                    (onItemsChanged f) hs e s))
    = _events (ctx s) ++ map ScrollEvent evs.
Proof.
  destruct e as [d | y | i |]; cbn [dispatch].
  - apply (each_scrolls (fun h => DimensionChanged h d)
             (fun h => onDimensionChanged h d)).
    intros h w. apply onDimensionChanged_scrolls.
  - exists []. simpl. now rewrite app_nil_r.
  - apply (each_scrolls (fun h => ItemsChanged h i)
             (fun h => onItemsChanged f h i)).
    intros h w. apply onItemsChanged_scrolls.
  - exists []. simpl. now rewrite app_nil_r.
Qed.

(** The loop of [flush] ends: the events that reach listeners make them emit
    scroll events only, and a scroll event makes no call. *)
Lemma drain_returns (hs : list Who) :
  forall (n L : nat) (s : Flushing Who Widget),
    pending (_events (ctx s)) = n ->
    length (_events (ctx s)) = L ->
    exists fuel s',
      drain sameWho _scheduleRender onDimensionChanged (onItemsChanged f)
            fuel hs s = Some s'.
Proof.
  assert (Step : forall (s : Flushing Who Widget) e rest,
             _events (ctx s) = e :: rest ->
             (exists fuel s',
                 drain sameWho _scheduleRender onDimensionChanged
                       (onItemsChanged f) fuel hs
                       (dispatch sameWho _scheduleRender onDimensionChanged
                          (onItemsChanged f) hs e
                          {| ctx := {| _listeners := _listeners (ctx s);
                                       _events := rest |};
                             world := world s; calls := calls s |})
                 = Some s') ->
             exists fuel s',
               drain sameWho _scheduleRender onDimensionChanged
                     (onItemsChanged f) fuel hs s = Some s').
  { intros s e rest E (fuel & s' & D). exists (S fuel), s'.
    cbn [drain]. now rewrite E. }
  induction n as [|n IHn]; induction L as [|L IHL]; intros s P Len;
    destruct (_events (ctx s)) as [|e rest] eqn:E; try discriminate;
    try (exists O, s; cbn [drain]; now rewrite E).
  - (* nothing left for listeners: the head is a scroll or a plain event *)
    apply (Step s e rest E).
    destruct e; try discriminate; cbn [dispatch];
      apply IHL; cbn [ctx _events]; simpl in Len; auto; lia.
  - apply (Step s e rest E).
    set (s0 := {| ctx := _; world := world s; calls := calls s |}).
    destruct (dispatch_scrolls hs e s0) as (evs & Ev).
    destruct (heard e) eqn:He.
    + eapply IHn; [|reflexivity].
      rewrite Ev, pending_scrolls. subst s0. cbn [ctx _events].
      unfold pending in *. cbn [filter] in P. rewrite He in P.
      simpl in P. lia.
    + destruct e; try discriminate; cbn [dispatch]; subst s0;
        apply IHL; cbn [ctx _events]; simpl in Len; try lia;
        unfold pending in *; cbn [filter heard] in P; exact P.
Qed.

Lemma flush_returns (c : Ctx) (w : Widget) :
  exists fuel s, ListView_flush f fuel c w = Some s.
Proof.
  unfold ListView_flush, flush.
  set (s1 := fold_left _ (_listeners c) _).
  destruct (@drain_returns (_listeners c) _ _ s1 eq_refl eq_refl)
    as (fuel & s2 & D).
  exists fuel. rewrite D. eauto.
Qed.

(** A callback that is outstanding can run, and its dispatch cycle and its
    render pass come to an end. *)
Lemma frame_returns (s : System) (h : Handle) (now : Z) :
  In h (AnimationFrames.outstanding (frames (widget s))) ->
  exists fuel s', act f (Frame h fuel now) s = Some s'.
Proof.
  intros Hin. cbn [act].
  assert (Ex : existsb (Nat.eqb h)
                 (AnimationFrames.outstanding (frames (widget s))) = true).
  { apply existsb_exists. exists h. split; [exact Hin | apply Nat.eqb_refl]. }
  rewrite Ex. unfold onFrame. cbn [fst snd].
  match goal with
  | |- context [ListView_flush f _ ?c ?w] =>
      destruct (flush_returns c w) as (fuel & fl & F)
  end.
  exists fuel. rewrite F.
  destruct (_render _ _ _ _) as [r v]. eauto.
Qed.

(** C3.  Start from a widget bound to a model and let valid splices,
    resizes, scrolls and frames happen in any order, whatever the handler
    [f] of the view does to its window when it hears of a change.  As long
    as the widget listens to the model, the index holds the heights of the
    model once it has heard the events that are still queued; and right
    after the dispatch cycle of a frame the entries of the index are the
    cached heights of the items of the model, one for one, so that its total
    is their sum.  Such a cycle comes to an end for every callback that is
    outstanding. *)
Theorem index_mirrors_model (dimension : IDimension) (m : ViewModel)
    (actions : list Action) (s : System) :
  validRun f actions (setModel dimension m) ->
  run f actions (setModel dimension m) = Some s ->
  subscribed s = true ->
  mirrors s
  /\ (forall h fuel now s',
       act f (Frame h fuel now) s = Some s' ->
       PrefixSumComputer.values (ListViewLayout._layoutData (layout (widget s')))
       = getAllHeights (model (widget s'))
       /\ PrefixSumComputer.getCount (ListViewLayout._layoutData (layout (widget s')))
          = len (_items (model (widget s')))
       /\ PrefixSumComputer.getTotalValue
            (ListViewLayout._layoutData (layout (widget s')))
          = fold_right Z.add 0 (map cachedHeight (_items (model (widget s')))))
  /\ (forall h now,
        In h (AnimationFrames.outstanding (frames (widget s))) ->
        exists fuel s', act f (Frame h fuel now) s = Some s').
Proof.
  intros V Hrun Sub.
  destruct (@run_inStep actions _ s (@setModel_inStep dimension m) V Hrun Sub)
    as (B & Mi).
  split; [exact Mi|].
  split; [|intros h now Hin; now apply frame_returns].
  intros h fuel now s'. simpl.
  destruct (existsb _ _); [|discriminate].
  unfold onFrame. cbn [fst snd].
  destruct (ListView_flush _ _ _ _) as [fl|] eqn:F; [|discriminate].
  destruct (_render _ _ _ _) as [r v].
  intros [= <-].
  destruct (@flush_mirrors f _ _ _ _ B F) as (_ & Mo & D & _).
  unfold mirrors in Mi. simpl in *.
  assert (E : PrefixSumComputer.values (ListViewLayout._layoutData (layout (world fl)))
              = getAllHeights (model (world fl)))
    by (now rewrite D, Mo).
  split; [exact E|]. split.
  - unfold PrefixSumComputer.getCount. rewrite E.
    now rewrite length_getAllHeights.
  - unfold PrefixSumComputer.getTotalValue. now rewrite E.
Qed.

End MirrorRuns.

Lemma index_mirrors_model_witness :
  exists s,
    validRun viewHears sampleActions (setModel sampleDimension twoItems)
    /\ run viewHears sampleActions (setModel sampleDimension twoItems) = Some s
    /\ subscribed s = true
    /\ mirrors s.
Proof.
  destruct (run viewHears sampleActions (setModel sampleDimension twoItems))
    as [s|] eqn:E; [|vm_compute in E; discriminate E].
  assert (V : validRun viewHears sampleActions (setModel sampleDimension twoItems))
    by (vm_compute; repeat split; discriminate).
  assert (Sub : subscribed s = true)
    by (vm_compute in E; injection E as <-; reflexivity).
  exists s. split; [exact V|]. split; [reflexivity|]. split; [exact Sub|].
  exact (proj1 (@index_mirrors_model viewHears sampleDimension twoItems
                  sampleActions s V E Sub)).
Defined.

(** ** Teardown *)




(** ** Finishing a render pass *)

Lemma nth_error_adjust_eq {A} (f : A -> A) (i : nat) (a : list A) :
  nth_error (adjust f i a) i = option_map f (nth_error a i).
Proof.
  revert i. induction a as [|x a IH]; intros [|i]; simpl; auto.
Qed.

Lemma nth_error_adjust_ne {A} (f : A -> A) (i k : nat) (a : list A) :
  k <> i -> nth_error (adjust f i a) k = nth_error a k.
Proof.
  revert i k. induction a as [|x a IH]; intros [|i] [|k] H; simpl; auto.
  congruence.
Qed.

Lemma length_adjust {A} (f : A -> A) (i : nat) (a : list A) :
  length (adjust f i a) = length a.
Proof.
  revert i. induction a as [|x a IH]; intros [|i]; simpl; auto.
Qed.

Lemma finishes_refl (v : ListView) : finishes v v.
Proof.
  do 2 (split; [reflexivity|]). do 2 (split; [auto|]).
  exists []. split; [now rewrite app_nil_r | intros l []].
Qed.

Lemma finishes_same (v0 v v' : ListView) :
  linesAndLog v' = linesAndLog v -> finishes v0 v -> finishes v0 v'.
Proof.
  unfold linesAndLog. intros [= E1 E2 E3].
  unfold finishes, cleanAt, dirtyIn. now rewrite E1, E2, E3.
Qed.

Lemma finishes_modifyLine (v0 v : ListView) (i : nat) (f : ViewItem -> ViewItem) :
  finishes v0 v -> dirtyIn v0 i ->
  (forall line, _isDirty (f line) = true -> _isDirty line = true) ->
  finishes v0 (set_renderedItems (adjust f i (_renderedItems v)) v).
Proof.
  intros (S & N & C & D & L) (line0 & E0 & D0) Hf.
  unfold finishes, cleanAt, dirtyIn in *. simpl.
  rewrite length_adjust. do 2 (split; [assumption|]). split; [|split].
  - intros k line (Ek & Ck).
    assert (k <> i) by (intros ->; congruence).
    rewrite nth_error_adjust_ne by assumption. now apply C.
  - intros k (line & Ek & Dk). destruct (Nat.eq_dec k i) as [->|Hne].
    + eauto.
    + rewrite nth_error_adjust_ne in Ek by assumption. eauto.
  - exact L.
Qed.

Lemma finishes_log (v0 v : ListView) (l : Z) :
  finishes v0 v -> dirtyLine v0 l ->
  finishes v0 (set_renderCalls (renderCalls v ++ [l]) v).
Proof.
  intros (S & N & C & D & L & E & HL) Hl.
  unfold finishes, cleanAt, dirtyIn in *. simpl.
  do 4 (split; [assumption|]).
  exists (L ++ [l]). split; [now rewrite E, app_assoc|].
  intros x Hx. apply in_app_or in Hx. destruct Hx as [Hx|[<-|[]]]; auto.
Qed.

(** [getLineOuterHTML] marks the line clean; then it throws, or it calls
    the model's [render] and returns the markup. *)
Lemma getLineOuterHTML_cases (m : ViewModel) (i : nat) (l : Z)
    (top : option Z) (v : ListView) :
  let v1 := set_renderedItems (adjust clean i (_renderedItems v)) v in
  getLineOuterHTML m i l top v = (Throw TypeError, v1)
  \/ exists t x,
       top = Some t /\ at_ (_items m) l = Some x
       /\ getLineOuterHTML m i l top v =
          (Normal {| html_lineNumber := l; html_top := t;
                     html_height := cachedHeight x;
                     html_content := render (actual x) |},
           set_renderCalls (renderCalls v ++ [l]) v1).
Proof.
  unfold getLineOuterHTML, getHeightOf, ViewModel_render.
  destruct top as [t|]; [|left; reflexivity].
  destruct (at_ (_items m) l) as [x|] eqn:E.
  - right. exists t, x. repeat split.
  - left. reflexivity.
Qed.

Lemma clean_not_dirty (line : ViewItem) :
  _isDirty (clean line) = true -> _isDirty line = true.
Proof. discriminate. Qed.

Lemma outcome_bind {S A B} (m : M S A) (k : A -> M S B) (s : S)
    (Q1 : A -> S -> Prop) (Q : B -> S -> Prop) (E : S -> Prop) :
  outcome (m s) Q1 E ->
  (forall a s1, Q1 a s1 -> outcome (k a s1) Q E) ->
  outcome (bind m k s) Q E.
Proof.
  unfold bind. destruct (m s) as [[a|e] s1]; simpl; auto.
Qed.

Lemma outcome_weaken {S A} (r : Completion A * S) (Q Q' : A -> S -> Prop)
    (E E' : S -> Prop) :
  outcome r Q E -> (forall a s, Q a s -> Q' a s) -> (forall s, E s -> E' s) ->
  outcome r Q' E'.
Proof. unfold outcome. destruct r as [[a|e] s]; auto. Qed.

Lemma outcome_snd {S A} (r : Completion A * S) (E : S -> Prop) :
  outcome r (fun _ => E) E -> E (snd r).
Proof. unfold outcome. destruct r as [[a|e] s]; auto. Qed.

(** The first loop of [_finishRendering] writes markup for dirty lines
    only, and marks no other line. *)
Lemma gather_finishes (m : ViewModel) (tops : list Z) (indices : list nat) :
  forall (g : Gathered) (v0 v : ListView),
    finishes v0 v ->
    outcome (gather m tops indices g v)
      (fun g' v' =>
         finishes v0 v'
         /\ (forall k, In k (wasNew g') -> In k (wasNew g) \/ dirtyIn v0 k)
         /\ (forall k, In k (wasInvalid g') ->
                       In k (wasInvalid g) \/ dirtyIn v0 k))
      (finishes v0).
Proof.
  induction indices as [|i indices IH]; intros g v0 v F; cbn [gather].
  - simpl. auto.
  - unfold bind at 1, get; cbv beta iota.
    destruct (nth_error (_renderedItems v) i) as [line|] eqn:E; [|exact F].
    unfold shouldUpdateHTML. destruct (_isDirty line) eqn:D; [|now apply IH].
    assert (D0 : dirtyIn v0 i).
    { destruct F as (_ & _ & _ & Hd & _). apply Hd. now exists line. }
    assert (F1 : finishes v0
                   (set_renderedItems (adjust clean i (_renderedItems v)) v))
      by (apply finishes_modifyLine; auto using clean_not_dirty).
    assert (F2 : finishes v0
                   (set_renderCalls
                      (renderCalls v ++ [Z.of_nat i + _renderedItemsStart v])
                      (set_renderedItems (adjust clean i (_renderedItems v)) v))).
    { apply (finishes_log F1). destruct F as (S & _).
      destruct D0 as (line0 & E0 & Dl0). exists i, line0.
      repeat split; auto. now rewrite S. }
    destruct (_domNode line); unfold bind at 1; cbv beta;
      destruct (getLineOuterHTML_cases m i (Z.of_nat i + _renderedItemsStart v)
                  (at_ tops (Z.of_nat i)) v)
        as [T | (t & x & _ & _ & T)]; rewrite T; try exact F1.
    + eapply outcome_weaken; [apply (IH _ v0 _ F2) | | auto].
      intros g' v' (I1 & N & V). split; [exact I1|]. split; [exact N|].
      intros k Hk. destruct (V k Hk) as [Hin|]; auto.
      simpl in Hin. apply in_app_or in Hin. destruct Hin as [|[<-|[]]]; auto.
    + eapply outcome_weaken; [apply (IH _ v0 _ F2) | | auto].
      intros g' v' (I1 & N & V). split; [exact I1|]. split; [|exact V].
      intros k Hk. destruct (N k Hk) as [Hin|]; auto.
      simpl in Hin. apply in_app_or in Hin. destruct Hin as [|[<-|[]]]; auto.
Qed.

Lemma marked_In (i : nat) (l : list nat) : marked i l = true -> In i l.
Proof.
  unfold marked. rewrite existsb_exists. intros (x & Hx & E).
  apply Nat.eqb_eq in E. now subst.
Qed.

Lemma setDomNode_not_dirty (n : option Handle) (line : ViewItem) :
  _isDirty (setDomNode n line) = true -> _isDirty line = true.
Proof. auto. Qed.

(** Handing out the new nodes touches marked lines only. *)
Lemma adopt_finishes (new : list nat) (v0 : ListView) :
  (forall k, In k new -> dirtyIn v0 k) ->
  forall (indices : list nat) (siblings : list Handle) (v : ListView),
    finishes v0 v -> finishes v0 (snd (adopt indices new siblings v)).
Proof.
  intros Hnew. induction indices as [|i indices IH];
    intros siblings v F; cbn [adopt]; [exact F|].
  destruct (marked i new) eqn:Mk; [|now apply IH].
  apply marked_In in Mk.
  destruct siblings as [|c previous]; unfold bind, modifyLine, modify; simpl.
  - apply finishes_modifyLine; [exact F | auto | intros line H; exact H].
  - apply IH.
    apply finishes_modifyLine; [exact F | auto | intros line H; exact H].
Qed.

(** Swapping in the rewritten nodes touches marked lines only. *)
Lemma swap_finishes (invalid : list nat) (v0 : ListView) :
  (forall k, In k invalid -> dirtyIn v0 k) ->
  forall (indices : list nat) (huge : list Handle) (v : ListView),
    finishes v0 v -> finishes v0 (snd (swap indices invalid huge v)).
Proof.
  intros Hinv. induction indices as [|i indices IH];
    intros huge v F; cbn [swap]; [exact F|].
  destruct (marked i invalid) eqn:Mk; [|now apply IH].
  apply marked_In in Mk.
  unfold bind at 1, lineDomNode; cbv beta iota.
  destruct (at_ (_renderedItems v) (Z.of_nat i)) as [line|]; [|exact F].
  unfold bind at 1, get; cbv beta iota.
  destruct huge as [|source huge']; [exact F|].
  destruct (_domNode line) as [old|]; [|exact F].
  destruct (isChild old v); [|exact F].
  unfold bind, modify, modifyLine; cbv beta iota.
  apply IH.
  apply finishes_modifyLine; [| auto | intros line' H; exact H].
  apply (finishes_same (v := v)); [reflexivity | exact F].
Qed.

Lemma createNodes_linesAndLog (html : list LineHTML) (v : ListView) :
  linesAndLog (snd (createNodes html v)) = linesAndLog v.
Proof.
  apply (@createNodes_keeps (fun a b => linesAndLog b = linesAndLog a));
    intros; first [reflexivity | congruence].
Qed.

(** Finishing a render pass: lines that are not dirty are left as they are
    and the model's [render] is called for dirty lines only. *)
Lemma finishRendering_finishes (m : ViewModel) (domNodeIsEmpty : bool)
    (tops : list Z) (v : ListView) :
  finishes v (snd (_finishRendering m domNodeIsEmpty tops v)).
Proof.
  unfold _finishRendering. unfold bind at 1, get; cbv beta iota.
  set (indices := seq 0 (length (_renderedItems v))).
  set (g0 := {| wasNew := []; newLinesHTML := [];
                wasInvalid := []; invalidLinesHTML := [] |}).
  pose proof (gather_finishes m tops indices g0 (finishes_refl v)) as G.
  unfold bind at 1; cbv beta.
  destruct (gather m tops indices g0 v) as [[g|e] v1]; [|exact G].
  destruct G as (F1 & Gn & Gi).
  assert (Hn : forall k, In k (wasNew g) -> dirtyIn v k)
    by (intros k Hk; destruct (Gn k Hk) as [[]|]; assumption).
  assert (Hi : forall k, In k (wasInvalid g) -> dirtyIn v k)
    by (intros k Hk; destruct (Gi k Hk) as [[]|]; assumption).
  clear Gn Gi.
  unfold bind at 1; cbv beta.
  set (newPart := match wasNew g with [] => ret tt | _ :: _ => _ end).
  assert (F2 : finishes v (snd (newPart v1))).
  { unfold newPart. destruct (wasNew g) as [|k0 ks] eqn:W; [exact F1|].
    unfold bind at 1, get; cbv beta iota. unfold bind at 1; cbv beta.
    pose proof (createNodes_linesAndLog (newLinesHTML g) v1) as C.
    destruct (createNodes (newLinesHTML g) v1) as [[fresh|e] v2];
      simpl in C; [|exact (finishes_same C F1)].
    unfold bind at 1, modify; cbv beta iota. unfold bind at 1, get; cbv beta iota.
    apply adopt_finishes; [exact Hn|].
    apply finishes_same with (v := v2); [|exact (finishes_same C F1)].
    destruct domNodeIsEmpty; [reflexivity|].
    destruct (_listItemsDomNode v2); reflexivity. }
  destruct (newPart v1) as [[[]|e] v3]; [|exact F2]. simpl in F2.
  destruct (wasInvalid g) as [|k0 ks] eqn:W; [exact F2|].
  unfold bind at 1; cbv beta.
  pose proof (createNodes_linesAndLog (invalidLinesHTML g) v3) as C.
  destruct (createNodes (invalidLinesHTML g) v3) as [[huge|e] v4];
    simpl in C; [|exact (finishes_same C F2)].
  apply swap_finishes; [exact Hi|]. exact (finishes_same C F2).
Qed.

Lemma finishRendering_contentKept (m : ViewModel) (domNodeIsEmpty : bool)
    (tops : list Z) (v : ListView) :
  contentKept v (snd (_finishRendering m domNodeIsEmpty tops v)).
Proof.
  apply (@finishRendering_keeps contentKept);
    first [ exact contentKept_refl | exact contentKept_trans
          | exact contentKept_alloc | intros; split; simpl; auto ].
Qed.

Lemma renderUntouchedLines_linesAndLog (m : ViewModel) (a b : Z)
    (tops : list Z) (deltaLN : Z) (v : ListView) :
  linesAndLog (snd (_renderUntouchedLines m a b tops deltaLN v)) = linesAndLog v.
Proof.
  apply (@renderUntouchedLines_keeps (fun x y => linesAndLog y = linesAndLog x));
    intros; first [reflexivity | congruence].
Qed.

Lemma renderUntouchedLines_contentKept (m : ViewModel) (a b : Z)
    (tops : list Z) (deltaLN : Z) (v : ListView) :
  contentKept v (snd (_renderUntouchedLines m a b tops deltaLN v)).
Proof.
  apply (@renderUntouchedLines_keeps contentKept);
    first [ exact contentKept_refl | exact contentKept_trans
          | exact contentKept_restyle ].
Qed.

(** A line that is dirty is not clean. *)
Lemma dirtyLine_not_clean (v : ListView) (k : nat) (line : ViewItem) :
  cleanAt v k line -> ~ dirtyLine v (Z.of_nat k + _renderedItemsStart v).
Proof.
  intros (E & C) (k' & line' & E' & D' & Hk).
  assert (k' = k) by lia. subst. congruence.
Qed.

(** ** The window during a render pass *)

(** [_render], with its two blocks named. *)
Lemma render_blocks (m : ViewModel) (renderData : IRenderData) (now : Z) :
  _render m renderData now =
  bind get (fun v =>
  let startItem := rd_startIndex renderData in
  let endItem := rd_startIndex renderData + len (rd_tops renderData) - 1 in
  if noOverlap renderData now v then
    bind (modify (set_renderedItemsStart startItem)) (fun _ =>
    bind (modify (set_renderedItems (newLines startItem endItem))) (fun _ =>
    bind (_finishRendering m true (rd_tops renderData)) (fun _ =>
    modify (set_scrollDomNode None))))
  else
    bind (_renderUntouchedLines m
            (Z.max (startItem - _renderedItemsStart v) 0)
            (Z.min (endItem - _renderedItemsStart v) (len (_renderedItems v) - 1))
            (rd_tops renderData) startItem) (fun _ =>
    bind (alignStart startItem endItem v) (fun _ =>
    bind (modify (set_renderedItemsStart startItem)) (fun _ =>
    bind get (fun v2 =>
    bind (alignEnd endItem v2) (fun _ =>
    _finishRendering m false (rd_tops renderData))))))).
Proof. reflexivity. Qed.

Lemma outcome_of_snd {S A} (r : Completion A * S) (E : S -> Prop) :
  E (snd r) -> outcome r (fun _ => E) E.
Proof. destruct r as [[a|e] s]; simpl; auto. Qed.

Lemma keeps_outcome {S A} (R : S -> S -> Prop) (m : M S A) (s : S) :
  keeps R m -> outcome (m s) (fun _ => R s) (R s).
Proof. intros K. apply outcome_of_snd. apply K. Qed.

Lemma sameLines_refl (a : ListView) : sameLines a a.
Proof. reflexivity. Qed.

Lemma sameLines_trans (a b c : ListView) :
  sameLines a b -> sameLines b c -> sameLines a c.
Proof. unfold sameLines. congruence. Qed.

Lemma sameLines_fields (a b : ListView) :
  sameLines a b ->
  _renderedItems b = _renderedItems a
  /\ _renderedItemsStart b = _renderedItemsStart a
  /\ renderCalls b = renderCalls a.
Proof. unfold sameLines, linesAndLog. intros [= -> -> ->]. auto. Qed.

(** The loops that take the nodes of removed lines off the surface leave
    the lines and the log alone. *)
Lemma removalLoop_sameLines (index : Z -> Z) (isAbove : bool) (xs : list Z) :
  keeps sameLines
    (forEach xs (fun i =>
       bind (lineDomNode (index i)) (fun node =>
       match node with
       | Some n => _removeIfNotScrollDomNode n isAbove
       | None => ret tt
       end))).
Proof.
  apply keeps_forEach;
    [exact sameLines_refl | exact sameLines_trans | intros i].
  apply keeps_bind; [exact sameLines_trans | |].
  - apply lineDomNode_keeps. exact sameLines_refl.
  - intros [n|].
    + apply removeIfNotScrollDomNode_keeps;
        first [exact sameLines_refl | exact sameLines_trans
              | intros; reflexivity].
    + apply keeps_ret. exact sameLines_refl.
Qed.

(** A run that keeps the lines and the log, as an outcome. *)
Lemma sameLines_outcome {A} (m : M ListView A) (s : ListView) :
  keeps sameLines m ->
  outcome (m s) (fun _ s' => sameLines s s')
    (fun s' => renderCalls s' = renderCalls s).
Proof.
  intros K. eapply outcome_weaken; [apply (keeps_outcome s K) | auto |].
  intros s' H. now apply sameLines_fields in H.
Qed.

Lemma spliceOut_front {A} (a : list A) (c : Z) :
  0 < c <= len a -> spliceOut a 0 c = skipn (Z.to_nat c) a.
Proof.
  intros H. unfold spliceOut. rewrite relativeIndex_nonneg by lia.
  replace (Z.min 0 (len a)) with 0 by lia. simpl. f_equal. lia.
Qed.

Lemma spliceOut_back {A} (a : list A) (c : Z) :
  0 < c <= len a -> spliceOut a (len a - c) c = firstn (Z.to_nat (len a - c)) a.
Proof.
  intros H. unfold spliceOut. rewrite relativeIndex_nonneg by lia.
  replace (Z.min (len a - c) (len a)) with (len a - c) by lia.
  rewrite skipn_all2 by lia. apply app_nil_r.
Qed.

Lemma removeLinesBefore_outcome (c : Z) (s : ListView) :
  outcome (_removeLinesBefore c s)
    (fun _ s' => _renderedItems s' = spliceOut (_renderedItems s) 0 c
                 /\ _renderedItemsStart s' = _renderedItemsStart s
                 /\ renderCalls s' = renderCalls s)
    (fun s' => renderCalls s' = renderCalls s).
Proof.
  unfold _removeLinesBefore.
  apply outcome_bind with (Q1 := fun _ s1 => sameLines s s1).
  - apply sameLines_outcome. apply (removalLoop_sameLines (fun i => i) true).
  - intros [] s1 H. apply sameLines_fields in H. destruct H as (I & S & C).
    unfold modify. simpl. now rewrite I.
Qed.

Lemma removeLinesAfter_outcome (c : Z) (s : ListView) :
  outcome (_removeLinesAfter c s)
    (fun _ s' => _renderedItems s'
                 = spliceOut (_renderedItems s) (len (_renderedItems s) - c) c
                 /\ _renderedItemsStart s' = _renderedItemsStart s
                 /\ renderCalls s' = renderCalls s)
    (fun s' => renderCalls s' = renderCalls s).
Proof.
  unfold _removeLinesAfter. unfold bind at 1, get; cbv beta iota zeta.
  apply outcome_bind with (Q1 := fun _ s1 => sameLines s s1).
  - apply sameLines_outcome.
    apply (removalLoop_sameLines
             (fun i => len (_renderedItems s) - c + i) false).
  - intros [] s1 H. apply sameLines_fields in H. destruct H as (I & S & C).
    unfold modify. simpl. now rewrite I.
Qed.

Lemma nth_error_newLines (a b : Z) (i : nat) (line : ViewItem) :
  nth_error (newLines a b) i = Some line ->
  line = ViewItem_new /\ a + Z.of_nat i <= b.
Proof.
  unfold newLines. rewrite nth_error_map.
  destruct (nth_error (fromTo a b) i) as [l|] eqn:E; [|discriminate].
  intros [= <-]. split; [reflexivity|].
  assert (Hi : (i < length (fromTo a b))%nat)
    by (apply nth_error_Some; congruence).
  unfold fromTo in Hi. rewrite length_map, length_seq in Hi. lia.
Qed.

Lemma length_newLines (a b : Z) :
  length (newLines a b) = Z.to_nat (b - a + 1).
Proof. unfold newLines, fromTo. now rewrite !length_map, length_seq. Qed.

(** The surplus retained node is dropped without touching lines or log. *)
Lemma garbage_sameLines (above : bool) :
  keeps sameLines
    (bind get (fun v1 =>
     match _scrollDomNode v1 with
     | Some n =>
         if (if above then _scrollDomNodeIsAbove v1
             else negb (_scrollDomNodeIsAbove v1))
         then bind (detach n) (fun _ => modify (set_scrollDomNode None))
         else ret tt
     | None => ret tt
     end)).
Proof.
  apply keeps_bind; [exact sameLines_trans | |].
  - apply keeps_get. exact sameLines_refl.
  - intros v1. destruct (_scrollDomNode v1) as [n|];
      [|apply keeps_ret; exact sameLines_refl].
    destruct (if above then _ else _);
      [|apply keeps_ret; exact sameLines_refl].
    apply keeps_bind; [exact sameLines_trans | |].
    + apply detach_keeps; intros; reflexivity.
    + intros _. apply keeps_modify. intros; reflexivity.
Qed.

Lemma alignStart_outcome (startItem endItem : Z) (v s : ListView) :
  sameLines v s ->
  outcome (alignStart startItem endItem v s)
    (fun _ s' => renderCalls s' = renderCalls v
                 /\ startAligned v startItem endItem (_renderedItems s'))
    (fun s' => renderCalls s' = renderCalls v).
Proof.
  intros H. apply sameLines_fields in H. destruct H as (I & S & C).
  unfold alignStart.
  destruct (Z.gtb_spec (_renderedItemsStart v) startItem) as [Hgt|Hle].
  - (* the window begins after startItem *)
    cbv zeta.
    destruct (Z.leb_spec startItem
                (Z.min endItem (_renderedItemsStart v - 1))) as [Hft|Hft].
    + apply outcome_bind with
        (Q1 := fun _ s1 =>
                 _renderedItems s1 =
                 newLines startItem (Z.min endItem (_renderedItemsStart v - 1))
                 ++ _renderedItems v
                 /\ renderCalls s1 = renderCalls v).
      * unfold _insertLinesBefore, modify. simpl. now rewrite I.
      * intros [] s1 (I1 & C1).
        eapply outcome_weaken;
          [apply (sameLines_outcome s1 (garbage_sameLines true)) | | congruence].
        intros u s2 H2. apply sameLines_fields in H2.
        destruct H2 as (I2 & _ & C2). split; [congruence|].
        rewrite I2, I1. split.
        -- intros i line E Hi.
           rewrite nth_error_app, length_newLines in E.
           destruct (Nat.ltb_spec i
                       (Z.to_nat (Z.min endItem (_renderedItemsStart v - 1)
                                  - startItem + 1))) as [Hlt|Hge].
           ++ apply nth_error_newLines in E. destruct E as (-> & _).
              right. split; [reflexivity | lia].
           ++ left. eexists. split; [|exact E]. lia.
        -- rewrite length_app, length_newLines. lia.
    + simpl. split; [exact C|]. rewrite I. split.
      * intros i line _ Hi. lia.
      * lia.
  - destruct (Z.ltb_spec (_renderedItemsStart v) startItem) as [Hlt|Hge].
    + (* the window begins before startItem *)
      cbv zeta.
      destruct (Z.gtb_spec (Z.min (len (_renderedItems v))
                                  (startItem - _renderedItemsStart v)) 0)
        as [Hc|Hc].
      * eapply outcome_weaken;
          [apply removeLinesBefore_outcome | | congruence].
        intros u s1 (I1 & _ & C1). split; [congruence|].
        rewrite I1, I, spliceOut_front by lia. split.
        -- intros i line E Hi. rewrite nth_error_skipn in E.
           assert ((Z.to_nat (Z.min (len (_renderedItems v))
                                    (startItem - _renderedItemsStart v)) + i
                    < length (_renderedItems v))%nat)
             by (apply nth_error_Some; congruence).
           left. eexists. split; [|exact E]. lia.
        -- rewrite length_skipn. lia.
      * simpl. split; [exact C|]. rewrite I.
        assert (E0 : length (_renderedItems v) = O) by lia.
        split.
        -- intros i line E _. apply length_zero_iff_nil in E0.
           rewrite E0 in E. destruct i; discriminate.
        -- lia.
    + (* the window begins at startItem *)
      simpl. split; [exact C|]. rewrite I. split.
      * intros i line E _. left. exists i. split; [lia | exact E].
      * lia.
Qed.

Lemma alignEnd_outcome (v : ListView) (startItem endItem : Z) (v2 : ListView) :
  _renderedItemsStart v2 = startItem ->
  startAligned v startItem endItem (_renderedItems v2) ->
  outcome (alignEnd endItem v2 v2)
    (fun _ s' => renderCalls s' = renderCalls v2
                 /\ _renderedItemsStart s' = startItem
                 /\ forall i line,
                      nth_error (_renderedItems s') i = Some line ->
                      keptOrNew v (startItem + Z.of_nat i) line)
    (fun s' => renderCalls s' = renderCalls v2).
Proof.
  intros S (Hin & Hend). unfold alignEnd. rewrite S.
  assert (Hlen : forall i (line : ViewItem),
             nth_error (_renderedItems v2) i = Some line ->
             (i < length (_renderedItems v2))%nat)
    by (intros i line E; apply nth_error_Some; congruence).
  destruct (Z.ltb_spec (startItem + len (_renderedItems v2) - 1) endItem)
    as [Hlt|Hge].
  - (* the window ends before endItem *)
    cbv zeta.
    destruct (Z.leb_spec (startItem + len (_renderedItems v2)) endItem)
      as [Hft|Hft]; [|lia].
    apply outcome_bind with
      (Q1 := fun _ s1 =>
               _renderedItems s1 =
               _renderedItems v2
               ++ newLines (startItem + len (_renderedItems v2)) endItem
               /\ _renderedItemsStart s1 = startItem
               /\ renderCalls s1 = renderCalls v2).
    + unfold _insertLinesAfter, modify. simpl. auto.
    + intros [] s1 (I1 & S1 & C1).
      eapply outcome_weaken;
        [apply (sameLines_outcome s1 (garbage_sameLines false)) | | congruence].
      intros u s2 H2. apply sameLines_fields in H2.
      destruct H2 as (I2 & S2 & C2).
      split; [congruence|]. split; [congruence|].
      rewrite I2, I1. intros i line E. rewrite nth_error_app in E.
      destruct (Nat.ltb_spec i (length (_renderedItems v2))) as [Hi|Hi].
      * apply Hin; [exact E | lia].
      * apply nth_error_newLines in E. destruct E as (-> & _).
        right. split; [reflexivity | lia].
  - destruct (Z.gtb_spec (startItem + len (_renderedItems v2) - 1) endItem)
      as [Hgt|Hle].
    + (* the window ends after endItem *)
      cbv zeta.
      set (n := Z.max 0 (endItem - startItem + 1)).
      replace (len (_renderedItems v2) - 1 - n + 1)
        with (len (_renderedItems v2) - n) by lia.
      destruct (Z.gtb_spec (len (_renderedItems v2) - n) 0) as [Hc|Hc].
      * eapply outcome_weaken;
          [apply removeLinesAfter_outcome | | auto].
        intros u s1 (I1 & S1 & C1).
        split; [exact C1|]. split; [congruence|].
        rewrite I1.
        replace (len (_renderedItems v2) - (len (_renderedItems v2) - n))
          with (len (_renderedItems v2) - (len (_renderedItems v2) - n))
          by reflexivity.
        rewrite spliceOut_back by lia.
        intros i line E. rewrite nth_error_firstn in E.
        destruct (Nat.ltb_spec i
                    (Z.to_nat (len (_renderedItems v2)
                               - (len (_renderedItems v2) - n)))) as [Hi|Hi];
          [|discriminate].
        apply Hin; [exact E | lia].
      * simpl. split; [reflexivity|]. split; [exact S|].
        intros i line E. specialize (Hlen i line E). lia.
    + (* the window ends at endItem *)
      simpl. split; [reflexivity|]. split; [exact S|].
      intros i line E. apply Hin; [exact E|]. specialize (Hlen i line E). lia.
Qed.

(** A render pass in two phases: the window is moved, every line staying at
    its line number, and then finished.  A pass that throws while the window
    is being moved has rendered nothing. *)
Lemma render_phases (m : ViewModel) (renderData : IRenderData) (now : Z)
    (v : ListView) :
  outcome (_render m renderData now v)
    (fun _ s => exists v1, aligned v v1 /\ finishes v1 s)
    (fun s => renderCalls s = renderCalls v
              \/ exists v1, aligned v v1 /\ finishes v1 s).
Proof.
  rewrite render_blocks. unfold bind at 1, get; cbv beta iota zeta.
  set (startItem := rd_startIndex renderData).
  set (endItem := rd_startIndex renderData + len (rd_tops renderData) - 1).
  destruct (noOverlap renderData now v) eqn:No.
  - (* no overlap: a new window *)
    unfold bind at 1, modify; cbv beta iota.
    unfold bind at 1; cbv beta iota.
    set (v1 := set_renderedItems _ (set_renderedItemsStart startItem v)).
    assert (A : aligned v v1).
    { split; [reflexivity|]. intros i line E. simpl in E.
      apply nth_error_newLines in E. destruct E as (-> & Hi). right.
      split; [reflexivity|]. simpl.
      unfold noOverlap in No. apply andb_prop in No. destruct No as (_ & No).
      apply orb_prop in No. fold startItem endItem in No.
      destruct No as [No|No]; apply Z.ltb_lt in No; lia. }
    apply outcome_bind with (Q1 := fun _ s => finishes v1 s).
    + eapply outcome_weaken;
        [apply outcome_of_snd; apply finishRendering_finishes | auto |].
      intros s F. right. now exists v1.
    + intros [] s F. simpl. exists v1. split; [exact A|].
      apply (finishes_same (v := s)); [reflexivity | exact F].
  - (* the window is moved *)
    apply outcome_bind with (Q1 := fun _ s => sameLines v s).
    { eapply outcome_weaken;
        [apply sameLines_outcome; apply renderUntouchedLines_keeps;
         first [exact sameLines_refl | exact sameLines_trans
               | intros; reflexivity]
        | auto | auto]. }
    intros [] s1 H1.
    apply outcome_bind with
      (Q1 := fun _ s => renderCalls s = renderCalls v
                        /\ startAligned v startItem endItem (_renderedItems s)).
    { eapply outcome_weaken; [apply (alignStart_outcome _ _ H1) | auto | auto]. }
    intros [] s2 (C2 & A2).
    unfold bind at 1, modify; cbv beta iota.
    unfold bind at 1, get; cbv beta iota.
    set (v2 := set_renderedItemsStart startItem s2).
    apply outcome_bind with (Q1 := fun _ s => aligned v s).
    { eapply outcome_weaken;
        [apply (@alignEnd_outcome v startItem endItem v2 eq_refl A2) | |].
      - intros u s (C3 & S3 & A3). split; [simpl in C3; congruence|].
        intros i line E. rewrite S3. now apply A3.
      - intros s C3. left. simpl in C3. congruence. }
    intros [] s3 A3.
    eapply outcome_weaken;
      [apply outcome_of_snd; apply finishRendering_finishes | |].
    + intros u s F. now exists s3.
    + intros s F. right. now exists s3.
Qed.

(** ** Lines that stay are laid out *)

Lemma at_nat {A} (a : list A) (i : nat) : at_ a (Z.of_nat i) = nth_error a i.
Proof.
  unfold at_. destruct (Z.ltb_spec (Z.of_nat i) 0); [lia|].
  now rewrite Nat2Z.id.
Qed.

Lemma NoDup_fromTo (lo hi : Z) : NoDup (fromTo lo hi).
Proof.
  unfold fromTo. generalize (Z.to_nat (hi - lo + 1)) as n. intros n.
  generalize (seq_NoDup n 0).
  induction (seq 0 n) as [|a l IH]; intros H; simpl; [constructor|].
  inversion H as [|x l' Ha Hl]; subst. constructor; [|now apply IH].
  intros Hin. apply in_map_iff in Hin. destruct Hin as (b & E & Hb).
  assert (b = a) by lia. subst. contradiction.
Qed.

Lemma restyled_refl (v : ListView) : restyled v v.
Proof. repeat split. Qed.

Lemma restyled_trans (a b c : ListView) :
  restyled a b -> restyled b c -> restyled a c.
Proof. unfold restyled. intuition congruence. Qed.

Lemma nodeAt_restyled (a b : ListView) (i : Z) :
  restyled a b -> nodeAt b i = nodeAt a i.
Proof. intros (E & _). unfold nodeAt. now rewrite E. Qed.

(** [layoutLine] writes the line number, the top and the height of its node
    and nothing else. *)
Lemma layoutLine_places (m : ViewModel) (n : Handle) (l : Z) (top : option Z)
    (v : ListView) :
  outcome (layoutLine m n l top v)
    (fun _ v' =>
       restyled v v'
       /\ (forall k, k <> n -> nodes v' k = nodes v k)
       /\ attr_lineNumber (nodes v' n) = l
       /\ (forall t, top = Some t -> style_top (nodes v' n) = t)
       /\ option_map cachedHeight (at_ (_items m) l)
          = Some (style_height (nodes v' n)))
    (fun _ => True).
Proof.
  unfold layoutLine. unfold bind at 1, modify; cbv beta iota.
  unfold bind at 1, getHeightOf.
  destruct (at_ (_items m) l) as [x|]; [|exact I].
  cbn [ret modify outcome option_map nodes set_nodes].
  split; [repeat split|]. unfold update. rewrite Nat.eqb_refl.
  split; [|split; [reflexivity | split; [|reflexivity]]].
  - intros k Hk. destruct (Nat.eqb_spec k n); [contradiction | reflexivity].
  - intros t ->. reflexivity.
Qed.

(** The loop of [_renderUntouchedLines] over lines that stand on different
    nodes: the node of each line is laid out for the line, and no other node
    is written. *)
Lemma untouched_places (m : ViewModel) (tops : list Z) (deltaLN : Z)
    (indices : list Z) :
  NoDup indices ->
  forall v : ListView,
    (forall i j n, In i indices -> In j indices ->
                   nodeAt v i = Some n -> nodeAt v j = Some n -> i = j) ->
    outcome
      (forEach indices (fun i =>
         bind get (fun v =>
         let lineNumber := _renderedItemsStart v + i in
         bind (lineDomNode i) (fun node =>
         match node with
         | Some n => layoutLine m n lineNumber (at_ tops (lineNumber - deltaLN))
         | None => ret tt
         end))) v)
      (fun _ v' =>
         restyled v v'
         /\ (forall n, (forall i, In i indices -> nodeAt v i <> Some n) ->
                       nodes v' n = nodes v n)
         /\ (forall i n,
               In i indices -> nodeAt v i = Some n ->
               attr_lineNumber (nodes v' n) = _renderedItemsStart v + i
               /\ (forall t, at_ tops (_renderedItemsStart v + i - deltaLN) = Some t ->
                             style_top (nodes v' n) = t)
               /\ option_map cachedHeight
                    (at_ (_items m) (_renderedItemsStart v + i))
                  = Some (style_height (nodes v' n))))
      (fun _ => True).
Proof.
  induction 1 as [|i rest Hi Hrest IH]; intros v Dist; cbn [forEach].
  - simpl. split; [apply restyled_refl|]. split; [auto|]. intros i n [].
  - eapply outcome_bind with
      (Q1 := fun _ v1 =>
         restyled v v1
         /\ (forall k, nodeAt v i <> Some k -> nodes v1 k = nodes v k)
         /\ (forall n, nodeAt v i = Some n ->
               attr_lineNumber (nodes v1 n) = _renderedItemsStart v + i
               /\ (forall t, at_ tops (_renderedItemsStart v + i - deltaLN) = Some t ->
                             style_top (nodes v1 n) = t)
               /\ option_map cachedHeight
                    (at_ (_items m) (_renderedItemsStart v + i))
                  = Some (style_height (nodes v1 n)))).
    + unfold bind at 1, get; cbv beta iota zeta.
      unfold bind at 1, lineDomNode, nodeAt.
      destruct (at_ (_renderedItems v) i) as [line|]; [|exact I].
      destruct (_domNode line) as [n|].
      * eapply outcome_weaken; [apply layoutLine_places | | auto].
        intros u v1 (Re & Fr & A & B & C).
        split; [exact Re|]. split.
        -- intros k Hk. apply Fr. congruence.
        -- intros n' [= <-]. auto.
      * simpl. split; [apply restyled_refl|]. split; [auto|]. discriminate.
    + intros u v1 (Re1 & Fr1 & Pl1).
      assert (Same : forall j, nodeAt v1 j = nodeAt v j)
        by (intros j; now apply nodeAt_restyled).
      eapply outcome_weaken; [apply (IH v1) | | auto].
      * intros a b n Ha Hb. rewrite !Same. apply Dist; now right.
      * intros u' v' (Re & Fr & Pl).
        assert (S1 : _renderedItemsStart v1 = _renderedItemsStart v)
          by apply Re1.
        split; [now apply restyled_trans with v1|]. split.
        -- intros n Hn. rewrite Fr.
           ++ apply Fr1. apply Hn. now left.
           ++ intros j Hj. rewrite Same. apply Hn. now right.
        -- intros j n [<- | Hj] Hn.
           ++ rewrite Fr; [now apply Pl1|].
              intros k Hk E. rewrite Same in E.
              assert (k = i) by (apply (Dist k i n); auto; [now right | now left]).
              subst k. contradiction.
           ++ rewrite <- S1. apply Pl; [exact Hj | now rewrite Same].
Qed.

Lemma stylesKept_refl (v : ListView) : stylesKept v v.
Proof. split; auto. Qed.

Lemma stylesKept_trans (a b c : ListView) :
  stylesKept a b -> stylesKept b c -> stylesKept a c.
Proof.
  intros (L1 & H1) (L2 & H2). split; [lia|].
  intros n Hn. rewrite H2 by lia. now apply H1.
Qed.

Lemma stylesKept_alloc (d : DomNode) (v : ListView) :
  stylesKept v
    (set_created (S (created v))
       (set_nodes (update (nodes v) (created v) d) v)).
Proof.
  split; simpl; [lia|]. intros n Hn. unfold update.
  destruct (Nat.eqb_spec n (created v)); [lia | reflexivity].
Qed.

Lemma nodeAt_inside (v : ListView) (i : Z) (n : Handle) :
  nodeAt v i = Some n -> 0 <= i < len (_renderedItems v).
Proof.
  unfold nodeAt, at_. destruct (Z.ltb_spec i 0); [discriminate|].
  destruct (nth_error (_renderedItems v) (Z.to_nat i)) eqn:E; [|discriminate].
  intros _. assert (Z.to_nat i < length (_renderedItems v))%nat
    by (apply nth_error_Some; congruence).
  lia.
Qed.

(** A pass that returns lays out every line that stays in the window: its
    node carries the line number, the top that the render data has for the
    line and the cached height of the item. *)
Lemma render_places (m : ViewModel) (renderData : IRenderData) (now : Z)
    (v : ListView) :
  distinctNodes v -> known v ->
  outcome (_render m renderData now v)
    (fun _ s =>
       forall i n,
         nodeAt v i = Some n ->
         rd_startIndex renderData <= _renderedItemsStart v + i
           <= rd_startIndex renderData + len (rd_tops renderData) - 1 ->
         placed m renderData (_renderedItemsStart v + i) (nodes s n))
    (fun _ => True).
Proof.
  intros Dist Kn.
  destruct (noOverlap renderData now v) eqn:Free.
  - (* the window is thrown away: no line stays *)
    apply outcome_weaken with (Q := fun _ _ => True) (E := fun _ => True);
      [destruct (_render m renderData now v) as [[u|e] s]; exact I | | auto].
    intros u s _ i n Hn Hr. exfalso.
    apply nodeAt_inside in Hn. unfold noOverlap in Free.
    apply andb_prop in Free. destruct Free as [_ Free].
    apply orb_prop in Free. destruct Free as [F | F];
      apply Z.ltb_lt in F; lia.
  - rewrite render_blocks. unfold bind at 1, get; cbv beta iota zeta.
    rewrite Free. unfold _renderUntouchedLines.
    eapply outcome_bind.
    + apply untouched_places; [apply NoDup_fromTo|].
      intros i j n _ _. apply Dist.
    + intros u v1 (Re & Fr & Pl).
      assert (K : keeps stylesKept
                (bind (alignStart (rd_startIndex renderData)
                         (rd_startIndex renderData + len (rd_tops renderData) - 1) v)
                   (fun _ =>
                 bind (modify (set_renderedItemsStart (rd_startIndex renderData)))
                   (fun _ =>
                 bind get (fun v2 =>
                 bind (alignEnd (rd_startIndex renderData
                                 + len (rd_tops renderData) - 1) v2) (fun _ =>
                 _finishRendering m false (rd_tops renderData))))))).
      { apply alignAndFinish_keeps;
          first [ exact stylesKept_refl | exact stylesKept_trans
                | exact stylesKept_alloc | intros; split; simpl; auto ]. }
      eapply outcome_weaken; [apply (keeps_outcome v1 K) | | auto].
      intros u' s (_ & Keep) i n Hn Hr. cbv beta in Keep.
      assert (Cr : created v1 = created v) by apply Re.
      rewrite Keep by (rewrite Cr; now apply (Kn i)).
      pose proof (nodeAt_inside _ _ Hn) as In_.
      assert (Hi : In i (fromTo
                 (Z.max (rd_startIndex renderData - _renderedItemsStart v) 0)
                 (Z.min (rd_startIndex renderData + len (rd_tops renderData) - 1
                         - _renderedItemsStart v)
                        (len (_renderedItems v) - 1))))
        by (apply in_fromTo; lia).
      destruct (Pl i n Hi Hn) as (A & B & C).
      split; [exact A|]. split; [|exact C].
      destruct (at_ (rd_tops renderData)
                  (_renderedItemsStart v + i - rd_startIndex renderData))
        as [t|] eqn:Et.
      * now rewrite (B t eq_refl).
      * exfalso. unfold at_ in Et.
        destruct (Z.ltb_spec (_renderedItemsStart v + i
                              - rd_startIndex renderData) 0); [lia|].
        apply nth_error_None in Et. lia.
Qed.

(** C8.  In every render pass, whether it returns or throws: the model's
    [render] is not called for the line number of a line that was rendered
    and not dirty when the pass began; no node that existed before the pass
    has its content rewritten; and when the pass returns, such a line, if it
    is still in the window, stands at its line number as it was, with the
    node it had.  The lines for which [render] is called are dirty lines or
    new ones.  When the pass returns on a window whose lines stand on
    different nodes, the node of such a line that stays in the wanted range
    is repositioned: it carries the line number, the top that the render
    data has for the line and the cached height of the item. *)
Theorem clean_lines_are_not_rendered (m : ViewModel) (renderData : IRenderData)
    (now : Z) (v : ListView) :
  let r := _render m renderData now v in
  (exists L,
      renderCalls (snd r) = renderCalls v ++ L
      /\ forall k line,
           cleanAt v k line ->
           ~ In (Z.of_nat k + _renderedItemsStart v) L)
  /\ contentKept v (snd r)
  /\ (fst r = Normal tt ->
      forall k line i line',
        cleanAt v k line ->
        nth_error (_renderedItems (snd r)) i = Some line' ->
        _renderedItemsStart (snd r) + Z.of_nat i
        = _renderedItemsStart v + Z.of_nat k ->
        line' = line)
  /\ (fst r = Normal tt -> distinctNodes v -> known v ->
      forall k line n,
        cleanAt v k line -> _domNode line = Some n ->
        rd_startIndex renderData <= _renderedItemsStart v + Z.of_nat k
          <= rd_startIndex renderData + len (rd_tops renderData) - 1 ->
        placed m renderData (_renderedItemsStart v + Z.of_nat k)
               (nodes (snd r) n)).
Proof.
  intros r.
  pose proof (render_phases m renderData now v) as P. fold r in P.
  pose proof (render_contentKept m renderData now v) as K. fold r in K.
  assert (Placed : fst r = Normal tt -> distinctNodes v -> known v ->
            forall k line n,
              cleanAt v k line -> _domNode line = Some n ->
              rd_startIndex renderData <= _renderedItemsStart v + Z.of_nat k
                <= rd_startIndex renderData + len (rd_tops renderData) - 1 ->
              placed m renderData (_renderedItemsStart v + Z.of_nat k)
                     (nodes (snd r) n)).
  { intros Ok Dist Kn k line n (Ek & _) En Hr.
    pose proof (render_places m renderData now Dist Kn) as Pl. fold r in Pl.
    destruct r as [[u|e] s]; [|discriminate Ok]. cbn [outcome snd] in *.
    apply Pl; [|exact Hr]. unfold nodeAt. now rewrite at_nat, Ek. }
  assert (Spare : forall v1 s,
             aligned v v1 -> finishes v1 s ->
             (exists L, renderCalls s = renderCalls v ++ L
                        /\ forall k line, cleanAt v k line ->
                             ~ In (Z.of_nat k + _renderedItemsStart v) L)
             /\ forall k line i line',
                  cleanAt v k line ->
                  nth_error (_renderedItems s) i = Some line' ->
                  _renderedItemsStart s + Z.of_nat i
                  = _renderedItemsStart v + Z.of_nat k ->
                  line' = line).
  { intros v1 s (C1 & A1) (S2 & N2 & Cl2 & _ & L & E2 & D2). split.
    - exists L. split; [congruence|].
      intros k line (Ek & Ck) Hin.
      destruct (D2 _ Hin) as (i & line1 & Ei & Di & Hl).
      destruct (A1 i line1 Ei) as [(j & Hj & Ej) | (_ & Out)].
      + assert (j = k) by lia. subst. congruence.
      + apply Out.
        assert ((k < length (_renderedItems v))%nat)
          by (apply nth_error_Some; congruence).
        lia.
    - intros k line i line' (Ek & Ck) Ei Hl. rewrite S2 in Hl.
      assert (Hi : (i < length (_renderedItems v1))%nat)
        by (rewrite <- N2; apply nth_error_Some; congruence).
      destruct (nth_error (_renderedItems v1) i) as [line1|] eqn:E1;
        [|apply nth_error_None in E1; lia].
      destruct (A1 i line1 E1) as [(j & Hj & Ej) | (_ & Out)].
      + assert (j = k) by lia. subst.
        assert (line1 = line) by congruence. subst.
        destruct (Cl2 i line (conj E1 Ck)) as (E' & _). congruence.
      + exfalso. apply Out.
        assert ((k < length (_renderedItems v))%nat)
          by (apply nth_error_Some; congruence).
        lia. }
  destruct r as [[[]|e] s]; simpl in *.
  - destruct P as (v1 & A & F). destruct (Spare v1 s A F) as (S1 & S2).
    split; [exact S1|]. split; [exact K|]. split; [intros _; exact S2|].
    exact Placed.
  - split; [|split; [exact K | split; discriminate]].
    destruct P as [C | (v1 & A & F)].
    + exists []. split; [now rewrite app_nil_r | auto].
    + apply (Spare v1 s A F).
Qed.

Lemma scrolledView_nodes (i : Z) (n : Handle) :
  nodeAt scrolledView i = Some n ->
  (i = 0 /\ n = 1%nat) \/ (i = 1 /\ n = 2%nat) \/ (i = 2 /\ n = 3%nat).
Proof.
  unfold nodeAt, at_. destruct (Z.ltb_spec i 0); [discriminate|].
  destruct (Z.to_nat i) as [|[|[|k]]] eqn:E; cbn; intros Hn;
    [| | |destruct k; discriminate Hn]; injection Hn as Hn; subst n;
    [left | right; left | right; right]; split; auto; lia.
Qed.

Lemma scrolledView_distinct : distinctNodes scrolledView.
Proof.
  intros i j n Hi Hj.
  apply scrolledView_nodes in Hi. apply scrolledView_nodes in Hj. lia.
Qed.

Lemma scrolledView_known : known scrolledView.
Proof.
  intros i n Hi. apply scrolledView_nodes in Hi. simpl. lia.
Qed.

(** A pass that moves the window of [scrolledView] down by one line: line 1
    stays on node 2, is not rendered and is laid out at the top of the
    window; line 3, the only new line, is rendered. *)
Lemma clean_lines_are_not_rendered_witness :
  cleanAt scrolledView 1 {| _isDirty := false; _domNode := Some 2%nat |}
  /\ (exists L,
        renderCalls (snd (_render longModel oneDown 7000 scrolledView)) = L
        /\ ~ In 1 L)
  /\ renderCalls (snd (_render longModel oneDown 7000 scrolledView)) = [3]
  /\ placed longModel oneDown 1
        (nodes (snd (_render longModel oneDown 7000 scrolledView)) 2%nat).
Proof.
  assert (C : cleanAt scrolledView 1
                {| _isDirty := false; _domNode := Some 2%nat |})
    by (split; reflexivity).
  split; [exact C|].
  destruct (clean_lines_are_not_rendered longModel oneDown 7000 scrolledView)
    as ((L & E & H) & _ & _ & P).
  split; [|split; [reflexivity|]].
  - exists L. split; [exact E | exact (H 1%nat _ C)].
  - apply (P eq_refl scrolledView_distinct scrolledView_known 1%nat _ 2%nat C
             eq_refl).
    simpl. lia.
Defined.

(** ** A window thrown away *)

Lemma getLineOuterHTML_normal (m : ViewModel) (i : nat) (l : Z) (t : Z)
    (x : IViewModelItem) (v : ListView) :
  at_ (_items m) l = Some x ->
  getLineOuterHTML m i l (Some t) v =
  (Normal {| html_lineNumber := l; html_top := t;
             html_height := cachedHeight x;
             html_content := render (actual x) |},
   set_renderCalls (renderCalls v ++ [l])
     (set_renderedItems (adjust clean i (_renderedItems v)) v)).
Proof.
  intros E. unfold getLineOuterHTML, getHeightOf, ViewModel_render.
  rewrite E. reflexivity.
Qed.

Lemma adjust_middle {A} (f : A -> A) (a b : list A) (x : A) :
  adjust f (length a) (a ++ x :: b) = a ++ f x :: b.
Proof. induction a as [|y a IH]; simpl; [reflexivity | now rewrite IH]. Qed.

Lemma adjust_boundary {A} (f : A -> A) (x y : A) (p : nat) (b : list A) :
  adjust f p (repeat x p ++ y :: b) = repeat x p ++ f y :: b.
Proof.
  pose proof (adjust_middle f (repeat x p) b y) as H.
  now rewrite repeat_length in H.
Qed.

Lemma repeat_snoc {A} (x : A) (n : nat) : repeat x n ++ [x] = repeat x (S n).
Proof. induction n as [|n IH]; simpl; [reflexivity | now rewrite IH]. Qed.

(** The first loop of [_finishRendering] on a window whose first [p] lines
    have been written and whose other [d] lines are new. *)
Lemma gather_new (m : ViewModel) (tops : list Z) (d : nat) :
  forall (p : nat) (g : Gathered) (v : ListView),
    _renderedItems v
    = repeat (clean ViewItem_new) p ++ repeat ViewItem_new d ->
    (p + d <= length tops)%nat ->
    (forall i, (p <= i < p + d)%nat ->
               at_ (_items m) (Z.of_nat i + _renderedItemsStart v) <> None) ->
    wasNew g = seq 0 p -> length (newLinesHTML g) = p ->
    wasInvalid g = [] -> invalidLinesHTML g = [] ->
    outcome (gather m tops (seq p d) g v)
      (fun g' v' =>
         wasNew g' = seq 0 (p + d)
         /\ length (newLinesHTML g') = (p + d)%nat
         /\ wasInvalid g' = [] /\ invalidLinesHTML g' = []
         /\ _renderedItems v' = repeat (clean ViewItem_new) (p + d)
         /\ renderCalls v'
            = renderCalls v
              ++ map (fun i => Z.of_nat i + _renderedItemsStart v) (seq p d)
         /\ _renderedItemsStart v' = _renderedItemsStart v
         /\ created v' = created v
         /\ _listItemsDomNode v' = _listItemsDomNode v)
      (fun _ => False).
Proof.
  induction d as [|d IH]; intros p g v I Ht Hm Wn Ln Wi Li; cbn [seq gather].
  - simpl. rewrite Nat.add_0_r, app_nil_r in *. repeat split; auto.
  - unfold bind at 1, get; cbv beta iota.
    assert (Ep : nth_error (_renderedItems v) p = Some ViewItem_new).
    { rewrite I, nth_error_app2; rewrite repeat_length; [|lia].
      now rewrite Nat.sub_diag. }
    rewrite Ep. cbn [shouldUpdateHTML ViewItem_new _isDirty _domNode].
    unfold bind at 1; cbv beta.
    destruct (nth_error tops p) as [t|] eqn:Et;
      [|apply nth_error_None in Et; lia].
    destruct (at_ (_items m) (Z.of_nat p + _renderedItemsStart v)) as [x|] eqn:Ex;
      [|exfalso; apply (Hm p); [lia | exact Ex]].
    rewrite at_nat, Et, (@getLineOuterHTML_normal m p _ t x v Ex).
    eapply outcome_weaken; [apply (IH (S p)) | | auto]; cbn [wasNew
      newLinesHTML wasInvalid invalidLinesHTML _renderedItems
      _renderedItemsStart renderCalls created _listItemsDomNode
      set_renderCalls set_renderedItems].
    + rewrite I. cbn [repeat]. rewrite adjust_boundary.
      change (clean ViewItem_new :: repeat ViewItem_new d)
        with ([clean ViewItem_new] ++ repeat ViewItem_new d).
      now rewrite app_assoc, repeat_snoc.
    + lia.
    + intros i Hi. apply Hm. lia.
    + rewrite Wn. now rewrite seq_S.
    + rewrite length_app, Ln. simpl. lia.
    + exact Wi.
    + exact Li.
    + intros g' v' (A & B & C & D & E & F & G).
      replace (p + S d)%nat with (S p + d)%nat by lia.
      repeat split; try tauto. rewrite F, <- app_assoc. reflexivity.
Qed.

Lemma createNodes_exact (html : list LineHTML) :
  forall v : ListView,
    outcome (createNodes html v)
      (fun fresh v' =>
         fresh = seq (created v) (length html)
         /\ created v' = (created v + length html)%nat
         /\ sameLines v v'
         /\ _listItemsDomNode v' = _listItemsDomNode v)
      (fun _ => False).
Proof.
  induction html as [|h html IH]; intros v; cbn [createNodes].
  - simpl. rewrite Nat.add_0_r. repeat split; auto.
  - unfold bind at 1, get; cbv beta iota.
    unfold bind at 1, modify; cbv beta iota.
    eapply outcome_bind; [apply IH|].
    intros fresh v' (F & C & S & Ch). simpl in *.
    repeat split; auto.
    + now rewrite F.
    + lia.
Qed.

(** Handing the new nodes, last to first, to a window whose lines are all
    new: line [k] receives the [k]-th new node. *)
Lemma adopt_exact (c N : nat) (tail : list Handle) (q : nat) :
  forall v : ListView,
    (q <= N)%nat ->
    _renderedItems v
    = repeat (clean ViewItem_new) q ++ map (adopted c) (seq q (N - q)) ->
    outcome (adopt (rev (seq 0 q)) (seq 0 N) (rev (seq c q) ++ tail) v)
      (fun _ v' =>
         _renderedItems v' = map (adopted c) (seq 0 N)
         /\ renderCalls v' = renderCalls v
         /\ _listItemsDomNode v' = _listItemsDomNode v
         /\ created v' = created v
         /\ _renderedItemsStart v' = _renderedItemsStart v)
      (fun _ => False).
Proof.
  induction q as [|q IH]; intros v Hq I.
  - simpl. rewrite Nat.sub_0_r in I. simpl in I. auto.
  - rewrite !seq_S, !rev_app_distr. cbn [rev app adopt Nat.add].
    assert (Mk : marked q (seq 0 N) = true).
    { unfold marked. apply existsb_exists. exists q.
      split; [apply in_seq; lia | apply Nat.eqb_refl]. }
    rewrite Mk. unfold bind at 1, modifyLine, modify; cbv beta iota.
    eapply outcome_weaken; [apply IH | | auto];
      cbn [_renderedItems set_renderedItems].
    + lia.
    + rewrite I, <- repeat_snoc, <- app_assoc. cbn [app].
      rewrite adjust_boundary.
      replace (N - q)%nat with (S (N - S q)) by lia. reflexivity.
    + intros u v' (A & B & C & D & E). auto.
Qed.

Lemma map_const {A B} (x : B) (l : list A) :
  map (fun _ => x) l = repeat x (length l).
Proof. induction l as [|a l IH]; simpl; [reflexivity | now rewrite IH]. Qed.

Lemma newLines_repeat (a b : Z) :
  newLines a b = repeat ViewItem_new (Z.to_nat (b - a + 1)).
Proof.
  unfold newLines, _createLine. rewrite map_const. f_equal.
  unfold fromTo. now rewrite length_map, length_seq.
Qed.

(** The finishing of a render pass on a window of [N] new lines: every line
    is rendered once, in order, and receives a node made in this pass; the
    children of the surface are replaced by these nodes, unless there is no
    line at all. *)
Lemma finishRendering_fresh (m : ViewModel) (tops : list Z) (v : ListView) :
  let N := length tops in
  _renderedItems v = repeat ViewItem_new N ->
  (forall i, (i < N)%nat ->
             at_ (_items m) (Z.of_nat i + _renderedItemsStart v) <> None) ->
  outcome (_finishRendering m true tops v)
    (fun _ v' =>
       _renderedItems v' = map (adopted (created v)) (seq 0 N)
       /\ _renderedItemsStart v' = _renderedItemsStart v
       /\ created v' = (created v + N)%nat
       /\ renderCalls v'
          = renderCalls v
            ++ map (fun i => Z.of_nat i + _renderedItemsStart v) (seq 0 N)
       /\ (N <> O -> _listItemsDomNode v' = seq (created v) N)
       /\ (N = O -> _listItemsDomNode v' = _listItemsDomNode v))
    (fun _ => False).
Proof.
  intros N I Hm. unfold _finishRendering.
  unfold bind at 1, get; cbv beta iota.
  rewrite I, repeat_length. fold N.
  eapply outcome_bind.
  - apply (@gather_new m tops N O _ v); cbn [repeat app wasNew newLinesHTML
      wasInvalid invalidLinesHTML seq length]; auto.
    intros i Hi. apply Hm. lia.
  - cbn [Nat.add]. intros g v1 (Wn & Ln & Wi & Li & I1 & C1 & S1 & K1 & D1).
    rewrite Wn, Wi.
    destruct N as [|n] eqn:EN.
    + simpl. cbn [repeat map seq] in *. rewrite I1, S1, K1, C1, D1.
      rewrite app_nil_r. repeat split; auto. intros H; now elim H.
    + cbn [seq]. fold (seq 0 (S n)).
      eapply outcome_bind; [|intros u v4 H; simpl; exact H].
      unfold bind at 1, get; cbv beta iota.
      eapply outcome_bind; [apply createNodes_exact|].
      intros fresh v2 (F & C2 & S2 & D2).
      unfold bind at 1, modify; cbv beta iota.
      unfold bind at 1, get; cbv beta iota.
      cbn [_listItemsDomNode set_listItemsDomNode].
      injection S2 as I2a I2b I2c.
      pose proof (@adopt_exact (created v1) (S n) [] (S n)) as AE.
      rewrite app_nil_r in AE.
      change (0%nat :: seq 1 n) with (seq 0 (S n)).
      eapply outcome_weaken; [rewrite F, Ln; apply AE | | auto].
      * lia.
      * cbn [_renderedItems set_listItemsDomNode]. rewrite I2a, I1.
        rewrite Nat.sub_diag. cbn [seq map]. now rewrite app_nil_r.
      * intros u v3 (A & B & C & D & E).
        cbn [_renderedItems renderCalls _listItemsDomNode created
             _renderedItemsStart set_listItemsDomNode] in *.
        rewrite A, B, C, D, E, I2b, I2c, C2, C1, S1, K1, Ln.
        repeat split; auto. discriminate.
Qed.




(** When nothing is wanted, the children of the surface stay in place
    although no line of the window stands on them any more. *)
Example empty_range_leaves_children :
  let r := _render (ViewModel_new []) nothingToShow 7000 scrolledView in
  fst r = Normal tt
  /\ _renderedItems (snd r) = []
  /\ _listItemsDomNode (snd r) = [9; 1; 2; 3]%nat.
Proof. vm_compute. repeat split; reflexivity. Qed.

(** * Further properties of the code *)

(** ** The scrollable *)

(** Case analysis on the comparisons of a setter. *)
Ltac scroll_cases :=
  repeat first
    [ progress cbn [fst snd app Scrollable.scrollTop Scrollable.scrollLeft
                    Scrollable.scrollWidth Scrollable.scrollHeight
                    Scrollable.width Scrollable.height
                    ev_scrollTop ev_scrollLeft vertical horizontal] in *
    | match goal with
      | |- context [if ?b then _ else _] => destruct b eqn:?
      | H : context [if ?b then _ else _] |- _ => destruct b eqn:?
      end
    | match goal with
      | H : (_ >? _) = _ |- _ => rewrite Z.gtb_ltb in H
      | H : (_ <? _) = true |- _ => apply Z.ltb_lt in H
      | H : (_ <? _) = false |- _ => apply Z.ltb_ge in H
      | H : (_ =? _) = true |- _ => apply Z.eqb_eq in H
      | H : (_ =? _) = false |- _ => apply Z.eqb_neq in H
      end ].

Lemma Scrollable_ext (a b : Scrollable.t) :
  Scrollable.scrollTop a = Scrollable.scrollTop b ->
  Scrollable.scrollLeft a = Scrollable.scrollLeft b ->
  Scrollable.scrollWidth a = Scrollable.scrollWidth b ->
  Scrollable.scrollHeight a = Scrollable.scrollHeight b ->
  Scrollable.width a = Scrollable.width b ->
  Scrollable.height a = Scrollable.height b ->
  a = b.
Proof. destruct a, b; simpl; congruence. Qed.

(** The state that [setScrollLeft] leaves when the viewport is not wider
    than the content. *)
Lemma setScrollLeft_state (x : Z) (s : Scrollable.t) :
  0 <= Scrollable.width s <= Scrollable.scrollWidth s ->
  fst (Scrollable.setScrollLeft x s)
  = {| Scrollable.scrollTop := Scrollable.scrollTop s;
       Scrollable.scrollLeft :=
         clamp 0 (Scrollable.scrollWidth s - Scrollable.width s) x;
       Scrollable.scrollWidth := Scrollable.scrollWidth s;
       Scrollable.scrollHeight := Scrollable.scrollHeight s;
       Scrollable.width := Scrollable.width s;
       Scrollable.height := Scrollable.height s |}.
Proof.
  intros H. apply Scrollable_ext; unfold Scrollable.setScrollLeft, clamp;
    scroll_cases; lia.
Qed.

Lemma setScrollTop_state (x : Z) (s : Scrollable.t) :
  0 <= Scrollable.height s <= Scrollable.scrollHeight s ->
  fst (Scrollable.setScrollTop x s)
  = {| Scrollable.scrollTop :=
         clamp 0 (Scrollable.scrollHeight s - Scrollable.height s) x;
       Scrollable.scrollLeft := Scrollable.scrollLeft s;
       Scrollable.scrollWidth := Scrollable.scrollWidth s;
       Scrollable.scrollHeight := Scrollable.scrollHeight s;
       Scrollable.width := Scrollable.width s;
       Scrollable.height := Scrollable.height s |}.
Proof.
  intros H. apply Scrollable_ext; unfold Scrollable.setScrollTop, clamp;
    scroll_cases; lia.
Qed.

(** The state that [setScrollWidth] leaves: the content is made as wide as
    the viewport at least, and the position is brought back inside. *)
Lemma setScrollWidth_state (x : Z) (s : Scrollable.t) :
  inBounds s ->
  fst (Scrollable.setScrollWidth x s)
  = {| Scrollable.scrollTop := Scrollable.scrollTop s;
       Scrollable.scrollLeft :=
         clamp 0 (Z.max x (Scrollable.width s) - Scrollable.width s)
               (Scrollable.scrollLeft s);
       Scrollable.scrollWidth := Z.max x (Scrollable.width s);
       Scrollable.scrollHeight := Scrollable.scrollHeight s;
       Scrollable.width := Scrollable.width s;
       Scrollable.height := Scrollable.height s |}.
Proof.
  unfold inBounds. intros H. unfold Scrollable.setScrollWidth.
  destruct (x <? Scrollable.width s) eqn:E1;
    [apply Z.ltb_lt in E1 | apply Z.ltb_ge in E1];
    (destruct (Scrollable.scrollWidth s =? _) eqn:E2;
     [apply Z.eqb_eq in E2; apply Scrollable_ext; unfold clamp; simpl; lia
     |rewrite setScrollLeft_state by (simpl; lia);
      apply Scrollable_ext; unfold clamp; simpl; lia]).
Qed.

Lemma setScrollHeight_state (x : Z) (s : Scrollable.t) :
  inBounds s ->
  fst (Scrollable.setScrollHeight x s)
  = {| Scrollable.scrollTop :=
         clamp 0 (Z.max x (Scrollable.height s) - Scrollable.height s)
               (Scrollable.scrollTop s);
       Scrollable.scrollLeft := Scrollable.scrollLeft s;
       Scrollable.scrollWidth := Scrollable.scrollWidth s;
       Scrollable.scrollHeight := Z.max x (Scrollable.height s);
       Scrollable.width := Scrollable.width s;
       Scrollable.height := Scrollable.height s |}.
Proof.
  unfold inBounds. intros H. unfold Scrollable.setScrollHeight.
  destruct (x <? Scrollable.height s) eqn:E1;
    [apply Z.ltb_lt in E1 | apply Z.ltb_ge in E1];
    (destruct (Scrollable.scrollHeight s =? _) eqn:E2;
     [apply Z.eqb_eq in E2; apply Scrollable_ext; unfold clamp; simpl; lia
     |rewrite setScrollTop_state by (simpl; lia);
      apply Scrollable_ext; unfold clamp; simpl; lia]).
Qed.

Lemma andThen_fst (f g : Scrollable.Setter) (s : Scrollable.t) :
  fst (Scrollable.andThen f g s) = fst (g (fst (f s))).
Proof.
  unfold Scrollable.andThen. destruct (f s) as [s1 e1]. simpl.
  now destruct (g s1).
Qed.

Lemma andThen_snd (f g : Scrollable.Setter) (s : Scrollable.t) :
  snd (Scrollable.andThen f g s) = snd (f s) ++ snd (g (fst (f s))).
Proof.
  unfold Scrollable.andThen. destruct (f s) as [s1 e1]. simpl.
  now destruct (g s1).
Qed.

(** The state that [setWidth] leaves: the viewport takes the width given,
    or 0 when that is negative; the content is widened to the viewport if
    need be; the position is brought back inside. *)
Lemma setWidth_state (x : Z) (s : Scrollable.t) :
  inBounds s ->
  fst (Scrollable.setWidth x s)
  = {| Scrollable.scrollTop := Scrollable.scrollTop s;
       Scrollable.scrollLeft :=
         clamp 0 (Z.max (Scrollable.scrollWidth s) (Z.max x 0) - Z.max x 0)
               (Scrollable.scrollLeft s);
       Scrollable.scrollWidth := Z.max (Scrollable.scrollWidth s) (Z.max x 0);
       Scrollable.scrollHeight := Scrollable.scrollHeight s;
       Scrollable.width := Z.max x 0;
       Scrollable.height := Scrollable.height s |}.
Proof.
  unfold inBounds. intros H. unfold Scrollable.setWidth.
  replace (if x <? 0 then 0 else x) with (Z.max x 0)
    by (destruct (Z.ltb_spec x 0); lia).
  destruct (Scrollable.width s =? Z.max x 0) eqn:E;
    [apply Z.eqb_eq in E; apply Scrollable_ext; unfold clamp; simpl; lia|].
  apply Z.eqb_neq in E. rewrite andThen_fst.
  set (s' := {| Scrollable.scrollTop := _ |}).
  assert (W : fst (Scrollable.setScrollWidth (Scrollable.scrollWidth s') s')
              = {| Scrollable.scrollTop := Scrollable.scrollTop s;
                   Scrollable.scrollLeft :=
                     if Scrollable.scrollWidth s <? Z.max x 0
                     then 0 else Scrollable.scrollLeft s;
                   Scrollable.scrollWidth :=
                     Z.max (Scrollable.scrollWidth s) (Z.max x 0);
                   Scrollable.scrollHeight := Scrollable.scrollHeight s;
                   Scrollable.width := Z.max x 0;
                   Scrollable.height := Scrollable.height s |}).
  { unfold Scrollable.setScrollWidth. subst s'. cbn.
    destruct (Z.ltb_spec (Scrollable.scrollWidth s) (Z.max x 0)).
    - destruct (Z.eqb_spec (Scrollable.scrollWidth s) (Z.max x 0)); [lia|].
      rewrite setScrollLeft_state by (simpl; lia).
      apply Scrollable_ext; unfold clamp; simpl; lia.
    - rewrite Z.eqb_refl. apply Scrollable_ext; simpl; lia. }
  rewrite W. rewrite setScrollLeft_state by (simpl; lia).
  apply Scrollable_ext; unfold clamp; simpl; try lia.
  destruct (Z.ltb_spec (Scrollable.scrollWidth s) (Z.max x 0)); lia.
Qed.

Lemma setHeight_state (x : Z) (s : Scrollable.t) :
  inBounds s ->
  fst (Scrollable.setHeight x s)
  = {| Scrollable.scrollTop :=
         clamp 0 (Z.max (Scrollable.scrollHeight s) (Z.max x 0) - Z.max x 0)
               (Scrollable.scrollTop s);
       Scrollable.scrollLeft := Scrollable.scrollLeft s;
       Scrollable.scrollWidth := Scrollable.scrollWidth s;
       Scrollable.scrollHeight :=
         Z.max (Scrollable.scrollHeight s) (Z.max x 0);
       Scrollable.width := Scrollable.width s;
       Scrollable.height := Z.max x 0 |}.
Proof.
  unfold inBounds. intros H. unfold Scrollable.setHeight.
  replace (if x <? 0 then 0 else x) with (Z.max x 0)
    by (destruct (Z.ltb_spec x 0); lia).
  destruct (Scrollable.height s =? Z.max x 0) eqn:E;
    [apply Z.eqb_eq in E; apply Scrollable_ext; unfold clamp; simpl; lia|].
  apply Z.eqb_neq in E. rewrite andThen_fst.
  set (s' := {| Scrollable.scrollTop := _ |}).
  assert (W : fst (Scrollable.setScrollHeight (Scrollable.scrollHeight s') s')
              = {| Scrollable.scrollTop :=
                     if Scrollable.scrollHeight s <? Z.max x 0
                     then 0 else Scrollable.scrollTop s;
                   Scrollable.scrollLeft := Scrollable.scrollLeft s;
                   Scrollable.scrollWidth := Scrollable.scrollWidth s;
                   Scrollable.scrollHeight :=
                     Z.max (Scrollable.scrollHeight s) (Z.max x 0);
                   Scrollable.width := Scrollable.width s;
                   Scrollable.height := Z.max x 0 |}).
  { unfold Scrollable.setScrollHeight. subst s'. cbn.
    destruct (Z.ltb_spec (Scrollable.scrollHeight s) (Z.max x 0)).
    - destruct (Z.eqb_spec (Scrollable.scrollHeight s) (Z.max x 0)); [lia|].
      rewrite setScrollTop_state by (simpl; lia).
      apply Scrollable_ext; unfold clamp; simpl; lia.
    - rewrite Z.eqb_refl. apply Scrollable_ext; simpl; lia. }
  rewrite W. rewrite setScrollTop_state by (simpl; lia).
  apply Scrollable_ext; unfold clamp; simpl; try lia.
  destruct (Z.ltb_spec (Scrollable.scrollHeight s) (Z.max x 0)); lia.
Qed.

Lemma sampleScrollable_inBounds : inBounds sampleScrollable.
Proof. unfold inBounds. simpl. lia. Qed.

(** A setter whose test finds nothing to change returns the scrollable as
    it is and fires nothing. *)
Lemma setWidth_same (x : Z) (s : Scrollable.t) :
  Scrollable.width s = Z.max x 0 -> Scrollable.setWidth x s = (s, []).
Proof.
  intros E. unfold Scrollable.setWidth.
  replace (if x <? 0 then 0 else x) with (Z.max x 0)
    by (destruct (Z.ltb_spec x 0); lia).
  now rewrite E, Z.eqb_refl.
Qed.

Lemma setHeight_same (x : Z) (s : Scrollable.t) :
  Scrollable.height s = Z.max x 0 -> Scrollable.setHeight x s = (s, []).
Proof.
  intros E. unfold Scrollable.setHeight.
  replace (if x <? 0 then 0 else x) with (Z.max x 0)
    by (destruct (Z.ltb_spec x 0); lia).
  now rewrite E, Z.eqb_refl.
Qed.

Lemma setScrollWidth_same (x : Z) (s : Scrollable.t) :
  Scrollable.scrollWidth s = Z.max x (Scrollable.width s) ->
  Scrollable.setScrollWidth x s = (s, []).
Proof.
  intros E. unfold Scrollable.setScrollWidth.
  replace (if x <? Scrollable.width s then Scrollable.width s else x)
    with (Z.max x (Scrollable.width s))
    by (destruct (Z.ltb_spec x (Scrollable.width s)); lia).
  now rewrite E, Z.eqb_refl.
Qed.

Lemma setScrollHeight_same (x : Z) (s : Scrollable.t) :
  Scrollable.scrollHeight s = Z.max x (Scrollable.height s) ->
  Scrollable.setScrollHeight x s = (s, []).
Proof.
  intros E. unfold Scrollable.setScrollHeight.
  replace (if x <? Scrollable.height s then Scrollable.height s else x)
    with (Z.max x (Scrollable.height s))
    by (destruct (Z.ltb_spec x (Scrollable.height s)); lia).
  now rewrite E, Z.eqb_refl.
Qed.

Lemma setScrollLeft_same (x : Z) (s : Scrollable.t) :
  Scrollable.scrollLeft s
  = clamp 0 (Scrollable.scrollWidth s - Scrollable.width s) x ->
  0 <= Scrollable.width s <= Scrollable.scrollWidth s ->
  Scrollable.setScrollLeft x s = (s, []).
Proof.
  unfold clamp, Scrollable.setScrollLeft. intros E H.
  scroll_cases; first [reflexivity | lia].
Qed.

Lemma setScrollTop_same (x : Z) (s : Scrollable.t) :
  Scrollable.scrollTop s
  = clamp 0 (Scrollable.scrollHeight s - Scrollable.height s) x ->
  0 <= Scrollable.height s <= Scrollable.scrollHeight s ->
  Scrollable.setScrollTop x s = (s, []).
Proof.
  unfold clamp, Scrollable.setScrollTop. intros E H.
  scroll_cases; first [reflexivity | lia].
Qed.




(** X3.  Giving a setter of a scrollable within its bounds the same value a
    second time changes nothing and fires no event. *)
Theorem setters_are_idempotent (x : Z) (s : Scrollable.t) :
  inBounds s ->
  (let r := Scrollable.setWidth x s in
   Scrollable.setWidth x (fst r) = (fst r, []))
  /\ (let r := Scrollable.setHeight x s in
      Scrollable.setHeight x (fst r) = (fst r, []))
  /\ (let r := Scrollable.setScrollWidth x s in
      Scrollable.setScrollWidth x (fst r) = (fst r, []))
  /\ (let r := Scrollable.setScrollHeight x s in
      Scrollable.setScrollHeight x (fst r) = (fst r, []))
  /\ (let r := Scrollable.setScrollLeft x s in
      Scrollable.setScrollLeft x (fst r) = (fst r, []))
  /\ (let r := Scrollable.setScrollTop x s in
      Scrollable.setScrollTop x (fst r) = (fst r, [])).
Proof.
  intros H. cbv zeta.
  rewrite (setWidth_state x H), (setHeight_state x H),
    (setScrollWidth_state x H), (setScrollHeight_state x H).
  rewrite setScrollLeft_state, setScrollTop_state by apply H.
  unfold inBounds in H.
  split; [apply setWidth_same; reflexivity|].
  split; [apply setHeight_same; reflexivity|].
  split; [apply setScrollWidth_same; reflexivity|].
  split; [apply setScrollHeight_same; reflexivity|].
  split; [apply setScrollLeft_same | apply setScrollTop_same];
    unfold clamp;
    cbn [Scrollable.scrollTop Scrollable.scrollLeft Scrollable.scrollWidth
         Scrollable.scrollHeight Scrollable.width Scrollable.height]; lia.
Qed.

Lemma setters_are_idempotent_witness :
  inBounds sampleScrollable
  /\ snd (Scrollable.setScrollTop 10 sampleScrollable) <> []
  /\ Scrollable.setScrollTop 10 (fst (Scrollable.setScrollTop 10 sampleScrollable))
     = (fst (Scrollable.setScrollTop 10 sampleScrollable), []).
Proof.
  pose proof sampleScrollable_inBounds as H.
  split; [exact H|]. split; [discriminate|].
  apply (@setters_are_idempotent 10 sampleScrollable H).
Defined.


Lemma setScrollLeft_events (x : Z) (s : Scrollable.t) :
  0 <= Scrollable.width s <= Scrollable.scrollWidth s ->
  snd (Scrollable.setScrollLeft x s)
  = scrolledLeft s (fst (Scrollable.setScrollLeft x s)).
Proof.
  intros H. unfold scrolledLeft, Scrollable.setScrollLeft,
    Scrollable._emitScrollEvent.
  scroll_cases; first [reflexivity | lia].
Qed.

Lemma setScrollTop_events (x : Z) (s : Scrollable.t) :
  0 <= Scrollable.height s <= Scrollable.scrollHeight s ->
  snd (Scrollable.setScrollTop x s)
  = scrolledTop s (fst (Scrollable.setScrollTop x s)).
Proof.
  intros H. unfold scrolledTop, Scrollable.setScrollTop,
    Scrollable._emitScrollEvent.
  scroll_cases; first [reflexivity | lia].
Qed.

Lemma setScrollWidth_events (x : Z) (s : Scrollable.t) :
  inBounds s ->
  snd (Scrollable.setScrollWidth x s)
  = scrolledLeft s (fst (Scrollable.setScrollWidth x s)).
Proof.
  unfold inBounds. intros H. unfold Scrollable.setScrollWidth.
  destruct (Scrollable.scrollWidth s =? _) eqn:E.
  - unfold scrolledLeft. cbn [fst snd]. now rewrite Z.eqb_refl.
  - rewrite setScrollLeft_events
      by (cbn; destruct (Z.ltb_spec x (Scrollable.width s)); lia).
    reflexivity.
Qed.

Lemma setScrollHeight_events (x : Z) (s : Scrollable.t) :
  inBounds s ->
  snd (Scrollable.setScrollHeight x s)
  = scrolledTop s (fst (Scrollable.setScrollHeight x s)).
Proof.
  unfold inBounds. intros H. unfold Scrollable.setScrollHeight.
  destruct (Scrollable.scrollHeight s =? _) eqn:E.
  - unfold scrolledTop. cbn [fst snd]. now rewrite Z.eqb_refl.
  - rewrite setScrollTop_events
      by (cbn; destruct (Z.ltb_spec x (Scrollable.height s)); lia).
    reflexivity.
Qed.

(** [setScrollWidth] given the width the content has: it only widens the
    content to the viewport if it is narrower. *)
Lemma setScrollWidth_revalidate (s : Scrollable.t) :
  Scrollable.setScrollWidth (Scrollable.scrollWidth s) s
  = if Scrollable.scrollWidth s <? Scrollable.width s
    then Scrollable.setScrollLeft (Scrollable.scrollLeft s)
           {| Scrollable.scrollTop := Scrollable.scrollTop s;
              Scrollable.scrollLeft := Scrollable.scrollLeft s;
              Scrollable.scrollWidth := Scrollable.width s;
              Scrollable.scrollHeight := Scrollable.scrollHeight s;
              Scrollable.width := Scrollable.width s;
              Scrollable.height := Scrollable.height s |}
    else (s, []).
Proof.
  unfold Scrollable.setScrollWidth.
  destruct (Z.ltb_spec (Scrollable.scrollWidth s) (Scrollable.width s)).
  - destruct (Z.eqb_spec (Scrollable.scrollWidth s) (Scrollable.width s));
      [lia | reflexivity].
  - now rewrite Z.eqb_refl.
Qed.

Lemma setScrollHeight_revalidate (s : Scrollable.t) :
  Scrollable.setScrollHeight (Scrollable.scrollHeight s) s
  = if Scrollable.scrollHeight s <? Scrollable.height s
    then Scrollable.setScrollTop (Scrollable.scrollTop s)
           {| Scrollable.scrollTop := Scrollable.scrollTop s;
              Scrollable.scrollLeft := Scrollable.scrollLeft s;
              Scrollable.scrollWidth := Scrollable.scrollWidth s;
              Scrollable.scrollHeight := Scrollable.height s;
              Scrollable.width := Scrollable.width s;
              Scrollable.height := Scrollable.height s |}
    else (s, []).
Proof.
  unfold Scrollable.setScrollHeight.
  destruct (Z.ltb_spec (Scrollable.scrollHeight s) (Scrollable.height s)).
  - destruct (Z.eqb_spec (Scrollable.scrollHeight s) (Scrollable.height s));
      [lia | reflexivity].
  - now rewrite Z.eqb_refl.
Qed.

Ltac scroll_proj :=
  cbn [fst snd app Scrollable.scrollTop Scrollable.scrollLeft
       Scrollable.scrollWidth Scrollable.scrollHeight Scrollable.width
       Scrollable.height].

Ltac eqb_cases :=
  repeat match goal with
         | |- context [?a =? ?b] => destruct (Z.eqb_spec a b)
         end;
  cbn [app]; first [reflexivity | lia | (do 2 f_equal; lia)].

Lemma setWidth_events (x : Z) (s : Scrollable.t) :
  inBounds s ->
  snd (Scrollable.setWidth x s)
  = scrolledLeft s (fst (Scrollable.setWidth x s)).
Proof.
  intros H. rewrite (setWidth_state x H). unfold inBounds in H.
  unfold Scrollable.setWidth.
  replace (if x <? 0 then 0 else x) with (Z.max x 0)
    by (destruct (Z.ltb_spec x 0); lia).
  destruct (Z.eqb_spec (Scrollable.width s) (Z.max x 0)) as [E|E].
  - unfold scrolledLeft, clamp. scroll_proj. eqb_cases.
  - rewrite andThen_snd, setScrollWidth_revalidate. scroll_proj.
    destruct (Z.ltb_spec (Scrollable.scrollWidth s) (Z.max x 0)).
    + repeat first [ rewrite setScrollLeft_state by (scroll_proj; lia)
                   | rewrite setScrollLeft_events by (scroll_proj; lia) ].
      unfold scrolledLeft, clamp. scroll_proj. eqb_cases.
    + scroll_proj.
      repeat first [ rewrite setScrollLeft_state by (scroll_proj; lia)
                   | rewrite setScrollLeft_events by (scroll_proj; lia) ].
      unfold scrolledLeft, clamp. scroll_proj. eqb_cases.
Qed.

Lemma setHeight_events (x : Z) (s : Scrollable.t) :
  inBounds s ->
  snd (Scrollable.setHeight x s)
  = scrolledTop s (fst (Scrollable.setHeight x s)).
Proof.
  intros H. rewrite (setHeight_state x H). unfold inBounds in H.
  unfold Scrollable.setHeight.
  replace (if x <? 0 then 0 else x) with (Z.max x 0)
    by (destruct (Z.ltb_spec x 0); lia).
  destruct (Z.eqb_spec (Scrollable.height s) (Z.max x 0)) as [E|E].
  - unfold scrolledTop, clamp. scroll_proj. eqb_cases.
  - rewrite andThen_snd, setScrollHeight_revalidate. scroll_proj.
    destruct (Z.ltb_spec (Scrollable.scrollHeight s) (Z.max x 0)).
    + repeat first [ rewrite setScrollTop_state by (scroll_proj; lia)
                   | rewrite setScrollTop_events by (scroll_proj; lia) ].
      unfold scrolledTop, clamp. scroll_proj. eqb_cases.
    + scroll_proj.
      repeat first [ rewrite setScrollTop_state by (scroll_proj; lia)
                   | rewrite setScrollTop_events by (scroll_proj; lia) ].
      unfold scrolledTop, clamp. scroll_proj. eqb_cases.
Qed.

(** X2.  A setter of a scrollable within its bounds fires a scroll event
    exactly when it moved the scroll position, and then one only: the event
    carries the position that the scrollable has after the call, and its
    flags tell the direction.  The setters of width, content width and left
    position move the left position only; those of height, content height
    and top position the top position only. *)
Theorem setters_fire_on_move (x : Z) (s : Scrollable.t) :
  inBounds s ->
  snd (Scrollable.setWidth x s) = scrolledLeft s (fst (Scrollable.setWidth x s))
  /\ snd (Scrollable.setScrollWidth x s)
     = scrolledLeft s (fst (Scrollable.setScrollWidth x s))
  /\ snd (Scrollable.setScrollLeft x s)
     = scrolledLeft s (fst (Scrollable.setScrollLeft x s))
  /\ snd (Scrollable.setHeight x s)
     = scrolledTop s (fst (Scrollable.setHeight x s))
  /\ snd (Scrollable.setScrollHeight x s)
     = scrolledTop s (fst (Scrollable.setScrollHeight x s))
  /\ snd (Scrollable.setScrollTop x s)
     = scrolledTop s (fst (Scrollable.setScrollTop x s))
  /\ Scrollable.scrollTop (fst (Scrollable.setWidth x s)) = Scrollable.scrollTop s
  /\ Scrollable.scrollTop (fst (Scrollable.setScrollWidth x s))
     = Scrollable.scrollTop s
  /\ Scrollable.scrollTop (fst (Scrollable.setScrollLeft x s))
     = Scrollable.scrollTop s
  /\ Scrollable.scrollLeft (fst (Scrollable.setHeight x s))
     = Scrollable.scrollLeft s
  /\ Scrollable.scrollLeft (fst (Scrollable.setScrollHeight x s))
     = Scrollable.scrollLeft s
  /\ Scrollable.scrollLeft (fst (Scrollable.setScrollTop x s))
     = Scrollable.scrollLeft s.
Proof.
  intros H.
  split; [now apply setWidth_events|].
  split; [now apply setScrollWidth_events|].
  split; [apply setScrollLeft_events; apply H|].
  split; [now apply setHeight_events|].
  split; [now apply setScrollHeight_events|].
  split; [apply setScrollTop_events; apply H|].
  rewrite (setWidth_state x H), (setHeight_state x H),
    (setScrollWidth_state x H), (setScrollHeight_state x H).
  rewrite setScrollLeft_state, setScrollTop_state by apply H.
  repeat split.
Qed.

Lemma setters_fire_on_move_witness :
  inBounds sampleScrollable
  /\ snd (Scrollable.setScrollHeight 70 sampleScrollable)
     = scrolledTop sampleScrollable
         (fst (Scrollable.setScrollHeight 70 sampleScrollable))
  /\ snd (Scrollable.setScrollHeight 70 sampleScrollable)
     = [{| vertical := true; horizontal := false;
           ev_scrollTop := 30; ev_scrollLeft := 0 |}].
Proof.
  pose proof sampleScrollable_inBounds as H.
  split; [exact H|]. split; [|reflexivity].
  apply (@setters_fire_on_move 70 sampleScrollable H).
Defined.







(** ** The layout *)









(** ** The scrollable of a widget *)

Section LayoutThroughFlush.

Variable f : ListViewItemsChangedEvent.t -> ListView -> ListView.

(** A property of the layout that its three handlers keep. *)
Variable P : ListViewLayout.t -> Prop.
Hypothesis P_dimension :
  forall d l, P l -> P (fst (ListViewLayout.onDimensionChanged d l)).
Hypothesis P_items : forall e l, P l -> P (ListViewLayout.onItemsChanged e l).
Hypothesis P_after :
  forall l, P l -> P (fst (ListViewLayout.onAfterEventsDispatch l)).









End LayoutThroughFlush.


Section SteadyRuns.

Variable f : ListViewItemsChangedEvent.t -> ListView -> ListView.





End SteadyRuns.


(** ** The model through splices *)

Lemma at_app_l {A} (a b : list A) (i : Z) :
  i < len a -> at_ (a ++ b) i = at_ a i.
Proof.
  intros H. unfold at_. destruct (Z.ltb_spec i 0); [reflexivity|].
  apply nth_error_app1. lia.
Qed.

Lemma at_app_r {A} (a b : list A) (i : Z) :
  len a <= i -> at_ (a ++ b) i = at_ b (i - len a).
Proof.
  intros H. unfold at_.
  destruct (Z.ltb_spec i 0); [lia|].
  destruct (Z.ltb_spec (i - len a) 0); [lia|].
  rewrite nth_error_app2 by lia. f_equal. lia.
Qed.

Lemma at_firstn {A} (a : list A) (n i : Z) :
  i < n -> at_ (firstn (Z.to_nat n) a) i = at_ a i.
Proof.
  intros H. unfold at_. destruct (Z.ltb_spec i 0); [reflexivity|].
  rewrite nth_error_firstn.
  destruct (Nat.ltb_spec (Z.to_nat i) (Z.to_nat n)); [reflexivity | lia].
Qed.

Lemma at_skipn {A} (a : list A) (n i : Z) :
  0 <= n -> 0 <= i -> at_ (skipn (Z.to_nat n) a) i = at_ a (n + i).
Proof.
  intros Hn Hi. unfold at_.
  destruct (Z.ltb_spec i 0); [lia|].
  destruct (Z.ltb_spec (n + i) 0); [lia|].
  rewrite nth_error_skipn. f_equal. lia.
Qed.

Lemma at_map {A B} (g : A -> B) (a : list A) (i : Z) :
  at_ (map g a) i = option_map g (at_ a i).
Proof.
  unfold at_. destruct (Z.ltb_spec i 0); [reflexivity|].
  apply nth_error_map.
Qed.

Lemma at_inside {A} (a : list A) (i : Z) :
  0 <= i < len a -> exists x, at_ a i = Some x.
Proof.
  intros H. unfold at_. destruct (Z.ltb_spec i 0); [lia|].
  destruct (nth_error a (Z.to_nat i)) eqn:E; [eauto|].
  apply nth_error_None in E. lia.
Qed.


(** The items after a splice whose range lies inside the model. *)
Lemma items_splice (start del : Z) (items : list IListItem) (vm : ViewModel) :
  0 <= start -> 0 <= del ->
  _items (snd (splice start del items vm))
  = firstn (Z.to_nat start) (_items vm)
    ++ _toMyItems items
    ++ skipn (Z.to_nat (start + del)) (_items vm).
Proof.
  intros Hs Hd. unfold splice. cbn [snd _items].
  rewrite slice_0, sliceFrom_nonneg by lia. now rewrite <- app_assoc.
Qed.

(** X7.  Looking up a height after a splice whose range lies inside the
    model: an index before [start] gives what it gave, the [j]-th new entry
    is found at [start + j] with the height it reports, and the item that
    was at an index [i] from [start + deleteCnt] on is found at
    [i - deleteCnt + length of the new entries]. *)
Theorem lookup_after_splice (S : Type) (start del : Z)
    (items : list IListItem) (vm : ViewModel) (s : S) :
  0 <= start -> 0 <= del -> start + del <= len (_items vm) ->
  let vm' := snd (splice start del items vm) in
  len (_items vm') = len (_items vm) - del + len items
  /\ (forall i, i < start -> getHeightOf vm' i s = getHeightOf vm i s)
  /\ (forall j it, at_ items j = Some it ->
        getHeightOf vm' (start + j) s = (Normal (getHeight it), s))
  /\ (forall i, start + del <= i ->
        getHeightOf vm' (i - del + len items) s = getHeightOf vm i s).
Proof.
  intros Hs Hd Hin vm'.
  assert (I : _items vm'
              = firstn (Z.to_nat start) (_items vm)
                ++ _toMyItems items
                ++ skipn (Z.to_nat (start + del)) (_items vm))
    by (now apply items_splice).
  assert (Lf : len (firstn (Z.to_nat start) (_items vm)) = start)
    by (rewrite length_firstn; lia).
  assert (Lm : len (_toMyItems items) = len items)
    by (unfold _toMyItems; now rewrite length_map).
  clearbody vm'. unfold getHeightOf. rewrite I. split; [|split; [|split]].
  - rewrite !length_app, length_skipn. lia.
  - intros i Hi. rewrite at_app_l by lia. now rewrite at_firstn by lia.
  - intros j it E.
    assert (Hj : 0 <= j < len items).
    { unfold at_ in E. destruct (Z.ltb_spec j 0); [discriminate|].
      split; [lia|]. apply Z2Nat.inj_lt; try lia. rewrite Nat2Z.id.
      apply nth_error_Some. congruence. }
    rewrite at_app_r by lia. rewrite Lf.
    replace (start + j - start) with j by lia.
    rewrite at_app_l by lia. unfold _toMyItems. rewrite at_map, E.
    reflexivity.
  - intros i Hi.
    rewrite at_app_r by lia. rewrite Lf.
    rewrite at_app_r by lia. rewrite Lm.
    rewrite at_skipn by lia.
    replace (start + del + (i - del + len items - start - len items))
      with i by lia.
    reflexivity.
Qed.

Lemma lookup_after_splice_witness :
  getHeightOf (snd (splice 1 1 [sampleItem; sampleItem] twoItems)) (1 + 1) tt
  = (Normal 25, tt).
Proof.
  refine (proj1 (proj2 (proj2 (@lookup_after_splice unit 1 1
            [sampleItem; sampleItem] twoItems tt _ _ _))) 1 sampleItem _).
  - lia.
  - lia.
  - vm_compute. discriminate.
  - reflexivity.
Defined.


Lemma spliceAll_runs (calls : list SpliceCall) (vm : ViewModel) :
  fst (spliceAll calls vm) = Normal tt
  /\ _versionId (snd (spliceAll calls vm)) = _versionId vm + len calls
  /\ _onDidChange (snd (spliceAll calls vm))
     = _onDidChange vm ++ eventsFrom (_versionId vm + 1) calls.
Proof.
  revert vm. induction calls as [|c calls IH]; intros vm.
  - cbn. rewrite app_nil_r. repeat split. lia.
  - unfold spliceAll. cbn [forEach]. unfold bind.
    set (vm1 := snd (splice (call_start c) (call_deleteCnt c) (call_items c) vm)).
    assert (E : splice (call_start c) (call_deleteCnt c) (call_items c) vm
                = (Normal tt, vm1)) by reflexivity.
    rewrite E. fold (spliceAll calls).
    destruct (IH vm1) as (R & V & F). rewrite R, V, F.
    assert (V1 : _versionId vm1 = _versionId vm + 1) by reflexivity.
    assert (F1 : _onDidChange vm1
                 = _onDidChange vm ++ [eventOf (_versionId vm + 1) c]).
    { unfold vm1, splice, eventOf. cbn [snd _onDidChange].
      now rewrite map_cachedHeight_toMyItems. }
    rewrite V1, F1. clearbody vm1. repeat split.
    + rewrite length_cons. lia.
    + rewrite <- app_assoc. reflexivity.
Qed.

Lemma eventsFrom_nth (calls : list SpliceCall) (v : Z) (k : nat) :
  nth_error (eventsFrom v calls) k
  = option_map (eventOf (v + Z.of_nat k)) (nth_error calls k).
Proof.
  revert v k. induction calls as [|c calls IH]; intros v [|k]; cbn [eventsFrom nth_error option_map];
    try reflexivity.
  - now rewrite Z.add_0_r.
  - rewrite IH. do 2 f_equal. lia.
Qed.

(** X9.  Any sequence of splices of a model returns, whatever the
    arguments; the version ends up as many above where it was as there were
    calls, and the model fires one event per call, in the order of the
    calls: the [k]-th carries the arguments of the [k]-th call as given and
    the version that the model had after that call, so the versions of the
    events go up by one from event to event. *)
Theorem versions_count_splices (calls : list SpliceCall) (vm : ViewModel) :
  let vm' := snd (spliceAll calls vm) in
  fst (spliceAll calls vm) = Normal tt
  /\ _versionId vm' = _versionId vm + len calls
  /\ length (fired vm vm') = length calls
  /\ forall k c, nth_error calls k = Some c ->
       nth_error (fired vm vm') k
       = Some (eventOf (_versionId vm + 1 + Z.of_nat k) c).
Proof.
  destruct (spliceAll_runs calls vm) as (R & V & F). cbv zeta.
  assert (Fi : fired vm (snd (spliceAll calls vm))
               = eventsFrom (_versionId vm + 1) calls).
  { unfold fired. rewrite F, skipn_app, skipn_all, Nat.sub_diag. reflexivity. }
  rewrite Fi. split; [exact R|]. split; [exact V|]. split.
  - clear. generalize (_versionId vm + 1).
    induction calls; intros z; simpl; auto.
  - intros k c E. now rewrite eventsFrom_nth, E.
Qed.

(** X10.  Inserting entries at an index inside the model and then deleting
    as many items at that index gives back the items that the model had;
    the version is two higher. *)
Theorem insert_then_delete (start : Z) (items : list IListItem)
    (vm : ViewModel) :
  0 <= start <= len (_items vm) ->
  let vm1 := snd (splice start 0 items vm) in
  let vm2 := snd (splice start (len items) [] vm1) in
  _items vm2 = _items vm
  /\ getAllHeights vm2 = getAllHeights vm
  /\ _versionId vm2 = _versionId vm + 2.
Proof.
  intros H vm1 vm2.
  assert (I : _items vm2 = _items vm).
  { unfold vm2. rewrite items_splice by lia.
    unfold vm1. rewrite items_splice by lia.
    assert (Lf : length (firstn (Z.to_nat start) (_items vm)) = Z.to_nat start)
      by (rewrite length_firstn; lia).
    assert (Lm : length (_toMyItems items) = length items)
      by (unfold _toMyItems; now rewrite length_map).
    rewrite Z.add_0_r. cbn [_toMyItems map app].
    rewrite firstn_exact by (now rewrite Lf).
    rewrite Z2Nat.inj_add by lia. rewrite Nat2Z.id.
    rewrite (Nat.add_comm (Z.to_nat start)), <- skipn_skipn.
    rewrite skipn_exact by (now rewrite Lf).
    rewrite skipn_exact by (now rewrite Lm).
    apply firstn_skipn. }
  split; [exact I|]. split.
  - unfold getAllHeights. now rewrite I.
  - unfold vm2, vm1, splice. cbn [snd _versionId]. lia.
Qed.

Lemma insert_then_delete_witness :
  _items (snd (splice 1 (len [sampleItem; sampleItem]) []
                 (snd (splice 1 0 [sampleItem; sampleItem] twoItems))))
  = _items twoItems.
Proof.
  refine (proj1 (@insert_then_delete 1 [sampleItem; sampleItem] twoItems _)).
  vm_compute. split; discriminate.
Defined.

(** ** What a frame leaves in the queue *)

Section FrameQueue.

Variable f : ListViewItemsChangedEvent.t -> ListView -> ListView.

Lemma afterHook_scrolls (h : Who) (w : Widget) :
  Forall emitsScroll (snd (onAfterEventsDispatch h w)).
Proof.
  destruct h; cbn [onAfterEventsDispatch snd]; [constructor|].
  destruct (ListViewLayout.onAfterEventsDispatch (layout w)).
  apply forwardScroll_emitsScroll.
Qed.

Lemma beforeHook_scrolls (h : Who) (w : Widget) :
  Forall emitsScroll (snd (onBeforeEventsDispatch h w)).
Proof. constructor. Qed.

Lemma invoke_listeners (what : ListenerCall Who) (m : Method Who Widget)
    (s : Flushing Who Widget) :
  Forall emitsScroll (snd (m (world s))) ->
  _listeners (ctx (invoke sameWho _scheduleRender what m s))
  = _listeners (ctx s).
Proof.
  intros H. unfold invoke. destruct (m (world s)) as [w cs]. simpl in H.
  destruct (perform_scrolls (ctx s, w) H) as (L & _). exact L.
Qed.

Lemma each_listeners (K : Who -> ListenerCall Who)
    (meth : Who -> Method Who Widget) (hs : list Who) :
  (forall h w, Forall emitsScroll (snd (meth h w))) ->
  forall s : Flushing Who Widget,
    _listeners (ctx (fold_left (fun s h => invoke sameWho _scheduleRender
                                             (K h) (meth h) s) hs s))
    = _listeners (ctx s).
Proof.
  intros Hm. induction hs as [|h hs IH]; intros s; simpl; [reflexivity|].
  rewrite IH. apply invoke_listeners, Hm.
Qed.

(** A flush that returns leaves scroll events in the queue and nothing
    else, and the listeners as they were. *)
Lemma flush_queue (fuel : nat) (c : Ctx) (w : Widget)
    (s : Flushing Who Widget) :
  ListView_flush f fuel c w = Some s ->
  (exists evs, _events (ctx s) = map ScrollEvent evs)
  /\ _listeners (ctx s) = _listeners c.
Proof.
  unfold ListView_flush, flush.
  match goal with
  | |- match drain _ _ _ _ _ _ ?s1 with _ => _ end = _ -> _ =>
      assert (L1 : _listeners (ctx s1) = _listeners c)
  end.
  { now rewrite each_listeners by apply beforeHook_scrolls. }
  destruct (drain _ _ _ _ fuel _ _) as [s2|] eqn:Dr; [|discriminate].
  intros [= <-].
  assert (L2 : _listeners (ctx s2) = _listeners c).
  { rewrite <- L1.
    eapply (drain_invariant sameWho _scheduleRender onDimensionChanged
              (onItemsChanged f)
              (fun s => _listeners (ctx s) = _listeners (ctx _)));
      [ | reflexivity | exact Dr].
    intros s0 e rest Q0 _.
    destruct e as [d | y | i |]; cbn [dispatch]; try exact Q0.
    - rewrite each_listeners; [exact Q0|].
      intros h0 w0. apply onDimensionChanged_scrolls.
    - rewrite each_listeners; [exact Q0|].
      intros h0 w0. apply onItemsChanged_scrolls. }
  apply drain_calls in Dr. destruct Dr as (_ & _ & Z).
  split.
  - destruct (each_scrolls (@AfterEventsDispatch Who) onAfterEventsDispatch
                (_listeners c) afterHook_scrolls s2) as (evs & E).
    exists evs. now rewrite E, Z.
  - now rewrite each_listeners by apply afterHook_scrolls.
Qed.



End FrameQueue.


(** ** Adding and removing listeners *)

Section Handlers.

Variable Listener : Type.
Variable same : Listener -> Listener -> bool.
Hypothesis same_spec : forall a b, same a b = true <-> a = b.

Lemma same_refl (h : Listener) : same h h = true.
Proof. now apply same_spec. Qed.

Lemma same_other (k h : Listener) : k <> h -> same h k = false.
Proof.
  intros N. destruct (same h k) eqn:E; [|reflexivity].
  apply same_spec in E. congruence.
Qed.

Lemma removeFirst_absent (h : Listener) (l : list Listener) :
  ~ In h l -> removeFirst same h l = l.
Proof.
  induction l as [|x l IH]; intros N; simpl; [reflexivity|].
  destruct (same x h) eqn:E.
  - apply same_spec in E. subst x. exfalso. apply N. now left.
  - f_equal. apply IH. intros H. apply N. now right.
Qed.

Lemma removeFirst_added (h : Listener) (l : list Listener) :
  ~ In h l -> removeFirst same h (l ++ [h]) = l.
Proof.
  induction l as [|x l IH]; intros N; simpl.
  - now rewrite same_refl.
  - destruct (same x h) eqn:E.
    + apply same_spec in E. subst x. exfalso. apply N. now left.
    + f_equal. apply IH. intros H. apply N. now right.
Qed.

Lemma removeFirst_present (h : Listener) (l more : list Listener) :
  In h l -> removeFirst same h (l ++ more) = removeFirst same h l ++ more.
Proof.
  induction l as [|x l IH]; intros H; simpl; [contradiction|].
  destruct (same x h) eqn:E; [reflexivity|].
  simpl. f_equal. apply IH. destruct H as [->|H]; [|exact H].
  now rewrite same_refl in E.
Qed.

Lemma count_removeFirst (h k : Listener) (l : list Listener) :
  length (filter (fun x => same x k) (removeFirst same h l))
  = if same h k then pred (length (filter (fun x => same x k) l))
    else length (filter (fun x => same x k) l).
Proof.
  induction l as [|x l IH]; simpl.
  - now destruct (same h k).
  - destruct (same x h) eqn:E.
    + apply same_spec in E. subst x.
      destruct (same h k); reflexivity.
    + simpl. destruct (same x k) eqn:Ek; simpl; rewrite IH.
      * destruct (same h k) eqn:Eh; [|reflexivity].
        apply same_spec in Ek, Eh. subst. now rewrite same_refl in E.
      * reflexivity.
Qed.

(** X12.  [addEventHandler] registers a listener once more even when it is
    registered already, and [removeEventHandler] takes one registration of
    it away, the oldest, if there is one; neither touches the registrations
    of another listener or the queue.  Adding a listener that was not
    registered and removing it again gives back the context; removing a
    listener that is not registered changes nothing; a listener added a
    second time and removed once is still registered, now last in the
    list. *)
Theorem handlers_add_remove (h : Listener) (c : ListViewContext Listener) :
  registrations same h (addEventHandler h c) = S (registrations same h c)
  /\ registrations same h (removeEventHandler same h c)
     = pred (registrations same h c)
  /\ (forall k, k <> h ->
        registrations same k (addEventHandler h c) = registrations same k c
        /\ registrations same k (removeEventHandler same h c)
           = registrations same k c)
  /\ _events (addEventHandler h c) = _events c
  /\ _events (removeEventHandler same h c) = _events c
  /\ (~ In h (_listeners c) ->
        removeEventHandler same h (addEventHandler h c) = c
        /\ removeEventHandler same h c = c)
  /\ (In h (_listeners c) ->
        _listeners (removeEventHandler same h (addEventHandler h c))
        = removeFirst same h (_listeners c) ++ [h]).
Proof.
  unfold registrations, addEventHandler, removeEventHandler.
  cbn [_listeners _events].
  split; [|split; [|split; [|split; [|split; [|split]]]]].
  - rewrite filter_app, length_app. cbn [filter]. rewrite same_refl.
    cbn [length]. lia.
  - rewrite count_removeFirst. now rewrite same_refl.
  - intros k N. split.
    + rewrite filter_app, length_app. cbn [filter].
      rewrite (same_other N). cbn [length]. lia.
    + rewrite count_removeFirst. now rewrite (same_other N).
  - reflexivity.
  - reflexivity.
  - intros N. rewrite removeFirst_added, removeFirst_absent by exact N.
    destruct c. split; reflexivity.
  - intros H. now apply removeFirst_present.
Qed.

End Handlers.

Lemma sameWho_spec (a b : Who) : sameWho a b = true <-> a = b.
Proof. destruct a, b; simpl; split; congruence. Qed.

Lemma handlers_add_remove_witness :
  registrations sameWho TheLayout
    (removeEventHandler sameWho TheLayout
       (addEventHandler TheLayout
          {| _listeners := [TheView; TheLayout]; _events := [] |}))
  = 1%nat
  /\ _listeners (removeEventHandler sameWho TheLayout
                   (addEventHandler TheLayout
                      {| _listeners := [TheView; TheLayout];
                         _events := [] |}))
     = [TheView; TheLayout].
Proof.
  pose proof (@handlers_add_remove Who sameWho sameWho_spec TheLayout
                {| _listeners := [TheView; TheLayout]; _events := [] |})
    as (_ & _ & _ & _ & _ & _ & P).
  split; [reflexivity|].
  rewrite P; [reflexivity|]. simpl. auto.
Defined.

(** ** The window follows the model *)

Lemma View_onItemsChanged_blocks (e : ListViewItemsChangedEvent.t) :
  View_onItemsChanged e
  = bind (markChanged e) (fun _ =>
    bind get (fun v =>
    bind (adjustStart e v) (fun _ =>
    bind (removeDeleted e v) (fun _ =>
    placeInserted e)))).
Proof. reflexivity. Qed.

Lemma bind_normal {S A B} (m : M S A) (k : A -> M S B) (s s' : S) (a : A) :
  m s = (Normal a, s') -> bind m k s = k a s'.
Proof. intros H. unfold bind. now rewrite H. Qed.

Lemma forEach_idle {S A} (xs : list A) (body : A -> M S unit) (s : S) :
  (forall x, In x xs -> body x s = (Normal tt, s)) ->
  forEach xs body s = (Normal tt, s).
Proof.
  induction xs as [|x xs IH]; intros H; simpl; [reflexivity|].
  rewrite (@bind_normal _ _ _ _ _ _ _ _ (H x (or_introl eq_refl))).
  apply IH. intros y Hy. apply H. now right.
Qed.

Lemma set_renderedItems_same (v : ListView) :
  set_renderedItems (_renderedItems v) v = v.
Proof. now destruct v. Qed.

Lemma set_renderedItemsStart_same (v : ListView) :
  set_renderedItemsStart (_renderedItemsStart v) v = v.
Proof. now destruct v. Qed.

(** The loop over the changed run does nothing when no changed item is in
    the window. *)
Lemma markChanged_outside (e : ListViewItemsChangedEvent.t) (v : ListView) :
  (forall i, 0 <= i < len (ListViewItemsChangedEvent.changed e) ->
     ListViewItemsChangedEvent.changedStart e + i < _renderedItemsStart v
     \/ _renderedItemsStart v + len (_renderedItems v)
        <= ListViewItemsChangedEvent.changedStart e + i) ->
  markChanged e v = (Normal tt, v).
Proof.
  intros H. unfold markChanged. apply forEach_idle. intros i Hi.
  apply in_fromTo in Hi. unfold bind, get. cbv zeta.
  destruct (Z.ltb_spec (ListViewItemsChangedEvent.changedStart e + i
                        - _renderedItemsStart v) 0); [reflexivity|].
  destruct (Z.geb_spec (ListViewItemsChangedEvent.changedStart e + i
                        - _renderedItemsStart v) (len (_renderedItems v)));
    [reflexivity|].
  destruct (H i); lia.
Qed.

Section HeardEvent.

Variables (version start del : Z) (ins : list Z).
Hypothesis del_nonneg : 0 <= del.

Let c := Z.min del (len ins).

Lemma heard_changedStart :
  ListViewItemsChangedEvent.changedStart (heardFor version start del ins)
  = start.
Proof. reflexivity. Qed.

Lemma heard_changed :
  len (ListViewItemsChangedEvent.changed (heardFor version start del ins)) = c.
Proof.
  unfold heardFor. rewrite new_explicit by exact del_nonneg.
  cbn [ListViewItemsChangedEvent.changed]. rewrite len_firstn; unfold c; lia.
Qed.

Lemma heard_deleteStart :
  ListViewItemsChangedEvent.deleteStart (heardFor version start del ins)
  = start + c.
Proof. unfold heardFor. now rewrite new_explicit by exact del_nonneg. Qed.

Lemma heard_deleteCnt :
  ListViewItemsChangedEvent.deleteCnt (heardFor version start del ins)
  = del - c.
Proof. unfold heardFor. now rewrite new_explicit by exact del_nonneg. Qed.

Lemma heard_insertStart :
  ListViewItemsChangedEvent.insertStart (heardFor version start del ins)
  = start + c.
Proof. unfold heardFor. now rewrite new_explicit by exact del_nonneg. Qed.

Lemma heard_inserted :
  len (ListViewItemsChangedEvent.inserted (heardFor version start del ins))
  = len ins - c.
Proof.
  unfold heardFor. rewrite new_explicit by exact del_nonneg.
  cbn [ListViewItemsChangedEvent.inserted]. rewrite length_skipn.
  unfold c. lia.
Qed.

End HeardEvent.

(** X13.  A splice that ends above the window, or where it begins, moves
    the window by the number of items that the model gained: the view
    returns, the start of the window grows by the number of new entries
    less the delete count, and neither a line nor the surface is
    touched. *)
Theorem splice_above_shifts_window (version start del : Z) (ins : list Z)
    (v : ListView) :
  0 <= start -> 0 <= del -> start + del <= _renderedItemsStart v ->
  View_onItemsChanged (heardFor version start del ins) v
  = (Normal tt,
     set_renderedItemsStart (_renderedItemsStart v + len ins - del) v).
Proof.
  intros Hs Hd Ha.
  set (e := heardFor version start del ins).
  pose proof (heard_changedStart version start del ins) as Ecs.
  pose proof (heard_changed version start ins Hd) as Ec.
  pose proof (heard_deleteStart version start ins Hd) as Eds.
  pose proof (heard_deleteCnt version start ins Hd) as Edc.
  pose proof (heard_insertStart version start ins Hd) as Eis.
  pose proof (heard_inserted version start ins Hd) as Ei.
  fold e in Ecs, Ec, Eds, Edc, Eis, Ei. clearbody e.
  set (c := Z.min del (len ins)) in *.
  assert (Hc : 0 <= c <= del) by (unfold c; lia).
  rewrite View_onItemsChanged_blocks.
  rewrite (@bind_normal _ _ _ _ _ _ _ _ (markChanged_outside e v
             ltac:(intros i Hi; left; lia))).
  unfold bind at 1, get. cbv beta iota.
  assert (A : exists x, adjustStart e v v
                        = (Normal tt, set_renderedItemsStart x v)
                        /\ x = _renderedItemsStart v - (del - c)).
  { unfold adjustStart. rewrite Eds, Edc.
    destruct (Z.ltb_spec (start + c) (_renderedItemsStart v)).
    - destruct (Z.ltb_spec (start + c + (del - c) - 1) (_renderedItemsStart v));
        [|lia].
      eexists. split; [reflexivity | lia].
    - exists (_renderedItemsStart v). split; [|lia].
      now rewrite set_renderedItemsStart_same. }
  destruct A as (x & A & Ex). rewrite (@bind_normal _ _ _ _ _ _ _ _ A).
  assert (D : removeDeleted e v (set_renderedItemsStart x v)
              = (Normal tt, set_renderedItemsStart x v)).
  { unfold removeDeleted. rewrite Eds, Edc. cbv zeta.
    destruct (Z.leb_spec (Z.max (start + c - _renderedItemsStart v) 0)
                (Z.min (start + c + (del - c) - 1 - _renderedItemsStart v)
                       (len (_renderedItems v) - 1))); [lia | reflexivity]. }
  rewrite (@bind_normal _ _ _ _ _ _ _ _ D).
  unfold placeInserted, bind, get. rewrite Eis, Ei. cbv zeta.
  cbn [_renderedItemsStart set_renderedItemsStart].
  destruct (Z.leb_spec (start + c) x); [|lia].
  unfold modify. f_equal. unfold set_renderedItemsStart. cbn. f_equal. lia.
Qed.

Lemma splice_above_shifts_window_witness :
  View_onItemsChanged (heardFor 2 0 0 [25; 25; 25]) scrolledView
  = (Normal tt,
     set_renderedItemsStart
       (_renderedItemsStart scrolledView + len [25; 25; 25] - 0) scrolledView).
Proof.
  apply splice_above_shifts_window; vm_compute; discriminate.
Defined.

(** X14.  A splice that begins below the window leaves the view as it
    is. *)
Theorem splice_below_keeps_window (version start del : Z) (ins : list Z)
    (v : ListView) :
  0 <= del ->
  _renderedItemsStart v < start ->
  _renderedItemsStart v + len (_renderedItems v) <= start ->
  View_onItemsChanged (heardFor version start del ins) v = (Normal tt, v).
Proof.
  intros Hd Hs Hb.
  set (e := heardFor version start del ins).
  pose proof (heard_changedStart version start del ins) as Ecs.
  pose proof (heard_changed version start ins Hd) as Ec.
  pose proof (heard_deleteStart version start ins Hd) as Eds.
  pose proof (heard_deleteCnt version start ins Hd) as Edc.
  pose proof (heard_insertStart version start ins Hd) as Eis.
  pose proof (heard_inserted version start ins Hd) as Ei.
  fold e in Ecs, Ec, Eds, Edc, Eis, Ei. clearbody e.
  set (c := Z.min del (len ins)) in *.
  assert (Hc : 0 <= c <= del) by (unfold c; lia).
  rewrite View_onItemsChanged_blocks.
  rewrite (@bind_normal _ _ _ _ _ _ _ _ (markChanged_outside e v
             ltac:(intros i Hi; right; lia))).
  unfold bind at 1, get. cbv beta iota.
  assert (A : adjustStart e v v = (Normal tt, v)).
  { unfold adjustStart. rewrite Eds.
    destruct (Z.ltb_spec (start + c) (_renderedItemsStart v));
      [lia | reflexivity]. }
  rewrite (@bind_normal _ _ _ _ _ _ _ _ A).
  assert (D : removeDeleted e v v = (Normal tt, v)).
  { unfold removeDeleted. rewrite Eds, Edc. cbv zeta.
    destruct (Z.leb_spec (Z.max (start + c - _renderedItemsStart v) 0)
                (Z.min (start + c + (del - c) - 1 - _renderedItemsStart v)
                       (len (_renderedItems v) - 1))); [lia | reflexivity]. }
  rewrite (@bind_normal _ _ _ _ _ _ _ _ D).
  unfold placeInserted, bind, get. rewrite Eis. cbv zeta.
  destruct (Z.leb_spec (start + c) (_renderedItemsStart v)); [lia|].
  destruct (Z.geb_spec (start + c)
              (_renderedItemsStart v + len (_renderedItems v)));
    [reflexivity | lia].
Qed.

Lemma splice_below_keeps_window_witness :
  View_onItemsChanged (heardFor 2 9 1 [25; 25; 25]) scrolledView
  = (Normal tt, scrolledView).
Proof.
  apply splice_below_keeps_window; vm_compute; congruence.
Defined.

Lemma onChanged_twice (line : ViewItem) :
  onChanged (onChanged line) = onChanged line.
Proof. reflexivity. Qed.

(** The loop over a list of offsets into the changed run: the lines that
    an offset names become dirty, the others stay as they are. *)
Lemma markLoop (cs : Z) (l : list Z) (v : ListView) :
  exists items',
    forEach l
      (fun i =>
         bind get (fun v =>
         let changedIndex := cs + i in
         let myIndex := changedIndex - _renderedItemsStart v in
         if myIndex <? 0 then ret tt
         else if myIndex >=? len (_renderedItems v) then ret tt
         else modifyLine (Z.to_nat myIndex) onChanged)) v
    = (Normal tt, set_renderedItems items' v)
    /\ length items' = length (_renderedItems v)
    /\ forall k,
         nth_error items' k
         = option_map
             (fun line =>
                if existsb (fun i => cs + i - _renderedItemsStart v
                                     =? Z.of_nat k) l
                then onChanged line else line)
             (nth_error (_renderedItems v) k).
Proof.
  revert v. induction l as [|i l IH]; intros v.
  - exists (_renderedItems v). cbn [forEach existsb].
    rewrite set_renderedItems_same. split; [reflexivity|].
    split; [reflexivity|]. intros k. now destruct (nth_error _ k).
  - cbn [forEach existsb].
    set (my := cs + i - _renderedItemsStart v).
    assert (B : exists items1,
               bind get (fun v0 : ListView =>
                 let changedIndex := cs + i in
                 let myIndex := changedIndex - _renderedItemsStart v0 in
                 if myIndex <? 0 then ret tt
                 else if myIndex >=? len (_renderedItems v0) then ret tt
                 else modifyLine (Z.to_nat myIndex) onChanged) v
               = (Normal tt, set_renderedItems items1 v)
               /\ length items1 = length (_renderedItems v)
               /\ forall k,
                    nth_error items1 k
                    = option_map
                        (fun line => if my =? Z.of_nat k
                                     then onChanged line else line)
                        (nth_error (_renderedItems v) k)).
    { unfold bind, get. cbv zeta. fold my.
      destruct (Z.ltb_spec my 0) as [Hn|Hn].
      - exists (_renderedItems v). rewrite set_renderedItems_same.
        split; [reflexivity|]. split; [reflexivity|]. intros k.
        destruct (Z.eqb_spec my (Z.of_nat k)); [lia|].
        now destruct (nth_error _ k).
      - destruct (Z.geb_spec my (len (_renderedItems v))) as [Hg|Hg].
        + exists (_renderedItems v). rewrite set_renderedItems_same.
          split; [reflexivity|]. split; [reflexivity|]. intros k.
          destruct (Z.eqb_spec my (Z.of_nat k)) as [E|E].
          * replace (nth_error (_renderedItems v) k) with (@None ViewItem);
              [reflexivity|].
            symmetry. apply nth_error_None. lia.
          * now destruct (nth_error _ k).
        + exists (adjust onChanged (Z.to_nat my) (_renderedItems v)).
          split; [reflexivity|]. split; [apply length_adjust|]. intros k.
          destruct (Z.eqb_spec my (Z.of_nat k)) as [E|E].
          * replace k with (Z.to_nat my) by lia.
            apply nth_error_adjust_eq.
          * rewrite nth_error_adjust_ne by lia.
            now destruct (nth_error _ k). }
    destruct B as (items1 & B & L1 & N1).
    rewrite (@bind_normal _ _ _ _ _ _ _ _ B).
    destruct (IH (set_renderedItems items1 v)) as (items' & E & L & N).
    exists items'. split; [exact E|]. split; [cbn in L; congruence|].
    intros k. rewrite N. cbn [_renderedItems _renderedItemsStart
                               set_renderedItems].
    rewrite N1. fold my.
    destruct (nth_error (_renderedItems v) k) as [line|]; [|reflexivity].
    cbn [option_map]. f_equal.
    destruct (my =? Z.of_nat k); cbn [orb];
      destruct (existsb _ l); reflexivity.
Qed.

Lemma existsb_fromTo (g : Z -> bool) (lo hi : Z) :
  existsb g (fromTo lo hi) = true <-> exists i, lo <= i <= hi /\ g i = true.
Proof.
  rewrite existsb_exists. split; intros (i & H & G); exists i.
  - apply in_fromTo in H. auto.
  - split; [now apply in_fromTo | exact G].
Qed.

Lemma markChanged_marks (e : ListViewItemsChangedEvent.t) (v : ListView) :
  exists items',
    markChanged e v = (Normal tt, set_renderedItems items' v)
    /\ length items' = length (_renderedItems v)
    /\ forall k,
         nth_error items' k
         = option_map
             (changedAt (ListViewItemsChangedEvent.changedStart e)
                (len (ListViewItemsChangedEvent.changed e))
                (_renderedItemsStart v + Z.of_nat k))
             (nth_error (_renderedItems v) k).
Proof.
  unfold markChanged.
  destruct (markLoop (ListViewItemsChangedEvent.changedStart e)
              (fromTo 0 (len (ListViewItemsChangedEvent.changed e) - 1)) v)
    as (items' & E & L & N).
  exists items'. split; [exact E|]. split; [exact L|].
  intros k. rewrite N.
  destruct (nth_error (_renderedItems v) k) as [line|]; [|reflexivity].
  cbn [option_map]. f_equal. unfold changedAt.
  match goal with |- (if ?a then _ else _) = (if ?b then _ else _) =>
    assert (Q : a = b); [|now rewrite Q] end.
  apply eq_true_iff_eq. rewrite existsb_fromTo, andb_true_iff.
  rewrite Z.leb_le, Z.ltb_lt. split.
  - intros (i & Hi & G). apply Z.eqb_eq in G. lia.
  - intros H.
    exists (_renderedItemsStart v + Z.of_nat k
            - ListViewItemsChangedEvent.changedStart e).
    split; [lia|]. apply Z.eqb_eq. lia.
Qed.

(** X15.  A splice that replaces items by as many new ones leaves the
    window where it is and as long as it is: the view returns, the lines
    that show a replaced item become dirty and keep their node, every other
    line stays as it is, and the start of the window and the surface are
    not touched. *)
Theorem replacement_marks_lines (version start : Z) (ins : list Z)
    (v : ListView) :
  exists items',
    View_onItemsChanged (heardFor version start (len ins) ins) v
    = (Normal tt, set_renderedItems items' v)
    /\ length items' = length (_renderedItems v)
    /\ forall k line,
         nth_error (_renderedItems v) k = Some line ->
         nth_error items' k
         = Some {| _isDirty :=
                     if (start <=? _renderedItemsStart v + Z.of_nat k)
                        && (_renderedItemsStart v + Z.of_nat k
                            <? start + len ins)
                     then true else _isDirty line;
                   _domNode := _domNode line |}.
Proof.
  assert (Hd : 0 <= len ins) by lia.
  set (e := heardFor version start (len ins) ins).
  pose proof (heard_changedStart version start (len ins) ins) as Ecs.
  pose proof (heard_changed version start ins Hd) as Ec.
  pose proof (heard_deleteStart version start ins Hd) as Eds.
  pose proof (heard_deleteCnt version start ins Hd) as Edc.
  pose proof (heard_insertStart version start ins Hd) as Eis.
  pose proof (heard_inserted version start ins Hd) as Ei.
  fold e in Ecs, Ec, Eds, Edc, Eis, Ei. clearbody e.
  rewrite Z.min_id in *. rewrite Z.sub_diag in *.
  destruct (markChanged_marks e v) as (items' & M & L & N).
  rewrite Ecs, Ec in N.
  exists items'. split; [|split; [exact L|]].
  - rewrite View_onItemsChanged_blocks.
    rewrite (@bind_normal _ _ _ _ _ _ _ _ M).
    set (v1 := set_renderedItems items' v).
    assert (S1 : _renderedItemsStart v1 = _renderedItemsStart v) by reflexivity.
    assert (L1 : len (_renderedItems v1) = len (_renderedItems v))
      by (cbn; lia).
    clearbody v1.
    unfold bind at 1, get. cbv beta iota.
    assert (A : adjustStart e v1 v1 = (Normal tt, v1)).
    { unfold adjustStart. rewrite Eds, Edc. cbv zeta.
      destruct (Z.ltb_spec (start + len ins) (_renderedItemsStart v1));
        [|reflexivity].
      destruct (Z.ltb_spec (start + len ins + 0 - 1) (_renderedItemsStart v1));
        [|lia].
      unfold modify. f_equal.
      transitivity (set_renderedItemsStart (_renderedItemsStart v1) v1);
        [f_equal; lia | apply set_renderedItemsStart_same]. }
    rewrite (@bind_normal _ _ _ _ _ _ _ _ A).
    assert (D : removeDeleted e v1 v1 = (Normal tt, v1)).
    { unfold removeDeleted. rewrite Eds, Edc. cbv zeta.
      destruct (Z.leb_spec
                  (Z.max (start + len ins - _renderedItemsStart v1) 0)
                  (Z.min (start + len ins + 0 - 1 - _renderedItemsStart v1)
                         (len (_renderedItems v1) - 1)));
        [lia | reflexivity]. }
    rewrite (@bind_normal _ _ _ _ _ _ _ _ D).
    unfold placeInserted, bind, get. rewrite Eis, Ei. cbv zeta.
    destruct (Z.leb_spec (start + len ins) (_renderedItemsStart v1)).
    + unfold modify. f_equal.
      transitivity (set_renderedItemsStart (_renderedItemsStart v1) v1);
        [f_equal; lia | apply set_renderedItemsStart_same].
    + destruct (Z.geb_spec (start + len ins)
                  (_renderedItemsStart v1 + len (_renderedItems v1)));
        [reflexivity|].
      destruct (Z.leb_spec
                  (Z.min (start + len ins - _renderedItemsStart v1)
                         (len (_renderedItems v1) - 1))
                  (Z.min (start + len ins + 0 - 1 - _renderedItemsStart v1)
                         (len (_renderedItems v1) - 1)));
        [lia | reflexivity].
  - intros k line E. rewrite N, E. cbn [option_map]. unfold changedAt.
    destruct ((start <=? _) && _); [reflexivity | now destruct line].
Qed.

Lemma surfaceKept_refl (v : ListView) : surfaceKept v v.
Proof. unfold surfaceKept. repeat split; auto. apply incl_refl. Qed.

Lemma surfaceKept_trans (a b c : ListView) :
  surfaceKept a b -> surfaceKept b c -> surfaceKept a c.
Proof.
  unfold surfaceKept. intros (N1 & C1 & R1 & S1 & A1 & F1 & I1)
                             (N2 & C2 & R2 & S2 & A2 & F2 & I2).
  repeat split; try congruence. eapply incl_tran; eauto.
Qed.

Lemma incl_without (n : Handle) (l : list Handle) : incl (without n l) l.
Proof.
  induction l as [|x l IH]; simpl; [apply incl_refl|].
  destruct (Nat.eqb x n).
  - apply incl_tl, incl_refl.
  - apply incl_cons; [now left|]. now apply incl_tl.
Qed.

Lemma removeChild_surface (n : Handle) : keeps surfaceKept (removeChild n).
Proof.
  intros v. unfold removeChild.
  destruct (isChild n v); cbn [snd]; [|apply surfaceKept_refl].
  unfold surfaceKept. cbn. repeat split; auto. apply incl_without.
Qed.

Lemma surfaceKept_items (x : list ViewItem) (v : ListView) :
  surfaceKept v (set_renderedItems x v).
Proof. unfold surfaceKept. cbn. repeat split; auto. apply incl_refl. Qed.

Lemma surfaceKept_start (x : Z) (v : ListView) :
  surfaceKept v (set_renderedItemsStart x v).
Proof. unfold surfaceKept. cbn. repeat split; auto. apply incl_refl. Qed.

Lemma popLine_surface : keeps surfaceKept popLine.
Proof.
  pose proof surfaceKept_refl. pose proof surfaceKept_trans.
  unfold popLine.
  repeat first [apply removeChild_surface | keep_step];
    auto using surfaceKept_items.
Qed.

(** X16.  Whatever the event and the window, [onItemsChanged] of the view
    renders nothing and creates nothing: when it returns or throws, every
    node has the attributes it had, no node was created, the model's
    [render] was not called, the retained node and the handle of the
    rendering callback are as they were, and the surface has no child that
    it did not have. *)
Theorem items_changed_renders_nothing (e : ListViewItemsChangedEvent.t)
    (v : ListView) :
  surfaceKept v (snd (View_onItemsChanged e v)).
Proof.
  pose proof surfaceKept_refl. pose proof surfaceKept_trans.
  apply (fun K : keeps surfaceKept (View_onItemsChanged e) => K v).
  unfold View_onItemsChanged.
  repeat first [apply modifyLine_keeps | apply lineDomNode_keeps
               | apply removeChild_surface | apply popLine_surface
               | keep_step];
    auto using surfaceKept_items, surfaceKept_start.
Qed.

(** ** The window after a render pass *)

Lemma dirt_adjust_setDomNode (n : option Handle) (i : nat) (a : list ViewItem) :
  map _isDirty (adjust (setDomNode n) i a) = map _isDirty a.
Proof.
  revert i. induction a as [|x a IH]; intros [|i]; simpl; auto.
  now rewrite IH.
Qed.

Lemma adopt_dirt (new : list nat) (indices : list nat) :
  forall (siblings : list Handle) (v : ListView),
    dirt (snd (adopt indices new siblings v)) = dirt v.
Proof.
  induction indices as [|i indices IH]; intros siblings v; cbn [adopt];
    [reflexivity|].
  destruct (marked i new); [|apply IH].
  destruct siblings as [|c previous]; unfold bind, modifyLine, modify; simpl.
  - unfold dirt. simpl. apply dirt_adjust_setDomNode.
  - etransitivity; [apply IH|]. unfold dirt. simpl.
    apply dirt_adjust_setDomNode.
Qed.

Lemma swap_dirt (invalid : list nat) (indices : list nat) :
  forall (huge : list Handle) (v : ListView),
    dirt (snd (swap indices invalid huge v)) = dirt v.
Proof.
  induction indices as [|i indices IH]; intros huge v; cbn [swap];
    [reflexivity|].
  destruct (marked i invalid); [|apply IH].
  unfold bind at 1, lineDomNode; cbv beta iota.
  destruct (at_ (_renderedItems v) (Z.of_nat i)) as [line|]; [|reflexivity].
  unfold bind at 1, get; cbv beta iota.
  destruct huge as [|source huge']; [reflexivity|].
  destruct (_domNode line) as [old|]; [|reflexivity].
  destruct (isChild old v); [|reflexivity].
  unfold bind, modify, modifyLine; cbv beta iota.
  etransitivity; [apply IH|]. unfold dirt. simpl.
  apply dirt_adjust_setDomNode.
Qed.

Lemma createNodes_dirt (html : list LineHTML) (v : ListView) :
  dirt (snd (createNodes html v)) = dirt v.
Proof.
  pose proof (createNodes_linesAndLog html v) as C.
  unfold linesAndLog in C. injection C as C _ _. unfold dirt. now rewrite C.
Qed.

(** The first loop of [_finishRendering] leaves no line dirty among those
    it has visited. *)
Lemma gather_cleans (m : ViewModel) (tops : list Z) (indices : list nat) :
  forall (g : Gathered) (v : ListView),
    outcome (gather m tops indices g v)
      (fun _ v' => forall k, In k indices -> ~ dirtyIn v' k)
      (fun _ => True).
Proof.
  induction indices as [|i indices IH]; intros g v; cbn [gather].
  - simpl. intros k [].
  - unfold bind at 1, get; cbv beta iota.
    destruct (nth_error (_renderedItems v) i) as [line|] eqn:E; [|exact I].
    assert (Step : forall g1 v1,
               ~ dirtyIn v1 i ->
               outcome (gather m tops indices g1 v1)
                 (fun _ v' => forall k, In k (i :: indices) -> ~ dirtyIn v' k)
                 (fun _ => True)).
    { intros g1 v1 Hc.
      pose proof (IH g1 v1) as A.
      pose proof (gather_finishes m tops indices g1 (finishes_refl v1)) as B.
      destruct (gather m tops indices g1 v1) as [[g'|e] v']; [|exact I].
      simpl in *. destruct B as ((_ & _ & _ & Hd & _) & _).
      intros k [<-|Hk]; [|now apply A].
      intros D. apply Hc. now apply Hd. }
    unfold shouldUpdateHTML. destruct (_isDirty line) eqn:D.
    + assert (Hc : forall calls,
                 ~ dirtyIn (set_renderCalls calls
                              (set_renderedItems
                                 (adjust clean i (_renderedItems v)) v)) i).
      { intros calls (line' & E' & D'). simpl in E'.
        rewrite nth_error_adjust_eq, E in E'. injection E' as <-.
        discriminate D'. }
      destruct (_domNode line); unfold bind at 1; cbv beta;
        destruct (getLineOuterHTML_cases m i (Z.of_nat i + _renderedItemsStart v)
                    (at_ tops (Z.of_nat i)) v)
          as [T | (t & x & _ & _ & T)]; rewrite T; try exact I;
        apply Step, Hc.
    + apply Step. intros (line' & E' & D'). congruence.
Qed.

(** A render pass that finishes leaves no line of the window dirty, and
    the window where and as long as it was. *)
Lemma finishRendering_cleans (m : ViewModel) (domNodeIsEmpty : bool)
    (tops : list Z) (v : ListView) :
  outcome (_finishRendering m domNodeIsEmpty tops v)
    (fun _ v' =>
       _renderedItemsStart v' = _renderedItemsStart v
       /\ length (_renderedItems v') = length (_renderedItems v)
       /\ Forall (fun line => _isDirty line = false) (_renderedItems v'))
    (fun _ => True).
Proof.
  pose proof (finishRendering_finishes m domNodeIsEmpty tops v) as F.
  assert (D : outcome (_finishRendering m domNodeIsEmpty tops v)
                (fun _ v' => Forall (fun b => b = false) (dirt v'))
                (fun _ => True)).
  { unfold _finishRendering. unfold bind at 1, get; cbv beta iota.
    set (indices := seq 0 (length (_renderedItems v))).
    set (g0 := {| wasNew := []; newLinesHTML := [];
                  wasInvalid := []; invalidLinesHTML := [] |}).
    pose proof (gather_cleans m tops indices g0 v) as G.
    pose proof (gather_finishes m tops indices g0 (finishes_refl v)) as G'.
    unfold bind at 1; cbv beta.
    destruct (gather m tops indices g0 v) as [[g|e] v1]; [|exact I].
    simpl in G, G'. destruct G' as ((_ & L1 & _) & _).
    assert (C1 : Forall (fun b => b = false) (dirt v1)).
    { apply Forall_forall. intros b Hb. unfold dirt in Hb.
      apply In_nth_error in Hb. destruct Hb as (k & Hk).
      rewrite nth_error_map in Hk.
      destruct (nth_error (_renderedItems v1) k) as [line|] eqn:E;
        [|discriminate].
      injection Hk as <-.
      destruct (_isDirty line) eqn:Dl; [|reflexivity].
      exfalso. apply (G k).
      - apply in_seq. split; [lia|]. simpl. rewrite <- L1.
        apply nth_error_Some. congruence.
      - now exists line. }
    clear G.
    unfold bind at 1; cbv beta.
    set (newPart := match wasNew g with [] => ret tt | _ :: _ => _ end).
    assert (C2 : dirt (snd (newPart v1)) = dirt v1).
    { unfold newPart. destruct (wasNew g) as [|k0 ks]; [reflexivity|].
      unfold bind at 1, get; cbv beta iota. unfold bind at 1; cbv beta.
      pose proof (createNodes_dirt (newLinesHTML g) v1) as C.
      destruct (createNodes (newLinesHTML g) v1) as [[fresh|e] v2];
        simpl in C; [|exact C].
      unfold bind at 1, modify; cbv beta iota.
      unfold bind at 1, get; cbv beta iota.
      rewrite adopt_dirt. rewrite <- C.
      destruct domNodeIsEmpty; [reflexivity|].
      destruct (_listItemsDomNode v2); reflexivity. }
    destruct (newPart v1) as [[[]|e] v3]; [|exact I]. simpl in C2.
    destruct (wasInvalid g) as [|k0 ks]; [simpl; now rewrite C2|].
    unfold bind at 1; cbv beta.
    pose proof (createNodes_dirt (invalidLinesHTML g) v3) as C.
    destruct (createNodes (invalidLinesHTML g) v3) as [[huge|e] v4];
      simpl in C; [|exact I].
    pose proof (swap_dirt (k0 :: ks) indices huge v4) as W.
    destruct (swap indices (k0 :: ks) huge v4) as [[[]|e] v5]; [|exact I].
    simpl in *. now rewrite W, C, C2. }
  destruct (_finishRendering m domNodeIsEmpty tops v) as [[[]|e] v'];
    [|exact I].
  simpl in *. destruct F as (S & L & _).
  split; [exact S|]. split; [exact L|].
  unfold dirt in D. rewrite Forall_map in D. exact D.
Qed.

(** The block that makes the window end at [endItem] leaves it with the
    lines from its start to [endItem]. *)
Lemma alignEnd_length (endItem : Z) (v2 : ListView) :
  _renderedItemsStart v2 - 1 <= endItem ->
  outcome (alignEnd endItem v2 v2)
    (fun _ s' => _renderedItemsStart s' = _renderedItemsStart v2
                 /\ len (_renderedItems s')
                    = endItem - _renderedItemsStart v2 + 1)
    (fun _ => True).
Proof.
  intros He. unfold alignEnd.
  set (startItem := _renderedItemsStart v2) in *.
  destruct (Z.ltb_spec (startItem + len (_renderedItems v2) - 1) endItem)
    as [Hlt|Hge].
  - cbv zeta.
    destruct (Z.leb_spec (startItem + len (_renderedItems v2)) endItem)
      as [Hft|Hft]; [|lia].
    apply outcome_bind with
      (Q1 := fun _ s1 =>
               _renderedItems s1 =
               _renderedItems v2
               ++ newLines (startItem + len (_renderedItems v2)) endItem
               /\ _renderedItemsStart s1 = startItem).
    + unfold _insertLinesAfter, modify. simpl. auto.
    + intros [] s1 (I1 & S1).
      eapply outcome_weaken;
        [apply (sameLines_outcome s1 (garbage_sameLines false)) | | auto].
      intros u s2 H2. apply sameLines_fields in H2.
      destruct H2 as (I2 & S2 & _).
      split; [congruence|].
      rewrite I2, I1, length_app, length_newLines. lia.
  - destruct (Z.gtb_spec (startItem + len (_renderedItems v2) - 1) endItem)
      as [Hgt|Hle].
    + cbv zeta.
      set (n := Z.max 0 (endItem - startItem + 1)).
      replace (len (_renderedItems v2) - 1 - n + 1)
        with (len (_renderedItems v2) - n) by lia.
      destruct (Z.gtb_spec (len (_renderedItems v2) - n) 0) as [Hc|Hc]; [|lia].
      eapply outcome_weaken;
        [apply removeLinesAfter_outcome | | auto].
      intros u s1 (I1 & S1 & _).
      split; [exact S1|].
      rewrite I1.
      rewrite spliceOut_back by lia.
      rewrite length_firstn. lia.
    + simpl. split; [reflexivity | lia].
Qed.

(** X17.  A render pass that returns leaves the window on the range of the
    render data: the window begins at [startIndex], has one line for every
    entry of [tops], and none of its lines is dirty. *)
Theorem render_covers_range (m : ViewModel) (renderData : IRenderData)
    (now : Z) (v v' : ListView) :
  _render m renderData now v = (Normal tt, v') ->
  _renderedItemsStart v' = rd_startIndex renderData
  /\ len (_renderedItems v') = len (rd_tops renderData)
  /\ Forall (fun line => _isDirty line = false) (_renderedItems v').
Proof.
  intros H.
  assert (O : outcome (_render m renderData now v)
                (fun _ s =>
                   _renderedItemsStart s = rd_startIndex renderData
                   /\ len (_renderedItems s) = len (rd_tops renderData)
                   /\ Forall (fun line => _isDirty line = false)
                        (_renderedItems s))
                (fun _ => True)); [|now rewrite H in O].
  clear H v'.
  rewrite render_blocks. unfold bind at 1, get; cbv beta iota zeta.
  set (startItem := rd_startIndex renderData).
  set (endItem := rd_startIndex renderData + len (rd_tops renderData) - 1).
  destruct (noOverlap renderData now v).
  - unfold bind at 1, modify; cbv beta iota.
    unfold bind at 1; cbv beta iota.
    set (v1 := set_renderedItems _ (set_renderedItemsStart startItem v)).
    apply outcome_bind with
      (Q1 := fun _ s =>
               _renderedItemsStart s = startItem
               /\ len (_renderedItems s) = len (rd_tops renderData)
               /\ Forall (fun line => _isDirty line = false)
                    (_renderedItems s)).
    + eapply outcome_weaken;
        [apply finishRendering_cleans | | auto].
      intros u s (S & L & C). split; [exact S|]. split; [|exact C].
      rewrite L. unfold v1. cbn [_renderedItems set_renderedItems].
      rewrite length_newLines. unfold endItem, startItem. lia.
    + intros [] s Q. exact Q.
  - apply outcome_bind with (Q1 := fun _ _ => True).
    { destruct (_renderUntouchedLines _ _ _ _ _ _) as [[a|e] s]; exact I. }
    intros [] s1 _.
    apply outcome_bind with (Q1 := fun _ _ => True).
    { destruct (alignStart _ _ _ _) as [[a|e] s]; exact I. }
    intros [] s2 _.
    unfold bind at 1, modify; cbv beta iota.
    unfold bind at 1, get; cbv beta iota.
    set (v2 := set_renderedItemsStart startItem s2).
    apply outcome_bind with
      (Q1 := fun _ s => _renderedItemsStart s = startItem
                        /\ len (_renderedItems s) = len (rd_tops renderData)).
    { assert (He : _renderedItemsStart v2 - 1 <= endItem)
        by (unfold v2, endItem, startItem; cbn; lia).
      eapply outcome_weaken; [apply (@alignEnd_length endItem v2 He) | | auto].
      intros u s (S & L). split; [exact S|]. rewrite L.
      unfold v2, endItem, startItem. cbn. lia. }
    intros [] s3 (S3 & L3).
    eapply outcome_weaken; [apply finishRendering_cleans | | auto].
    intros u s (S & L & C). split; [congruence|]. split; [lia | exact C].
Qed.

Lemma render_covers_range_witness :
  exists v',
    _render longModel oneDown 5000 scrolledView = (Normal tt, v')
    /\ _renderedItemsStart v' = 1
    /\ len (_renderedItems v') = 3.
Proof.
  destruct (_render longModel oneDown 5000 scrolledView) as [r v'] eqn:E.
  assert (R : r = Normal tt)
    by (apply (f_equal fst) in E; vm_compute in E; now subst).
  subst r. exists v'. split; [reflexivity|].
  destruct (@render_covers_range longModel oneDown 5000 scrolledView v' E)
    as (S & L & _).
  split; [exact S | exact L].
Defined.

(** ** Lines that leave the window *)

Lemma in_without (n m : Handle) (l : list Handle) :
  n <> m -> In n l -> In n (without m l).
Proof.
  intros N. induction l as [|x l IH]; simpl; [auto|].
  intros [->|H].
  - destruct (Nat.eqb_spec n m); [contradiction | now left].
  - destruct (Nat.eqb x m); [exact H | right; auto].
Qed.

Lemma isChild_In (n : Handle) (v : ListView) :
  In n (_listItemsDomNode v) -> isChild n v = true.
Proof.
  intros H. unfold isChild. apply existsb_exists. exists n.
  split; [exact H | apply Nat.eqb_refl].
Qed.

(** The loop that takes the nodes of lines off the surface: it returns when
    the nodes are children and no two of them are the same, and it leaves
    the lines alone. *)
Lemma removeLoop (l : list Z) :
  forall v : ListView,
    (forall i, In i l -> 0 <= i < len (_renderedItems v)) ->
    NoDup (lineNodes (_renderedItems v) l) ->
    incl (lineNodes (_renderedItems v) l) (_listItemsDomNode v) ->
    forEach l (fun i =>
      bind (lineDomNode i) (fun node =>
      match node with
      | Some n => removeChild n
      | None => ret tt
      end)) v
    = (Normal tt,
       set_listItemsDomNode
         (removeAll (lineNodes (_renderedItems v) l) (_listItemsDomNode v)) v).
Proof.
  induction l as [|i l IH]; intros v Hin Hnd Hch.
  - cbn. now destruct v.
  - cbn [forEach].
    destruct (at_inside (_renderedItems v) (Hin i (or_introl eq_refl)))
      as (line & E).
    assert (Hl : forall j, In j l -> 0 <= j < len (_renderedItems v))
      by (intros j Hj; apply Hin; now right).
    assert (N : lineNodes (_renderedItems v) (i :: l)
                = match _domNode line with Some n => [n] | None => [] end
                  ++ lineNodes (_renderedItems v) l)
      by (unfold lineNodes; cbn [flat_map]; now rewrite E).
    rewrite N in *. clear N.
    destruct (_domNode line) as [n|] eqn:En.
    + cbn [app] in *. apply NoDup_cons_iff in Hnd. destruct Hnd as (Hn & Hnd).
      assert (B : bind (lineDomNode i) (fun node =>
                    match node with
                    | Some n => removeChild n
                    | None => ret tt
                    end) v
                  = (Normal tt,
                     set_listItemsDomNode
                       (without n (_listItemsDomNode v)) v)).
      { unfold bind, lineDomNode. rewrite E, En. unfold removeChild.
        now rewrite isChild_In by (apply Hch; now left). }
      rewrite (@bind_normal _ _ _ _ _ _ _ _ B).
      rewrite IH; cbn [_renderedItems set_listItemsDomNode _listItemsDomNode];
        auto.
      intros m Hm. apply in_without.
      * intros ->. contradiction.
      * apply Hch. now right.
    + cbn [app] in *.
      assert (B : bind (lineDomNode i) (fun node =>
                    match node with
                    | Some n => removeChild n
                    | None => ret tt
                    end) v
                  = (Normal tt, v)).
      { unfold bind, lineDomNode. now rewrite E, En. }
      rewrite (@bind_normal _ _ _ _ _ _ _ _ B).
      now apply IH.
Qed.

(** X18.  When the view hears the event of a splice that only deletes, and
    the deleted range meets the window, the lines of the deleted items
    leave the window and their nodes leave the surface; the window begins
    at [start] if the range began above it.  The view returns when the
    nodes of these lines are children of the surface and no two of them are
    the same node. *)
Theorem deletion_drops_lines (version start del : Z) (v : ListView) :
  0 <= start -> 0 < del ->
  start < _renderedItemsStart v + len (_renderedItems v) ->
  _renderedItemsStart v < start + del ->
  let from := Z.max (start - _renderedItemsStart v) 0 in
  let to := Z.min (start + del - 1 - _renderedItemsStart v)
                  (len (_renderedItems v) - 1) in
  let gone := lineNodes (_renderedItems v) (fromTo from to) in
  NoDup gone -> incl gone (_listItemsDomNode v) ->
  View_onItemsChanged (heardFor version start del []) v
  = (Normal tt,
     set_renderedItemsStart (Z.min start (_renderedItemsStart v))
       (set_renderedItems
          (firstn (Z.to_nat from) (_renderedItems v)
           ++ skipn (Z.to_nat (to + 1)) (_renderedItems v))
          (set_listItemsDomNode (removeAll gone (_listItemsDomNode v)) v))).
Proof.
  intros Hs Hd Hlo Hhi from to gone Hnd Hch.
  assert (Hd0 : 0 <= del) by lia.
  set (e := heardFor version start del []).
  pose proof (heard_changedStart version start del []) as Ecs.
  pose proof (heard_changed version start [] Hd0) as Ec.
  pose proof (heard_deleteStart version start [] Hd0) as Eds.
  pose proof (heard_deleteCnt version start [] Hd0) as Edc.
  pose proof (heard_insertStart version start [] Hd0) as Eis.
  pose proof (heard_inserted version start [] Hd0) as Ei.
  fold e in Ecs, Ec, Eds, Edc, Eis, Ei. clearbody e.
  cbn [length] in *. change (Z.of_nat 0) with 0 in *.
  replace (Z.min del 0) with 0 in * by lia.
  rewrite Z.add_0_r in *. rewrite Z.sub_0_r in *.
  set (rs := _renderedItemsStart v) in *.
  set (L := len (_renderedItems v)) in *.
  assert (Hft : 0 <= from /\ to < L
               /\ (from <= to \/ (L = 0 /\ from = 0 /\ to = -1)))
    by (unfold from, to; lia).
  rewrite View_onItemsChanged_blocks.
  rewrite (@bind_normal _ _ _ _ _ _ _ _ (markChanged_outside e v
             ltac:(intros i Hi; lia))).
  unfold bind at 1, get. cbv beta iota.
  assert (A : adjustStart e v v
              = (Normal tt, set_renderedItemsStart (Z.min start rs) v)).
  { unfold adjustStart. rewrite Eds, Edc. fold rs. cbv zeta.
    destruct (Z.ltb_spec start rs).
    - destruct (Z.ltb_spec (start + del - 1) rs); [lia|].
      unfold modify. now rewrite Z.min_l by lia.
    - rewrite Z.min_r by lia. unfold rs.
      now rewrite set_renderedItemsStart_same. }
  rewrite (@bind_normal _ _ _ _ _ _ _ _ A).
  set (v1 := set_renderedItemsStart (Z.min start rs) v).
  set (v2 := set_renderedItems
               (firstn (Z.to_nat from) (_renderedItems v)
                ++ skipn (Z.to_nat (to + 1)) (_renderedItems v))
               (set_listItemsDomNode (removeAll gone (_listItemsDomNode v))
                  v1)).
  assert (D : removeDeleted e v v1 = (Normal tt, v2)).
  { unfold removeDeleted. rewrite Eds, Edc. fold rs L from to. cbv zeta.
    destruct (Z.leb_spec from to) as [Hle|Hgt].
    2:{ assert (E0 : _renderedItems v = [])
          by (apply length_zero_iff_nil; unfold L in Hft; lia).
        unfold v2, gone. rewrite (@fromTo_nil from to) by lia.
        rewrite E0. cbn [lineNodes flat_map removeAll fold_left firstn skipn
                         app].
        rewrite firstn_nil, skipn_nil. cbn [app]. unfold v1.
        destruct v; cbn in *. now rewrite E0. }
    rewrite (@bind_normal _ _ _ _ _ _ _ _
               (@removeLoop (fromTo from to) v1
                  ltac:(intros i Hi; apply in_fromTo in Hi; cbn; fold L; lia)
                  Hnd Hch)).
    unfold modify. f_equal. unfold v2.
    cbn [_renderedItems set_listItemsDomNode set_renderedItems
         set_renderedItemsStart _listItemsDomNode].
    unfold set_renderedItems. cbn. f_equal.
    unfold spliceOut. rewrite relativeIndex_nonneg by lia. fold L.
    replace (Z.min from L) with from by lia.
    replace (Z.min (Z.max (to - from + 1) 0) (L - from))
      with (to - from + 1) by lia.
    do 2 f_equal. lia. }
  rewrite (@bind_normal _ _ _ _ _ _ _ _ D).
  assert (L2 : len (_renderedItems v2) = L - (to - from + 1)).
  { unfold v2. cbn [_renderedItems set_renderedItems].
    rewrite length_app, length_firstn, length_skipn. fold L. lia. }
  assert (S2 : _renderedItemsStart v2 = Z.min start rs) by reflexivity.
  unfold placeInserted, bind, get. rewrite Eis, Ei. cbv zeta.
  rewrite S2, L2.
  destruct (Z.leb_spec start (Z.min start rs)).
  - unfold modify. f_equal.
    transitivity (set_renderedItemsStart (_renderedItemsStart v2) v2);
      [f_equal; lia | apply set_renderedItemsStart_same].
  - destruct (Z.geb_spec start (Z.min start rs + (L - (to - from + 1))));
      [reflexivity|].
    destruct (Z.leb_spec
                (Z.min (start - Z.min start rs) (L - (to - from + 1) - 1))
                (Z.min (start + 0 - 1 - Z.min start rs)
                       (L - (to - from + 1) - 1)));
      [lia | reflexivity].
Qed.

Lemma deletion_drops_lines_witness :
  View_onItemsChanged (heardFor 2 1 1 []) scrolledView
  = (Normal tt,
     set_renderedItemsStart 0
       (set_renderedItems
          [ {| _isDirty := false; _domNode := Some 1%nat |};
            {| _isDirty := false; _domNode := Some 3%nat |} ]
          (set_listItemsDomNode [9; 1; 3]%nat scrolledView))).
Proof.
  refine (@deletion_drops_lines 2 1 1 scrolledView _ _ _ _ _ _).
  - lia.
  - lia.
  - vm_compute. reflexivity.
  - vm_compute. reflexivity.
  - vm_compute. repeat constructor; simpl; intuition discriminate.
  - vm_compute. intros n [<-|[]]. simpl. auto.
Defined.

(** ** Lines that enter the window *)

Lemma fromTo_snoc (lo hi : Z) :
  lo <= hi -> fromTo lo hi = fromTo lo (hi - 1) ++ [hi].
Proof.
  intros H. unfold fromTo.
  replace (Z.to_nat (hi - lo + 1)) with (S (Z.to_nat (hi - 1 - lo + 1))) by lia.
  rewrite seq_S, map_app. cbn [map]. do 2 f_equal. lia.
Qed.

Lemma length_fromTo (lo hi : Z) : length (fromTo lo hi) = Z.to_nat (hi - lo + 1).
Proof. unfold fromTo. now rewrite length_map, length_seq. Qed.

Lemma lineNodes_ext (a b : list ViewItem) (l : list Z) :
  (forall i, In i l -> at_ a i = at_ b i) -> lineNodes a l = lineNodes b l.
Proof.
  intros H. unfold lineNodes. induction l as [|i l IH]; [reflexivity|].
  cbn [flat_map]. rewrite (H i (or_introl eq_refl)). f_equal.
  apply IH. intros j Hj. apply H. now right.
Qed.

(** The loop that inserts new lines at the indices [a], [a + 1], ... *)
Lemma insertLoop (n : nat) :
  forall (a t : Z) (v : ListView),
    Z.to_nat (t - a + 1) = n ->
    0 <= a <= len (_renderedItems v) ->
    forEach (fromTo a t) (fun i =>
      modify (fun v => set_renderedItems
                         (spliceIn (_renderedItems v) i _createLine) v)) v
    = (Normal tt,
       set_renderedItems
         (firstn (Z.to_nat a) (_renderedItems v)
          ++ repeat _createLine n
          ++ skipn (Z.to_nat a) (_renderedItems v)) v).
Proof.
  induction n as [|n IH]; intros a t v Hn Ha.
  - rewrite fromTo_nil by lia. cbn [forEach repeat app].
    rewrite firstn_skipn. now rewrite set_renderedItems_same.
  - rewrite fromTo_cons by lia. cbn [forEach].
    unfold bind at 1, modify at 1. cbv beta iota.
    set (items1 := spliceIn (_renderedItems v) a _createLine).
    assert (E1 : items1 = firstn (Z.to_nat a) (_renderedItems v)
                          ++ _createLine :: skipn (Z.to_nat a) (_renderedItems v)).
    { unfold items1, spliceIn. rewrite relativeIndex_nonneg by lia.
      now replace (Z.min a (len (_renderedItems v))) with a by lia. }
    assert (Lf : length (firstn (Z.to_nat a) (_renderedItems v)) = Z.to_nat a)
      by (rewrite length_firstn; lia).
    rewrite (IH (a + 1) t (set_renderedItems items1 v)).
    + f_equal. cbn [_renderedItems set_renderedItems]. unfold set_renderedItems.
      cbn. f_equal. rewrite E1.
      replace (Z.to_nat (a + 1)) with (Z.to_nat a + 1)%nat by lia.
      replace (firstn (Z.to_nat a) (_renderedItems v)
               ++ _createLine :: skipn (Z.to_nat a) (_renderedItems v))
        with ((firstn (Z.to_nat a) (_renderedItems v) ++ [_createLine])
              ++ skipn (Z.to_nat a) (_renderedItems v))
        by (now rewrite <- app_assoc).
      rewrite firstn_exact by (rewrite length_app, Lf; reflexivity).
      rewrite skipn_exact by (rewrite length_app, Lf; reflexivity).
      rewrite <- app_assoc. reflexivity.
    + lia.
    + cbn [_renderedItems set_renderedItems]. rewrite E1.
      rewrite length_app, Lf. cbn [length]. lia.
Qed.

Lemma rev_last_line (items : list ViewItem) :
  items <> [] ->
  exists lastLine,
    rev items = lastLine :: rev (removelast items)
    /\ at_ items (len items - 1) = Some lastLine
    /\ removelast items = firstn (length items - 1) items.
Proof.
  intros H. destruct (exists_last H) as (pre & x & ->).
  exists x. rewrite removelast_last, rev_app_distr. cbn [rev app].
  split; [reflexivity|]. split.
  - rewrite at_app_r by (rewrite length_app; cbn [length]; lia).
    rewrite length_app. cbn [length].
    replace (Z.of_nat (length pre + 1) - 1 - len pre) with 0 by lia.
    reflexivity.
  - rewrite length_app. cbn [length].
    replace (length pre + 1 - 1)%nat with (length pre) by lia.
    now rewrite firstn_exact.
Qed.

(** The loop that pops lines off the end of the window and takes their
    nodes off the surface. *)
Lemma popLoop (cnt : nat) :
  forall (xs : list Z) (v : ListView),
    length xs = cnt ->
    (cnt <= length (_renderedItems v))%nat ->
    let L := len (_renderedItems v) in
    let gone := lineNodes (_renderedItems v)
                  (rev (fromTo (L - Z.of_nat cnt) (L - 1))) in
    NoDup gone -> incl gone (_listItemsDomNode v) ->
    forEach xs (fun _ => popLine) v
    = (Normal tt,
       set_renderedItems
         (firstn (length (_renderedItems v) - cnt) (_renderedItems v))
         (set_listItemsDomNode (removeAll gone (_listItemsDomNode v)) v)).
Proof.
  induction cnt as [|cnt IH]; intros xs v Hx Hc L gone Hnd Hch.
  - destruct xs; [|discriminate]. cbn [forEach]. unfold gone.
    rewrite fromTo_nil by lia. cbn [rev lineNodes flat_map removeAll fold_left].
    rewrite Nat.sub_0_r, firstn_all. now destruct v.
  - destruct xs as [|x xs]; [discriminate|]. cbn [forEach].
    assert (Hne : _renderedItems v <> [])
      by (intros E; rewrite E in Hc; cbn in Hc; lia).
    destruct (rev_last_line Hne) as (lastLine & Er & Ea & El).
    assert (G : gone
                = match _domNode lastLine with Some n => [n] | None => [] end
                  ++ lineNodes (_renderedItems v)
                       (rev (fromTo (L - Z.of_nat (S cnt)) (L - 2)))).
    { unfold gone. rewrite fromTo_snoc by lia.
      rewrite rev_app_distr. cbn [rev app]. unfold lineNodes at 1.
      cbn [flat_map]. fold L in Ea. rewrite Ea.
      replace (L - 1 - 1) with (L - 2) by lia. reflexivity. }
    set (items1 := removelast (_renderedItems v)).
    assert (L1 : len items1 = L - 1)
      by (unfold items1; rewrite El, length_firstn; unfold L; lia).
    assert (N1 : lineNodes items1
                   (rev (fromTo (len items1 - Z.of_nat cnt) (len items1 - 1)))
                 = lineNodes (_renderedItems v)
                     (rev (fromTo (L - Z.of_nat (S cnt)) (L - 2)))).
    { rewrite L1.
      replace (L - 1 - Z.of_nat cnt) with (L - Z.of_nat (S cnt)) by lia.
      replace (L - 1 - 1) with (L - 2) by lia.
      apply lineNodes_ext. intros i Hi. apply in_rev, in_fromTo in Hi.
      unfold items1. rewrite El.
      replace (length (_renderedItems v) - 1)%nat
        with (Z.to_nat (L - 1)) by (unfold L; lia).
      apply at_firstn. lia. }
    assert (F1 : firstn (length items1 - cnt) items1
                 = firstn (length (_renderedItems v) - S cnt)
                     (_renderedItems v)).
    { unfold items1 at 2. rewrite El, firstn_firstn. f_equal.
      assert (length items1 = length (_renderedItems v) - 1)%nat
        by (unfold L in L1; lia).
      lia. }
    rewrite G in Hnd, Hch.
    destruct (_domNode lastLine) as [n|] eqn:En.
    + cbn [app] in *. apply NoDup_cons_iff in Hnd. destruct Hnd as (Hn & Hnd).
      assert (B : popLine v
                  = (Normal tt,
                     set_listItemsDomNode (without n (_listItemsDomNode v))
                       (set_renderedItems items1 v))).
      { unfold popLine, bind, get. rewrite Er. unfold modify.
        rewrite En. unfold removeChild.
        rewrite isChild_In by (cbn; apply Hch; now left). reflexivity. }
      rewrite (@bind_normal _ _ _ _ _ _ _ _ B).
      rewrite (IH xs); cbn [_renderedItems set_listItemsDomNode
                           set_renderedItems _listItemsDomNode].
      * rewrite N1, F1, G. reflexivity.
      * now injection Hx.
      * assert (length items1 = length (_renderedItems v) - 1)%nat
          by (unfold L in L1; lia).
        lia.
      * now rewrite N1.
      * rewrite N1. intros m Hm. apply in_without.
        -- intros ->. contradiction.
        -- apply Hch. now right.
    + cbn [app] in *.
      assert (B : popLine v = (Normal tt, set_renderedItems items1 v)).
      { unfold popLine, bind, get. rewrite Er. unfold modify.
        now rewrite En. }
      rewrite (@bind_normal _ _ _ _ _ _ _ _ B).
      rewrite (IH xs); cbn [_renderedItems set_listItemsDomNode
                           set_renderedItems _listItemsDomNode].
      * rewrite N1, F1, G. reflexivity.
      * now injection Hx.
      * assert (length items1 = length (_renderedItems v) - 1)%nat
          by (unfold L in L1; lia).
        lia.
      * now rewrite N1.
      * now rewrite N1.
Qed.

Lemma lineNodes_shift (a b : list ViewItem) (k : Z) (l : list Z) :
  (forall i, In i l -> at_ a (i + k) = at_ b i) ->
  lineNodes a (map (fun i => i + k) l) = lineNodes b l.
Proof.
  intros H. unfold lineNodes. induction l as [|i l IH]; [reflexivity|].
  cbn [map flat_map]. rewrite (H i (or_introl eq_refl)). f_equal.
  apply IH. intros j Hj. apply H. now right.
Qed.

Lemma fromTo_shift (lo hi k : Z) :
  fromTo (lo + k) (hi + k) = map (fun i => i + k) (fromTo lo hi).
Proof.
  unfold fromTo. rewrite map_map.
  replace (hi + k - (lo + k) + 1) with (hi - lo + 1) by lia.
  apply map_ext. intros i. lia.
Qed.

Lemma firstn_plus {A} (a b : list A) (k n : nat) :
  length a = k -> firstn (k + n) (a ++ b) = a ++ firstn n b.
Proof. intros <-. apply firstn_app_2. Qed.

(** X19.  When the view hears the event of a splice that only inserts, at
    an index inside the window and after its first line, the window keeps
    its start and its length: new lines, dirty and without a node, stand
    where the new entries go, as many as fit, the lines from there on move
    down, and as many lines leave the window at its end, their nodes
    leaving the surface.  The view returns when the nodes of these last
    lines are children of the surface and no two of them are the same
    node. *)
Theorem insertion_pushes_lines (version start : Z) (ins : list Z)
    (v : ListView) :
  0 < len ins ->
  _renderedItemsStart v < start
  < _renderedItemsStart v + len (_renderedItems v) ->
  let L := len (_renderedItems v) in
  let a := start - _renderedItemsStart v in
  let cnt := Z.min (len ins) (L - a) in
  let gone := lineNodes (_renderedItems v) (rev (fromTo (L - cnt) (L - 1))) in
  NoDup gone -> incl gone (_listItemsDomNode v) ->
  View_onItemsChanged (heardFor version start 0 ins) v
  = (Normal tt,
     set_renderedItems
       (firstn (Z.to_nat a) (_renderedItems v)
        ++ repeat ViewItem_new (Z.to_nat cnt)
        ++ firstn (Z.to_nat (L - a - cnt))
             (skipn (Z.to_nat a) (_renderedItems v)))
       (set_listItemsDomNode (removeAll gone (_listItemsDomNode v)) v)).
Proof.
  intros Hn Hin L a cnt gone Hnd Hch.
  assert (Hd0 : 0 <= 0) by lia.
  set (e := heardFor version start 0 ins).
  pose proof (heard_changedStart version start 0 ins) as Ecs.
  pose proof (heard_changed version start ins Hd0) as Ec.
  pose proof (heard_deleteStart version start ins Hd0) as Eds.
  pose proof (heard_deleteCnt version start ins Hd0) as Edc.
  pose proof (heard_insertStart version start ins Hd0) as Eis.
  pose proof (heard_inserted version start ins Hd0) as Ei.
  fold e in Ecs, Ec, Eds, Edc, Eis, Ei. clearbody e.
  replace (Z.min 0 (len ins)) with 0 in * by lia.
  rewrite Z.add_0_r in *. rewrite Z.sub_0_r in *.
  set (rs := _renderedItemsStart v) in *.
  fold L in Hin.
  assert (Hc : 0 < cnt <= L - a /\ 0 < a < L) by (unfold cnt, a; lia).
  rewrite View_onItemsChanged_blocks.
  rewrite (@bind_normal _ _ _ _ _ _ _ _ (markChanged_outside e v
             ltac:(intros i Hi; lia))).
  unfold bind at 1, get. cbv beta iota.
  assert (A : adjustStart e v v = (Normal tt, v)).
  { unfold adjustStart. rewrite Eds. fold rs. cbv zeta.
    destruct (Z.ltb_spec start rs); [lia | reflexivity]. }
  rewrite (@bind_normal _ _ _ _ _ _ _ _ A).
  assert (D : removeDeleted e v v = (Normal tt, v)).
  { unfold removeDeleted. rewrite Eds, Edc. fold rs L. cbv zeta.
    destruct (Z.leb_spec (Z.max (start - rs) 0)
                (Z.min (start + 0 - 1 - rs) (L - 1))); [lia | reflexivity]. }
  rewrite (@bind_normal _ _ _ _ _ _ _ _ D).
  unfold placeInserted. unfold bind at 1, get. cbv beta iota.
  rewrite Eis, Ei. fold rs L. cbv zeta.
  destruct (Z.leb_spec start rs); [lia|].
  destruct (Z.geb_spec start (rs + L)); [lia|].
  replace (Z.min (start - rs) (L - 1)) with a by (unfold a; lia).
  replace (Z.min (start + len ins - 1 - rs) (L - 1)) with (a + cnt - 1)
    by (unfold cnt, a; lia).
  destruct (Z.leb_spec a (a + cnt - 1)); [|lia].
  rewrite (@bind_normal _ _ _ _ _ _ _ _
             (@insertLoop (Z.to_nat cnt) a (a + cnt - 1) v
                ltac:(lia) ltac:(fold L; lia))).
  set (items1 := firstn (Z.to_nat a) (_renderedItems v)
                 ++ repeat _createLine (Z.to_nat cnt)
                 ++ skipn (Z.to_nat a) (_renderedItems v)).
  assert (Lf : length (firstn (Z.to_nat a) (_renderedItems v)) = Z.to_nat a)
    by (rewrite length_firstn; unfold L in Hc; lia).
  assert (L1 : length items1 = (length (_renderedItems v) + Z.to_nat cnt)%nat).
  { unfold items1. rewrite !length_app, repeat_length, Lf, length_skipn.
    unfold L in Hc. lia. }
  assert (G1 : lineNodes items1
                 (rev (fromTo (len items1 - Z.of_nat (Z.to_nat cnt))
                              (len items1 - 1)))
               = gone).
  { unfold gone. rewrite L1.
    replace (Z.of_nat (length (_renderedItems v) + Z.to_nat cnt)
             - Z.of_nat (Z.to_nat cnt)) with (L - cnt + cnt)
      by (unfold L; lia).
    replace (Z.of_nat (length (_renderedItems v) + Z.to_nat cnt) - 1)
      with (L - 1 + cnt) by (unfold L; lia).
    rewrite fromTo_shift, <- map_rev. apply lineNodes_shift.
    intros i Hi. apply in_rev, in_fromTo in Hi. unfold items1.
    rewrite at_app_r by lia. rewrite Lf.
    rewrite at_app_r by (rewrite repeat_length; lia).
    rewrite repeat_length, at_skipn by lia.
    f_equal. lia. }
  replace (a + cnt - 1 - a + 1 - 1) with (cnt - 1) by lia.
  rewrite (@popLoop (Z.to_nat cnt) (fromTo 0 (cnt - 1))
             (set_renderedItems items1 v)).
  - cbn [_renderedItems set_renderedItems _listItemsDomNode].
    rewrite G1. f_equal. unfold set_renderedItems, set_listItemsDomNode.
    cbn. f_equal. rewrite L1.
    replace (length (_renderedItems v) + Z.to_nat cnt - Z.to_nat cnt)%nat
      with (Z.to_nat a + (Z.to_nat cnt + Z.to_nat (L - a - cnt)))%nat
      by (unfold L in *; lia).
    unfold items1.
    rewrite (@firstn_plus _ _ _ _ _ Lf). f_equal.
    rewrite (@firstn_plus _ _ _ _ _ (repeat_length _ _)). reflexivity.
  - rewrite length_fromTo. lia.
  - cbn [_renderedItems set_renderedItems]. rewrite L1. lia.
  - cbn [_renderedItems set_renderedItems]. rewrite G1. exact Hnd.
  - cbn [_renderedItems set_renderedItems _listItemsDomNode]. rewrite G1.
    exact Hch.
Qed.

Lemma insertion_pushes_lines_witness :
  View_onItemsChanged (heardFor 2 1 0 [25]) scrolledView
  = (Normal tt,
     set_renderedItems
       [ {| _isDirty := false; _domNode := Some 1%nat |};
         ViewItem_new;
         {| _isDirty := false; _domNode := Some 2%nat |} ]
       (set_listItemsDomNode [9; 1; 2]%nat scrolledView)).
Proof.
  refine (@insertion_pushes_lines 2 1 [25] scrolledView _ _ _ _).
  - reflexivity.
  - vm_compute. split; reflexivity.
  - vm_compute. repeat constructor; simpl; intuition discriminate.
  - vm_compute. intros n [<-|[]]. simpl. auto.
Defined.

(** ** A render pass returns *)

Lemma forEach_invariant {S A} (P : S -> Prop) (xs : list A)
    (body : A -> M S unit) :
  (forall x s, In x xs -> P s ->
               outcome (body x s) (fun _ => P) (fun _ => False)) ->
  forall s, P s -> outcome (forEach xs body s) (fun _ => P) (fun _ => False).
Proof.
  induction xs as [|x xs IH]; intros H s Hs; cbn [forEach].
  - exact Hs.
  - eapply outcome_bind; [apply H; [now left | exact Hs]|].
    intros [] s1 H1. apply IH; [|exact H1].
    intros y s2 Hy. apply H. now right.
Qed.

Lemma nodesOf_app (a b : list ViewItem) :
  nodesOf (a ++ b) = nodesOf a ++ nodesOf b.
Proof. unfold nodesOf. apply flat_map_app. Qed.

Lemma NoDup_app_parts {A} (a b : list A) :
  NoDup (a ++ b) <->
  NoDup a /\ NoDup b /\ forall x, In x a -> ~ In x b.
Proof.
  induction a as [|x a IH]; cbn [app].
  - split; [intros H; repeat split; [constructor | exact H | intros ? []]
           | intros (_ & H & _); exact H].
  - rewrite !NoDup_cons_iff, IH, in_app_iff. split.
    + intros (N & Na & Nb & D). repeat split; auto.
      intros y [<-|Hy]; auto.
    + intros ((N & Na) & Nb & D). repeat split; auto.
      * intros [H|H]; [auto | exact (D x (or_introl eq_refl) H)].
      * intros y Hy. apply D. now right.
Qed.

Lemma NoDup_app_swap {A} (a b : list A) : NoDup (a ++ b) -> NoDup (b ++ a).
Proof.
  rewrite !NoDup_app_parts. intros (Na & Nb & D). repeat split; auto.
  intros x Hb Ha. exact (D x Ha Hb).
Qed.

Lemma sound_fields (live : list Handle) (v v' : ListView) :
  _listItemsDomNode v' = _listItemsDomNode v ->
  _scrollDomNode v' = _scrollDomNode v ->
  created v' = created v ->
  sound live v -> sound live v'.
Proof. unfold sound. intros -> -> ->. auto. Qed.

Lemma sound_weaken (live live' : list Handle) (v : ListView) :
  NoDup live' -> incl live' live -> sound live v -> sound live' v.
Proof.
  intros Nd I (_ & Ch & Kn & Sl). split; [exact Nd|]. split.
  - eapply incl_tran; eauto.
  - split.
    + apply Forall_forall. intros n Hn. rewrite Forall_forall in Kn. auto.
    + intros n Hn. destruct (Sl n Hn) as (A & B). split; auto.
Qed.

Lemma sound_swap (a b : list Handle) (v : ListView) :
  sound (a ++ b) v -> sound (b ++ a) v.
Proof.
  intros H. apply sound_weaken with (live := a ++ b); [| |exact H].
  - apply NoDup_app_swap. apply H.
  - intros x Hx. apply in_app_iff. apply in_app_iff in Hx. tauto.
Qed.

Lemma moved_refl (v : ListView) : moved v v.
Proof. repeat split. Qed.

Lemma moved_trans (a b c : ListView) : moved a b -> moved b c -> moved a c.
Proof. unfold moved. intros (A & B & C) (D & E & F). repeat split; congruence. Qed.

(** Removing the node of a line, or retaining it: it returns when the node
    is a child, and the other nodes stay sound. *)
Lemma removeIfNotScrollDomNode_sound (n : Handle) (isAbove : bool)
    (live : list Handle) (v : ListView) :
  sound (n :: live) v ->
  outcome (_removeIfNotScrollDomNode n isAbove v)
    (fun _ v' => moved v v' /\ sound live v')
    (fun _ => False).
Proof.
  intros (Nd & Ch & Kn & Sl).
  apply NoDup_cons_iff in Nd. destruct Nd as (Hn & Nd).
  assert (In_n : In n (_listItemsDomNode v)) by (apply Ch; now left).
  assert (Kn' : Forall (fun k => (k < created v)%nat) live)
    by (now inversion Kn).
  assert (Kn_n : (n < created v)%nat) by (now inversion Kn).
  assert (Remove : outcome (removeChild n v)
                     (fun _ v' => moved v v' /\ sound live v')
                     (fun _ => False)).
  { unfold removeChild. rewrite (isChild_In _ _ In_n). cbn [outcome].
    split; [repeat split|]. split; [exact Nd|]. split; [|split].
    - intros k Hk. cbn. apply in_without; [congruence|]. apply Ch. now right.
    - exact Kn'.
    - intros k Hk. cbn in Hk. destruct (Sl k Hk) as (A & B).
      split; [|exact B]. intros H. apply A. now right. }
  assert (Keep : forall v0 : ListView,
             moved v v0 -> _scrollDomNode v0 = None ->
             incl live (_listItemsDomNode v0) ->
             outcome (bind (modify (set_scrollDomNode (Some n))) (fun _ =>
                      modify (set_scrollDomNodeIsAbove isAbove)) v0)
               (fun _ v' => moved v v' /\ sound live v')
               (fun _ => False)).
  { intros v0 (I0 & S0 & C0) _ Ch0. unfold bind, modify. cbn.
    split; [repeat split; assumption|].
    split; [exact Nd|]. split; [exact Ch0|]. split.
    - cbn [created set_scrollDomNodeIsAbove set_scrollDomNode].
      now rewrite C0.
    - cbn [created set_scrollDomNodeIsAbove set_scrollDomNode _scrollDomNode].
      intros k [= <-]. rewrite C0. auto. }
  unfold _removeIfNotScrollDomNode. unfold bind at 1, get. cbv beta iota zeta.
  destruct (_getScrollDomNodeTime n v =? 0); [exact Remove|].
  destruct (_scrollDomNode v) as [other|] eqn:Es.
  - destruct (_getScrollDomNodeTime other v >? _getScrollDomNodeTime n v);
      [exact Remove|].
    unfold bind at 1, detach, modify. cbv beta iota.
    unfold bind at 1. cbv beta iota.
    apply Keep.
    + repeat split.
    + reflexivity.
    + cbn. intros k Hk. apply in_without; [|apply Ch; now right].
      destruct (Sl other eq_refl) as (A & _). intros ->. apply A. now right.
  - apply Keep; [apply moved_refl | exact Es |].
    intros k Hk. apply Ch. now right.
Qed.

Lemma lineNodes_cons (items : list ViewItem) (i : Z) (l : list Z)
    (line : ViewItem) :
  at_ items i = Some line ->
  lineNodes items (i :: l) = nodeOf line ++ lineNodes items l.
Proof. intros E. unfold lineNodes. cbn [flat_map]. now rewrite E. Qed.

(** The loops that take the nodes of removed lines off the surface. *)
Lemma removalLoop_sound (index : Z -> Z) (isAbove : bool) (l : list Z) :
  forall (live : list Handle) (v : ListView),
    (forall i, In i l -> 0 <= index i < len (_renderedItems v)) ->
    sound (lineNodes (_renderedItems v) (map index l) ++ live) v ->
    outcome
      (forEach l (fun i =>
         bind (lineDomNode (index i)) (fun node =>
         match node with
         | Some n => _removeIfNotScrollDomNode n isAbove
         | None => ret tt
         end)) v)
      (fun _ v' => moved v v' /\ sound live v')
      (fun _ => False).
Proof.
  induction l as [|i l IH]; intros live v Hin Hs; cbn [forEach map].
  - cbn. split; [apply moved_refl | exact Hs].
  - destruct (at_inside (_renderedItems v) (Hin i (or_introl eq_refl)))
      as (line & E).
    cbn [map] in Hs. rewrite (@lineNodes_cons _ _ (map index l) _ E) in Hs.
    rewrite <- app_assoc in Hs.
    assert (Hl : forall j, In j l -> 0 <= index j < len (_renderedItems v))
      by (intros j Hj; apply Hin; now right).
    apply outcome_bind with
      (Q1 := fun _ v1 =>
               moved v v1
               /\ sound (lineNodes (_renderedItems v) (map index l) ++ live)
                    v1).
    + unfold bind, lineDomNode. rewrite E. unfold nodeOf in Hs.
      destruct (_domNode line) as [n|]; cbn [app] in Hs.
      * now apply removeIfNotScrollDomNode_sound.
      * cbn. split; [apply moved_refl | exact Hs].
    + intros [] v1 (M1 & S1). destruct M1 as (I1 & R1 & C1).
      eapply outcome_weaken; [apply (IH live v1) | | auto].
      * rewrite I1. exact Hl.
      * now rewrite I1.
      * intros u v2 (M2 & S2). split; [|exact S2].
        eapply moved_trans; [|exact M2]. repeat split; assumption.
Qed.

Lemma lineNodes_range (items : list ViewItem) (n : nat) :
  forall a : nat,
    (a + n <= length items)%nat ->
    lineNodes items (fromTo (Z.of_nat a) (Z.of_nat a + Z.of_nat n - 1))
    = nodesOf (firstn n (skipn a items)).
Proof.
  induction n as [|n IH]; intros a H.
  - rewrite fromTo_nil by lia. reflexivity.
  - rewrite fromTo_cons by lia.
    destruct (skipn a items) as [|x rest] eqn:Es.
    { apply (f_equal (@length _)) in Es. rewrite length_skipn in Es.
      cbn in Es. lia. }
    assert (Ea : at_ items (Z.of_nat a) = Some x).
    { rewrite at_nat. rewrite <- (firstn_skipn a items), Es.
      rewrite nth_error_app2 by (rewrite length_firstn; lia).
      rewrite length_firstn.
      replace (a - Nat.min a (length items))%nat with O by lia. reflexivity. }
    rewrite (@lineNodes_cons _ _ _ _ Ea). cbn [firstn nodesOf flat_map].
    f_equal.
    replace (Z.of_nat a + 1) with (Z.of_nat (S a)) by lia.
    replace (Z.of_nat a + Z.of_nat (S n) - 1)
      with (Z.of_nat (S a) + Z.of_nat n - 1) by lia.
    rewrite IH by lia.
    replace (skipn (S a) items) with rest; [reflexivity|].
    change (S a) with (1 + a)%nat. rewrite <- skipn_skipn, Es. reflexivity.
Qed.

Lemma nodesOf_newLines (a b : Z) : nodesOf (newLines a b) = [].
Proof.
  unfold newLines. induction (fromTo a b) as [|x l IH]; [reflexivity|].
  cbn [map nodesOf flat_map]. exact IH.
Qed.

Lemma removeLinesBefore_sound (c : Z) (v : ListView) :
  0 < c <= len (_renderedItems v) ->
  wellFormed v ->
  outcome (_removeLinesBefore c v)
    (fun _ v' => wellFormed v'
                 /\ _renderedItemsStart v' = _renderedItemsStart v)
    (fun _ => False).
Proof.
  intros Hc W. unfold _removeLinesBefore.
  apply outcome_bind with
    (Q1 := fun _ v1 =>
             moved v v1
             /\ sound (nodesOf (skipn (Z.to_nat c) (_renderedItems v))) v1).
  - apply (removalLoop_sound (fun i => i) true).
    + intros i Hi. apply in_fromTo in Hi. lia.
    + rewrite map_id.
      pose proof (@lineNodes_range (_renderedItems v) (Z.to_nat c) O
                    ltac:(lia)) as R.
      cbn [skipn] in R. change (Z.of_nat 0) with 0 in R.
      replace (0 + Z.of_nat (Z.to_nat c) - 1) with (c - 1) in R by lia.
      rewrite R, <- nodesOf_app, firstn_skipn. exact W.
  - intros [] v1 ((I1 & S1 & C1) & W1). unfold modify. cbn [outcome].
    split; [|exact S1].
    unfold wellFormed. cbn [_renderedItems set_renderedItems].
    rewrite I1, spliceOut_front by lia.
    apply (sound_fields (v := v1)); try reflexivity. exact W1.
Qed.

Lemma removeLinesAfter_sound (c : Z) (v : ListView) :
  0 < c <= len (_renderedItems v) ->
  wellFormed v ->
  outcome (_removeLinesAfter c v)
    (fun _ v' => wellFormed v'
                 /\ _renderedItemsStart v' = _renderedItemsStart v)
    (fun _ => False).
Proof.
  intros Hc W. unfold _removeLinesAfter.
  unfold bind at 1, get; cbv beta iota zeta.
  set (r := len (_renderedItems v) - c).
  apply outcome_bind with
    (Q1 := fun _ v1 =>
             moved v v1
             /\ sound (nodesOf (firstn (Z.to_nat r) (_renderedItems v))) v1).
  - apply (removalLoop_sound (fun i => r + i) false).
    + intros i Hi. apply in_fromTo in Hi. unfold r. lia.
    + replace (map (fun i => r + i) (fromTo 0 (c - 1)))
        with (fromTo (Z.of_nat (Z.to_nat r))
                (Z.of_nat (Z.to_nat r) + Z.of_nat (Z.to_nat c) - 1)).
      2:{ replace (Z.of_nat (Z.to_nat r)) with (0 + r) by (unfold r; lia).
          replace (0 + r + Z.of_nat (Z.to_nat c) - 1) with (c - 1 + r) by lia.
          rewrite fromTo_shift. apply map_ext. intros i. lia. }
      rewrite lineNodes_range by (unfold r; lia).
      rewrite firstn_all2 by (rewrite length_skipn; unfold r; lia).
      apply sound_swap. rewrite <- nodesOf_app, firstn_skipn. exact W.
  - intros [] v1 ((I1 & S1 & C1) & W1). unfold modify. cbn [outcome].
    split; [|exact S1].
    unfold wellFormed. cbn [_renderedItems set_renderedItems].
    rewrite I1. fold r. unfold r. rewrite spliceOut_back by lia. fold r.
    apply (sound_fields (v := v1)); try reflexivity. exact W1.
Qed.

(** Dropping a retained node that new lines have covered. *)
Lemma garbage_sound (above : bool) (v : ListView) :
  wellFormed v ->
  outcome
    (bind get (fun v1 =>
     match _scrollDomNode v1 with
     | Some n =>
         if (if above then _scrollDomNodeIsAbove v1
             else negb (_scrollDomNodeIsAbove v1))
         then bind (detach n) (fun _ => modify (set_scrollDomNode None))
         else ret tt
     | None => ret tt
     end) v)
    (fun _ v' => wellFormed v'
                 /\ _renderedItemsStart v' = _renderedItemsStart v
                 /\ _renderedItems v' = _renderedItems v)
    (fun _ => False).
Proof.
  intros W. unfold bind at 1, get. cbv beta iota.
  destruct (_scrollDomNode v) as [n|] eqn:Es; [|cbn; auto].
  destruct (if above then _ else _); [|cbn; auto].
  unfold bind, detach, modify. cbn [outcome].
  split; [|split; reflexivity].
  destruct W as (Nd & Ch & Kn & Sl). destruct (Sl n Es) as (A & B).
  unfold wellFormed, sound.
  cbn [_renderedItems _listItemsDomNode _scrollDomNode created
       set_scrollDomNode set_listItemsDomNode].
  split; [exact Nd|]. split; [|split; [exact Kn | discriminate]].
  intros k Hk. apply in_without; [|now apply Ch].
  intros ->. exact (A Hk).
Qed.

Lemma wellFormed_lines (v v' : ListView) :
  nodesOf (_renderedItems v') = nodesOf (_renderedItems v) ->
  _listItemsDomNode v' = _listItemsDomNode v ->
  _scrollDomNode v' = _scrollDomNode v ->
  created v' = created v ->
  wellFormed v -> wellFormed v'.
Proof.
  unfold wellFormed, sound. intros -> -> -> ->. auto.
Qed.

Lemma alignStart_sound (startItem endItem : Z) (v s : ListView) :
  shape s = shape v -> wellFormed s ->
  outcome (alignStart startItem endItem v s)
    (fun _ s' => wellFormed s')
    (fun _ => False).
Proof.
  intros Sh W. unfold shape in Sh. injection Sh as I S Ch Sc Ab Cr.
  unfold alignStart.
  destruct (_renderedItemsStart v >? startItem).
  - cbv zeta. destruct (startItem <=? _); [|exact W].
    apply outcome_bind with (Q1 := fun _ s1 => wellFormed s1).
    + unfold _insertLinesBefore, modify. cbn [outcome].
      apply (wellFormed_lines (v := s)); try reflexivity; [|exact W].
      cbn [_renderedItems set_renderedItems].
      now rewrite nodesOf_app, nodesOf_newLines.
    + intros [] s1 W1.
      eapply outcome_weaken; [apply (garbage_sound true W1) | | auto].
      intros u s2 (W2 & _). exact W2.
  - destruct (_renderedItemsStart v <? startItem); [|exact W].
    cbv zeta.
    destruct (Z.gtb_spec (Z.min (len (_renderedItems v))
                                (startItem - _renderedItemsStart v)) 0);
      [|exact W].
    eapply outcome_weaken; [apply removeLinesBefore_sound | | auto].
    + rewrite I. lia.
    + exact W.
    + intros u s1 (W1 & _). exact W1.
Qed.

Lemma alignEnd_sound (endItem : Z) (v2 : ListView) :
  wellFormed v2 ->
  outcome (alignEnd endItem v2 v2)
    (fun _ s' => wellFormed s')
    (fun _ => False).
Proof.
  intros W. unfold alignEnd.
  destruct (_ <? endItem).
  - cbv zeta. destruct (_ <=? endItem); [|exact W].
    apply outcome_bind with (Q1 := fun _ s1 => wellFormed s1).
    + unfold _insertLinesAfter, modify. cbn [outcome].
      apply (wellFormed_lines (v := v2)); try reflexivity; [|exact W].
      cbn [_renderedItems set_renderedItems].
      now rewrite nodesOf_app, nodesOf_newLines, app_nil_r.
    + intros [] s1 W1.
      eapply outcome_weaken; [apply (garbage_sound false W1) | | auto].
      intros u s2 (W2 & _). exact W2.
  - destruct (_ >? endItem); [|exact W].
    cbv zeta.
    set (c := len (_renderedItems v2) - 1
              - Z.max 0 (endItem - _renderedItemsStart v2 + 1) + 1).
    destruct (Z.gtb_spec c 0); [|exact W].
    eapply outcome_weaken; [apply removeLinesAfter_sound | | auto].
    + unfold c in *. lia.
    + exact W.
    + intros u s1 (W1 & _). exact W1.
Qed.

Lemma outcome_both {S A} (r : Completion A * S) (Q1 Q2 : A -> S -> Prop)
    (E1 E2 : S -> Prop) :
  outcome r Q1 E1 -> outcome r Q2 E2 ->
  outcome r (fun a s => Q1 a s /\ Q2 a s) (fun s => E1 s /\ E2 s).
Proof. destruct r as [[a|e] s]; simpl; auto. Qed.

(** The loop over the lines that stay returns when the lines it visits
    show items of the model; it writes attributes of nodes only. *)
Lemma renderUntouchedLines_returns (m : ViewModel) (startIndex endIndex : Z)
    (tops : list Z) (deltaLN : Z) (v : ListView) :
  (forall i, startIndex <= i <= endIndex ->
     0 <= i < len (_renderedItems v)
     /\ 0 <= _renderedItemsStart v + i < len (_items m)) ->
  outcome (_renderUntouchedLines m startIndex endIndex tops deltaLN v)
    (fun _ v' => shape v' = shape v)
    (fun _ => False).
Proof.
  intros H. unfold _renderUntouchedLines.
  apply (forEach_invariant (fun v' => shape v' = shape v)); [|reflexivity].
  intros i s Hi Sh. apply in_fromTo in Hi. destruct (H i Hi) as (Hr & Hm).
  unfold shape in Sh. injection Sh as I S Ch Sc Ab Cr.
  unfold bind at 1, get. cbv beta iota zeta.
  unfold bind at 1, lineDomNode. rewrite I.
  destruct (at_inside (_renderedItems v) Hr) as (line & E). rewrite E.
  cbv beta iota.
  destruct (_domNode line) as [n|];
    [|unfold ret, outcome, shape; congruence].
  unfold layoutLine. unfold bind at 1, modify. cbv beta iota.
  unfold bind at 1, getHeightOf. rewrite S.
  destruct (at_inside (_items m) Hm) as (x & Ex). rewrite Ex.
  unfold ret, bind, modify, outcome, shape.
  cbn [_renderedItems _renderedItemsStart _listItemsDomNode _scrollDomNode
       _scrollDomNodeIsAbove created set_nodes].
  congruence.
Qed.

(** *** The first loop of the finishing *)

Lemma clean_same (line : ViewItem) : _isDirty line = false -> clean line = line.
Proof. destruct line. cbn. now intros ->. Qed.

Lemma nodesOf_clean (lines : list ViewItem) :
  nodesOf (map clean lines) = nodesOf lines.
Proof.
  induction lines as [|x l IH]; [reflexivity|].
  cbn [map nodesOf flat_map]. unfold nodesOf in IH. now rewrite IH.
Qed.

Lemma at_present {A} (a : list A) (i : Z) :
  0 <= i < len a -> at_ a i <> None.
Proof. intros H. destruct (at_inside a H) as (x & E). congruence. Qed.

(** The loop gathers the markup of every dirty line and leaves every line
    clean; it marks as new the dirty lines without a node and as invalid
    the dirty lines with one. *)
Lemma gather_returns (m : ViewModel) (tops : list Z) (todo : list ViewItem) :
  forall (pre : list ViewItem) (g : Gathered) (v : ListView),
    _renderedItems v = pre ++ todo ->
    (length pre + length todo <= length tops)%nat ->
    (forall k, (k < length todo)%nat ->
       0 <= Z.of_nat (length pre + k) + _renderedItemsStart v
         < len (_items m)) ->
    outcome (gather m tops (seq (length pre) (length todo)) g v)
      (fun g' v' =>
         _renderedItems v' = pre ++ map clean todo
         /\ wasNew g' = wasNew g ++ indicesWhere isNew (length pre) todo
         /\ wasInvalid g'
            = wasInvalid g ++ indicesWhere isInvalid (length pre) todo
         /\ length (newLinesHTML g')
            = (length (newLinesHTML g)
               + length (indicesWhere isNew (length pre) todo))%nat
         /\ length (invalidLinesHTML g')
            = (length (invalidLinesHTML g)
               + length (indicesWhere isInvalid (length pre) todo))%nat
         /\ _renderedItemsStart v' = _renderedItemsStart v
         /\ _listItemsDomNode v' = _listItemsDomNode v
         /\ _scrollDomNode v' = _scrollDomNode v
         /\ created v' = created v)
      (fun _ => False).
Proof.
  induction todo as [|line rest IH]; intros pre g v I Ht Hm.
  - cbn. rewrite app_nil_r in I. rewrite !app_nil_r, !Nat.add_0_r.
    repeat split; auto.
  - cbn [length seq gather].
    unfold bind at 1, get; cbv beta iota.
    assert (En : nth_error (_renderedItems v) (length pre) = Some line).
    { rewrite I, nth_error_app2, Nat.sub_diag by lia. reflexivity. }
    rewrite En.
    assert (Snoc : forall x : ViewItem,
               length (pre ++ [x]) = S (length pre))
      by (intros x; rewrite length_app; cbn; lia).
    assert (Step : forall (x : ViewItem) g1 v1,
               _renderedItems v1 = (pre ++ [x]) ++ rest ->
               _renderedItemsStart v1 = _renderedItemsStart v ->
               _listItemsDomNode v1 = _listItemsDomNode v ->
               _scrollDomNode v1 = _scrollDomNode v ->
               created v1 = created v ->
               outcome (gather m tops (seq (S (length pre)) (length rest)) g1 v1)
                 (fun g' v' =>
                    _renderedItems v' = pre ++ x :: map clean rest
                    /\ wasNew g'
                       = wasNew g1 ++ indicesWhere isNew (S (length pre)) rest
                    /\ wasInvalid g'
                       = wasInvalid g1
                         ++ indicesWhere isInvalid (S (length pre)) rest
                    /\ length (newLinesHTML g')
                       = (length (newLinesHTML g1)
                          + length (indicesWhere isNew (S (length pre)) rest))%nat
                    /\ length (invalidLinesHTML g')
                       = (length (invalidLinesHTML g1)
                          + length (indicesWhere isInvalid (S (length pre))
                                      rest))%nat
                    /\ _renderedItemsStart v' = _renderedItemsStart v
                    /\ _listItemsDomNode v' = _listItemsDomNode v
                    /\ _scrollDomNode v' = _scrollDomNode v
                    /\ created v' = created v)
                 (fun _ => False)).
    { intros x g1 v1 I1 S1 C1 Sc1 K1.
      pose proof (IH (pre ++ [x]) g1 v1 I1) as P.
      rewrite Snoc in P.
      eapply outcome_weaken; [apply P | | auto].
      - cbn [length] in Ht. lia.
      - intros k Hk. rewrite S1.
        replace (S (length pre) + k)%nat with (length pre + S k)%nat by lia.
        apply Hm. cbn [length]. lia.
      - intros g' v' (A & B & C & D & E & F & G & H & J).
        rewrite <- app_assoc in A. cbn [app] in A.
        repeat split; congruence. }
    assert (Top : exists t, at_ tops (Z.of_nat (length pre)) = Some t).
    { apply at_inside. cbn [length] in Ht. lia. }
    destruct Top as (t & Et).
    assert (Item : exists x, at_ (_items m)
                               (Z.of_nat (length pre) + _renderedItemsStart v)
                             = Some x).
    { apply at_inside.
      replace (length pre) with (length pre + 0)%nat at 1 2 by lia.
      apply Hm. cbn [length]. lia. }
    destruct Item as (x & Ex).
    assert (Adj : adjust clean (length pre) (_renderedItems v)
                  = (pre ++ [clean line]) ++ rest).
    { rewrite I, adjust_middle, <- app_assoc. reflexivity. }
    unfold shouldUpdateHTML. cbn [indicesWhere].
    assert (Fn : isNew line
                 = _isDirty line
                   && match _domNode line with None => true | _ => false end)
      by reflexivity.
    assert (Fi : isInvalid line
                 = _isDirty line
                   && match _domNode line with Some _ => true | _ => false end)
      by reflexivity.
    destruct (_isDirty line) eqn:D; cbn [andb] in Fn, Fi.
    + destruct (_domNode line) as [n|] eqn:N; rewrite Fn, Fi;
        unfold bind at 1;
        rewrite Et, (@getLineOuterHTML_normal m (length pre) _ t x v Ex);
        cbv beta iota.
      * eapply outcome_weaken; [apply (Step (clean line)) | | auto];
          cbn [_renderedItems _renderedItemsStart _listItemsDomNode
               _scrollDomNode created set_renderCalls set_renderedItems
               wasNew wasInvalid newLinesHTML invalidLinesHTML];
          auto.
        intros g' v' (A & B & C & D' & E & F & G & H & J).
        cbn [map app]. rewrite B, C, D', E, <- !app_assoc, !length_app.
        cbn [app length]. repeat split; auto; lia.
      * eapply outcome_weaken; [apply (Step (clean line)) | | auto];
          cbn [_renderedItems _renderedItemsStart _listItemsDomNode
               _scrollDomNode created set_renderCalls set_renderedItems
               wasNew wasInvalid newLinesHTML invalidLinesHTML];
          auto.
        intros g' v' (A & B & C & D' & E & F & G & H & J).
        cbn [map app]. rewrite B, C, D', E, <- !app_assoc, !length_app.
        cbn [app length]. repeat split; auto; lia.
    + rewrite Fn, Fi.
      eapply outcome_weaken; [apply (Step line) | | auto]; auto.
      * rewrite I, <- app_assoc. reflexivity.
      * intros g' v' (A & B & C & D' & E & F & G & H & J).
        cbn [map app]. rewrite (clean_same _ D).
        repeat split; auto.
Qed.

(** *** Marks and flags *)

Lemma marked_app (k : nat) (a b : list nat) :
  marked k (a ++ b) = marked k a || marked k b.
Proof. unfold marked. apply existsb_app. Qed.

Lemma marked_indicesWhere (f : ViewItem -> bool) (lines : list ViewItem) :
  forall p k,
    marked k (indicesWhere f p lines)
    = if (k <? p)%nat then false else nth (k - p) (map f lines) false.
Proof.
  induction lines as [|line rest IH]; intros p k; cbn [indicesWhere map].
  - destruct (k <? p)%nat; [reflexivity | now destruct (k - p)%nat].
  - rewrite marked_app, IH.
    destruct (Nat.ltb_spec k p) as [Hlt|Hge].
    + destruct (Nat.ltb_spec k (S p)); [|lia]. rewrite orb_false_r.
      destruct (f line); [|reflexivity]. unfold marked. cbn.
      destruct (Nat.eqb_spec k p); [lia | reflexivity].
    + destruct (Nat.ltb_spec k (S p)) as [Heq|Hgt].
      * assert (k = p) by lia. subst k. rewrite Nat.sub_diag, orb_false_r.
        cbn [nth]. destruct (f line); [|reflexivity].
        unfold marked. cbn. now rewrite Nat.eqb_refl.
      * replace (k - p)%nat with (S (k - S p)) by lia. cbn [nth].
        replace (marked k (if f line then [p] else [])) with false;
          [reflexivity|].
        destruct (f line); [|reflexivity]. unfold marked. cbn.
        destruct (Nat.eqb_spec k p); [lia | reflexivity].
Qed.

Lemma length_indicesWhere (f : ViewItem -> bool) (lines : list ViewItem) :
  forall p, length (indicesWhere f p lines) = count (map f lines).
Proof.
  unfold count. induction lines as [|line rest IH]; intros p;
    cbn [indicesWhere map filter]; [reflexivity|].
  rewrite length_app, IH. now destruct (f line).
Qed.

Lemma count_app (a b : list bool) : count (a ++ b) = (count a + count b)%nat.
Proof. unfold count. now rewrite filter_app, length_app. Qed.

Lemma assign_snoc (fl : list bool) :
  forall (c : nat) (init : list ViewItem) (b : bool) (x : ViewItem),
    length init = length fl ->
    assign (fl ++ [b]) c (init ++ [x])
    = assign fl c init
      ++ [if b then setDomNode (Some (c + count fl)%nat) x else x].
Proof.
  induction fl as [|a fl IH]; intros c init b x H.
  - destruct init; [|discriminate]. cbn. rewrite Nat.add_0_r.
    now destruct b.
  - destruct init as [|y init]; [discriminate|]. injection H as H.
    cbn [app assign]. destruct a.
    + rewrite IH by exact H. cbn [app]. do 3 f_equal.
      unfold count. cbn [filter length]. destruct b; [|reflexivity].
      do 2 f_equal. lia.
    + rewrite IH by exact H. reflexivity.
Qed.

Lemma assign_none (fl : list bool) :
  forall (c : nat) (lines : list ViewItem),
    count fl = O -> assign fl c lines = lines.
Proof.
  induction fl as [|a fl IH]; intros c lines H; [now destruct lines|].
  destruct lines as [|x lines]; [now destruct a|].
  destruct a; [discriminate H|]. cbn [assign]. f_equal. now apply IH.
Qed.

(** *** The new nodes are handed out *)

Lemma adopt_returns (new : list nat) (c : nat) (tail : list Handle)
    (fl : list bool) :
  forall (init rest : list ViewItem) (v : ListView),
    length init = length fl ->
    _renderedItems v = init ++ rest ->
    (forall k, (k < length fl)%nat -> marked k new = nth k fl false) ->
    outcome (adopt (rev (seq 0 (length fl))) new
               (rev (seq c (count fl)) ++ tail) v)
      (fun _ v' =>
         _renderedItems v' = assign fl c init ++ rest
         /\ _renderedItemsStart v' = _renderedItemsStart v
         /\ _listItemsDomNode v' = _listItemsDomNode v
         /\ _scrollDomNode v' = _scrollDomNode v
         /\ created v' = created v)
      (fun _ => False).
Proof.
  induction fl as [|b fl IH] using rev_ind; intros init rest v Hl I Hm.
  - destruct init; [|discriminate]. cbn. auto.
  - rewrite length_app in *. cbn [length] in *.
    rewrite Nat.add_1_r in *. rewrite seq_S, rev_app_distr. cbn [rev app].
    assert (Hne : init <> []) by (intros ->; discriminate).
    destruct (exists_last Hne) as (init' & x & ->).
    rewrite length_app in Hl. cbn [length] in Hl.
    assert (Hl' : length init' = length fl) by lia.
    cbn [Nat.add adopt].
    rewrite (Hm (length fl)) by lia.
    rewrite app_nth2, Nat.sub_diag by lia. cbn [nth].
    rewrite assign_snoc by exact Hl'. rewrite count_app.
    assert (Hm' : forall k, (k < length fl)%nat -> marked k new = nth k fl false).
    { intros k Hk. rewrite Hm by lia. now rewrite app_nth1 by lia. }
    rewrite <- app_assoc in I. cbn [app] in I.
    destruct b.
    + unfold count at 2. cbn [filter length]. rewrite Nat.add_1_r, seq_S.
      rewrite rev_app_distr. cbn [rev app].
      unfold bind at 1, modifyLine, modify; cbv beta iota.
      eapply outcome_weaken;
        [apply (IH init' (setDomNode (Some (c + count fl)%nat) x :: rest))
        | | auto];
        cbn [_renderedItems _renderedItemsStart _listItemsDomNode
             _scrollDomNode created set_renderedItems]; auto.
      * rewrite I, <- Hl', adjust_middle. reflexivity.
      * intros u v' (A & B). rewrite A, <- app_assoc. cbn [app]. auto.
    + unfold count at 2. cbn [filter length]. rewrite Nat.add_0_r.
      eapply outcome_weaken; [apply (IH init' (x :: rest)) | | auto]; auto.
      intros u v' (A & B). rewrite A, <- app_assoc. cbn [app]. auto.
Qed.

(** *** The rewritten nodes are swapped in *)

Lemma in_replaced_other (n old src : Handle) (l : list Handle) :
  n <> old -> In n l -> In n (replaced old src l).
Proof.
  intros N. induction l as [|x l IH]; cbn [replaced]; [auto|].
  intros [->|H].
  - destruct (Nat.eqb_spec n old); [contradiction | now left].
  - destruct (Nat.eqb x old); right; auto.
Qed.

Lemma in_replaced_new (old src : Handle) (l : list Handle) :
  In old l -> In src (replaced old src l).
Proof.
  induction l as [|x l IH]; cbn [replaced]; [auto|].
  intros [->|H].
  - rewrite Nat.eqb_refl. now left.
  - destruct (Nat.eqb x old); [now left | right; auto].
Qed.

Lemma pick_incl (want : bool) (fl : list bool) :
  forall lines : list ViewItem, incl (pick want fl lines) lines.
Proof.
  induction fl as [|b fl IH]; intros lines; [intros x []|].
  destruct lines as [|line rest]; [intros x []|]. cbn [pick].
  destruct (Bool.eqb b want).
  - apply incl_cons; [now left|]. apply incl_tl, IH.
  - apply incl_tl, IH.
Qed.

Lemma nodesOf_In (line : ViewItem) (lines : list ViewItem) (n : Handle) :
  In line lines -> _domNode line = Some n -> In n (nodesOf lines).
Proof.
  intros H E. unfold nodesOf. apply in_flat_map. exists line.
  split; [exact H|]. unfold nodeOf. rewrite E. now left.
Qed.

Lemma nodesOf_incl (a b : list ViewItem) :
  incl a b -> incl (nodesOf a) (nodesOf b).
Proof.
  intros H n Hn. unfold nodesOf in *. apply in_flat_map in Hn.
  destruct Hn as (line & Hl & Hn). apply in_flat_map. exists line.
  split; [now apply H | exact Hn].
Qed.

Lemma swap_returns (invalid : list nat) (fl : list bool) :
  forall (pre todo : list ViewItem) (c : nat) (extra : list Handle)
         (v : ListView),
    length todo = length fl ->
    _renderedItems v = pre ++ todo ->
    (forall k, (k < length fl)%nat ->
               marked (length pre + k) invalid = nth k fl false) ->
    NoDup (nodesOf todo) ->
    Forall (fun n => (n < c)%nat) (nodesOf todo) ->
    Forall (fun line => exists old, _domNode line = Some old
                                    /\ In old (_listItemsDomNode v))
           (pick true fl todo) ->
    outcome (swap (seq (length pre) (length fl)) invalid
               (seq c (count fl) ++ extra) v)
      (fun _ v' =>
         _renderedItems v' = pre ++ assign fl c todo
         /\ (forall n, In n (_listItemsDomNode v) ->
                       ~ In n (nodesOf (pick true fl todo)) ->
                       In n (_listItemsDomNode v'))
         /\ (forall n, (c <= n < c + count fl)%nat ->
                       In n (_listItemsDomNode v'))
         /\ _renderedItemsStart v' = _renderedItemsStart v
         /\ _scrollDomNode v' = _scrollDomNode v
         /\ created v' = created v)
      (fun _ => False).
Proof.
  induction fl as [|b fl IH]; intros pre todo c extra v Hl I Hm Nd Kn Ch.
  - destruct todo; [|discriminate]. cbn. repeat split; auto. lia.
  - destruct todo as [|line rest]; [discriminate|]. injection Hl as Hl.
    cbn [length seq swap].
    pose proof (Hm O ltac:(cbn; lia)) as M0. rewrite Nat.add_0_r in M0.
    cbn [nth] in M0. rewrite M0.
    assert (Hm' : forall x : ViewItem, forall k, (k < length fl)%nat ->
               marked (length (pre ++ [x]) + k) invalid = nth k fl false).
    { intros x k Hk. rewrite length_app. cbn [length].
      replace (length pre + 1 + k)%nat with (length pre + S k)%nat by lia.
      rewrite Hm by (cbn; lia). reflexivity. }
    assert (Snoc : forall x : ViewItem, length (pre ++ [x]) = S (length pre))
      by (intros x; rewrite length_app; cbn; lia).
    cbn [nodesOf flat_map] in Nd, Kn. fold (nodesOf rest) in Nd, Kn.
    apply NoDup_app_parts in Nd. destruct Nd as (_ & Nd & Dj).
    apply Forall_app in Kn. destruct Kn as (Kl & Kn).
    destruct b.
    + cbn [pick Bool.eqb] in Ch. inversion Ch as [|? ? (old & Eo & Io) Ch'].
      subst.
      unfold bind at 1, lineDomNode. rewrite at_nat, I.
      rewrite nth_error_app2, Nat.sub_diag by lia. cbn [nth_error].
      cbv beta iota. unfold bind at 1, get. cbv beta iota.
      unfold count. cbn [filter length seq app]. fold (count fl).
      rewrite Eo. rewrite (isChild_In _ _ Io).
      unfold bind at 1, modify. cbv beta iota.
      unfold bind at 1, modifyLine, modify. cbv beta iota.
      set (line' := setDomNode (Some c) line).
      assert (Old : In old (nodeOf line)) by (unfold nodeOf; rewrite Eo; now left).
      pose proof (IH (pre ++ [line']) rest (S c) extra
                    (set_renderedItems
                       (adjust (setDomNode (Some c)) (length pre)
                          (_renderedItems
                             (set_listItemsDomNode
                                (replaced old c (_listItemsDomNode v)) v)))
                       (set_listItemsDomNode
                          (replaced old c (_listItemsDomNode v)) v))) as P.
      rewrite Snoc in P.
      eapply outcome_weaken; [apply P | | auto];
        cbn [_renderedItems _renderedItemsStart _listItemsDomNode
             _scrollDomNode created set_renderedItems set_listItemsDomNode];
        auto.
      * rewrite I, adjust_middle, <- app_assoc. reflexivity.
      * intros k Hk. rewrite <- (Snoc line'). now apply Hm'.
      * eapply Forall_impl; [|exact Kn]. cbn. lia.
      * rewrite Forall_forall in Ch' |- *. intros l0 Hl0.
        destruct (Ch' l0 Hl0) as (o & Eo' & Io'). exists o.
        split; [exact Eo'|].
        apply in_replaced_other; [|exact Io'].
        intros ->. apply (Dj old Old).
        apply (@nodesOf_In l0); [|exact Eo'].
        now apply (pick_incl true fl rest).
      * intros u v' (A & P1 & P2 & B). rewrite A, <- app_assoc. cbn [app assign].
        split; [reflexivity|]. split; [|split; [|exact B]].
        -- intros n Hn Hnot. apply P1.
           ++ apply in_replaced_other; [|exact Hn].
              intros ->. apply Hnot. cbn [pick Bool.eqb nodesOf flat_map].
              apply in_app_iff. now left.
           ++ intros H. apply Hnot. cbn [pick Bool.eqb nodesOf flat_map].
              apply in_app_iff. now right.
        -- intros n Hn. destruct (Nat.eq_dec n c) as [->|Hne].
           ++ apply P1; [now apply in_replaced_new|].
              intros H. apply (nodesOf_incl (pick_incl true fl rest)) in H.
              rewrite Forall_forall in Kn. specialize (Kn c H). lia.
           ++ apply P2. lia.
    + cbn [pick Bool.eqb] in Ch.
      unfold count. cbn [filter length]. fold (count fl).
      pose proof (IH (pre ++ [line]) rest c extra v) as P.
      rewrite Snoc in P.
      eapply outcome_weaken; [apply P | | auto]; auto.
      * rewrite I, <- app_assoc. reflexivity.
      * intros k Hk. rewrite <- (Snoc line). now apply Hm'.
      * intros u v' (A & P1 & P2 & B). rewrite A, <- app_assoc. cbn [app assign].
        split; [reflexivity|]. split; [|split; [|exact B]]; auto.
Qed.

(** *** The nodes of the lines after the finishing *)

Lemma length_assign (fl : list bool) :
  forall (c : nat) (lines : list ViewItem),
    length (assign fl c lines) = length lines.
Proof.
  induction fl as [|b fl IH]; intros c lines; [now destruct lines|].
  destruct lines as [|x lines]; [now destruct b|].
  destruct b; cbn [assign length]; now rewrite IH.
Qed.

Lemma count_true (fl : list bool) : count (true :: fl) = S (count fl).
Proof. reflexivity. Qed.

Lemma count_false (fl : list bool) : count (false :: fl) = count fl.
Proof. reflexivity. Qed.

Lemma assign_nodes (fl : list bool) :
  forall (c : nat) (lines : list ViewItem) (n : Handle),
    length lines = length fl ->
    In n (nodesOf (assign fl c lines)) ->
    In n (nodesOf (pick false fl lines)) \/ (c <= n < c + count fl)%nat.
Proof.
  induction fl as [|b fl IH]; intros c lines n Hl H.
  - destruct lines; [contradiction | discriminate].
  - destruct lines as [|line rest]; [discriminate|]. injection Hl as Hl.
    destruct b; [rewrite count_true | rewrite count_false];
      cbn [assign pick Bool.eqb nodesOf flat_map] in *.
    + apply in_app_iff in H. destruct H as [H|H].
      * cbn in H. destruct H as [<-|[]]. right. lia.
      * destruct (IH (S c) rest n Hl H) as [P|P]; [now left | right; lia].
    + apply in_app_iff in H. destruct H as [H|H].
      * left. apply in_app_iff. now left.
      * destruct (IH c rest n Hl H) as [P|P]; [|now right].
        left. apply in_app_iff. now right.
Qed.

Lemma pick_nodes (want : bool) (fl : list bool) (lines : list ViewItem) :
  incl (nodesOf (pick want fl lines)) (nodesOf lines).
Proof. apply nodesOf_incl, pick_incl. Qed.

Lemma assign_NoDup (fl : list bool) :
  forall (c : nat) (lines : list ViewItem),
    length lines = length fl ->
    NoDup (nodesOf lines) ->
    Forall (fun n => (n < c)%nat) (nodesOf lines) ->
    NoDup (nodesOf (assign fl c lines)).
Proof.
  induction fl as [|b fl IH]; intros c lines Hl Nd Kn; [now destruct lines|].
  destruct lines as [|line rest]; [discriminate|]. injection Hl as Hl.
  cbn [nodesOf flat_map] in Nd, Kn. fold (nodesOf rest) in Nd, Kn.
  apply NoDup_app_parts in Nd. destruct Nd as (Nl & Nr & Dj).
  apply Forall_app in Kn. destruct Kn as (Kl & Kr).
  rewrite Forall_forall in Kl, Kr.
  destruct b; cbn [assign nodesOf flat_map].
  - change (NoDup (c :: nodesOf (assign fl (S c) rest))).
    apply NoDup_cons.
    + intros H. destruct (@assign_nodes fl (S c) rest _ Hl H) as [P|P]; [|lia].
      apply pick_nodes in P. specialize (Kr c P). lia.
    + apply IH; [exact Hl | exact Nr |].
      apply Forall_forall. intros n Hn. specialize (Kr n Hn). lia.
  - apply NoDup_app_parts. split; [exact Nl|]. split.
    + apply IH; [exact Hl | exact Nr | now apply Forall_forall].
    + intros n Hn H.
      destruct (@assign_nodes fl c rest _ Hl H) as [P|P].
      * apply pick_nodes in P. exact (Dj n Hn P).
      * specialize (Kl n Hn). lia.
Qed.

Lemma assign_known (fl : list bool) (c : nat) (lines : list ViewItem) :
  length lines = length fl ->
  Forall (fun n => (n < c)%nat) (nodesOf lines) ->
  Forall (fun n => (n < c + count fl)%nat) (nodesOf (assign fl c lines)).
Proof.
  intros Hl Kn. rewrite Forall_forall in *. intros n Hn.
  destruct (@assign_nodes fl c lines _ Hl Hn) as [P|P]; [|lia].
  apply pick_nodes in P. specialize (Kn n P). lia.
Qed.

Lemma pick_apart (fl : list bool) :
  forall (lines : list ViewItem) (n : Handle),
    NoDup (nodesOf lines) ->
    In n (nodesOf (pick false fl lines)) ->
    ~ In n (nodesOf (pick true fl lines)).
Proof.
  induction fl as [|b fl IH]; intros lines n Nd H; [contradiction|].
  destruct lines as [|line rest]; [contradiction|].
  cbn [nodesOf flat_map] in Nd. fold (nodesOf rest) in Nd.
  apply NoDup_app_parts in Nd. destruct Nd as (_ & Nr & Dj).
  destruct b; cbn [pick Bool.eqb nodesOf flat_map] in *.
  - intros T. apply in_app_iff in T. destruct T as [T|T].
    + apply (Dj n T). now apply pick_nodes in H.
    + exact (IH rest n Nr H T).
  - apply in_app_iff in H. destruct H as [H|H].
    + intros T. apply pick_nodes in T. exact (Dj n H T).
    + now apply IH.
Qed.

(** The lines marked invalid stand, after the new nodes have been handed
    out, on the node they had. *)
Lemma invalid_ready (items : list ViewItem) :
  forall c : nat,
    Forall (fun line => exists old, _domNode line = Some old
                                    /\ In old (nodesOf items))
      (pick true (map isInvalid items)
         (assign (map isNew items) c (map clean items))).
Proof.
  induction items as [|line rest IH]; intros c; [constructor|].
  assert (Tail : forall c',
             Forall (fun l0 => exists old, _domNode l0 = Some old
                                 /\ In old (nodesOf (line :: rest)))
               (pick true (map isInvalid rest)
                  (assign (map isNew rest) c' (map clean rest)))).
  { intros c'. eapply Forall_impl; [|apply IH].
    intros l0 (old & E & H). exists old. split; [exact E|].
    cbn [nodesOf flat_map]. apply in_app_iff. now right. }
  cbn [map]. unfold isNew at 1, isInvalid at 1.
  destruct (_isDirty line) eqn:D; cbn [andb].
  - destruct (_domNode line) as [n|] eqn:N;
      cbn [assign pick Bool.eqb].
    + constructor; [|apply Tail].
      exists n. split; [exact N|]. cbn [nodesOf flat_map].
      apply in_app_iff. left. unfold nodeOf. rewrite N. now left.
    + apply Tail.
  - cbn [assign pick Bool.eqb]. apply Tail.
Qed.

(** *** The finishing of a render pass returns *)

Lemma marks_of (f : ViewItem -> bool) (items : list ViewItem) (k : nat) :
  marked k (indicesWhere f 0 items) = nth k (map f items) false.
Proof.
  rewrite marked_indicesWhere. cbn. now rewrite Nat.sub_0_r.
Qed.

Lemma createNodes_slot (html : list LineHTML) (v : ListView) :
  _scrollDomNode (snd (createNodes html v)) = _scrollDomNode v.
Proof.
  apply (@createNodes_keeps (fun a b => _scrollDomNode b = _scrollDomNode a));
    intros; first [reflexivity | congruence].
Qed.

Lemma createNodes_full (html : list LineHTML) (v : ListView) :
  outcome (createNodes html v)
    (fun fresh v' =>
       fresh = seq (created v) (length html)
       /\ created v' = (created v + length html)%nat
       /\ sameLines v v'
       /\ _listItemsDomNode v' = _listItemsDomNode v
       /\ _scrollDomNode v' = _scrollDomNode v)
    (fun _ => False).
Proof.
  pose proof (createNodes_exact html v) as A.
  pose proof (createNodes_slot html v) as B.
  destruct (createNodes html v) as [[fresh|e] v']; simpl in *; [|exact A].
  destruct A as (A1 & A2 & A3 & A4). auto.
Qed.

Lemma finishRendering_sound (m : ViewModel) (tops : list Z) (v : ListView) :
  wellFormed v ->
  (length (_renderedItems v) <= length tops)%nat ->
  (forall k, (k < length (_renderedItems v))%nat ->
     0 <= Z.of_nat k + _renderedItemsStart v < len (_items m)) ->
  outcome (_finishRendering m false tops v)
    (fun _ v' =>
       wellFormed v'
       /\ _renderedItems v'
          = assign (map isInvalid (_renderedItems v))
              (created v + count (map isNew (_renderedItems v)))
              (assign (map isNew (_renderedItems v)) (created v)
                 (map clean (_renderedItems v)))
       /\ _renderedItemsStart v' = _renderedItemsStart v)
    (fun _ => False).
Proof.
  intros (Nd & Ch & Kn & Sl) Ht Hm.
  set (items := _renderedItems v) in *.
  set (flN := map isNew items). set (flI := map isInvalid items).
  set (c1 := created v) in *.
  assert (LN : length flN = length items) by apply length_map.
  assert (LI : length flI = length items) by apply length_map.
  assert (LC : length (map clean items) = length items) by apply length_map.
  unfold _finishRendering. unfold bind at 1, get; cbv beta iota.
  fold items.
  eapply outcome_bind.
  { apply (gather_returns m tops items [] _ v); cbn [length Nat.add app];
      auto. }
  cbn [length app wasNew newLinesHTML wasInvalid invalidLinesHTML Nat.add].
  intros g v1 (I1 & Wn & Wi & Ln & Li & S1 & C1 & Sc1 & K1).
  rewrite length_indicesWhere in Ln, Li. fold flN in Ln. fold flI in Li.
  (* the new lines *)
  apply outcome_bind with
    (Q1 := fun _ v3 =>
             _renderedItems v3 = assign flN c1 (map clean items)
             /\ (forall n, In n (_listItemsDomNode v) ->
                           In n (_listItemsDomNode v3))
             /\ (forall n, (c1 <= n < c1 + count flN)%nat ->
                           In n (_listItemsDomNode v3))
             /\ created v3 = (c1 + count flN)%nat
             /\ _scrollDomNode v3 = _scrollDomNode v
             /\ _renderedItemsStart v3 = _renderedItemsStart v).
  { destruct (wasNew g) as [|k0 ks] eqn:W.
    - assert (Z0 : count flN = O).
      { unfold flN. rewrite <- (length_indicesWhere isNew items 0), <- Wn.
        reflexivity. }
      cbn [ret outcome]. rewrite Z0, Nat.add_0_r, assign_none by exact Z0.
      rewrite C1. repeat split; auto. intros n Hn. lia.
    - rewrite <- W in Wn |- *.
      unfold bind at 1, get; cbv beta iota.
      eapply outcome_bind; [apply createNodes_full|].
      intros fresh v2 (F & C2 & S2 & D2 & Sc2).
      apply sameLines_fields in S2. destruct S2 as (I2 & R2 & _).
      unfold bind at 1, modify; cbv beta iota.
      unfold bind at 1, get; cbv beta iota.
      rewrite Ln in F, C2. rewrite K1 in F, C2. fold c1 in F, C2.
      match goal with
      | |- outcome (adopt _ _ (rev (_listItemsDomNode ?s)) ?s) _ _ =>
          assert (E2 : s = set_listItemsDomNode
                             (_listItemsDomNode v2 ++ fresh) v2)
            by (destruct (_listItemsDomNode v2); reflexivity);
          rewrite E2
      end.
      cbn [_listItemsDomNode set_listItemsDomNode].
      rewrite rev_app_distr, F, <- LN.
      eapply outcome_weaken;
        [apply (@adopt_returns (wasNew g) c1 (rev (_listItemsDomNode v2)) flN
                  (map clean items) []) | | auto];
        cbn [_renderedItems _renderedItemsStart _listItemsDomNode
             _scrollDomNode created set_listItemsDomNode].
      + now rewrite LC, LN.
      + rewrite I2, I1, app_nil_r. reflexivity.
      + intros k _. rewrite Wn. apply marks_of.
      + intros u v3 (A & B & C & D & E).
        rewrite app_nil_r in A. rewrite A, B, C, D, E.
        repeat split; try congruence.
        * intros n Hn. apply in_app_iff. left. rewrite D2, C1. exact Hn.
        * intros n Hn. apply in_app_iff. right. apply in_seq. lia. }
  intros [] v3 (I3 & Old3 & New3 & K3 & Sc3 & S3).
  set (items3 := assign flN c1 (map clean items)) in *.
  set (c2 := (c1 + count flN)%nat) in *.
  assert (L3 : length items3 = length flI)
    by (unfold items3; now rewrite length_assign, LC, LI).
  assert (Nd3 : NoDup (nodesOf items3)).
  { apply assign_NoDup; [now rewrite LC, LN | | ];
      rewrite nodesOf_clean; assumption. }
  assert (Kn3 : Forall (fun n => (n < c2)%nat) (nodesOf items3)).
  { apply assign_known; [now rewrite LC, LN|].
    rewrite nodesOf_clean. exact Kn. }
  assert (In3 : forall n, In n (nodesOf items3) ->
                          In n (_listItemsDomNode v3)).
  { intros n Hn.
    destruct (@assign_nodes flN c1 (map clean items) n
                ltac:(now rewrite LC, LN) Hn) as [P|P].
    - apply Old3, Ch. apply pick_nodes in P.
      now rewrite nodesOf_clean in P.
    - now apply New3. }
  assert (Sl3 : forall n, _scrollDomNode v = Some n ->
                          ~ In n (nodesOf items3)).
  { intros n Hn H. destruct (Sl n Hn) as (A & B).
    destruct (@assign_nodes flN c1 (map clean items) n
                ltac:(now rewrite LC, LN) H) as [P|P].
    - apply pick_nodes in P. rewrite nodesOf_clean in P. exact (A P).
    - fold c1 in B. lia. }
  (* the invalid lines *)
  destruct (wasInvalid g) as [|k0 ks] eqn:W.
  - assert (Z0 : count flI = O).
    { unfold flI. rewrite <- (length_indicesWhere isInvalid items 0), <- Wi.
      reflexivity. }
    cbn [ret outcome].
    split; [|split; [rewrite I3; symmetry; now apply assign_none | exact S3]].
    unfold wellFormed, sound. rewrite I3, K3, Sc3.
    split; [exact Nd3|]. split; [exact In3|]. split; [exact Kn3|].
    intros n Hn. split; [now apply Sl3|].
    destruct (Sl n Hn) as (_ & B). fold c1 in B. unfold c2. lia.
  - rewrite <- W in Wi |- *.
    eapply outcome_bind; [apply createNodes_full|].
    intros huge v4 (F & C4 & S4 & D4 & Sc4).
    apply sameLines_fields in S4. destruct S4 as (I4 & R4 & _).
    rewrite Li in F, C4. rewrite K3 in F, C4. cbn [Nat.add] in F, C4.
    rewrite <- (app_nil_r huge), F, <- LI.
    change (seq 0 (length flI)) with (seq (length (@nil ViewItem)) (length flI)).
    eapply outcome_weaken;
      [apply (@swap_returns (wasInvalid g) flI [] items3 c2 [] v4) | | auto].
    + exact L3.
    + now rewrite I4, I3.
    + intros k _. cbn [length Nat.add]. rewrite Wi. apply marks_of.
    + exact Nd3.
    + exact Kn3.
    + pose proof (invalid_ready items c1) as R. fold flI flN items3 in R.
      eapply Forall_impl; [|exact R].
      intros l0 (old & E & H). exists old. split; [exact E|].
      rewrite D4. apply Old3, Ch. exact H.
    + intros u v5 (I5 & P1 & P2 & S5 & Sc5 & K5). cbn [app] in I5.
      split; [|split; [exact I5 | congruence]].
      unfold wellFormed, sound. rewrite I5, K5, Sc5, Sc4, Sc3, C4.
      split; [|split; [|split]].
      * now apply assign_NoDup.
      * intros n Hn.
        destruct (@assign_nodes flI c2 items3 n L3 Hn) as [P|P].
        -- apply P1.
           ++ rewrite D4. apply In3. now apply pick_nodes in P.
           ++ now apply pick_apart.
        -- now apply P2.
      * now apply assign_known.
      * intros n Hn. split.
        -- intros H.
           destruct (@assign_nodes flI c2 items3 n L3 H) as [P|P].
           ++ apply pick_nodes in P. exact (Sl3 n Hn P).
           ++ destruct (Sl n Hn) as (_ & B). fold c1 in B. unfold c2 in P. lia.
        -- destruct (Sl n Hn) as (_ & B). fold c1 in B. unfold c2. lia.
Qed.

(** *** A pass on a well-formed view *)

Lemma nodesOf_adopted (c N : nat) :
  forall q : nat, nodesOf (map (adopted c) (seq q N)) = seq (c + q) N.
Proof.
  induction N as [|N IH]; intros q; [reflexivity|].
  cbn [seq map nodesOf flat_map]. fold (nodesOf (map (adopted c) (seq (S q) N))).
  rewrite IH. cbn. f_equal. f_equal. lia.
Qed.

Lemma wellFormed_shape (v v' : ListView) :
  shape v' = shape v -> wellFormed v -> wellFormed v'.
Proof.
  unfold shape. intros [= I _ C S _ K]. unfold wellFormed. rewrite I.
  now apply sound_fields.
Qed.

(** A render pass on a well-formed view, for a range inside the model,
    does not throw and keeps the view well formed. *)
Lemma render_sound (m : ViewModel) (renderData : IRenderData) (now : Z)
    (v : ListView) :
  wellFormed v -> inModel m renderData ->
  outcome (_render m renderData now v)
    (fun _ v' => wellFormed v') (fun _ => False).
Proof.
  intros W (Hs & He).
  rewrite render_blocks. unfold bind at 1, get; cbv beta iota zeta.
  set (startItem := rd_startIndex renderData) in *.
  set (tops := rd_tops renderData) in *.
  set (endItem := startItem + len tops - 1).
  destruct (noOverlap renderData now v).
  - (* a new window *)
    unfold bind at 1, modify; cbv beta iota.
    unfold bind at 1; cbv beta iota.
    set (v1 := set_renderedItems _ (set_renderedItemsStart startItem v)).
    eapply outcome_bind.
    + apply (@finishRendering_fresh m tops v1).
      * unfold v1. cbn [_renderedItems set_renderedItems].
        rewrite newLines_repeat. f_equal. unfold endItem. lia.
      * intros i Hi. apply at_present. unfold v1.
        cbn [_renderedItemsStart set_renderedItems set_renderedItemsStart].
        lia.
    + cbv zeta. intros [] v2 (I2 & S2 & K2 & _ & C2 & C2').
      unfold modify. cbn [outcome]. unfold wellFormed, sound.
      cbn [_renderedItems _listItemsDomNode created _scrollDomNode
           set_scrollDomNode].
      rewrite I2, nodesOf_adopted, Nat.add_0_r, K2.
      split; [apply seq_NoDup|]. split; [|split; [|discriminate]].
      * destruct (length tops) as [|n] eqn:En; [intros x []|].
        rewrite C2 by discriminate. apply incl_refl.
      * apply Forall_forall. intros n Hn. apply in_seq in Hn. lia.
  - (* the window is moved *)
    eapply outcome_bind.
    { apply renderUntouchedLines_returns. intros i Hi. lia. }
    intros [] s1 Sh1.
    eapply outcome_bind.
    { apply (alignStart_sound _ _ Sh1). now apply (wellFormed_shape Sh1). }
    intros [] s2 W2.
    unfold bind at 1, modify; cbv beta iota.
    unfold bind at 1, get; cbv beta iota.
    set (v2 := set_renderedItemsStart startItem s2).
    assert (W2' : wellFormed v2) by exact W2.
    assert (He2 : _renderedItemsStart v2 - 1 <= endItem)
      by (unfold v2, endItem; cbn; lia).
    eapply outcome_bind.
    { eapply outcome_weaken;
        [apply (@outcome_both _ _ _ _ _ _ _ (alignEnd_sound endItem W2')
                  (@alignEnd_length endItem v2 He2))
        | intros a s H; exact H | intros s (F & _); exact F]. }
    intros [] s3 (W3 & S3 & L3).
    unfold v2 in S3, L3. cbn [_renderedItemsStart set_renderedItemsStart] in S3, L3.
    eapply outcome_weaken;
      [apply finishRendering_sound; [exact W3 | unfold endItem in L3; lia |]
      | intros u s4 (W4 & _); exact W4 | auto].
    intros k Hk. rewrite S3. unfold endItem in L3. lia.
Qed.

(** X20.  A render pass on a well-formed view, for a range that lies
    inside the model, returns, and the view is well formed afterwards: the
    lines of the window stand on nodes of their own, every one a child of
    the surface and made by it, and the retained node is none of them. *)
Theorem render_returns (m : ViewModel) (renderData : IRenderData) (now : Z)
    (v : ListView) :
  wellFormed v -> inModel m renderData ->
  exists v', _render m renderData now v = (Normal tt, v') /\ wellFormed v'.
Proof.
  intros W H. pose proof (render_sound now W H) as O.
  destruct (_render m renderData now v) as [[[]|e] v']; [|contradiction].
  now exists v'.
Qed.

Lemma scrolledView_wellFormed : wellFormed scrolledView.
Proof.
  unfold wellFormed, sound. cbn. split; [|split; [|split]].
  - repeat constructor; cbn; intuition discriminate.
  - intros n Hn. cbn in Hn. intuition (subst; cbn; auto).
  - repeat constructor; lia.
  - intros n [= <-]. split; [|lia]. cbn. intuition discriminate.
Qed.

Lemma render_returns_witness :
  exists v',
    _render longModel oneDown 5000 scrolledView = (Normal tt, v')
    /\ wellFormed v'.
Proof.
  apply render_returns; [exact scrolledView_wellFormed|].
  split; vm_compute; discriminate.
Defined.

(** ** The view hears a change on a well-formed window *)

Lemma nodesOf_same_nodes (a : list ViewItem) :
  forall b : list ViewItem,
    map _domNode a = map _domNode b -> nodesOf a = nodesOf b.
Proof.
  induction a as [|x a IH]; intros [|y b] H; try discriminate;
    [reflexivity|].
  cbn [map] in H. injection H as Hx H.
  cbn [nodesOf flat_map]. unfold nodeOf. rewrite Hx. f_equal. now apply IH.
Qed.

Lemma in_removeAll (gone : list Handle) :
  forall (l : list Handle) (n : Handle),
    ~ In n gone -> In n l -> In n (removeAll gone l).
Proof.
  induction gone as [|g gone IH]; intros l n N H; [exact H|].
  cbn [removeAll fold_left]. apply IH.
  - intros G. apply N. now right.
  - apply in_without; [|exact H]. intros ->. apply N. now left.
Qed.

Lemma sound_removeAll (live gone : list Handle) (v : ListView) :
  sound live v ->
  (forall n, In n live -> ~ In n gone) ->
  sound live
    (set_listItemsDomNode (removeAll gone (_listItemsDomNode v)) v).
Proof.
  intros (Nd & Ch & Kn & Sl) Dj.
  split; [exact Nd|]. split; [|split; [exact Kn | exact Sl]].
  intros n Hn. cbn. apply in_removeAll; [now apply Dj | now apply Ch].
Qed.

Lemma NoDup_app_middle {A} (a g c : list A) :
  NoDup (a ++ g ++ c) ->
  NoDup (a ++ c) /\ forall x, In x (a ++ c) -> ~ In x g.
Proof.
  intros H. apply NoDup_app_parts in H. destruct H as (Na & Ngc & D1).
  apply NoDup_app_parts in Ngc. destruct Ngc as (Ng & Nc & D2).
  split.
  - apply NoDup_app_parts. split; [exact Na|]. split; [exact Nc|].
    intros x Hx Hc. apply (D1 x Hx). apply in_app_iff. now right.
  - intros x Hx Hg. apply in_app_iff in Hx. destruct Hx as [Hx|Hx].
    + apply (D1 x Hx). apply in_app_iff. now left.
    + exact (D2 x Hg Hx).
Qed.

Lemma lineNodes_rev (items : list ViewItem) (l : list Z) :
  lineNodes items (rev l) = rev (lineNodes items l).
Proof.
  unfold lineNodes. induction l as [|i l IH]; [reflexivity|].
  cbn [rev flat_map]. rewrite flat_map_app, IH, rev_app_distr.
  cbn [flat_map]. rewrite app_nil_r. f_equal.
  destruct (at_ items i) as [line|]; [|reflexivity].
  now destruct (_domNode line).
Qed.

Lemma wellFormed_start (x : Z) (v : ListView) :
  wellFormed v -> wellFormed (set_renderedItemsStart x v).
Proof. intros H. exact H. Qed.

Lemma markChanged_sound (e : ListViewItemsChangedEvent.t) (v : ListView) :
  wellFormed v ->
  exists v1,
    markChanged e v = (Normal tt, v1)
    /\ wellFormed v1
    /\ _renderedItemsStart v1 = _renderedItemsStart v.
Proof.
  intros W. destruct (markChanged_marks e v) as (items' & M & L & N).
  exists (set_renderedItems items' v). split; [exact M|].
  split; [|reflexivity].
  apply (wellFormed_lines (v := v)); try reflexivity; [|exact W].
  cbn [_renderedItems set_renderedItems].
  apply nodesOf_same_nodes. apply nth_error_ext. intros k.
  rewrite !nth_error_map, N.
  destruct (nth_error (_renderedItems v) k) as [line|]; [|reflexivity].
  cbn [option_map]. f_equal. unfold changedAt.
  now destruct (_ && _).
Qed.

Lemma adjustStart_total (e : ListViewItemsChangedEvent.t) (v s : ListView) :
  exists x, adjustStart e v s = (Normal tt, set_renderedItemsStart x s).
Proof.
  unfold adjustStart. cbv zeta.
  destruct (_ <? _renderedItemsStart v).
  - destruct (_ <? _renderedItemsStart v); eexists; reflexivity.
  - exists (_renderedItemsStart s). now rewrite set_renderedItemsStart_same.
Qed.

Lemma removeDeleted_sound (e : ListViewItemsChangedEvent.t)
    (v s : ListView) :
  _renderedItems s = _renderedItems v ->
  wellFormed s ->
  exists s',
    removeDeleted e v s = (Normal tt, s') /\ wellFormed s'.
Proof.
  intros I W. unfold removeDeleted. cbv zeta.
  set (from := Z.max (ListViewItemsChangedEvent.deleteStart e
                      - _renderedItemsStart v) 0).
  set (to := Z.min (ListViewItemsChangedEvent.deleteStart e
                    + ListViewItemsChangedEvent.deleteCnt e - 1
                    - _renderedItemsStart v)
                   (len (_renderedItems v) - 1)).
  destruct (Z.leb_spec from to) as [Hle|Hgt]; [|now exists s].
  assert (Hf : 0 <= from) by (unfold from; lia).
  assert (Ht : to < len (_renderedItems s)) by (rewrite I; unfold to; lia).
  set (items := _renderedItems s) in *.
  set (n := Z.to_nat (to - from + 1)).
  set (A := firstn (Z.to_nat from) items).
  set (G := firstn n (skipn (Z.to_nat from) items)).
  set (C := skipn n (skipn (Z.to_nat from) items)).
  assert (Split : items = A ++ G ++ C)
    by (unfold A, G, C; now rewrite !firstn_skipn).
  assert (Gone : lineNodes items (fromTo from to) = nodesOf G).
  { pose proof (@lineNodes_range items n (Z.to_nat from)
                  ltac:(unfold n; lia)) as R.
    replace (Z.of_nat (Z.to_nat from)) with from in R by lia.
    replace (from + Z.of_nat n - 1) with to in R by (unfold n; lia).
    exact R. }
  pose proof W as (Nd & Ch & Kn & Sl). fold items in Nd, Ch, Kn, Sl.
  rewrite Split, !nodesOf_app in Nd.
  destruct (NoDup_app_middle _ _ _ Nd) as (Nd' & Dj).
  assert (Sub : incl (nodesOf A ++ nodesOf C) (nodesOf items)).
  { rewrite Split, !nodesOf_app. intros x Hx.
    apply in_app_iff in Hx. apply in_app_iff.
    destruct Hx; [now left | right; apply in_app_iff; now right]. }
  assert (SubG : incl (nodesOf G) (nodesOf items)).
  { rewrite Split, !nodesOf_app. intros x Hx.
    apply in_app_iff. right. apply in_app_iff. now left. }
  rewrite (@bind_normal _ _ _ _ _ _ _ _
             (@removeLoop (fromTo from to) s
                ltac:(intros i Hi; apply in_fromTo in Hi; fold items; lia)
                ltac:(fold items; rewrite Gone;
                      apply NoDup_app_parts in Nd;
                      destruct Nd as (_ & Nd2 & _);
                      apply NoDup_app_parts in Nd2; apply Nd2)
                ltac:(fold items; rewrite Gone;
                      eapply incl_tran; [exact SubG | exact Ch]))).
  fold items. rewrite Gone. unfold modify.
  eexists. split; [reflexivity|].
  unfold wellFormed.
  cbn [_renderedItems set_renderedItems set_listItemsDomNode].
  assert (Items' : spliceOut items from (to - from + 1) = A ++ C).
  { unfold spliceOut. rewrite relativeIndex_nonneg by lia.
    replace (Z.min from (len items)) with from by lia.
    replace (Z.min (Z.max (to - from + 1) 0) (len items - from))
      with (to - from + 1) by lia.
    unfold A, C. f_equal. rewrite skipn_skipn. f_equal. unfold n. lia. }
  fold items from to. rewrite Items', nodesOf_app.
  apply (sound_fields
           (v := set_listItemsDomNode
                   (removeAll (nodesOf G) (_listItemsDomNode s)) s));
    try reflexivity.
  apply sound_removeAll; [|exact Dj].
  apply sound_weaken with (live := nodesOf items); [exact Nd' | exact Sub|].
  exact W.
Qed.

Lemma nodesOf_repeat_new (n : nat) : nodesOf (repeat _createLine n) = [].
Proof. induction n as [|n IH]; [reflexivity | exact IH]. Qed.

Lemma placeInserted_sound (e : ListViewItemsChangedEvent.t) (v : ListView) :
  wellFormed v ->
  exists v', placeInserted e v = (Normal tt, v') /\ wellFormed v'.
Proof.
  intros W. unfold placeInserted. unfold bind at 1, get. cbv beta iota zeta.
  set (at0 := ListViewItemsChangedEvent.insertStart e).
  set (ni := len (ListViewItemsChangedEvent.inserted e)).
  set (rs := _renderedItemsStart v).
  set (items := _renderedItems v) in *.
  destruct (Z.leb_spec at0 rs); [eexists; split; [reflexivity | exact W]|].
  destruct (Z.geb_spec at0 (rs + len items));
    [eexists; split; [reflexivity | exact W]|].
  set (a := Z.min (at0 - rs) (len items - 1)).
  set (t := Z.min (at0 + ni - 1 - rs) (len items - 1)).
  destruct (Z.leb_spec a t) as [Hle|Hgt];
    [|eexists; split; [reflexivity | exact W]].
  assert (Ha : 0 < a <= len items - 1) by (unfold a; lia).
  assert (Ht : t <= len items - 1) by (unfold t; lia).
  set (cnt := Z.to_nat (t - a + 1)).
  rewrite (@bind_normal _ _ _ _ _ _ _ _
             (@insertLoop cnt a t v ltac:(reflexivity)
                ltac:(fold items; lia))).
  fold items.
  set (keep := firstn (Z.to_nat a) items ++ repeat _createLine cnt
               ++ firstn (length items - Z.to_nat a - cnt)
                    (skipn (Z.to_nat a) items)).
  set (drop := skipn (length items - Z.to_nat a - cnt)
                 (skipn (Z.to_nat a) items)).
  set (items1 := firstn (Z.to_nat a) items ++ repeat _createLine cnt
                 ++ skipn (Z.to_nat a) items).
  assert (E1 : items1 = keep ++ drop).
  { unfold items1, keep, drop. rewrite <- !app_assoc.
    now rewrite firstn_skipn. }
  assert (Lk : length keep = length items).
  { unfold keep. rewrite !length_app, repeat_length, !length_firstn,
      length_skipn. unfold cnt. lia. }
  assert (Ld : length drop = cnt).
  { unfold drop. rewrite !length_skipn. unfold cnt. lia. }
  assert (L1 : length items1 = (length items + cnt)%nat)
    by (rewrite E1, length_app; lia).
  assert (Nodes1 : nodesOf items1 = nodesOf items).
  { unfold items1. rewrite !nodesOf_app, nodesOf_repeat_new. cbn [app].
    now rewrite <- nodesOf_app, firstn_skipn. }
  assert (Gone1 : lineNodes items1
                    (rev (fromTo (len items1 - Z.of_nat cnt)
                                 (len items1 - 1)))
                  = rev (nodesOf drop)).
  { rewrite lineNodes_rev. f_equal.
    pose proof (@lineNodes_range items1 cnt (length keep)
                  ltac:(rewrite L1, Lk; lia)) as R.
    replace (Z.of_nat (length keep)) with (len items1 - Z.of_nat cnt) in R
      by (rewrite L1, Lk; lia).
    replace (len items1 - Z.of_nat cnt + Z.of_nat cnt - 1)
      with (len items1 - 1) in R by lia.
    rewrite R, E1. rewrite skipn_app, skipn_all, Nat.sub_diag.
    cbn [app skipn]. rewrite firstn_all2 by lia. reflexivity. }
  pose proof W as (Nd & Ch & Kn & Sl). fold items in Nd, Ch, Kn, Sl.
  assert (NdK : NoDup (nodesOf keep ++ nodesOf drop))
    by (rewrite <- nodesOf_app, <- E1, Nodes1; exact Nd).
  pose proof NdK as NdK'. apply NoDup_app_parts in NdK'.
  destruct NdK' as (Nk & Ndr & Dj).
  assert (replaceCount : t - a + 1 - 1 = Z.of_nat cnt - 1)
    by (unfold cnt; lia).
  rewrite replaceCount.
  rewrite (@popLoop cnt (fromTo 0 (Z.of_nat cnt - 1))
             (set_renderedItems items1 v));
    cbn [_renderedItems set_renderedItems _listItemsDomNode].
  - eexists. split; [reflexivity|].
    unfold wellFormed.
    cbn [_renderedItems set_renderedItems set_listItemsDomNode].
    rewrite Gone1, L1.
    replace (length items + cnt - cnt)%nat with (length keep) by lia.
    rewrite E1, firstn_app, firstn_all, Nat.sub_diag. cbn [firstn].
    rewrite app_nil_r.
    apply (sound_fields
             (v := set_listItemsDomNode
                     (removeAll (rev (nodesOf drop)) (_listItemsDomNode v))
                     v)); try reflexivity.
    apply sound_removeAll.
    + apply sound_weaken with (live := nodesOf items); [exact Nk | |exact W].
      rewrite <- Nodes1, E1, nodesOf_app. intros x Hx. apply in_app_iff.
      now left.
    + intros x Hx Hr. apply in_rev in Hr. exact (Dj x Hx Hr).
  - rewrite length_fromTo. lia.
  - rewrite L1. lia.
  - rewrite Gone1. now apply NoDup_rev.
  - rewrite Gone1. intros x Hx. apply in_rev in Hx. apply Ch.
    rewrite <- Nodes1, E1, nodesOf_app. apply in_app_iff. now right.
Qed.

(** X21.  On a well-formed view [onItemsChanged] returns, whatever the
    event, and the view is well formed afterwards. *)
Theorem items_changed_returns (e : ListViewItemsChangedEvent.t)
    (v : ListView) :
  wellFormed v ->
  exists v', View_onItemsChanged e v = (Normal tt, v') /\ wellFormed v'.
Proof.
  intros W. rewrite View_onItemsChanged_blocks.
  destruct (markChanged_sound e W) as (v1 & M & W1 & _).
  rewrite (@bind_normal _ _ _ _ _ _ _ _ M).
  unfold bind at 1, get. cbv beta iota.
  destruct (adjustStart_total e v1 v1) as (x & A).
  rewrite (@bind_normal _ _ _ _ _ _ _ _ A).
  destruct (@removeDeleted_sound e v1 (set_renderedItemsStart x v1)
              eq_refl (wellFormed_start x W1)) as (v3 & D & W3).
  rewrite (@bind_normal _ _ _ _ _ _ _ _ D).
  now apply placeInserted_sound.
Qed.

Lemma items_changed_returns_witness :
  exists v',
    View_onItemsChanged (heardFor 2 1 2 [25]) scrolledView = (Normal tt, v')
    /\ wellFormed v'.
Proof.
  apply items_changed_returns. exact scrolledView_wellFormed.
Defined.

(** ** Frames of a widget return *)

Section ViewThroughFlush.

Variable f : ListViewItemsChangedEvent.t -> ListView -> ListView.

(** A property of the view that hearing a change keeps, and that does not
    depend on the handle of the rendering callback. *)
Variable P : ListView -> Prop.
Hypothesis P_frame : forall x v, P v -> P (set_renderAnimationFrame x v).
Hypothesis P_hear : forall e v, P v -> P (f e v).

Lemma scheduleRender_view (w : Widget) :
  P (view w) -> P (view (_scheduleRender w)).
Proof.
  intros H. unfold _scheduleRender.
  destruct (_renderAnimationFrame (view w)); [exact H|].
  destruct (AnimationFrames.request (frames w)). cbn [view]. now apply P_frame.
Qed.

Lemma perform_view (cs : list (ContextCall Who))
    (cw : ListViewContext Who * Widget) :
  P (view (snd cw)) ->
  P (view (snd (fold_left (perform sameWho _scheduleRender) cs cw))).
Proof.
  revert cw. induction cs as [|c cs IH]; intros cw H; cbn [fold_left];
    [exact H|].
  apply IH. destruct c; cbn [perform snd emitSoon emitManySoon];
    first [exact H | now apply scheduleRender_view].
Qed.

Lemma invoke_view (what : ListenerCall Who) (m : Method Who Widget)
    (s : Flushing Who Widget) :
  P (view (fst (m (world s)))) ->
  P (view (world (invoke sameWho _scheduleRender what m s))).
Proof.
  intros H. unfold invoke. destruct (m (world s)) as [w cs]. cbn [world].
  now apply perform_view.
Qed.

Lemma emitAll_view {A} (g : A -> ListViewEvent) (xs : list A)
    (cw : Ctx * Widget) :
  P (view (snd cw)) ->
  P (view (snd (fold_left (fun cw x => ListView_emitSoon (g x) cw) xs cw))).
Proof.
  revert cw. induction xs as [|x xs IH]; intros cw H; cbn [fold_left];
    [exact H|].
  apply IH. unfold ListView_emitSoon, emitSoon. cbn [snd].
  now apply scheduleRender_view.
Qed.

(** The view after a flush has the property if the view before had it. *)
Lemma flush_view (fuel : nat) (c : Ctx) (w : Widget)
    (s : Flushing Who Widget) :
  P (view w) -> ListView_flush f fuel c w = Some s -> P (view (world s)).
Proof.
  intros Q. unfold ListView_flush, flush.
  set (Pf := fun s : Flushing Who Widget => P (view (world s))).
  match goal with
  | |- match drain _ _ _ _ _ _ ?s1 with _ => _ end = _ -> _ =>
      assert (H1 : Pf s1)
  end.
  { apply (each_invariant sameWho _scheduleRender Pf
             (@BeforeEventsDispatch Who) onBeforeEventsDispatch).
    - intros h s0 H. now apply invoke_view.
    - exact Q. }
  destruct (drain _ _ _ _ fuel _ _) as [s2|] eqn:Dr; [|discriminate].
  intros [= <-].
  assert (H2 : Pf s2).
  { eapply (drain_invariant sameWho _scheduleRender onDimensionChanged
              (onItemsChanged f) Pf); [ | exact H1 | exact Dr].
    intros s0 e rest Q0 _. unfold Pf in *.
    destruct e as [d | y | i |]; cbn [dispatch]; try exact Q0.
    - apply (each_invariant sameWho _scheduleRender Pf
               (fun h => DimensionChanged h d)
               (fun h => onDimensionChanged h d)); [|exact Q0].
      intros h s1 H. apply invoke_view.
      destruct h; cbn [onDimensionChanged fst]; [exact H|].
      now destruct (ListViewLayout.onDimensionChanged d (layout (world s1))).
    - apply (each_invariant sameWho _scheduleRender Pf
               (fun h => ItemsChanged h i)
               (fun h => onItemsChanged f h i)); [|exact Q0].
      intros h s1 H. apply invoke_view.
      destruct h; cbn [onItemsChanged fst view set_view set_layout];
        [now apply P_hear | exact H]. }
  apply (each_invariant sameWho _scheduleRender Pf
           (@AfterEventsDispatch Who) onAfterEventsDispatch); [|exact H2].
  intros h s1 H. apply invoke_view.
  destruct h; cbn [onAfterEventsDispatch fst]; [exact H|].
  now destruct (ListViewLayout.onAfterEventsDispatch (layout (world s1))).
Qed.

End ViewThroughFlush.

Lemma viewHears_wellFormed (e : ListViewItemsChangedEvent.t) (v : ListView) :
  wellFormed v -> wellFormed (viewHears e v).
Proof.
  intros W. unfold viewHears. rewrite View_onItemsChanged_blocks.
  destruct (markChanged_sound e W) as (v1 & M & W1 & _).
  rewrite (@bind_normal _ _ _ _ _ _ _ _ M).
  unfold bind at 1, get. cbv beta iota.
  destruct (adjustStart_total e v1 v1) as (x & A).
  rewrite (@bind_normal _ _ _ _ _ _ _ _ A).
  destruct (@removeDeleted_sound e v1 (set_renderedItemsStart x v1)
              eq_refl (wellFormed_start x W1)) as (v3 & D & W3).
  rewrite (@bind_normal _ _ _ _ _ _ _ _ D).
  destruct (placeInserted_sound e W3) as (v4 & I4 & W4).
  now rewrite I4.
Qed.

Lemma wellFormed_frame (x : option Handle) (v : ListView) :
  wellFormed v -> wellFormed (set_renderAnimationFrame x v).
Proof. intros H. exact H. Qed.

(** *** The range of the render data *)

Lemma indexOfFrom_bounds (vs : list Z) :
  forall y i,
    i <= PrefixSumComputer.index (PrefixSumComputer.indexOfFrom vs y i)
      <= i + Z.of_nat (length vs - 1).
Proof.
  induction vs as [|v rest IH]; intros y i; cbn [PrefixSumComputer.indexOfFrom].
  - cbn. lia.
  - destruct rest as [|v' rest']; [cbn; lia|].
    destruct (y <? v); [cbn; lia|].
    specialize (IH (y - v) (i + 1)). cbn [length] in *. lia.
Qed.

Lemma length_collectTops (n : nat) (p : PrefixSumComputer.t) :
  forall i off off2,
    (length (ListViewLayout.collectTops n p i off off2) <= n)%nat.
Proof.
  induction n as [|n IH]; intros i off off2; cbn [ListViewLayout.collectTops];
    [cbn; lia|].
  destruct (off >? off2); cbn [length]; [lia|].
  specialize (IH (i + 1) (off + PrefixSumComputer.getValue p i) off2). lia.
Qed.

(** The range that [getRenderData] returns lies inside the index. *)
Lemma getRenderData_inModel (m : ViewModel) (l : ListViewLayout.t) :
  PrefixSumComputer.values (ListViewLayout._layoutData l) = getAllHeights m ->
  inModel m (ListViewLayout.getRenderData l).
Proof.
  intros E. unfold inModel, ListViewLayout.getRenderData.
  cbn [rd_startIndex rd_tops].
  unfold PrefixSumComputer.getIndexOf, PrefixSumComputer.getCount.
  rewrite E.
  pose proof (indexOfFrom_bounds (getAllHeights m)
                (Scrollable.scrollTop (ListViewLayout._scrollable l)) 0) as B.
  set (startIndex := PrefixSumComputer.index _) in *.
  match goal with
  | |- context [ListViewLayout.collectTops ?n ?p ?i ?o ?o2] =>
      pose proof (length_collectTops n p i o o2) as C
  end.
  rewrite length_getAllHeights in *. split; lia.
Qed.

(** *** The runs of a widget whose view is the one of the source *)

(** A frame on a widget that is in step with its model and whose view is
    well formed: the render pass returns and the view stays well formed. *)
Lemma onFrame_sound (fuel : nat) (now : Z) (c : Ctx) (w : Widget)
    (r : Completion unit) (cw : Ctx * Widget) :
  _listeners c = [TheView; TheLayout] ->
  PrefixSumComputer.values
    (ListViewLayout._layoutData (replay (_events c) (layout w)))
  = getAllHeights (model w) ->
  wellFormed (view w) ->
  onFrame viewHears fuel now (c, w) = Some (r, cw) ->
  r = Normal tt /\ wellFormed (view (snd cw)).
Proof.
  intros B Mi W. unfold onFrame. cbn [fst snd].
  destruct (ListView_flush _ _ _ _) as [fl|] eqn:F; [|discriminate].
  destruct (@flush_mirrors viewHears _ _ _ _ B F) as (_ & Mo & D & _).
  cbn [model layout set_view] in Mo, D.
  assert (Wf : wellFormed (view (world fl))).
  { refine (@flush_view viewHears wellFormed (@wellFormed_frame)
              (@viewHears_wellFormed) fuel c _ fl _ F).
    exact W. }
  assert (In : inModel (model (world fl))
                 (ListViewLayout.getRenderData (layout (world fl)))).
  { apply getRenderData_inModel. rewrite D, Mo. exact Mi. }
  pose proof (render_sound now Wf In) as O.
  destruct (_render _ _ _ _) as [[[]|e] v']; [|contradiction].
  intros [= <- <-]. split; [reflexivity | exact O].
Qed.

Lemma act_wellFormed (a : Action) (s s' : System) :
  inStep s ->
  (subscribed s = true -> wellFormed (view (widget s))) ->
  act viewHears a s = Some s' ->
  subscribed s' = true -> wellFormed (view (widget s')).
Proof.
  intros Hs Hw.
  destruct a as [start del items | d | y | h fuel now |]; unfold act.
  - cbv zeta.
    destruct (subscribed s) eqn:Sub; intros [= <-]; [|discriminate].
    intros _. cbn [widget].
    apply (@emitAll_view wellFormed (@wellFormed_frame) _
             (fun e => ItemsChangedEvent (ListViewItemsChangedEvent.new e))).
    cbn [snd view set_model]. now apply Hw.
  - intros [= <-]. cbn [widget subscribed]. intros Sub.
    unfold acceptDimension, ListView_emitSoon, emitSoon. cbn [snd].
    apply (@scheduleRender_view wellFormed (@wellFormed_frame)). now apply Hw.
  - destruct (Scrollable.setScrollTop _ _) as [sc evs].
    intros [= <-]. cbn [widget subscribed]. intros Sub.
    apply (@emitAll_view wellFormed (@wellFormed_frame) _ ScrollEvent).
    cbn [snd view set_layout]. now apply Hw.
  - destruct (existsb _ _); [|discriminate].
    destruct (onFrame _ _ _ _) as [[r cw]|] eqn:F; [|discriminate].
    intros [= <-]. cbn [widget subscribed]. intros Sub.
    destruct (Hs Sub) as (B & Mi).
    refine (proj2 (@onFrame_sound fuel now _ _ r cw _ _ _ F));
      [exact B | exact Mi | exact (Hw Sub)].
  - intros [= <-]. discriminate.
Qed.

Lemma run_wellFormed (actions : list Action) (s s' : System) :
  inStep s ->
  (subscribed s = true -> wellFormed (view (widget s))) ->
  validRun viewHears actions s ->
  run viewHears actions s = Some s' ->
  subscribed s' = true -> wellFormed (view (widget s')).
Proof.
  revert s. induction actions as [|a actions IH]; intros s Hs Hw V; simpl.
  - intros [= <-]. exact Hw.
  - destruct V as (Va & V).
    destruct (act viewHears a s) as [s1|] eqn:E; [|discriminate].
    apply IH; [ | | exact V].
    + eapply act_inStep; eauto.
    + eapply act_wellFormed; eauto.
Qed.

Lemma initial_wellFormed : wellFormed ListView_initial.
Proof.
  unfold wellFormed, sound. cbn. split; [constructor|].
  split; [intros x []|]. split; [constructor | discriminate].
Qed.

Lemma setModel_wellFormed (dimension : IDimension) (m : ViewModel) :
  wellFormed (view (widget (setModel dimension m))).
Proof.
  unfold setModel. cbn [widget].
  apply (@scheduleRender_view wellFormed (@wellFormed_frame)).
  unfold acceptDimension, ListView_emitSoon, emitSoon. cbn [snd].
  apply (@scheduleRender_view wellFormed (@wellFormed_frame)).
  exact initial_wellFormed.
Qed.

(** X22.  While a widget listens to its model and the splices are valid,
    its view is well formed in every state it reaches, and every frame
    runs to its end without throwing: the dispatch cycle ends, the render
    pass returns, and the view is well formed afterwards. *)
Theorem frames_return (dimension : IDimension) (m : ViewModel)
    (actions : list Action) (s : System) :
  run viewHears actions (setModel dimension m) = Some s ->
  validRun viewHears actions (setModel dimension m) ->
  subscribed s = true ->
  wellFormed (view (widget s))
  /\ forall h now,
       let w := {| model := model (widget s); view := view (widget s);
                   layout := layout (widget s);
                   frames := AnimationFrames.retire h (frames (widget s)) |} in
       (exists fuel cw,
           onFrame viewHears fuel now (context s, w) = Some (Normal tt, cw))
       /\ forall fuel r cw,
            onFrame viewHears fuel now (context s, w) = Some (r, cw) ->
            r = Normal tt /\ wellFormed (view (snd cw)).
Proof.
  intros Hrun V Sub.
  assert (W : wellFormed (view (widget s))).
  { apply (@run_wellFormed actions (setModel dimension m) s); auto.
    - apply setModel_inStep.
    - intros _. apply setModel_wellFormed. }
  destruct (@run_inStep viewHears actions _ s
              (@setModel_inStep dimension m) V Hrun Sub) as (B & Mi).
  split; [exact W|]. intros h now w.
  assert (Sound : forall fuel r cw,
             onFrame viewHears fuel now (context s, w) = Some (r, cw) ->
             r = Normal tt /\ wellFormed (view (snd cw))).
  { intros fuel r cw F.
    refine (@onFrame_sound fuel now _ _ r cw _ _ _ F);
      [exact B | exact Mi | exact W]. }
  split; [|exact Sound].
  destruct (flush_returns viewHears (context s)
              (set_view (set_renderAnimationFrame None (view w)) w))
    as (fuel & fl & F).
  destruct (onFrame viewHears fuel now (context s, w)) as [[r cw]|] eqn:E.
  - destruct (Sound fuel r cw E) as (-> & _). now exists fuel, cw.
  - unfold onFrame in E. cbn [fst snd] in E. rewrite F in E.
    destruct (_render _ _ _ _). discriminate E.
Qed.

Lemma frames_return_witness :
  exists s,
    run viewHears sampleActions (setModel sampleDimension twoItems) = Some s
    /\ wellFormed (view (widget s)).
Proof.
  destruct (run viewHears sampleActions (setModel sampleDimension twoItems))
    as [s|] eqn:E; [|vm_compute in E; discriminate E].
  exists s. split; [reflexivity|].
  refine (proj1 (@frames_return sampleDimension twoItems sampleActions s
                   E _ _)).
  - vm_compute. repeat split; discriminate.
  - vm_compute in E. injection E as <-. reflexivity.
Defined.

(** ** What a render pass puts on the surface *)

Lemma sameStore_refl (v : ListView) : sameStore v v.
Proof. split; reflexivity. Qed.

Lemma sameStore_trans (a b c : ListView) :
  sameStore a b -> sameStore b c -> sameStore a c.
Proof. unfold sameStore. intros (A & B) (C & D). split; congruence. Qed.

Lemma gather_sameStore (m : ViewModel) (tops : list Z) (indices : list nat)
    (g : Gathered) :
  keeps sameStore (gather m tops indices g).
Proof.
  apply gather_keeps;
    first [exact sameStore_refl | exact sameStore_trans
          | intros; split; reflexivity].
Qed.

Lemma adopt_sameStore (indices new : list nat) (siblings : list Handle) :
  keeps sameStore (adopt indices new siblings).
Proof.
  apply adopt_keeps;
    first [exact sameStore_refl | exact sameStore_trans
          | intros; split; reflexivity].
Qed.

Lemma swap_sameStore (indices invalid : list nat) (huge : list Handle) :
  keeps sameStore (swap indices invalid huge).
Proof.
  apply swap_keeps;
    first [exact sameStore_refl | exact sameStore_trans
          | intros; split; reflexivity].
Qed.

(** The markup gathered for a line is the markup of that line. *)
Lemma gather_html (m : ViewModel) (tops : list Z) (indices : list nat) :
  forall (g : Gathered) (v : ListView),
    Forall2 (rendersAs m tops (_renderedItemsStart v))
      (wasNew g) (newLinesHTML g) ->
    Forall2 (rendersAs m tops (_renderedItemsStart v))
      (wasInvalid g) (invalidLinesHTML g) ->
    outcome (gather m tops indices g v)
      (fun g' _ =>
         Forall2 (rendersAs m tops (_renderedItemsStart v))
           (wasNew g') (newLinesHTML g')
         /\ Forall2 (rendersAs m tops (_renderedItemsStart v))
              (wasInvalid g') (invalidLinesHTML g'))
      (fun _ => True).
Proof.
  induction indices as [|i indices IH]; intros g v Hn Hi; cbn [gather].
  - cbn. auto.
  - unfold bind at 1, get; cbv beta iota.
    destruct (nth_error (_renderedItems v) i) as [line|]; [|exact I].
    cbv zeta.
    destruct (shouldUpdateHTML line); [|now apply IH].
    assert (Line : forall k : LineHTML -> M ListView Gathered,
               (forall h v1,
                  rendersAs m tops (_renderedItemsStart v) i h ->
                  _renderedItemsStart v1 = _renderedItemsStart v ->
                  outcome (k h v1)
                    (fun g' _ =>
                       Forall2 (rendersAs m tops (_renderedItemsStart v))
                         (wasNew g') (newLinesHTML g')
                       /\ Forall2 (rendersAs m tops (_renderedItemsStart v))
                            (wasInvalid g') (invalidLinesHTML g'))
                    (fun _ => True)) ->
               outcome
                 (bind (getLineOuterHTML m i
                          (Z.of_nat i + _renderedItemsStart v)
                          (at_ tops (Z.of_nat i))) k v)
                 (fun g' _ =>
                    Forall2 (rendersAs m tops (_renderedItemsStart v))
                      (wasNew g') (newLinesHTML g')
                    /\ Forall2 (rendersAs m tops (_renderedItemsStart v))
                         (wasInvalid g') (invalidLinesHTML g'))
                 (fun _ => True)).
    { intros k Hk. unfold bind at 1.
      destruct (at_ tops (Z.of_nat i)) as [t|] eqn:Et; [|exact I].
      destruct (at_ (_items m) (Z.of_nat i + _renderedItemsStart v))
        as [x|] eqn:Ex.
      - rewrite (@getLineOuterHTML_normal m i _ t x v Ex). cbv beta iota.
        apply Hk; [|reflexivity].
        exists x. cbn. auto.
      - unfold getLineOuterHTML, getHeightOf, bind, modifyLine, modify.
        rewrite Ex. exact I. }
    destruct (_domNode line) as [n|]; apply Line; intros h v1 Hh S1.
    + rewrite <- S1. apply IH; rewrite S1;
        cbn [wasNew newLinesHTML wasInvalid invalidLinesHTML]; [exact Hn|].
      apply Forall2_app; [exact Hi|]. constructor; [exact Hh | constructor].
    + rewrite <- S1. apply IH; rewrite S1;
        cbn [wasNew newLinesHTML wasInvalid invalidLinesHTML]; [|exact Hi].
      apply Forall2_app; [exact Hn|]. constructor; [exact Hh | constructor].
Qed.

(** The surface gives every fragment a node of its own, after the nodes it
    had, and writes no node that it had. *)
Lemma createNodes_nodes (html : list LineHTML) :
  forall v : ListView,
    outcome (createNodes html v)
      (fun _ v' =>
         created v' = (created v + length html)%nat
         /\ (forall k h, nth_error html k = Some h ->
                         nodes v' (created v + k)%nat = nodeOfHTML h)
         /\ (forall n, (n < created v)%nat -> nodes v' n = nodes v n))
      (fun _ => False).
Proof.
  induction html as [|h html IH]; intros v; cbn [createNodes].
  - cbn. split; [lia|]. split; [|auto]. intros [|k] h0; discriminate.
  - unfold bind at 1, get; cbv beta iota zeta.
    unfold bind at 1, modify; cbv beta iota.
    eapply outcome_bind; [apply IH|].
    cbn [created nodes set_created set_nodes].
    intros ns v' (K & New & Old). cbn [ret outcome length].
    split; [lia|]. split.
    + intros [|k] h0 E.
      * injection E as <-. rewrite Nat.add_0_r, Old by lia.
        unfold update. now rewrite Nat.eqb_refl.
      * cbn [nth_error] in E.
        replace (created v + S k)%nat with (S (created v) + k)%nat by lia.
        now apply New.
    + intros n Hn. rewrite Old by lia. unfold update.
      destruct (Nat.eqb_spec n (created v)); [lia | reflexivity].
Qed.

(** The nodes that the finishing of a render pass makes: one for every new
    line and then one for every invalid line, in the order of the lines,
    each made from the markup of its line. *)
Lemma finishRendering_nodes (m : ViewModel) (domNodeIsEmpty : bool)
    (tops : list Z) (v : ListView) :
  (length (_renderedItems v) <= length tops)%nat ->
  (forall k, (k < length (_renderedItems v))%nat ->
     0 <= Z.of_nat k + _renderedItemsStart v < len (_items m)) ->
  outcome (_finishRendering m domNodeIsEmpty tops v)
    (fun _ v' =>
       exists hsN hsI,
         Forall2 (rendersAs m tops (_renderedItemsStart v))
           (indicesWhere isNew 0 (_renderedItems v)) hsN
         /\ Forall2 (rendersAs m tops (_renderedItemsStart v))
              (indicesWhere isInvalid 0 (_renderedItems v)) hsI
         /\ (forall k h, nth_error hsN k = Some h ->
               nodes v' (created v + k)%nat = nodeOfHTML h)
         /\ (forall k h, nth_error hsI k = Some h ->
               nodes v' (created v + length hsN + k)%nat = nodeOfHTML h))
    (fun _ => True).
Proof.
  intros Ht Hm. unfold _finishRendering.
  unfold bind at 1, get; cbv beta iota zeta.
  set (g0 := {| wasNew := []; newLinesHTML := [];
                wasInvalid := []; invalidLinesHTML := [] |}).
  eapply outcome_bind.
  { eapply outcome_weaken;
      [apply (@outcome_both _ _ _ _ _ _ _
                (gather_returns m tops (_renderedItems v) [] g0 v
                   eq_refl Ht Hm)
                (@outcome_both _ _ _ _ _ _ _
                   (@gather_html m tops _ g0 v
                      (Forall2_nil _) (Forall2_nil _))
                   (keeps_outcome v
                      (@gather_sameStore m tops
                         (seq 0 (length (_renderedItems v))) g0))))
      | intros a s H; exact H | auto]. }
  cbn [length app wasNew newLinesHTML wasInvalid invalidLinesHTML Nat.add g0].
  intros g v1 ((_ & Wn & Wi & Ln & Li & _ & _ & _ & K1)
               & (Fn & Fi) & (N1 & _)).
  rewrite Wn in Fn. rewrite Wi in Fi.
  set (c := created v) in *.
  (* the new lines *)
  apply outcome_bind with
    (Q1 := fun _ v3 =>
             created v3 = (c + length (newLinesHTML g))%nat
             /\ forall k h, nth_error (newLinesHTML g) k = Some h ->
                            nodes v3 (c + k)%nat = nodeOfHTML h).
  { destruct (wasNew g) as [|k0 ks] eqn:W.
    - rewrite <- Wn in Ln. cbn [length] in Ln.
      apply length_zero_iff_nil in Ln. rewrite Ln. cbn [ret outcome length].
      split; [lia|]. intros [|k] h; discriminate.
    - unfold bind at 1, get; cbv beta iota.
      eapply outcome_bind;
        [eapply outcome_weaken;
           [apply createNodes_nodes | intros a s H; exact H | contradiction]|].
      intros fresh v2 (K2 & New2 & _).
      unfold bind at 1, modify; cbv beta iota.
      unfold bind at 1, get; cbv beta iota.
      match goal with
      | |- outcome (adopt ?a ?b ?c0 ?s) _ _ =>
          pose proof (@adopt_sameStore a b c0 s) as A;
          destruct (adopt a b c0 s) as [[u|e] v3]; [|exact I];
          assert (S2 : sameStore v2 s)
            by (destruct domNodeIsEmpty; [|destruct (_listItemsDomNode v2)];
                split; reflexivity)
      end.
      cbn [outcome]. cbn [snd] in A.
      destruct (sameStore_trans S2 A) as (N3 & K3).
      rewrite N3, K3, K2, K1. split; [reflexivity|].
      intros k h E. rewrite <- K1. now apply New2. }
  intros [] v3 (K3 & New3).
  (* the invalid lines *)
  assert (Done : forall v5 : ListView,
             (forall n, (n < created v3)%nat -> nodes v5 n = nodes v3 n) ->
             (forall k h, nth_error (invalidLinesHTML g) k = Some h ->
                          nodes v5 (created v3 + k)%nat = nodeOfHTML h) ->
             exists hsN hsI,
               Forall2 (rendersAs m tops (_renderedItemsStart v))
                 (indicesWhere isNew 0 (_renderedItems v)) hsN
               /\ Forall2 (rendersAs m tops (_renderedItemsStart v))
                    (indicesWhere isInvalid 0 (_renderedItems v)) hsI
               /\ (forall k h, nth_error hsN k = Some h ->
                     nodes v5 (c + k)%nat = nodeOfHTML h)
               /\ (forall k h, nth_error hsI k = Some h ->
                     nodes v5 (c + length hsN + k)%nat = nodeOfHTML h)).
  { intros v5 Old New. exists (newLinesHTML g), (invalidLinesHTML g).
    split; [exact Fn|]. split; [exact Fi|]. split.
    - intros k h E. rewrite Old; [now apply New3|].
      assert (k < length (newLinesHTML g))%nat
        by (apply nth_error_Some; congruence).
      lia.
    - intros k h E. rewrite <- K3. now apply New. }
  destruct (wasInvalid g) as [|k0 ks] eqn:W.
  - cbn [ret outcome]. apply Done; [auto|].
    rewrite <- Wi in Li. cbn [length] in Li.
    apply length_zero_iff_nil in Li. rewrite Li.
    intros [|k] h; discriminate.
  - eapply outcome_bind;
      [eapply outcome_weaken;
         [apply createNodes_nodes | intros a s H; exact H | contradiction]|].
    intros huge v4 (K4 & New4 & Old4).
    match goal with
    | |- outcome (swap ?a ?b ?c0 ?s) _ _ =>
        pose proof (@swap_sameStore a b c0 s) as A;
        destruct (swap a b c0 s) as [[u|e] v5]; [|exact I]
    end.
    cbn [outcome]. cbn [snd] in A. destruct A as (N5 & K5).
    apply Done; rewrite N5; [exact Old4 | exact New4].
Qed.

(** Where a line stands once the nodes have been handed out: a line that
    was dirty stands on a node made from its own markup, and a line that
    was not is as it was. *)
Lemma finished_line (m : ViewModel) (tops : list Z) (start : Z)
    (N : Handle -> DomNode) (items : list ViewItem) :
  forall (p c1 c2 : nat) (hsN hsI : list LineHTML),
    Forall2 (rendersAs m tops start) (indicesWhere isNew p items) hsN ->
    Forall2 (rendersAs m tops start) (indicesWhere isInvalid p items) hsI ->
    (forall k h, nth_error hsN k = Some h -> N (c1 + k)%nat = nodeOfHTML h) ->
    (forall k h, nth_error hsI k = Some h -> N (c2 + k)%nat = nodeOfHTML h) ->
    forall j line',
      nth_error (assign (map isInvalid items) c2
                   (assign (map isNew items) c1 (map clean items))) j
      = Some line' ->
      (exists n h, _domNode line' = Some n /\ N n = nodeOfHTML h
                   /\ rendersAs m tops start (p + j) h)
      \/ (_isDirty line' = false /\ nth_error items j = Some line').
Proof.
  induction items as [|line rest IH]; intros p c1 c2 hsN hsI Fn Fi Nn Ni j line' E.
  - destruct j; discriminate E.
  - cbn [map indicesWhere] in Fn, Fi, E.
    assert (Tail : forall c1' c2' hsN' hsI' j',
               Forall2 (rendersAs m tops start)
                 (indicesWhere isNew (S p) rest) hsN' ->
               Forall2 (rendersAs m tops start)
                 (indicesWhere isInvalid (S p) rest) hsI' ->
               (forall k h, nth_error hsN' k = Some h ->
                            N (c1' + k)%nat = nodeOfHTML h) ->
               (forall k h, nth_error hsI' k = Some h ->
                            N (c2' + k)%nat = nodeOfHTML h) ->
               nth_error (assign (map isInvalid rest) c2'
                            (assign (map isNew rest) c1' (map clean rest))) j'
               = Some line' ->
               (exists n h, _domNode line' = Some n /\ N n = nodeOfHTML h
                            /\ rendersAs m tops start (p + S j') h)
               \/ (_isDirty line' = false
                   /\ nth_error (line :: rest) (S j') = Some line')).
    { intros c1' c2' hsN' hsI' j' Fn' Fi' Nn' Ni' E'.
      replace (p + S j')%nat with (S p + j')%nat by lia.
      exact (IH (S p) c1' c2' hsN' hsI' Fn' Fi' Nn' Ni' j' line' E'). }
    destruct (_isDirty line) eqn:D.
    + destruct (_domNode line) as [n|] eqn:Dn.
      * (* an invalid line *)
        assert (En : isNew line = false) by (unfold isNew; now rewrite D, Dn).
        assert (Ei : isInvalid line = true)
          by (unfold isInvalid; now rewrite D, Dn).
        rewrite En in Fn, E. rewrite Ei in Fi, E.
        cbn [app assign] in Fn, Fi, E.
        inversion Fi as [|? h ? hsI' Rh Fi']; subst.
        destruct j as [|j].
        -- injection E as <-. left. exists c2, h.
           split; [reflexivity|]. split.
           ++ rewrite <- (Nat.add_0_r c2). now apply Ni.
           ++ now rewrite Nat.add_0_r.
        -- cbn [nth_error] in E.
           apply (Tail c1 (S c2) hsN hsI' j); auto.
           intros k h0 Ek. replace (S c2 + k)%nat with (c2 + S k)%nat by lia.
           now apply Ni.
      * (* a new line *)
        assert (En : isNew line = true) by (unfold isNew; now rewrite D, Dn).
        assert (Ei : isInvalid line = false)
          by (unfold isInvalid; now rewrite D, Dn).
        rewrite En in Fn, E. rewrite Ei in Fi, E.
        cbn [app assign] in Fn, Fi, E.
        inversion Fn as [|? h ? hsN' Rh Fn']; subst.
        destruct j as [|j].
        -- injection E as <-. left. exists c1, h.
           split; [reflexivity|]. split.
           ++ rewrite <- (Nat.add_0_r c1). now apply Nn.
           ++ now rewrite Nat.add_0_r.
        -- cbn [nth_error] in E.
           apply (Tail (S c1) c2 hsN' hsI j); auto.
           intros k h0 Ek. replace (S c1 + k)%nat with (c1 + S k)%nat by lia.
           now apply Nn.
    + assert (En : isNew line = false) by (unfold isNew; now rewrite D).
      assert (Ei : isInvalid line = false) by (unfold isInvalid; now rewrite D).
      rewrite En in Fn, E. rewrite Ei in Fi, E.
      cbn [app assign] in Fn, Fi, E.
      destruct j as [|j].
      * injection E as <-. right. rewrite (clean_same _ D). auto.
      * cbn [nth_error] in E. now apply (Tail c1 c2 hsN hsI j).
Qed.

Lemma indicesWhere_new (N : nat) :
  forall p, indicesWhere isNew p (repeat ViewItem_new N) = seq p N.
Proof.
  induction N as [|N IH]; intros p; [reflexivity|].
  cbn [repeat indicesWhere seq]. rewrite IH. reflexivity.
Qed.

Lemma Forall2_seq_nth {A} (R : nat -> A -> Prop) (N : nat) :
  forall (p : nat) (l : list A),
    Forall2 R (seq p N) l ->
    forall j, (j < N)%nat -> exists x, nth_error l j = Some x /\ R (p + j)%nat x.
Proof.
  induction N as [|N IH]; intros p l F j Hj; [lia|].
  cbn [seq] in F. inversion F as [|? x ? l' Rx F']; subst.
  destruct j as [|j].
  - exists x. split; [reflexivity|]. now rewrite Nat.add_0_r.
  - destruct (IH (S p) l' F' j ltac:(lia)) as (y & E & Ry).
    exists y. split; [exact E|].
    now replace (p + S j)%nat with (S p + j)%nat by lia.
Qed.

(** The lines of the window after a render pass on a well-formed view, for
    a range inside the model: each one either stands on a node made in this
    pass from the markup of the line, or is a line that was in the window,
    not dirty, at the same line number. *)
Lemma render_lines (m : ViewModel) (renderData : IRenderData) (now : Z)
    (v : ListView) :
  wellFormed v -> inModel m renderData ->
  outcome (_render m renderData now v)
    (fun _ v' =>
       _renderedItemsStart v' = rd_startIndex renderData
       /\ length (_renderedItems v') = length (rd_tops renderData)
       /\ forall j line',
         nth_error (_renderedItems v') j = Some line' ->
         (j < length (rd_tops renderData))%nat
         /\ ((exists n h,
                 _domNode line' = Some n /\ nodes v' n = nodeOfHTML h
                 /\ rendersAs m (rd_tops renderData)
                      (rd_startIndex renderData) j h)
             \/ (_isDirty line' = false
                 /\ exists i,
                      rd_startIndex renderData + Z.of_nat j
                      = _renderedItemsStart v + Z.of_nat i
                      /\ nth_error (_renderedItems v) i = Some line')))
    (fun _ => True).
Proof.
  intros W (Hs & He).
  rewrite render_blocks. unfold bind at 1, get; cbv beta iota zeta.
  set (startItem := rd_startIndex renderData) in *.
  set (tops := rd_tops renderData) in *.
  set (endItem := startItem + len tops - 1).
  destruct (noOverlap renderData now v).
  - (* a new window *)
    unfold bind at 1, modify; cbv beta iota.
    unfold bind at 1; cbv beta iota.
    set (v1 := set_renderedItems _ (set_renderedItemsStart startItem v)).
    assert (I1 : _renderedItems v1 = repeat ViewItem_new (length tops)).
    { unfold v1. cbn [_renderedItems set_renderedItems].
      rewrite newLines_repeat. f_equal. unfold endItem. lia. }
    assert (S1 : _renderedItemsStart v1 = startItem) by reflexivity.
    eapply outcome_bind.
    + eapply outcome_weaken;
        [eapply outcome_both;
           [apply (@finishRendering_fresh m tops v1 I1)
           | apply (@finishRendering_nodes m true tops v1)]
        | intros a s H; exact H | auto].
      * intros i Hi. apply at_present. rewrite S1. lia.
      * rewrite I1, repeat_length. lia.
      * intros k Hk. rewrite I1, repeat_length in Hk. rewrite S1. lia.
    + cbv zeta.
      intros [] v2 ((I2 & S2 & _) & hsN & hsI & Fn & _ & Nn & _).
      unfold modify. cbn [outcome].
      cbn [_renderedItems _renderedItemsStart nodes set_scrollDomNode].
      rewrite I1, indicesWhere_new, S1 in Fn.
      split; [now rewrite S2|].
      split; [now rewrite I2, length_map, length_seq|].
      intros j line' E. rewrite I2 in E.
      assert (Hj : (j < length tops)%nat).
      { assert (H : (j < length (map (adopted (created v1))
                                   (seq 0 (length tops))))%nat)
          by (apply nth_error_Some; congruence).
        now rewrite length_map, length_seq in H. }
      split; [exact Hj|]. left.
      destruct (@Forall2_seq_nth _ _ _ _ _ Fn _ Hj) as (h & Eh & Rh).
      exists (created v1 + j)%nat, h.
      split; [|split; [now apply Nn | exact Rh]].
      rewrite nth_error_map in E.
      rewrite (nth_error_nth' _ O) in E by (now rewrite length_seq).
      rewrite seq_nth in E by exact Hj. cbn [option_map Nat.add] in E.
      now injection E as <-.
  - (* the window is moved *)
    eapply outcome_bind.
    { eapply outcome_weaken;
        [eapply outcome_both;
           [apply renderUntouchedLines_returns
           | apply sameLines_outcome; apply renderUntouchedLines_keeps;
             first [exact sameLines_refl | exact sameLines_trans
                   | intros; reflexivity]]
        | intros a s H; exact H | auto].
      intros i Hi. lia. }
    intros [] s1 (Sh1 & SL1).
    eapply outcome_bind.
    { eapply outcome_weaken;
        [eapply outcome_both;
           [apply (alignStart_sound _ _ Sh1 (wellFormed_shape Sh1 W))
           | apply (alignStart_outcome _ _ SL1)]
        | intros a s H; exact H | auto]. }
    intros [] s2 (W2 & _ & A2).
    unfold bind at 1, modify; cbv beta iota.
    unfold bind at 1, get; cbv beta iota.
    set (v2 := set_renderedItemsStart startItem s2).
    assert (W2' : wellFormed v2) by exact W2.
    assert (He2 : _renderedItemsStart v2 - 1 <= endItem)
      by (unfold v2, endItem; cbn; lia).
    assert (A2' : startAligned v startItem endItem (_renderedItems v2))
      by exact A2.
    eapply outcome_bind.
    { eapply outcome_weaken;
        [eapply outcome_both;
           [apply (alignEnd_sound endItem W2')
           | eapply outcome_both;
               [apply (@alignEnd_length endItem v2 He2)
               | apply (@alignEnd_outcome v startItem endItem v2 eq_refl A2')]]
        | intros a s H; exact H | auto]. }
    intros [] s3 (W3 & (S3 & L3) & _ & _ & A3).
    unfold v2 in S3, L3.
    cbn [_renderedItemsStart set_renderedItemsStart] in S3, L3.
    assert (Ht3 : (length (_renderedItems s3) <= length tops)%nat)
      by (unfold endItem in L3; lia).
    assert (Hm3 : forall k, (k < length (_renderedItems s3))%nat ->
                0 <= Z.of_nat k + _renderedItemsStart s3 < len (_items m)).
    { intros k Hk. rewrite S3. unfold endItem in L3. lia. }
    eapply outcome_weaken;
      [eapply outcome_both;
         [apply (@finishRendering_sound m tops s3 W3 Ht3 Hm3)
         | apply (@finishRendering_nodes m false tops s3 Ht3 Hm3)]
      | | auto].
    intros [] v' ((_ & I' & S') & hsN & hsI & Fn & Fi & Nn & Ni).
    cbv beta.
    split; [now rewrite S', S3|].
    split; [rewrite I', !length_assign, length_map; unfold endItem in L3; lia|].
    intros j line' E.
    assert (Hj : (j < length (_renderedItems v'))%nat)
      by (apply nth_error_Some; congruence).
    rewrite I' in Hj, E.
    rewrite !length_assign, length_map in Hj.
    split; [lia|].
    rewrite S3 in Fn, Fi.
    assert (Li : length hsN = count (map isNew (_renderedItems s3))).
    { rewrite <- (Forall2_length Fn). apply length_indicesWhere. }
    rewrite Li in Ni.
    destruct (@finished_line m tops startItem (nodes v') (_renderedItems s3)
                O _ _ hsN hsI Fn Fi Nn Ni j line' E)
      as [(n & h & En & Eh & Rh) | (D & El)].
    + left. exists n, h. auto.
    + right. split; [exact D|].
      destruct (A3 j line' El) as [(i & Ei & Hi) | (New & _)].
      * now exists i.
      * rewrite New in D. discriminate D.
Qed.

Lemma nodesOf_distinct (lines : list ViewItem) :
  NoDup (nodesOf lines) ->
  forall i j a b n,
    nth_error lines i = Some a -> nth_error lines j = Some b ->
    _domNode a = Some n -> _domNode b = Some n -> i = j.
Proof.
  induction lines as [|x rest IH]; intros Nd i j a b n Ea Eb Na Nb;
    [destruct i; discriminate|].
  cbn [nodesOf flat_map] in Nd. fold (nodesOf rest) in Nd.
  apply NoDup_app_parts in Nd. destruct Nd as (_ & Nr & Dj).
  assert (Apart : forall k c, nth_error rest k = Some c ->
                              _domNode c = Some n -> _domNode x <> Some n).
  { intros k c Ec Nc Nx. apply (Dj n).
    - unfold nodeOf. rewrite Nx. now left.
    - apply (nodesOf_In c); [now apply nth_error_In with k | exact Nc]. }
  destruct i as [|i], j as [|j]; cbn [nth_error] in Ea, Eb.
  - reflexivity.
  - injection Ea as <-. now elim (Apart j b Eb Nb).
  - injection Eb as <-. now elim (Apart i a Ea Na).
  - f_equal. exact (IH Nr i j a b n Ea Eb Na Nb).
Qed.

Lemma wellFormed_distinct (v : ListView) : wellFormed v -> distinctNodes v.
Proof.
  intros (Nd & _) i j n Hi Hj. unfold nodeAt, at_ in Hi, Hj.
  destruct (Z.ltb_spec i 0); [discriminate|].
  destruct (Z.ltb_spec j 0); [discriminate|].
  destruct (nth_error (_renderedItems v) (Z.to_nat i)) as [a|] eqn:Ea;
    [|discriminate].
  destruct (nth_error (_renderedItems v) (Z.to_nat j)) as [b|] eqn:Eb;
    [|discriminate].
  pose proof (@nodesOf_distinct _ Nd _ _ _ _ _ Ea Eb Hi Hj). lia.
Qed.

Lemma wellFormed_known (v : ListView) : wellFormed v -> known v.
Proof.
  intros (_ & _ & Kn & _) i n Hi. unfold nodeAt, at_ in Hi.
  destruct (Z.ltb_spec i 0); [discriminate|].
  destruct (nth_error (_renderedItems v) (Z.to_nat i)) as [a|] eqn:Ea;
    [|discriminate].
  rewrite Forall_forall in Kn. apply Kn.
  apply (nodesOf_In a); [now apply nth_error_In with (Z.to_nat i) | exact Hi].
Qed.

(** A render pass on a well-formed view whose lines that are not dirty are
    up to date, for a range inside the model: it returns, the view stays
    well formed, and every line of the window stands on a child of the
    surface that shows the line. *)
Lemma render_shown (m : ViewModel) (renderData : IRenderData)
    (now : Z) (v : ListView) :
  wellFormed v -> upToDate m v -> inModel m renderData ->
  outcome (_render m renderData now v)
    (fun _ v' =>
       wellFormed v'
       /\ _renderedItemsStart v' = rd_startIndex renderData
       /\ length (_renderedItems v') = length (rd_tops renderData)
       /\ forall i line,
            nth_error (_renderedItems v') i = Some line ->
            exists n,
              _domNode line = Some n
              /\ In n (_listItemsDomNode v')
              /\ shows m renderData (rd_startIndex renderData + Z.of_nat i)
                   (nodes v' n))
    (fun _ => False).
Proof.
  intros W U H.
  pose proof (render_sound now W H) as So.
  pose proof (render_lines now W H) as Li.
  pose proof (render_places m renderData now
                (wellFormed_distinct W) (wellFormed_known W)) as Pl.
  pose proof (render_contentKept m renderData now v) as (_ & Ck).
  destruct (_render m renderData now v) as [[[]|e] v']; [|contradiction].
  cbn [outcome snd] in *. split; [exact So|].
  destruct Li as (St & Le & Li).
  split; [exact St|]. split; [exact Le|].
  destruct H as (Hs & He).
  intros i line E. destruct (Li i line E) as (Hi & Case).
  assert (Child : forall n, _domNode line = Some n ->
                            In n (_listItemsDomNode v')).
  { intros n En. destruct So as (_ & Ch & _). apply Ch.
    apply (nodesOf_In line); [now apply nth_error_In with i | exact En]. }
  destruct Case as [(n & h & En & Eh & (it & Ex & Hl & Ht & Hh & Hc))
                   | (D & i0 & Ei & E0)].
  - (* a line rendered in this pass *)
    exists n. split; [exact En|]. split; [now apply Child|].
    rewrite Eh.
    replace (rd_startIndex renderData + Z.of_nat i)
      with (Z.of_nat i + rd_startIndex renderData) by lia.
    unfold shows, placed, nodeOfHTML.
    cbn [attr_lineNumber style_top style_height innerHTML].
    rewrite Ex. cbn [option_map]. rewrite Hh, Hc.
    split; [split; [exact Hl | split; [|reflexivity]] | reflexivity].
    replace (Z.of_nat i + rd_startIndex renderData - rd_startIndex renderData)
      with (Z.of_nat i) by lia.
    exact Ht.
  - (* a line that stayed *)
    destruct (U i0 line E0 D) as (n & En & Cn).
    exists n. split; [exact En|]. split; [now apply Child|].
    rewrite Ei. split.
    + apply Pl; [unfold nodeAt; now rewrite at_nat, E0 | lia].
    + destruct (at_inside (_items m)
                  (i := _renderedItemsStart v + Z.of_nat i0) ltac:(lia))
        as (it & Ex).
      rewrite Ex. cbn [option_map]. f_equal.
      destruct (Ck n) as (Ek & _).
      { apply (wellFormed_known W (Z.of_nat i0)). unfold nodeAt.
        now rewrite at_nat, E0. }
      rewrite Ek. symmetry. now apply Cn.
Qed.

(** X23.  A render pass on a well-formed view whose lines that are not
    dirty are up to date, for a range that lies inside the model, returns,
    and afterwards every line of the window stands on a node that is a
    child of the surface and shows the line: the node carries the number of
    the line, the top that the render data has for it and the cached height
    of the item, and its content is what the item renders. *)
Theorem render_shows_model (m : ViewModel) (renderData : IRenderData)
    (now : Z) (v : ListView) :
  wellFormed v -> upToDate m v -> inModel m renderData ->
  exists v',
    _render m renderData now v = (Normal tt, v')
    /\ forall i line,
         nth_error (_renderedItems v') i = Some line ->
         exists n,
           _domNode line = Some n
           /\ In n (_listItemsDomNode v')
           /\ shows m renderData (rd_startIndex renderData + Z.of_nat i)
                (nodes v' n).
Proof.
  intros W U H. pose proof (render_shown now W U H) as O.
  destruct (_render m renderData now v) as [[[]|e] v']; [|contradiction].
  exists v'. split; [reflexivity | apply O].
Qed.

Lemma scrolledView_upToDate : upToDate longModel scrolledView.
Proof.
  intros i line E D.
  destruct i as [|[|[|i]]]; cbn in E; try (destruct i; discriminate E);
    injection E as <-; eexists; (split; [reflexivity|]);
    intros it Ex; vm_compute in Ex; injection Ex as <-; reflexivity.
Qed.

Lemma render_shows_model_witness :
  exists v',
    _render longModel oneDown 5000 scrolledView = (Normal tt, v')
    /\ forall i line,
         nth_error (_renderedItems v') i = Some line ->
         exists n,
           _domNode line = Some n
           /\ In n (_listItemsDomNode v')
           /\ shows longModel oneDown (rd_startIndex oneDown + Z.of_nat i)
                (nodes v' n).
Proof.
  apply render_shows_model;
    [exact scrolledView_wellFormed | exact scrolledView_upToDate |].
  split; vm_compute; discriminate.
Defined.

(** ** The window follows the model *)

Lemma upToDate_shown (m : ViewModel) (v : ListView) :
  upToDate m v <-> shown (contentOf m) v.
Proof.
  unfold upToDate, shown, contentOf. split; intros H i line E D;
    destruct (H i line E D) as (n & En & C); exists n; (split; [exact En|]).
  - intros x Ex.
    destruct (at_ (_items m) (_renderedItemsStart v + Z.of_nat i)) as [it|];
      [|discriminate].
    injection Ex as <-. now apply C.
  - intros it Ex. apply C. now rewrite Ex.
Qed.

Lemma follows_trans (c c1 c2 : Z -> option (list String.string))
    (v v1 v2 : ListView) :
  follows c c1 v v1 -> follows c1 c2 v1 v2 -> follows c c2 v v2.
Proof.
  intros A B i2 line E D.
  destruct (B i2 line E D) as (i1 & E1 & C1).
  destruct (A i1 line E1 D) as (i & E0 & C0).
  exists i. split; [exact E0 | congruence].
Qed.

Lemma follows_shown (c c' : Z -> option (list String.string))
    (v v' : ListView) :
  shown c v -> nodes v' = nodes v -> follows c c' v v' -> shown c' v'.
Proof.
  intros S N F i' line E D.
  destruct (F i' line E D) as (i & E0 & C0).
  destruct (S i line E0 D) as (n & En & Cn).
  exists n. split; [exact En|]. rewrite N, C0. exact Cn.
Qed.

(** The lines that show a changed item become dirty. *)
Lemma mark_follows (e : ListViewItemsChangedEvent.t)
    (c c' : Z -> option (list String.string)) (v : ListView) :
  (forall l,
     ~ (ListViewItemsChangedEvent.changedStart e <= l
        < ListViewItemsChangedEvent.changedStart e
          + len (ListViewItemsChangedEvent.changed e)) ->
     c' l = c l) ->
  outcome (markChanged e v) (fun _ v1 => follows c c' v v1) (fun _ => True).
Proof.
  intros H. destruct (markChanged_marks e v) as (items' & M & L & N).
  rewrite M. cbn [outcome]. intros k line E D.
  cbn [_renderedItems _renderedItemsStart set_renderedItems] in *.
  rewrite N in E.
  destruct (nth_error (_renderedItems v) k) as [old|] eqn:Eo; [|discriminate].
  cbn [option_map] in E. injection E as <-. unfold changedAt in *.
  destruct (_ && _) eqn:B; [discriminate D|].
  exists k. split; [exact Eo|]. apply H. intros R.
  apply andb_false_iff in B.
  destruct B as [B|B]; [apply Z.leb_gt in B | apply Z.ltb_ge in B]; lia.
Qed.

Lemma adjustStart_exact (e : ListViewItemsChangedEvent.t) (v : ListView) :
  let ds := ListViewItemsChangedEvent.deleteStart e in
  let dc := ListViewItemsChangedEvent.deleteCnt e in
  let rs := _renderedItemsStart v in
  adjustStart e v v
  = (Normal tt,
     set_renderedItemsStart
       (if ds <? rs
        then if ds + dc - 1 <? rs then rs - (ds + dc - 1 - ds + 1) else ds
        else rs) v).
Proof.
  cbv zeta. unfold adjustStart. cbv zeta.
  destruct (_ <? _renderedItemsStart v).
  - destruct (_ <? _renderedItemsStart v); reflexivity.
  - now rewrite set_renderedItemsStart_same.
Qed.

(** The lines and the start of the window once the deleted lines are
    out. *)
Lemma removeDeleted_window (e : ListViewItemsChangedEvent.t)
    (v s : ListView) :
  let from := Z.max (ListViewItemsChangedEvent.deleteStart e
                     - _renderedItemsStart v) 0 in
  let to := Z.min (ListViewItemsChangedEvent.deleteStart e
                   + ListViewItemsChangedEvent.deleteCnt e - 1
                   - _renderedItemsStart v)
                  (len (_renderedItems v) - 1) in
  outcome (removeDeleted e v s)
    (fun _ s' =>
       _renderedItemsStart s' = _renderedItemsStart s
       /\ _renderedItems s'
          = if from <=? to
            then spliceOut (_renderedItems s) from (to - from + 1)
            else _renderedItems s)
    (fun _ => True).
Proof.
  cbv zeta. unfold removeDeleted. cbv zeta.
  destruct (_ <=? _); [|cbn; auto].
  apply outcome_bind with (Q1 := fun _ s1 => sameLines s s1).
  - eapply outcome_weaken; [apply sameLines_outcome | auto | auto].
    apply keeps_forEach;
      [exact sameLines_refl | exact sameLines_trans | intros i].
    apply keeps_bind; [exact sameLines_trans | |].
    + apply lineDomNode_keeps. exact sameLines_refl.
    + intros [n|].
      * apply removeChild_keeps;
          first [exact sameLines_refl | intros; reflexivity].
      * apply keeps_ret. exact sameLines_refl.
  - intros [] s1 H. apply sameLines_fields in H. destruct H as (I & S & _).
    unfold modify. cbn. rewrite I. auto.
Qed.

Lemma spliceOut_mid {A} (a : list A) (from cnt : Z) :
  0 <= from -> 0 <= cnt -> from + cnt <= len a ->
  spliceOut a from cnt
  = firstn (Z.to_nat from) a ++ skipn (Z.to_nat from + Z.to_nat cnt) a.
Proof.
  intros Hf Hc Hl. unfold spliceOut. rewrite relativeIndex_nonneg by lia.
  replace (Z.min from (len a)) with from by lia.
  replace (Z.min (Z.max cnt 0) (len a - from)) with cnt by lia.
  f_equal. f_equal. lia.
Qed.

Lemma nth_error_lt {A} (a : list A) (i : nat) (x : A) :
  nth_error a i = Some x -> (i < length a)%nat.
Proof. intros E. apply nth_error_Some. congruence. Qed.

Lemma nth_error_cut {A} (a : list A) (from cnt i' : nat) (x : A) :
  (from <= length a)%nat ->
  nth_error (firstn from a ++ skipn (from + cnt) a) i' = Some x ->
  ((i' < from)%nat /\ nth_error a i' = Some x)
  \/ ((from <= i')%nat /\ nth_error a (i' + cnt) = Some x).
Proof.
  intros Hf E. rewrite nth_error_app, length_firstn in E.
  replace (Nat.min from (length a)) with from in E by lia.
  destruct (Nat.ltb_spec i' from) as [Hi|Hi].
  - left. split; [exact Hi|]. rewrite nth_error_firstn in E.
    destruct (Nat.ltb_spec i' from); [exact E | lia].
  - right. split; [exact Hi|]. rewrite nth_error_skipn in E.
    now replace (from + cnt + (i' - from))%nat with (i' + cnt)%nat in E by lia.
Qed.

Lemma nth_error_pushed {A} (a : list A) (from cnt keep i' : nat) (y x : A) :
  (from <= length a)%nat ->
  nth_error (firstn keep (firstn from a ++ repeat y cnt ++ skipn from a)) i'
  = Some x ->
  (i' < keep)%nat
  /\ (((i' < from)%nat /\ nth_error a i' = Some x)
      \/ ((from <= i' < from + cnt)%nat /\ x = y)
      \/ ((from + cnt <= i')%nat /\ nth_error a (i' - cnt) = Some x)).
Proof.
  intros Hf E. rewrite nth_error_firstn in E.
  destruct (Nat.ltb_spec i' keep) as [Hk|Hk]; [|discriminate].
  split; [exact Hk|].
  rewrite nth_error_app, length_firstn in E.
  replace (Nat.min from (length a)) with from in E by lia.
  destruct (Nat.ltb_spec i' from) as [Hi|Hi].
  - left. split; [exact Hi|]. rewrite nth_error_firstn in E.
    destruct (Nat.ltb_spec i' from); [exact E | lia].
  - right. rewrite nth_error_app, repeat_length in E.
    destruct (Nat.ltb_spec (i' - from) cnt) as [Hc|Hc].
    + left. split; [lia|]. apply nth_error_In, repeat_spec in E. exact E.
    + right. split; [lia|]. rewrite nth_error_skipn in E.
      now replace (from + (i' - from - cnt))%nat with (i' - cnt)%nat in E by lia.
Qed.

(** The window once the deleted lines are out follows the model once the
    deleted items are out. *)
Lemma delete_follows (e : ListViewItemsChangedEvent.t)
    (c c' : Z -> option (list String.string)) (v : ListView) :
  let ds := ListViewItemsChangedEvent.deleteStart e in
  let dc := ListViewItemsChangedEvent.deleteCnt e in
  let rs := _renderedItemsStart v in
  0 <= dc ->
  (forall l, l < ds -> c' l = c l) ->
  (forall l, ds <= l -> c' l = c (l + dc)) ->
  outcome
    (removeDeleted e v
       (set_renderedItemsStart
          (if ds <? rs
           then if ds + dc - 1 <? rs then rs - (ds + dc - 1 - ds + 1) else ds
           else rs) v))
    (fun _ v' => follows c c' v v') (fun _ => True).
Proof.
  intros ds dc rs Hd H1 H2.
  eapply outcome_weaken; [apply removeDeleted_window | | auto].
  cbv zeta. cbn [_renderedItems _renderedItemsStart set_renderedItemsStart].
  fold ds dc rs.
  set (items := _renderedItems v).
  set (from := Z.max (ds - rs) 0).
  set (to := Z.min (ds + dc - 1 - rs) (len items - 1)).
  set (x := if ds <? rs then _ else _).
  intros [] v' (S' & I') i' line E D. rewrite S'. rewrite I' in E.
  assert (Hx : x = if ds <? rs
                   then if ds + dc - 1 <? rs then rs - dc else ds
                   else rs).
  { unfold x. destruct (ds <? rs); [|reflexivity].
    destruct (_ <? rs); [lia | reflexivity]. }
  clearbody x.
  assert (Go : forall i : nat,
             nth_error items i = Some line ->
             (x + Z.of_nat i' < ds -> x + Z.of_nat i' = rs + Z.of_nat i) ->
             (ds <= x + Z.of_nat i' ->
              x + Z.of_nat i' + dc = rs + Z.of_nat i) ->
             exists i, nth_error items i = Some line
                       /\ c' (x + Z.of_nat i') = c (rs + Z.of_nat i)).
  { intros i Ei L R. exists i. split; [exact Ei|].
    destruct (Z.lt_ge_cases (x + Z.of_nat i') ds) as [Lt|Ge].
    - rewrite H1 by exact Lt. f_equal. now apply L.
    - rewrite H2 by exact Ge. f_equal. now apply R. }
  destruct (Z.leb_spec from to) as [Hle|Hgt].
  - rewrite spliceOut_mid in E by (unfold from, to in *; lia).
    apply nth_error_cut in E; [|unfold from, to in *; lia].
    destruct E as [(Hi & E) | (Hi & E)];
      pose proof (nth_error_lt _ _ E) as Hl;
      apply (Go _ E);
      destruct (Z.ltb_spec ds rs);
      try destruct (Z.ltb_spec (ds + dc - 1) rs);
      unfold from, to in *; lia.
  - pose proof (nth_error_lt _ _ E) as Hl.
    apply (Go _ E);
      destruct (Z.ltb_spec ds rs);
      try destruct (Z.ltb_spec (ds + dc - 1) rs);
      unfold from, to in *; lia.
Qed.

(** The lines and the start of the window after as many lines have been
    popped as the list is long. *)
Lemma popLoop_window (xs : list Z) :
  forall s : ListView,
    outcome (forEach xs (fun _ => popLine) s)
      (fun _ s' =>
         _renderedItemsStart s' = _renderedItemsStart s
         /\ _renderedItems s'
            = firstn (length (_renderedItems s) - length xs)
                (_renderedItems s))
      (fun _ => True).
Proof.
  induction xs as [|x xs IH]; intros s; cbn [forEach].
  - cbn. split; [reflexivity|]. now rewrite Nat.sub_0_r, firstn_all.
  - apply outcome_bind with
      (Q1 := fun _ s1 =>
               _renderedItemsStart s1 = _renderedItemsStart s
               /\ _renderedItems s1 = removelast (_renderedItems s)).
    + unfold popLine. unfold bind at 1, get. cbv beta iota.
      destruct (rev (_renderedItems s)) as [|lastLine rest]; [exact I|].
      unfold bind at 1, modify. cbv beta iota.
      destruct (_domNode lastLine) as [n|]; [|cbn; auto].
      unfold removeChild. destruct (isChild n _); cbn; auto.
    + intros [] s1 (S1 & I1).
      eapply outcome_weaken; [apply IH | | auto].
      intros [] s' (S' & I'). split; [congruence|].
      rewrite I', I1, removelast_firstn_len, length_firstn, firstn_firstn.
      cbn [length]. f_equal. lia.
Qed.

(** The window once the inserted lines are in follows the model once the
    inserted items are in. *)
Lemma insert_follows (e : ListViewItemsChangedEvent.t)
    (c c' : Z -> option (list String.string)) (v : ListView) :
  let at0 := ListViewItemsChangedEvent.insertStart e in
  let n := len (ListViewItemsChangedEvent.inserted e) in
  (forall l, l < at0 -> c' l = c l) ->
  (forall l, at0 + n <= l -> c' l = c (l - n)) ->
  outcome (placeInserted e v) (fun _ v' => follows c c' v v') (fun _ => True).
Proof.
  intros at0 n H1 H2. unfold placeInserted.
  unfold bind at 1, get. cbv beta iota zeta. fold at0 n.
  set (rs := _renderedItemsStart v).
  set (items := _renderedItems v).
  assert (Go : forall (x : Z) (i' i : nat) (line : ViewItem),
             nth_error items i = Some line ->
             (x + Z.of_nat i' < at0 -> x + Z.of_nat i' = rs + Z.of_nat i) ->
             (at0 <= x + Z.of_nat i' ->
              at0 + n <= x + Z.of_nat i'
              /\ x + Z.of_nat i' - n = rs + Z.of_nat i) ->
             exists i, nth_error items i = Some line
                       /\ c' (x + Z.of_nat i') = c (rs + Z.of_nat i)).
  { intros x i' i line Ei L R. exists i. split; [exact Ei|].
    destruct (Z.lt_ge_cases (x + Z.of_nat i') at0) as [Lt|Ge].
    - rewrite H1 by exact Lt. f_equal. now apply L.
    - destruct (R Ge) as (Ge' & Eq). rewrite H2 by exact Ge'. now f_equal. }
  assert (Hn : 0 <= n) by (unfold n; lia).
  destruct (Z.leb_spec at0 rs) as [Ha|Ha].
  { unfold modify. cbn [outcome]. intros i' line E D.
    cbn [_renderedItems _renderedItemsStart set_renderedItemsStart] in *.
    fold rs. apply (Go _ i' i' line E); lia. }
  destruct (Z.geb_spec at0 (rs + len items)) as [Hb|Hb].
  { cbn [ret outcome]. intros i' line E D. fold rs.
    pose proof (nth_error_lt _ _ E) as Hl. fold items in Hl.
    apply (Go _ i' i' line E); lia. }
  set (a := Z.min (at0 - rs) (len items - 1)).
  set (t := Z.min (at0 + n - 1 - rs) (len items - 1)).
  destruct (Z.leb_spec a t) as [Hle|Hgt].
  2:{ cbn [ret outcome]. intros i' line E D. fold rs.
      pose proof (nth_error_lt _ _ E) as Hl. fold items in Hl.
      apply (Go _ i' i' line E); unfold a, t in *; lia. }
  set (cnt := Z.to_nat (t - a + 1)).
  rewrite (@bind_normal _ _ _ _ _ _ _ _
             (@insertLoop cnt a t v ltac:(reflexivity)
                ltac:(fold items; unfold a; lia))).
  fold items.
  eapply outcome_weaken; [apply popLoop_window | | auto].
  cbn [_renderedItems _renderedItemsStart set_renderedItems].
  intros [] v' (S' & I') i' line E D. rewrite S'. fold rs. rewrite I' in E.
  rewrite length_fromTo in E.
  apply nth_error_pushed in E; [|unfold a; lia].
  rewrite !length_app, repeat_length, length_firstn, length_skipn in E.
  destruct E as (Hk & [(Hi & E) | [(Hi & E) | (Hi & E)]]).
  - apply (Go _ i' i' line E); unfold a, t, cnt in *; lia.
  - rewrite E in D. discriminate D.
  - pose proof (nth_error_lt _ _ E) as Hl. fold items in Hl.
    apply (Go _ i' _ line E); unfold a, t, cnt in *; lia.
Qed.

(** The window after [onItemsChanged] follows the model after the splice,
    phase by phase. *)
Lemma hearing_follows (e : ListViewItemsChangedEvent.t)
    (c c1 c2 c3 : Z -> option (list String.string)) (v : ListView) :
  let cs := ListViewItemsChangedEvent.changedStart e in
  let nc := len (ListViewItemsChangedEvent.changed e) in
  let ds := ListViewItemsChangedEvent.deleteStart e in
  let dc := ListViewItemsChangedEvent.deleteCnt e in
  let at0 := ListViewItemsChangedEvent.insertStart e in
  let n := len (ListViewItemsChangedEvent.inserted e) in
  0 <= dc ->
  (forall l, ~ (cs <= l < cs + nc) -> c1 l = c l) ->
  (forall l, l < ds -> c2 l = c1 l) ->
  (forall l, ds <= l -> c2 l = c1 (l + dc)) ->
  (forall l, l < at0 -> c3 l = c2 l) ->
  (forall l, at0 + n <= l -> c3 l = c2 (l - n)) ->
  outcome (View_onItemsChanged e v)
    (fun _ v' => follows c c3 v v') (fun _ => True).
Proof.
  intros cs nc ds dc at0 n Hd C1 D1 D2 I1 I2.
  rewrite View_onItemsChanged_blocks.
  eapply outcome_bind; [apply (@mark_follows e c c1 v C1)|].
  intros [] v1 F1. unfold bind at 1, get. cbv beta iota.
  rewrite (@bind_normal _ _ _ _ _ _ _ _ (adjustStart_exact e v1)).
  eapply outcome_bind; [apply (@delete_follows e c1 c2 v1 Hd D1 D2)|].
  intros [] v2 F2.
  eapply outcome_weaken; [apply (@insert_follows e c2 c3 v2 I1 I2) | | auto].
  intros [] v3 F3.
  exact (follows_trans (follows_trans F1 F2) F3).
Qed.

(** What the model renders after a splice whose range lies inside it. *)
Lemma splice_content (m : ViewModel) (start del : Z) (items : list IListItem) :
  0 <= start -> 0 <= del -> start + del <= len (_items m) ->
  (forall l, l < start ->
     contentOf (snd (splice start del items m)) l = contentOf m l)
  /\ (forall l, start + len items <= l ->
        contentOf (snd (splice start del items m)) l
        = contentOf m (l - len items + del)).
Proof.
  intros Hs Hd Hl. unfold contentOf.
  rewrite (@items_splice start del items m Hs Hd).
  assert (L1 : len (firstn (Z.to_nat start) (_items m)) = start)
    by (rewrite length_firstn; lia).
  assert (L2 : len (_toMyItems items) = len items)
    by (unfold _toMyItems; now rewrite length_map).
  split; intros l H.
  - rewrite at_app_l by lia. now rewrite at_firstn by lia.
  - rewrite at_app_r by lia. rewrite at_app_r by lia.
    rewrite at_skipn by lia. do 2 f_equal. lia.
Qed.

Lemma viewHears_store (e : ListViewItemsChangedEvent.t) (v : ListView) :
  sameStore v (snd (View_onItemsChanged e v)).
Proof.
  apply (@View_onItemsChanged_keeps sameStore);
    first [exact sameStore_refl | exact sameStore_trans
          | intros; split; reflexivity].
Qed.

Lemma View_onItemsChanged_returns (e : ListViewItemsChangedEvent.t)
    (v : ListView) :
  wellFormed v -> exists v', View_onItemsChanged e v = (Normal tt, v').
Proof.
  intros W. rewrite View_onItemsChanged_blocks.
  destruct (markChanged_sound e W) as (v1 & M & W1 & _).
  rewrite (@bind_normal _ _ _ _ _ _ _ _ M).
  unfold bind at 1, get. cbv beta iota.
  destruct (adjustStart_total e v1 v1) as (x & A).
  rewrite (@bind_normal _ _ _ _ _ _ _ _ A).
  destruct (@removeDeleted_sound e v1 (set_renderedItemsStart x v1)
              eq_refl (wellFormed_start x W1)) as (v3 & D & W3).
  rewrite (@bind_normal _ _ _ _ _ _ _ _ D).
  destruct (placeInserted_sound e W3) as (v4 & I4 & _).
  now exists v4.
Qed.

(** When the view hears the event of a splice whose range lies inside the
    model, it returns and is up to date for the model after the splice if
    it was for the model before. *)
Lemma hears_splice (m : ViewModel) (start del : Z)
    (items : list IListItem) (version : Z) (v : ListView) :
  0 <= start -> 0 <= del -> start + del <= len (_items m) ->
  wellFormed v -> upToDate m v ->
  exists v',
    View_onItemsChanged
      (heardFor version start del (map getHeight items)) v
    = (Normal tt, v')
    /\ upToDate (snd (splice start del items m)) v'.
Proof.
  intros Hs Hd Hl W U.
  set (ins := map getHeight items).
  set (e := heardFor version start del ins).
  set (m' := snd (splice start del items m)).
  destruct (View_onItemsChanged_returns e W) as (v' & R).
  exists v'. split; [exact R|].
  apply upToDate_shown. apply upToDate_shown in U.
  assert (Li : len ins = len items) by (unfold ins; now rewrite length_map).
  set (nc := Z.min del (len ins)).
  pose (c1 := fun l => if (start <=? l) && (l <? start + nc)
                       then contentOf m' l else contentOf m l).
  pose (c2 := fun l => if l <? start + nc then c1 l
                       else c1 (l + (del - nc))).
  destruct (@splice_content m start del items Hs Hd Hl) as (Before & After).
  fold m' in Before, After.
  assert (C1 : forall l, ~ (start <= l < start + nc) -> c1 l = contentOf m l).
  { intros l H. unfold c1.
    destruct (Z.leb_spec start l); [|reflexivity].
    destruct (Z.ltb_spec l (start + nc)); [lia | reflexivity]. }
  assert (C1' : forall l, start <= l < start + nc -> c1 l = contentOf m' l).
  { intros l H. unfold c1.
    destruct (Z.leb_spec start l); [|lia].
    destruct (Z.ltb_spec l (start + nc)); [reflexivity | lia]. }
  pose proof (@hearing_follows e (contentOf m) c1 c2 (contentOf m') v) as F.
  cbv zeta in F. unfold e in F.
  rewrite (@heard_changedStart version start del ins) in F.
  rewrite (@heard_changed version start del ins Hd) in F.
  rewrite (@heard_deleteStart version start del ins Hd) in F.
  rewrite (@heard_deleteCnt version start del ins Hd) in F.
  rewrite (@heard_insertStart version start del ins Hd) in F.
  rewrite (@heard_inserted version start del ins Hd) in F.
  fold nc e in F. rewrite R in F. cbn [outcome] in F.
  pose proof (viewHears_store e v) as (N & _). rewrite R in N. cbn [snd] in N.
  apply (follows_shown U N). apply F.
  - unfold nc. lia.
  - exact C1.
  - intros l H. unfold c2. destruct (Z.ltb_spec l (start + nc)); [reflexivity | lia].
  - intros l H. unfold c2. destruct (Z.ltb_spec l (start + nc)); [lia | reflexivity].
  - intros l H. unfold c2. destruct (Z.ltb_spec l (start + nc)); [|lia].
    destruct (Z.lt_ge_cases l start) as [Lt|Ge].
    + rewrite C1 by lia. now apply Before.
    + now rewrite C1' by lia.
  - intros l H. unfold c2.
    destruct (Z.ltb_spec (l - (len ins - nc)) (start + nc)); [lia|].
    rewrite C1 by (unfold nc; lia).
    rewrite After by (unfold nc in *; lia).
    f_equal. lia.
Qed.

(** X24.  The view stays in step with the model.  When the model is
    spliced in a range that lies inside it and the view, well formed and
    up to date for the model as it was, hears the event of the splice,
    [onItemsChanged] returns and the view is up to date for the model as it
    is: every line of the window that is not dirty stands on a node whose
    content is what the item now at the line's number renders. *)
Theorem view_follows_model (m : ViewModel) (start del : Z)
    (items : list IListItem) (version : Z) (v : ListView) :
  0 <= start -> 0 <= del -> start + del <= len (_items m) ->
  wellFormed v -> upToDate m v ->
  exists v',
    View_onItemsChanged
      (heardFor version start del (map getHeight items)) v
    = (Normal tt, v')
    /\ upToDate (snd (splice start del items m)) v'.
Proof.
  intros Hs Hd Hl W U. now apply hears_splice.
Qed.

Lemma view_follows_model_witness :
  exists v',
    View_onItemsChanged
      (heardFor 2 1 2 (map getHeight [ {| getHeight := 25; render := [] |} ]))
      scrolledView
    = (Normal tt, v')
    /\ upToDate
         (snd (splice 1 2 [ {| getHeight := 25; render := [] |} ] longModel))
         v'.
Proof.
  apply view_follows_model;
    [lia | lia | vm_compute; discriminate
    | exact scrolledView_wellFormed | exact scrolledView_upToDate].
Defined.

(** ** The window shows the model after every frame *)

Lemma upToDate_items (m0 m : ViewModel) (v : ListView) :
  _items m0 = _items m -> upToDate m0 v -> upToDate m v.
Proof. unfold upToDate. intros <-. auto. Qed.

Lemma upToDate_frame (m : ViewModel) (x : option Handle) (v : ListView) :
  upToDate m v -> upToDate m (set_renderAnimationFrame x v).
Proof. intros H. exact H. Qed.

Lemma scrolls_idle (evs : list IScrollEvent) :
  Forall idle (map ScrollEvent evs).
Proof.
  apply Forall_forall. intros e He. apply in_map_iff in He.
  destruct He as (x & <- & _). exact I.
Qed.

Lemma awaits_app_idle (m0 m : ViewModel) (q q' : list ListViewEvent) :
  awaits m0 q m -> Forall idle q' -> awaits m0 (q ++ q') m.
Proof.
  intros A H. induction A as [m0 m E | m0 m e q Ie A IH
                             | m0 m version start del items q V A IH];
    cbn [app].
  - induction H as [|e q' He Hq IH]; [now constructor|].
    now apply awaits_idle.
  - now apply awaits_idle.
  - now apply awaits_splice.
Qed.

Lemma splice_items (start del : Z) (items : list IListItem)
    (m0 m : ViewModel) :
  _items m0 = _items m ->
  _items (snd (splice start del items m0))
  = _items (snd (splice start del items m)).
Proof. intros E. unfold splice. cbn [snd _items]. now rewrite E. Qed.

Lemma awaits_snoc_splice (m0 m : ViewModel) (q : list ListViewEvent)
    (version start del : Z) (items : list IListItem) :
  awaits m0 q m -> validSplice start del m ->
  awaits m0
    (q ++ [ItemsChangedEvent
             (heardFor version start del (map getHeight items))])
    (snd (splice start del items m)).
Proof.
  intros A V. induction A as [m0 m E | m0 m e q Ie A IH
                             | m0 m v0 s0 d0 i0 q V0 A IH];
    cbn [app].
  - apply awaits_splice.
    + unfold validSplice in *. now rewrite E.
    + apply awaits_nil. now apply splice_items.
  - apply awaits_idle; [exact Ie | now apply IH].
  - apply awaits_splice; [exact V0 | now apply IH].
Qed.

Lemma awaits_all_idle (m0 m : ViewModel) (q : list ListViewEvent) :
  awaits m0 q m -> Forall idle q -> _items m0 = _items m.
Proof.
  intros A. induction A as [m0 m E | m0 m e q Ie A IH
                           | m0 m v0 s0 d0 i0 q V0 A IH]; intros H.
  - exact E.
  - inversion H; subst. now apply IH.
  - inversion H as [|? ? Hi _]; subst. destruct Hi.
Qed.

Lemma awaits_scrolls (m : ViewModel) (evs : list IScrollEvent) :
  awaits m (map ScrollEvent evs) m.
Proof.
  apply (@awaits_app_idle m m [] (map ScrollEvent evs));
    [now apply awaits_nil | apply scrolls_idle].
Qed.

(** *** The listeners other than the view hearing a change *)

Lemma still_before (h : Who) : still (onBeforeEventsDispatch h).
Proof. intros w. cbn. auto. Qed.

Lemma still_dimension (h : Who) (d : IDimension) :
  still (onDimensionChanged h d).
Proof.
  intros w. destruct (calm_dimension h d w) as (Mo & _ & Sc).
  split; [exact Mo|]. split; [|exact Sc].
  destruct h; cbn [onDimensionChanged]; [reflexivity|].
  now destruct (ListViewLayout.onDimensionChanged d (layout w)).
Qed.

Lemma still_after (h : Who) : still (onAfterEventsDispatch h).
Proof.
  intros w. destruct (calm_after h w) as (Mo & _ & Sc).
  split; [exact Mo|]. split; [|exact Sc].
  destruct h; cbn [onAfterEventsDispatch]; [reflexivity|].
  now destruct (ListViewLayout.onAfterEventsDispatch (layout w)).
Qed.

Lemma still_items_layout
    (f : ListViewItemsChangedEvent.t -> ListView -> ListView)
    (i : ListViewItemsChangedEvent.t) :
  still (onItemsChanged f TheLayout i).
Proof. intros w. cbn. auto. Qed.

Lemma invoke_syncing (m : ViewModel) (what : ListenerCall Who)
    (meth : Method Who Widget) (s : Flushing Who Widget) :
  still meth -> syncing m s ->
  syncing m (invoke sameWho _scheduleRender what meth s).
Proof.
  intros Hm (L & Mo & W & m0 & U & A). unfold invoke.
  destruct (Hm (world s)) as (Mo' & V' & Sc).
  destruct (meth (world s)) as [w cs]. cbn [fst snd] in Mo', V', Sc.
  destruct (perform_scrolls (ctx s, w) Sc) as (L1 & (evs & E1) & Mo1 & _).
  pose proof (@perform_view (ready m0) (fun x v H => H) cs (ctx s, w)) as P.
  cbn [fst snd] in L1, E1, Mo1, P.
  rewrite V' in P. destruct (P (conj W U)) as (W1 & U1).
  unfold syncing. cbn [ctx world].
  split; [congruence|]. split; [congruence|]. split; [exact W1|].
  exists m0. split; [exact U1|]. rewrite E1.
  apply awaits_app_idle; [exact A | apply scrolls_idle].
Qed.

Lemma dispatch_syncing (m : ViewModel) (s : Flushing Who Widget)
    (e : ListViewEvent) (rest : list ListViewEvent) :
  syncing m s -> _events (ctx s) = e :: rest ->
  syncing m
    (dispatch sameWho _scheduleRender onDimensionChanged
       (onItemsChanged viewHears) [TheView; TheLayout] e
       {| ctx := {| _listeners := _listeners (ctx s); _events := rest |};
          world := world s; calls := calls s |}).
Proof.
  intros (L & Mo & W & m0 & U & A) E. rewrite E in A. subst m.
  set (s0 := {| ctx := _; world := world s; calls := calls s |}).
  assert (Rest : awaits m0 rest (model (world s)) ->
                 syncing (model (world s)) s0).
  { intros A0. unfold syncing, s0. cbn [ctx world _listeners _events].
    split; [exact L|]. split; [reflexivity|]. split; [exact W|].
    now exists m0. }
  destruct e as [d | y | i |]; cbn [dispatch fold_left].
  - inversion A as [| ? ? ? ? _ A0 |]; subst.
    apply invoke_syncing; [apply still_dimension|].
    apply invoke_syncing; [apply still_dimension|]. now apply Rest.
  - inversion A as [| ? ? ? ? _ A0 |]; subst. now apply Rest.
  - apply invoke_syncing; [apply still_items_layout|].
    inversion A as [| ? ? ? ? Ie A0 | ? ? version start del items ? V A0];
      subst; [destruct Ie|].
    destruct V as (V1 & V2 & V3).
    destruct (hears_splice items version V1 V2 V3 W U) as (v' & R & U').
    unfold invoke, s0. cbn [onItemsChanged world ctx fold_left fst snd].
    unfold syncing. cbn [ctx world _listeners _events view set_view model].
    split; [exact L|]. split; [reflexivity|].
    split; [now apply viewHears_wellFormed|].
    exists (snd (splice start del items m0)). split; [|exact A0].
    unfold viewHears. now rewrite R.
  - inversion A as [| ? ? ? ? _ A0 |]; subst. now apply Rest.
Qed.

(** A flush that begins with the view and the layout listening, on a view
    that is well formed and up to date for the model as it was before the
    changes of the queue, ends with the view well formed and up to date
    for the model. *)
Lemma flush_syncing (fuel : nat) (c : Ctx) (w : Widget)
    (s : Flushing Who Widget) (m0 : ViewModel) :
  _listeners c = [TheView; TheLayout] ->
  wellFormed (view w) -> upToDate m0 (view w) ->
  awaits m0 (_events c) (model w) ->
  ListView_flush viewHears fuel c w = Some s ->
  wellFormed (view (world s)) /\ upToDate (model w) (view (world s)).
Proof.
  intros L W U A F.
  destruct (flush_queue _ _ _ _ F) as ((evs & Eq) & _).
  revert F. unfold ListView_flush, flush. rewrite L.
  set (s0 := {| ctx := c; world := w; calls := [] |}).
  assert (H0 : syncing (model w) s0).
  { unfold syncing, s0. cbn [ctx world].
    split; [exact L|]. split; [reflexivity|]. split; [exact W|].
    now exists m0. }
  cbn [fold_left].
  set (s1 := invoke sameWho _scheduleRender
               (BeforeEventsDispatch TheLayout) _ _).
  assert (H1 : syncing (model w) s1).
  { unfold s1. apply invoke_syncing; [apply still_before|].
    apply invoke_syncing; [apply still_before | exact H0]. }
  destruct (drain _ _ _ _ fuel _ s1) as [s2|] eqn:Dr; [|discriminate].
  intros [= <-].
  destruct (drain_invariant sameWho _scheduleRender onDimensionChanged
              (onItemsChanged viewHears) (syncing (model w))
              [TheView; TheLayout]
              (@dispatch_syncing (model w)) fuel s1 H1 Dr) as [H2 _].
  assert (H3 : syncing (model w)
                 (invoke sameWho _scheduleRender (AfterEventsDispatch TheLayout)
                    (onAfterEventsDispatch TheLayout)
                    (invoke sameWho _scheduleRender
                       (AfterEventsDispatch TheView)
                       (onAfterEventsDispatch TheView) s2))).
  { apply invoke_syncing; [apply still_after|].
    apply invoke_syncing; [apply still_after | exact H2]. }
  destruct H3 as (_ & _ & W3 & m3 & U3 & A3).
  split; [exact W3|].
  apply (upToDate_items (m0 := m3)); [|exact U3].
  apply (awaits_all_idle A3).
  rewrite Eq. apply scrolls_idle.
Qed.

Lemma shows_upToDate (m : ViewModel) (renderData : IRenderData)
    (v : ListView) :
  _renderedItemsStart v = rd_startIndex renderData ->
  (forall i line,
     nth_error (_renderedItems v) i = Some line ->
     exists n,
       _domNode line = Some n
       /\ In n (_listItemsDomNode v)
       /\ shows m renderData (rd_startIndex renderData + Z.of_nat i)
            (nodes v n)) ->
  upToDate m v.
Proof.
  intros St H i line E _.
  destruct (H i line E) as (n & En & _ & _ & C).
  exists n. split; [exact En|]. intros it Ex. rewrite St in Ex.
  rewrite Ex in C. cbn [option_map] in C. now injection C.
Qed.

(** A frame of a widget that listens to its model, is in step with it and
    whose view is up to date for the model as it was before the changes of
    the queue: afterwards the window is the range of the render data and
    every line shows its item. *)
Lemma frame_shows (h : Handle) (fuel : nat) (now : Z) (s s' : System) :
  subscribed s = true -> inStep s -> inSync s ->
  act viewHears (Frame h fuel now) s = Some s' ->
  let w' := widget s' in
  let rd := ListViewLayout.getRenderData (layout w') in
  model w' = model (widget s)
  /\ (exists evs, _events (context s') = map ScrollEvent evs)
  /\ wellFormed (view w')
  /\ _renderedItemsStart (view w') = rd_startIndex rd
  /\ length (_renderedItems (view w')) = length (rd_tops rd)
  /\ forall i line,
       nth_error (_renderedItems (view w')) i = Some line ->
       exists n,
         _domNode line = Some n
         /\ In n (_listItemsDomNode (view w'))
         /\ shows (model w') rd (rd_startIndex rd + Z.of_nat i)
              (nodes (view w') n).
Proof.
  intros Sub Hs Hy. destruct (Hs Sub) as (B & Mi).
  destruct (Hy Sub) as (W & m0 & U & A).
  unfold act. destruct (existsb _ _); [|discriminate].
  unfold onFrame. cbn [fst snd].
  destruct (ListView_flush _ _ _ _) as [fl|] eqn:F; [|discriminate].
  destruct (@flush_mirrors viewHears _ _ _ _ B F) as (_ & Mo & D & _).
  destruct (flush_queue _ _ _ _ F) as (Q & _).
  assert (Sy : wellFormed (view (world fl))
               /\ upToDate (model (widget s)) (view (world fl))).
  { refine (@flush_syncing fuel _ _ fl m0 B _ _ _ F);
      [exact W | exact U | exact A]. }
  destruct Sy as (Wf & Uf).
  cbn [model layout view set_view] in Mo, D, Uf.
  assert (In : inModel (model (world fl))
                 (ListViewLayout.getRenderData (layout (world fl)))).
  { apply getRenderData_inModel. rewrite D, Mo. exact Mi. }
  rewrite <- Mo in Uf.
  pose proof (render_shown now Wf Uf In) as O.
  destruct (_render _ _ _ _) as [[[]|e] v']; [|contradiction].
  intros [= <-]. cbv zeta.
  cbn [widget context fst snd view layout model set_view].
  destruct O as (W' & St & Le & Sh).
  split; [exact Mo|]. split; [exact Q|]. auto.
Qed.

Lemma ready_frame (m0 : ViewModel) (x : option Handle) (v : ListView) :
  ready m0 v -> ready m0 (set_renderAnimationFrame x v).
Proof. intros H. exact H. Qed.

Lemma act_inSync (a : Action) (s s' : System) :
  inStep s -> inSync s -> validAction a s ->
  act viewHears a s = Some s' -> inSync s'.
Proof.
  intros Hs Hy Hv.
  destruct a as [start del items | d | y | h fuel now |].
  - (* a splice *)
    unfold act.
    pose proof (fired_splice start del items (model (widget s))) as Fi.
    cbv zeta. rewrite Fi. cbn [fold_left].
    destruct (subscribed s) eqn:Sub; intros [= <-]; [|discriminate].
    intros _. destruct (Hy Sub) as (W & m0 & U & A).
    unfold acceptViewModelEvent, ListView_emitSoon, emitSoon.
    cbn [widget context fst snd _events].
    destruct (@scheduleRender_view (ready m0) (@ready_frame m0)
                (set_model (snd (splice start del items (model (widget s))))
                   (widget s)) (conj W U)) as (W1 & U1).
    split; [exact W1|]. exists m0. split; [exact U1|].
    rewrite scheduleRender_model. cbn [model set_model].
    exact (@awaits_snoc_splice m0 (model (widget s)) _
             (_versionId (model (widget s)) + 1) start del items A Hv).
  - (* a change of dimension *)
    unfold act. intros [= <-]. cbn [subscribed]. intros Sub.
    destruct (Hy Sub) as (W & m0 & U & A).
    unfold acceptDimension, ListView_emitSoon, emitSoon.
    cbn [widget context fst snd _events].
    destruct (@scheduleRender_view (ready m0) (@ready_frame m0)
                (widget s) (conj W U)) as (W1 & U1).
    split; [exact W1|]. exists m0. split; [exact U1|].
    rewrite scheduleRender_model.
    apply awaits_app_idle; [exact A|]. repeat constructor.
  - (* a scroll *)
    unfold act.
    destruct (Scrollable.setScrollTop _ _) as [sc evs].
    intros [= <-]. cbn [subscribed]. intros Sub.
    destruct (Hy Sub) as (W & m0 & U & A).
    cbn [widget context].
    match goal with
    | |- context [fold_left _ evs ?cw] =>
        destruct (emitAll_effect ScrollEvent evs cw) as (_ & E & Mo & _);
        destruct (@emitAll_view (ready m0) (@ready_frame m0) _ ScrollEvent
                    evs cw (conj W U)) as (W1 & U1)
    end.
    split; [exact W1|]. exists m0. split; [exact U1|].
    rewrite E, Mo. cbn [fst snd _events model set_layout].
    apply awaits_app_idle; [exact A | apply scrolls_idle].
  - (* a frame *)
    intros F Sub.
    assert (Sub0 : subscribed s = true).
    { revert F Sub. unfold act. destruct (existsb _ _); [|discriminate].
      destruct (onFrame _ _ _ _) as [[r cw]|]; [|discriminate].
      now intros [= <-]. }
    destruct (@frame_shows h fuel now s s' Sub0 Hs Hy F)
      as (Mo & (evs & Q) & W' & St & _ & Sh).
    split; [exact W'|]. exists (model (widget s')).
    split; [exact (@shows_upToDate _ _ _ St Sh)|].
    rewrite Q. apply awaits_scrolls.
  - unfold act. intros [= <-]. discriminate.
Qed.

Lemma setModel_inSync (dimension : IDimension) (m : ViewModel) :
  inSync (setModel dimension m).
Proof.
  intros _. unfold setModel. cbn [widget context].
  unfold acceptDimension, ListView_emitSoon, emitSoon.
  cbn [fst snd _events app].
  assert (P0 : ready m ListView_initial).
  { split; [exact initial_wellFormed|].
    intros i line E. destruct i; discriminate E. }
  match goal with
  | |- wellFormed (view (_scheduleRender (_scheduleRender ?w))) /\ _ =>
      destruct (@scheduleRender_view (ready m) (@ready_frame m) _
                  (@scheduleRender_view (ready m) (@ready_frame m) w P0))
        as (W & U)
  end.
  split; [exact W|]. exists m. split; [exact U|].
  rewrite !scheduleRender_model. cbn [model].
  apply awaits_idle; [exact I | now apply awaits_nil].
Qed.

Lemma run_inSync (actions : list Action) (s s' : System) :
  inStep s -> inSync s -> validRun viewHears actions s ->
  run viewHears actions s = Some s' -> inStep s' /\ inSync s'.
Proof.
  revert s. induction actions as [|a actions IH]; intros s Hs Hy V; simpl.
  - intros [= <-]. auto.
  - destruct V as (Va & V).
    destruct (act viewHears a s) as [s1|] eqn:E; [|discriminate].
    apply IH; [ | | exact V].
    + eapply act_inStep; eauto.
    + eapply act_inSync; eauto.
Qed.

(** X25.  While a widget listens to its model and the splices are valid,
    every animation frame leaves the surface showing the model: the window
    is the range of the render data of the layout, and every line of the
    window stands on a node that is a child of the surface and carries the
    number of the line, the top that the render data has for it, the
    cached height of the item of the model at that number, and what that
    item renders. *)
Theorem frame_shows_model (dimension : IDimension) (m : ViewModel)
    (actions : list Action) (s : System) :
  run viewHears actions (setModel dimension m) = Some s ->
  validRun viewHears actions (setModel dimension m) ->
  subscribed s = true ->
  forall h fuel now s',
    act viewHears (Frame h fuel now) s = Some s' ->
    let w' := widget s' in
    let rd := ListViewLayout.getRenderData (layout w') in
    _renderedItemsStart (view w') = rd_startIndex rd
    /\ length (_renderedItems (view w')) = length (rd_tops rd)
    /\ forall i line,
         nth_error (_renderedItems (view w')) i = Some line ->
         exists n,
           _domNode line = Some n
           /\ In n (_listItemsDomNode (view w'))
           /\ shows (model w') rd (rd_startIndex rd + Z.of_nat i)
                (nodes (view w') n).
Proof.
  intros Hrun V Sub h fuel now s' F.
  destruct (@run_inSync actions _ s (@setModel_inStep dimension m)
              (@setModel_inSync dimension m) V Hrun) as (Hs & Hy).
  destruct (@frame_shows h fuel now s s' Sub Hs Hy F)
    as (_ & _ & _ & St & Le & Sh).
  cbv zeta. auto.
Qed.

Lemma frame_shows_model_witness :
  exists s s',
    run viewHears sampleActions (setModel sampleDimension twoItems) = Some s
    /\ act viewHears (Frame 2%nat 20 5032) s = Some s'
    /\ length (_renderedItems (view (widget s')))
       = length (rd_tops (ListViewLayout.getRenderData (layout (widget s'))))
    /\ forall i line,
         nth_error (_renderedItems (view (widget s'))) i = Some line ->
         exists n,
           _domNode line = Some n
           /\ In n (_listItemsDomNode (view (widget s')))
           /\ shows (model (widget s'))
                (ListViewLayout.getRenderData (layout (widget s')))
                (rd_startIndex
                   (ListViewLayout.getRenderData (layout (widget s')))
                 + Z.of_nat i)
                (nodes (view (widget s')) n).
Proof.
  destruct (run viewHears sampleActions (setModel sampleDimension twoItems))
    as [s|] eqn:E; [|vm_compute in E; discriminate E].
  assert (V : validRun viewHears sampleActions
                (setModel sampleDimension twoItems))
    by (vm_compute; repeat split; discriminate).
  assert (Sub : subscribed s = true)
    by (vm_compute in E; injection E as <-; reflexivity).
  destruct (act viewHears (Frame 2%nat 20 5032) s) as [s'|] eqn:A;
    [|vm_compute in E; injection E as <-; vm_compute in A; discriminate A].
  exists s, s'. split; [reflexivity|]. split; [exact A|].
  destruct (@frame_shows_model sampleDimension twoItems sampleActions s
              E V Sub 2%nat 20%nat 5032 s' A) as (_ & Le & Sh).
  split; [exact Le | exact Sh].
Defined.
